(** * StarBrickVII: the plugin ABI, the worker and the host's request layer

  A shallow embedding of [engine-worker.js] (the isolated execution
  context that loads one WebAssembly engine and answers encode/decode
  requests) and of the worker management, request and chunked-file code
  of [script.js], with the properties of the specification stated and
  proved over it. *)

From Stdlib Require Import ZArith List String Bool Lia Arith Permutation Sorted.
From Stdlib Require Import Strings.Byte Strings.Ascii.
Import ListNotations.

Local Open Scope string_scope.
Local Open Scope list_scope.
Local Open Scope Z_scope.

Definition bytes := list byte.

(** Outcome of a JavaScript computation: a value, or a thrown [Error]
  with its [message]. *)
Inductive Res (A : Type) : Type :=
| Val (a : A)
| Exn (msg : string).
Arguments Val {A} a.
Arguments Exn {A} msg.

(** ** Linear memory as the typed-array views of the worker see it *)
Module Mem.

Definition byte_at (m : bytes) (i : nat) : Z :=
  Z.of_N (Byte.to_N (nth i m x00)).

(** [new Uint32Array(buffer, off, 1)[0]]: the view is refused with a
    RangeError when [off] is negative, not a multiple of 4, or the four
    bytes do not lie inside the buffer; the value is little-endian. *)
Definition read_u32 (m : bytes) (off : Z) : Res Z :=
  if (off <? 0) || negb (off mod 4 =? 0) || (Z.of_nat (List.length m) <? off + 4)
  then Exn "RangeError: invalid typed array offset or length"
  else
    let i := Z.to_nat off in
    Val (byte_at m i + 256 * byte_at m (i + 1)
         + 65536 * byte_at m (i + 2) + 16777216 * byte_at m (i + 3)).

(** [new Uint8Array(buffer, off, len).slice()] *)
Definition read_bytes (m : bytes) (off len : Z) : Res bytes :=
  if (off <? 0) || (len <? 0) || (Z.of_nat (List.length m) <? off + len)
  then Exn "RangeError: invalid typed array offset or length"
  else Val (firstn (Z.to_nat len) (skipn (Z.to_nat off) m)).

(** [new Uint8Array(buffer).set(new Uint8Array(src), off)] *)
Definition write_bytes (m : bytes) (off : Z) (src : bytes) : Res bytes :=
  if (off <? 0) || (Z.of_nat (List.length m) <? off + Z.of_nat (List.length src))
  then Exn "RangeError: offset is out of bounds"
  else
    Val (firstn (Z.to_nat off) m ++ src
         ++ skipn (Z.to_nat off + List.length src) m).

End Mem.

(** ** Messages between host and worker *)

Inductive Mode := Encode | Decode.

Record EngineInfo := {
  info_id : string;
  info_name : string;
  info_desc : string;
  info_binarySafe : bool;
  info_selfInverse : bool;
  info_reversible : bool
}.

(** host -> worker: [{id, type, payload}] *)
Inductive Request :=
| ReqLoad (id : Z) (wasmUrl : string)
| ReqData (id : Z) (type : Mode) (chunk : bytes) (isLast : bool)
        (totalChunks : option Z).

(** worker -> host: [{id, type, payload | error}] *)
Inductive Response :=
| RLoaded (id : Z) (payload : EngineInfo)
| RChunk (id : Z) (payload : bytes)
| RResult (id : Z)
| RError (id : Z) (error : string).

Definition resp_id (r : Response) : Z :=
  match r with
  | RLoaded id _ | RChunk id _ | RResult id | RError id _ => id
  end.

Definition req_id (r : Request) : Z :=
  match r with
  | ReqLoad id _ | ReqData id _ _ _ _ => id
  end.

(** ** engine-worker.js *)
Module Worker.
Section Worker.

(** The part of an instance the host never sees: globals, tables, the
    allocator's bookkeeping. *)
Variable P : Type.

(** An instantiated module: its linear memory and its private state. *)
Record Inst := { mem : bytes; priv : P }.

(** An exported function as JavaScript calls it: i32 arguments, an i32
    (or no) result, or a trap, which surfaces as a thrown error. *)
Definition ExportFn := Inst -> list Z -> Res Z * Inst.

(** [instance.exports]: the exported functions by name, and whether a
    memory is exported under the name [memory]. *)
Record Exports := {
  exp_fn : string -> option ExportFn;
  exp_memory : bool
}.

(** [exports[r]] as a truth value *)
Definition has_export (ex : Exports) (r : string) : bool :=
  if String.eqb r "memory" then exp_memory ex
  else match exp_fn ex r with Some _ => true | None => false end.

(** One call through the export table, as the worker made it. *)
Record Call := {
  c_name : string;
  c_args : list Z;
  c_ret : option Z    (* [None]: the call threw *)
}.

(** What the statements of one [onmessage] run act on. *)
Record WS := {
  inst : Inst;
  calls : list Call;
  posted : list Response
}.

Definition M (A : Type) := WS -> Res A * WS.

Definition ret {A} (a : A) : M A := fun s => (Val a, s).
Definition throw {A} (msg : string) : M A := fun s => (Exn msg, s).
Definition bind {A B} (c : M A) (k : A -> M B) : M B :=
  fun s => match c s with
           | (Val a, s') => k a s'
           | (Exn e, s') => (Exn e, s')
           end.
Definition lift {A} (r : Res A) : M A := fun s => (r, s).

(** [try { body } finally { fin }] *)
Definition try_finally {A} (body : M A) (fin : M unit) : M A :=
  fun s => match body s with
           | (r, s') =>
               match fin s' with
               | (Val _, s'') => (r, s'')
               | (Exn e, s'') => (Exn e, s'')
               end
           end.

Notation "x <- c ;; k" := (bind c (fun x => k))
  (at level 61, c at next level, right associativity).
Notation "c ;;; k" := (bind c (fun _ => k))
  (at level 61, right associativity).

Definition ret_of (r : Res Z) : option Z :=
  match r with Val v => Some v | Exn _ => None end.

(** [exports.name(args)] *)
Definition invoke (ex : Exports) (name : string) (args : list Z) : M Z :=
  fun s =>
    match exp_fn ex name with
    | None => (Exn (name ++ " is not a function")%string, s)
    | Some f =>
        let '(r, i') := f (inst s) args in
        (r, {| inst := i';
               calls := calls s ++ [{| c_name := name; c_args := args;
                                       c_ret := ret_of r |}];
               posted := posted s |})
    end.

Definition get_mem : M bytes := fun s => (Val (mem (inst s)), s).

Definition set_mem (m : bytes) : M unit :=
  fun s => (Val tt, {| inst := {| mem := m; priv := priv (inst s) |};
                       calls := calls s; posted := posted s |}).

(** [self.postMessage(r)] *)
Definition postMessage (r : Response) : M unit :=
  fun s => (Val tt, {| inst := inst s; calls := calls s;
                       posted := posted s ++ [r] |}).

(** [new TextDecoder().decode(bytes)] *)
Variable utf8_decode : bytes -> string.

Definition required : list string :=
  ["sb_encode"; "sb_alloc"; "sb_free"; "sb_get_id"; "sb_is_binary_safe";
   "sb_is_self_inverse"; "sb_is_reversible"; "memory"].

(** [for (const r of required) if (!exports[r]) throw ...] *)
Fixpoint check_required (ex : Exports) (rs : list string) : Res unit :=
  match rs with
  | [] => Val tt
  | r :: rs' =>
      if has_export ex r then check_required ex rs'
      else Exn ("Missing export: " ++ r)%string
  end.

Definition readStr (ptr lenPtr : Z) : M string :=
  m <- get_mem ;;
  len <- lift (Mem.read_u32 m lenPtr) ;;
  if len =? 0 then ret ""
  else
    m' <- get_mem ;;
    b <- lift (Mem.read_bytes m' ptr len) ;;
    ret (utf8_decode b).

(** allocate the length cell, call the string export, read, free *)
Definition read_string_export (ex : Exports) (name : string) : M string :=
  lenPtr <- invoke ex "sb_alloc" [4] ;;
  ptr <- invoke ex name [lenPtr] ;;
  s <- readStr ptr lenPtr ;;
  invoke ex "sb_free" [lenPtr; 4] ;;;
  ret s.

(** The [load] branch after [instantiate]: from the required-exports
    check to the descriptor. *)
Definition load_body (ex : Exports) : M EngineInfo :=
  lift (check_required ex required) ;;;
  engineId <- read_string_export ex "sb_get_id" ;;
  engineName <- (if has_export ex "sb_get_name"
                 then read_string_export ex "sb_get_name"
                 else ret engineId) ;;
  engineDesc <- (if has_export ex "sb_get_desc"
                 then read_string_export ex "sb_get_desc"
                 else ret "") ;;
  bs <- invoke ex "sb_is_binary_safe" [] ;;
  si <- invoke ex "sb_is_self_inverse" [] ;;
  rv <- invoke ex "sb_is_reversible" [] ;;
  ret {| info_id := engineId; info_name := engineName;
         info_desc := engineDesc;
         info_binarySafe := (bs =? 1);
         info_selfInverse := (si =? 1);
         info_reversible := (rv =? 1) |}.

Definition fnName (type : Mode) : string :=
  match type with Encode => "sb_encode" | Decode => "sb_decode" end.

(** The body of the [try] of the [encode]/[decode] branch: call the
    transform, read the length cell, copy the output out and post it. *)
Definition transform (ex : Exports) (id : Z) (type : Mode)
           (inPtr byteLength outLenPtr : Z) (isLast : bool) : M unit :=
  outPtr <- invoke ex (fnName type) [inPtr; byteLength; outLenPtr] ;;
  m1 <- get_mem ;;
  outLen <- lift (Mem.read_u32 m1 outLenPtr) ;;
  (if negb (outPtr =? 0) && negb (outLen =? 0)
   then m2 <- get_mem ;;
        result <- lift (Mem.read_bytes m2 outPtr outLen) ;;
        postMessage (RChunk id result)
   else ret tt) ;;;
  (if isLast then postMessage (RResult id) else ret tt).

(** Its [finally] block. *)
Definition release (ex : Exports) (inPtr byteLength outLenPtr : Z) : M unit :=
  invoke ex "sb_free" [inPtr; byteLength] ;;;
  invoke ex "sb_free" [outLenPtr; 4] ;;;
  ret tt.

(** The [encode]/[decode] branch once [wasmExports] is known to be set. *)
Definition data_body (ex : Exports) (id : Z) (type : Mode) (chunk : bytes)
           (isLast : bool) : M unit :=
  let byteLength := Z.of_nat (List.length chunk) in
  inPtr <- invoke ex "sb_alloc" [byteLength] ;;
  if inPtr =? 0 then throw "sb_alloc failed"
  else
    m <- get_mem ;;
    m' <- lift (Mem.write_bytes m inPtr chunk) ;;
    set_mem m' ;;;
    outLenPtr <- invoke ex "sb_alloc" [4] ;;
    if outLenPtr =? 0 then
      invoke ex "sb_free" [inPtr; byteLength] ;;;
      throw "sb_alloc for outLenPtr failed"
    else
      try_finally (transform ex id type inPtr byteLength outLenPtr isLast)
                  (release ex inPtr byteLength outLenPtr).

(** The worker's globals [wasmExports] (with the instance behind it)
    and [engineInfo], and the record of the export calls made so far. *)
Record State := {
  wasmExports : option (Exports * Inst);
  engineInfo : option EngineInfo;
  log : list Call
}.

Definition init : State :=
  {| wasmExports := None; engineInfo := None; log := [] |}.

(** [fetch], [WebAssembly.compile] and [WebAssembly.instantiate] of a
    URL: the exports and the fresh instance, or the error thrown. *)
Variable instantiate : string -> Res (Exports * Inst).

(** [self.onmessage]: the new globals and the messages posted, in
    order. The outer [catch] turns any error into one [error] message. *)
Definition onmessage (st : State) (req : Request) : State * list Response :=
  match req with
  | ReqLoad id wasmUrl =>
      match instantiate wasmUrl with
      | Exn e => (st, [RError id e])
      | Val (ex, i0) =>
          match load_body ex {| inst := i0; calls := log st; posted := [] |} with
          | (Val info, s) =>
              ({| wasmExports := Some (ex, inst s);
                  engineInfo := Some info;
                  log := calls s |},
               posted s ++ [RLoaded id info])
          | (Exn e, s) =>
              ({| wasmExports := wasmExports st;
                  engineInfo := engineInfo st;
                  log := calls s |},
               posted s ++ [RError id e])
          end
      end
  | ReqData id type chunk isLast _ =>
      match wasmExports st with
      | None => (st, [RError id "Engine not loaded"])
      | Some (ex, i) =>
          let '(r, s) :=
            data_body ex id type chunk isLast
                      {| inst := i; calls := log st; posted := [] |} in
          ({| wasmExports := Some (ex, inst s);
              engineInfo := engineInfo st;
              log := calls s |},
           posted s ++ match r with
                       | Val _ => []
                       | Exn e => [RError id e]
                       end)
      end
  end.

(** The buffers obtained from [sb_alloc] (its non-zero results) and the
    buffers handed to [sb_free], as (pointer, size), in call order. *)
Definition obtained (l : list Call) : list (Z * Z) :=
  flat_map (fun c =>
    if String.eqb (c_name c) "sb_alloc" then
      match c_args c, c_ret c with
      | [n], Some p => if p =? 0 then [] else [(p, n)]
      | _, _ => []
      end
    else []) l.

Definition released (l : list Call) : list (Z * Z) :=
  flat_map (fun c =>
    if String.eqb (c_name c) "sb_free" then
      match c_args c with
      | [p; n] => [(p, n)]
      | _ => []
      end
    else []) l.

(** [sb_alloc] returned the null pointer in one of these calls. *)
Definition alloc_failed (l : list Call) : bool :=
  existsb (fun c => String.eqb (c_name c) "sb_alloc"
                    && match c_ret c with Some 0 => true | _ => false end) l.

(** The allocator keeps to the ABI: [sb_alloc] and [sb_free] return
    (failure of [sb_alloc] is the null pointer, not a trap), and a
    non-null result of [sb_alloc(n)] is the address of [n] bytes of the
    memory. *)
Definition conforming_allocator (ex : Exports) : Prop :=
  exists alloc free,
    exp_fn ex "sb_alloc" = Some alloc /\
    exp_fn ex "sb_free" = Some free /\
    (forall i n, exists p i',
        alloc i [n] = (Val p, i') /\
        (p <> 0 -> 0 <= p /\ p + n <= Z.of_nat (List.length (mem i')))) /\
    (forall i args, exists v i', free i args = (Val v, i')).

(** A computation that posts nothing. *)
Definition quiet {A} (c : M A) : Prop :=
  forall (s : WS) r (s' : WS), c s = (r, s') -> posted s' = posted s.

(** A computation that calls no export. *)
Definition silent {A} (c : M A) : Prop :=
  forall (s : WS) r (s' : WS), c s = (r, s') -> calls s' = calls s.

End Worker.

Arguments Build_Inst {P} mem priv.
Arguments mem {P} i.
Arguments priv {P} i.
Arguments Build_Exports {P} exp_fn exp_memory.
Arguments exp_fn {P} e name.
Arguments exp_memory {P} e.
Arguments has_export {P} ex r.
Arguments Build_WS {P} inst calls posted.
Arguments inst {P} w.
Arguments calls {P} w.
Arguments posted {P} w.
Arguments Build_State {P} wasmExports engineInfo log.
Arguments wasmExports {P} s.
Arguments engineInfo {P} s.
Arguments log {P} s.
Arguments init {P}.
Arguments check_required {P} ex rs.
Arguments invoke {P} ex name args _.
Arguments ret {P A} a _.
Arguments throw {P A} msg _.
Arguments bind {P A B} c k _.
Arguments lift {P A} r _.
Arguments try_finally {P A} body fin _.
Arguments get_mem {P} _.
Arguments set_mem {P} m _.
Arguments postMessage {P} r _.
Arguments readStr {P} utf8_decode ptr lenPtr _.
Arguments read_string_export {P} utf8_decode ex name _.
Arguments load_body {P} utf8_decode ex _.
Arguments transform {P} ex id type inPtr byteLength outLenPtr isLast _.
Arguments release {P} ex inPtr byteLength outLenPtr _.
Arguments data_body {P} ex id type chunk isLast _.
Arguments onmessage {P} utf8_decode instantiate st req.
Arguments conforming_allocator {P} ex.
Arguments quiet {P A} c.
Arguments silent {P A} c.

(** The exports the specification lists as required. *)
Definition claimed_required : list string :=
  ["sb_encode"; "sb_alloc"; "sb_free"; "sb_get_id"; "sb_is_binary_safe";
   "sb_is_self_inverse"; "sb_is_reversible"].


End Worker.

(** ** A JavaScript [Map] with string keys, in insertion order *)
Module JsMap.
Section JsMap.

Context {V : Type}.

Definition t := list (string * V).

Fixpoint get (m : t) (k : string) : option V :=
  match m with
  | [] => None
  | (k', v) :: m' => if String.eqb k' k then Some v else get m' k
  end.

Definition has (m : t) (k : string) : bool :=
  match get m k with Some _ => true | None => false end.

(** [m.set(k, v)]: an existing key keeps its place, a new one goes last. *)
Fixpoint set (m : t) (k : string) (v : V) : t :=
  match m with
  | [] => [(k, v)]
  | (k', v') :: m' =>
      if String.eqb k' k then (k, v) :: m' else (k', v') :: set m' k v
  end.

Definition keys (m : t) : list string := map fst m.

(** number of entries stored under [k] *)
Definition count (m : t) (k : string) : nat :=
  List.length (filter (fun kv => String.eqb (fst kv) k) m).

End JsMap.
End JsMap.

(** ** script.js: state, worker management, requests, chunked files *)
Module Host.

Inductive Promise :=
| Pending
| Resolved (blob : bytes)
| Rejected (error : string).

(** [resolve]/[reject] on a promise that is already settled do nothing. *)
Definition settle (p q : Promise) : Promise :=
  match p with Pending => q | _ => p end.

(** An entry of [S.engines]; [worker] is the handle of its Worker object. *)
Record Engine := {
  id : string;
  name : string;
  desc : string;
  binarySafe : bool;
  selfInverse : bool;
  reversible : bool;
  isPreset : bool;
  worker : nat
}.

(** The message listeners the host attaches to a worker, as data: the
    request ID the closure captured, and what it completes.
    [HLoad] is [handler] of [createWorkerForEngine] together with the rest
    of [loadWasmEngine] that awaits its promise; [HData] is [handler] of
    [callEngine] and of [processFile], which differ in the names of their
    variables only: [op] is the call whose chunk array and promise they
    captured. *)
Inductive Handler :=
| HLoad (requestId : Z) (isPreset : bool)
| HData (requestId : Z) (op : nat).

Definition handler_id (h : Handler) : Z :=
  match h with HLoad r _ | HData r _ => r end.

Definition handler_eqb (a b : Handler) : bool :=
  match a, b with
  | HLoad r p, HLoad r' p' => (r =? r') && Bool.eqb p p'
  | HData r k, HData r' k' => (r =? r') && Nat.eqb k k'
  | _, _ => false
  end.

Fixpoint remove_one (hd : Handler) (l : list Handler) : list Handler :=
  match l with
  | [] => []
  | x :: l' => if handler_eqb x hd then l' else x :: remove_one hd l'
  end.

(** The variables one [processFile] call closes over. [reading] is the
    slice handed to [reader.readAsArrayBuffer] whose [onload] has not
    fired yet. *)
Record FileState := {
  file : bytes;
  mode : Mode;
  f_worker : nat;
  chunkSize : Z;
  totalChunks : Z;
  offset : Z;
  reading : option bytes
}.

(** One [callEngine] or [processFile] call: its chunk array ([chunks],
    [resultChunks]), the promise it returned, and for a file its reader. *)
Record Op := {
  chunks : list bytes;
  promise : Promise;
  reader : option FileState
}.

(** What [loadWasmEngine] returns: [{ok: true, engine}] or
    [{ok: false, error}]. *)
Inductive LoadResult :=
| LoadOk (engine : Engine)
| LoadFail (error : string).

(** Lines handed to [print]. *)
Inductive Line :=
| Overwritten (id : string)
| Processing (size total : Z).

(** The host's effects and the messages it receives ([EvMessage]), in
    the order they happen. *)
Inductive Event :=
| EvNewWorker (w : nat)
| EvListen (w : nat) (h : Handler)
| EvPost (w : nat) (req : Request)
| EvTerminate (w : nat)
| EvSet (id : string) (w : nat)
| EvPrint (l : Line)
| EvReturn (r : LoadResult)
| EvMessage (w : nat) (r : Response).

(** [n++] on a JavaScript number holding a non-negative integer: exact
    below 2^53; at 2^53 the sum rounds back to 2^53. *)
Definition js_succ (n : Z) : Z :=
  if n <? 2 ^ 53 then n + 1 else n.

(** [Math.ceil(size / chunkSize)] for [size >= 0] and [chunkSize > 0] *)
Definition ceil_div (size chunkSize : Z) : Z :=
  (size + chunkSize - 1) / chunkSize.

(** [file.slice(from, from + n)] *)
Definition slice (f : bytes) (from n : Z) : bytes :=
  firstn (Z.to_nat n) (skipn (Z.to_nat from) f).

Definition CHUNK_SIZE : Z := 64 * 1024.

Fixpoint upd {A} (l : list A) (i : nat) (f : A -> A) : list A :=
  match l, i with
  | [], _ => []
  | x :: l', O => f x :: l'
  | x :: l', S i' => x :: upd l' i' f
  end.

Section Host.

Variable P : Type.
Variable utf8_decode : bytes -> string.
Variable instantiate : string -> Res (Worker.Exports P * Worker.Inst P).

(** A Worker object with the context behind it: the listeners attached
    by the host, the messages posted to it and not yet handled, the
    messages it posted and the host has not received yet, the globals of
    engine-worker.js, and whether [terminate()] was called. *)
Record Wk := {
  handlers : list Handler;
  inbox : list Request;
  outbox : list Response;
  context : Worker.State P;
  terminated : bool
}.

Record World := {
  engines : @JsMap.t Engine;      (* S.engines *)
  nextRequestId : Z;              (* S.nextRequestId *)
  workers : list Wk;
  ops : list Op;
  events : list Event
}.

Definition init : World :=
  {| engines := []; nextRequestId := 0; workers := []; ops := []; events := [] |}.

Definition emit (ev : Event) (w : World) : World :=
  {| engines := engines w; nextRequestId := nextRequestId w;
     workers := workers w; ops := ops w; events := events w ++ [ev] |}.

Definition set_workers (ws : list Wk) (w : World) : World :=
  {| engines := engines w; nextRequestId := nextRequestId w;
     workers := ws; ops := ops w; events := events w |}.

Definition set_ops (os : list Op) (w : World) : World :=
  {| engines := engines w; nextRequestId := nextRequestId w;
     workers := workers w; ops := os; events := events w |}.

Definition set_engines (es : @JsMap.t Engine) (w : World) : World :=
  {| engines := es; nextRequestId := nextRequestId w;
     workers := workers w; ops := ops w; events := events w |}.

Definition upd_worker (h : nat) (f : Wk -> Wk) (w : World) : World :=
  set_workers (upd (workers w) h f) w.

Definition upd_op (k : nat) (f : Op -> Op) (w : World) : World :=
  set_ops (upd (ops w) k f) w.

(** [S.nextRequestId++]: the value before, and the state after. *)
Definition postinc_nextRequestId (w : World) : Z * World :=
  (nextRequestId w,
   {| engines := engines w; nextRequestId := js_succ (nextRequestId w);
      workers := workers w; ops := ops w; events := events w |}).

(** [new Worker('engine-worker.js')] *)
Definition new_worker (w : World) : nat * World :=
  let h := List.length (workers w) in
  (h, emit (EvNewWorker h)
        (set_workers (workers w ++
                      [{| handlers := []; inbox := []; outbox := [];
                          context := Worker.init; terminated := false |}]) w)).

Definition addEventListener (h : nat) (hd : Handler) (w : World) : World :=
  emit (EvListen h hd)
    (upd_worker h (fun wk =>
       {| handlers := handlers wk ++ [hd]; inbox := inbox wk;
          outbox := outbox wk; context := context wk;
          terminated := terminated wk |}) w).

Definition removeEventListener (h : nat) (hd : Handler) (w : World) : World :=
  upd_worker h (fun wk =>
    {| handlers := remove_one hd (handlers wk); inbox := inbox wk;
       outbox := outbox wk; context := context wk;
       terminated := terminated wk |}) w.

Definition postMessage (h : nat) (req : Request) (w : World) : World :=
  emit (EvPost h req)
    (upd_worker h (fun wk =>
       {| handlers := handlers wk; inbox := inbox wk ++ [req];
          outbox := outbox wk; context := context wk;
          terminated := terminated wk |}) w).

Definition terminate (h : nat) (w : World) : World :=
  emit (EvTerminate h)
    (upd_worker h (fun wk =>
       {| handlers := handlers wk; inbox := inbox wk;
          outbox := outbox wk; context := context wk;
          terminated := true |}) w).

Definition print (l : Line) (w : World) : World := emit (EvPrint l) w.

(** [createWorkerForEngine(wasmUrl)] up to the promise it returns; the
    listener carries the [isPreset] of the [loadWasmEngine] awaiting it. *)
Definition createWorkerForEngine (wasmUrl : string) (isPreset : bool)
           (w : World) : nat * World :=
  let '(h, w1) := new_worker w in
  let '(requestId, w2) := postinc_nextRequestId w1 in
  let w3 := addEventListener h (HLoad requestId isPreset) w2 in
  (h, postMessage h (ReqLoad requestId wasmUrl) w3).

(** [loadWasmEngine(url, isPreset)] up to its [await] *)
Definition loadWasmEngine (url : string) (isPreset : bool) (w : World) : World :=
  snd (createWorkerForEngine url isPreset w).

(** [loadWasmEngine] from the [await] on, when the promise resolved with
    [{worker, info}] *)
Definition loadWasmEngine_loaded (h : nat) (info : EngineInfo)
           (isPreset : bool) (w : World) : World :=
  let engine :=
    {| id := info_id info; name := info_name info; desc := info_desc info;
       binarySafe := info_binarySafe info;
       selfInverse := info_selfInverse info;
       reversible := info_reversible info;
       isPreset := isPreset; worker := h |} in
  let w1 :=
    match JsMap.get (engines w) (id engine) with
    | Some old => terminate (worker old) (print (Overwritten (id engine)) w)
    | None => w
    end in
  let w2 := emit (EvSet (id engine) h)
              (set_engines (JsMap.set (engines w1) (id engine) engine) w1) in
  emit (EvReturn (LoadOk engine)) w2.

(** ... and when it rejected: the [catch] branch *)
Definition loadWasmEngine_failed (error : string) (w : World) : World :=
  emit (EvReturn (LoadFail error)) w.

Definition push_chunk (payload : bytes) (o : Op) : Op :=
  {| chunks := chunks o ++ [payload]; promise := promise o; reader := reader o |}.

Definition settle_op (q : Promise) (o : Op) : Op :=
  {| chunks := chunks o; promise := settle (promise o) q; reader := reader o |}.

(** [resolve(new Blob([full]))], [full] being the chunks laid end to end *)
Definition resolve_op (o : Op) : Op :=
  settle_op (Resolved (List.concat (chunks o))) o.

(** One listener of worker [h] called with the message [r]. *)
Definition run_handler (h : nat) (r : Response) (hd : Handler) (w : World)
  : World :=
  match hd with
  | HLoad requestId isPreset =>
      if resp_id r =? requestId then
        let w1 := removeEventListener h hd w in
        match r with
        | RLoaded _ info => loadWasmEngine_loaded h info isPreset w1
        | RError _ e => loadWasmEngine_failed e w1
        | _ => w1
        end
      else w
  | HData requestId k =>
      if resp_id r =? requestId then
        match r with
        | RChunk _ payload => upd_op k (push_chunk payload) w
        | RResult _ => removeEventListener h hd (upd_op k resolve_op w)
        | RError _ e =>
            removeEventListener h hd (upd_op k (settle_op (Rejected e)) w)
        | RLoaded _ _ => w
        end
      else w
  end.

(** A message event of worker [h]: every listener attached when it is
    dispatched is called, in the order they were attached. *)
Definition dispatch (h : nat) (r : Response) (w : World) : World :=
  match nth_error (workers w) h with
  | Some wk => fold_left (fun w' hd => run_handler h r hd w') (handlers wk) w
  | None => w
  end.

Definition new_op (o : Op) (w : World) : nat * World :=
  (List.length (ops w), set_ops (ops w ++ [o]) w).

(** [callEngine(engineId, type, input)]: the index of the call and the
    state once the promise's executor has run *)
Definition callEngine (engineId : string) (type : Mode) (input : bytes)
           (w : World) : nat * World :=
  match JsMap.get (engines w) engineId with
  | None =>
      new_op {| chunks := []; promise := Rejected "Engine not found";
                reader := None |} w
  | Some engine =>
      let '(requestId, w1) := postinc_nextRequestId w in
      let '(k, w2) := new_op {| chunks := []; promise := Pending;
                                reader := None |} w1 in
      let w3 := addEventListener (worker engine) (HData requestId k) w2 in
      (k, postMessage (worker engine)
            (ReqData requestId type input true None) w3)
  end.

(** [processNextChunk] *)
Definition processNextChunk (f : FileState) : FileState :=
  {| file := file f; mode := mode f; f_worker := f_worker f;
     chunkSize := chunkSize f; totalChunks := totalChunks f;
     offset := offset f;
     reading :=
       if Z.of_nat (List.length (file f)) <=? offset f then None
       else Some (slice (file f) (offset f) (chunkSize f)) |}.

(** [processFile(file, engineId, mode)] up to the first read, with the
    chunk size as a parameter *)
Definition processFile_with (chunkSize : Z) (file : bytes)
           (engineId : string) (mode : Mode) (w : World) : nat * World :=
  let size := Z.of_nat (List.length file) in
  let totalChunks := ceil_div size chunkSize in
  let w1 := print (Processing size totalChunks) w in
  match JsMap.get (engines w1) engineId with
  | None =>
      new_op {| chunks := []; promise := Rejected "Engine not found";
                reader := None |} w1
  | Some engine =>
      new_op {| chunks := []; promise := Pending;
                reader := Some (processNextChunk
                  {| file := file; mode := mode; f_worker := worker engine;
                     chunkSize := chunkSize; totalChunks := totalChunks;
                     offset := 0; reading := None |}) |} w1
  end.

Definition processFile := processFile_with CHUNK_SIZE.

Definition set_reader (f : option FileState) (o : Op) : Op :=
  {| chunks := chunks o; promise := promise o; reader := f |}.

(** [reader.onload] of call [k], the read of [chunkData] having finished *)
Definition reader_onload (k : nat) (f : FileState) (chunkData : bytes)
           (w : World) : World :=
  let '(requestId, w1) := postinc_nextRequestId w in
  let w2 := addEventListener (f_worker f) (HData requestId k) w1 in
  let w3 := postMessage (f_worker f)
              (ReqData requestId (mode f) chunkData
                 (Z.of_nat (List.length (file f)) <=? offset f + chunkSize f)
                 (Some (totalChunks f))) w2 in
  let f' := processNextChunk
              {| file := file f; mode := mode f; f_worker := f_worker f;
                 chunkSize := chunkSize f; totalChunks := totalChunks f;
                 offset := offset f + chunkSize f; reading := None |} in
  upd_op k (set_reader (Some f')) w3.

(** [reader.onerror] *)
Definition reader_onerror (k : nat) (f : FileState) (w : World) : World :=
  upd_op k (fun o => set_reader
                       (Some {| file := file f; mode := mode f;
                                f_worker := f_worker f;
                                chunkSize := chunkSize f;
                                totalChunks := totalChunks f;
                                offset := offset f; reading := None |})
                       (settle_op (Rejected "File read error") o)) w.

(** The worker behind handle [h] takes the oldest message posted to it. *)
Definition worker_turn (h : nat) (w : World) : option World :=
  match nth_error (workers w) h with
  | Some wk =>
      if terminated wk then None
      else match inbox wk with
           | [] => None
           | req :: rest =>
               let '(st, out) :=
                 Worker.onmessage utf8_decode instantiate (context wk) req in
               Some (upd_worker h (fun wk' =>
                 {| handlers := handlers wk'; inbox := rest;
                    outbox := outbox wk' ++ out; context := st;
                    terminated := terminated wk' |}) w)
           end
  | None => None
  end.

(** The host receives the oldest message worker [h] posted. *)
Definition host_turn (h : nat) (w : World) : option World :=
  match nth_error (workers w) h with
  | Some wk =>
      if terminated wk then None
      else match outbox wk with
           | [] => None
           | r :: rest =>
               Some (dispatch h r
                 (emit (EvMessage h r)
                    (upd_worker h (fun wk' =>
                       {| handlers := handlers wk'; inbox := inbox wk';
                          outbox := rest; context := context wk';
                          terminated := terminated wk' |}) w)))
           end
  | None => None
  end.

(** What can happen next: a call from the shell into the host, the file
    reader completing, a worker handling a request, the host receiving a
    message. *)
Inductive Action :=
| ALoad (url : string) (isPreset : bool)
| ACall (engineId : string) (type : Mode) (input : bytes)
| AFile (file : bytes) (engineId : string) (mode : Mode)
| AReaderLoad (k : nat)
| AReaderError (k : nat)
| AWorker (h : nat)
| ADeliver (h : nat).

Definition pending_read (k : nat) (w : World) : option (FileState * bytes) :=
  match nth_error (ops w) k with
  | Some o =>
      match reader o with
      | Some f => match reading f with
                  | Some c => Some (f, c)
                  | None => None
                  end
      | None => None
      end
  | None => None
  end.

Definition step (a : Action) (w : World) : option World :=
  match a with
  | ALoad url isPreset => Some (loadWasmEngine url isPreset w)
  | ACall engineId type input => Some (snd (callEngine engineId type input w))
  | AFile file engineId mode => Some (snd (processFile file engineId mode w))
  | AReaderLoad k =>
      match pending_read k w with
      | Some (f, c) => Some (reader_onload k f c w)
      | None => None
      end
  | AReaderError k =>
      match pending_read k w with
      | Some (f, _) => Some (reader_onerror k f w)
      | None => None
      end
  | AWorker h => worker_turn h w
  | ADeliver h => host_turn h w
  end.

Fixpoint run (acts : list Action) (w : World) : option World :=
  match acts with
  | [] => Some w
  | a :: rest =>
      match step a w with
      | Some w' => run rest w'
      | None => None
      end
  end.

(** The world once a load was started in [w], the worker handled the
    request and left [st], and the host received its answer [r], before
    the listener runs. *)
Definition answered (w : World) (st : Worker.State P) (url : string)
           (isPreset : bool) (r : Response) : World :=
  {| engines := engines w;
     nextRequestId := js_succ (nextRequestId w);
     workers := workers w ++
       [{| handlers := [HLoad (nextRequestId w) isPreset];
           inbox := []; outbox := []; context := st; terminated := false |}];
     ops := ops w;
     events := events w ++
       [EvNewWorker (List.length (workers w));
        EvListen (List.length (workers w)) (HLoad (nextRequestId w) isPreset);
        EvPost (List.length (workers w)) (ReqLoad (nextRequestId w) url);
        EvMessage (List.length (workers w)) r] |}.

(** The listeners attached to any worker: the requests still pending. *)
Definition pending (ws : list Wk) : list Handler := flat_map handlers ws.

(** No two pending requests share an ID, and every pending ID was drawn
    from the counter, which now stands at [n]. *)
Definition pending_ok (ws : list Wk) (n : Z) : Prop :=
  NoDup (map handler_id (pending ws)) /\
  Forall (fun hd => 0 <= handler_id hd < n) (pending ws).

(** The request IDs of the messages posted, oldest first. *)
Definition posted_ids (evs : list Event) : list Z :=
  flat_map (fun ev => match ev with
                      | EvPost _ req => [req_id req]
                      | _ => []
                      end) evs.

(** 0, 1, ..., n - 1 *)
Definition ids_upto (n : Z) : list Z := map Z.of_nat (seq 0 (Z.to_nat n)).

(** The counter is exact, the IDs posted so far are 0, 1, 2, ... in this
    order, and the pending requests have distinct IDs among them. *)
Definition counter_ok (w : World) : Prop :=
  0 <= nextRequestId w <= 2 ^ 53 /\
  (nextRequestId w < 2 ^ 53 ->
   posted_ids (events w) = ids_upto (nextRequestId w) /\
   pending_ok (workers w) (nextRequestId w)).

End Host.

Arguments Build_Wk {P} handlers inbox outbox context terminated.
Arguments handlers {P} w.
Arguments inbox {P} w.
Arguments outbox {P} w.
Arguments context {P} w.
Arguments terminated {P} w.
Arguments Build_World {P} engines nextRequestId workers ops events.
Arguments engines {P} w.
Arguments nextRequestId {P} w.
Arguments workers {P} w.
Arguments ops {P} w.
Arguments events {P} w.
Arguments init {P}.
Arguments emit {P} ev w.
Arguments set_workers {P} ws w.
Arguments set_ops {P} os w.
Arguments set_engines {P} es w.
Arguments upd_worker {P} h f w.
Arguments upd_op {P} k f w.
Arguments postinc_nextRequestId {P} w.
Arguments new_worker {P} w.
Arguments addEventListener {P} h hd w.
Arguments removeEventListener {P} h hd w.
Arguments postMessage {P} h req w.
Arguments terminate {P} h w.
Arguments print {P} l w.
Arguments createWorkerForEngine {P} wasmUrl isPreset w.
Arguments loadWasmEngine {P} url isPreset w.
Arguments loadWasmEngine_loaded {P} h info isPreset w.
Arguments loadWasmEngine_failed {P} error w.
Arguments run_handler {P} h r hd w.
Arguments dispatch {P} h r w.
Arguments new_op {P} o w.
Arguments callEngine {P} engineId type input w.
Arguments processFile_with {P} chunkSize file engineId mode w.
Arguments processFile {P} file engineId mode w.
Arguments reader_onload {P} k f chunkData w.
Arguments reader_onerror {P} k f w.
Arguments worker_turn {P} utf8_decode instantiate h w.
Arguments host_turn {P} h w.
Arguments pending_read {P} k w.
Arguments step {P} utf8_decode instantiate a w.
Arguments run {P} utf8_decode instantiate acts w.
Arguments answered {P} w st url isPreset r.
Arguments pending {P} ws.
Arguments pending_ok {P} ws n.
Arguments counter_ok {P} w.

End Host.

(** ** script.js: the validation self-test *)
Module Validation.

(** What an [output] property can hold. *)
Inductive Value :=
| VStr (s : string)
| VBytes (b : bytes)        (* a Uint8Array *)
| VUndefined.

(** What [validateEngine] uses of its argument: the methods [encode] and
    [decode] ([None]: the object has no such property), each resolving to
    an object whose [output] is given or rejecting, and the three flags. *)
Record Subject := {
  encode : option (Value -> Res Value);
  decode : option (Value -> Res Value);
  reversible : bool;
  selfInverse : bool;
  binarySafe : bool
}.

(** [{ok: true}] or [{ok: false, error}] *)
Inductive Verdict :=
| Passed
| Failed (error : string).

Definition testStr : string := "StarBrickVII_VALIDATION_123".

Definition testBinary : bytes :=
  [x00; x01; x02; x03; x7f; x80; xff; x00; x0a; x0d; x20; x41; x5a; x61;
   x7a; x00].

(** [!v] *)
Definition falsy (v : Value) : bool :=
  match v with
  | VStr s => String.eqb s ""
  | VBytes _ => false
  | VUndefined => true
  end.

(** [!v.length], for a [v] that is not undefined *)
Definition no_length (v : Value) : bool :=
  match v with
  | VStr s => Nat.eqb (String.length s) 0
  | VBytes b => Nat.eqb (List.length b) 0
  | VUndefined => true
  end.

Definition bytes_eqb (a b : bytes) : bool :=
  if list_eq_dec Byte.byte_eq_dec a b then true else false.

Section Validation.

(** [new TextDecoder().decode(x)] and [new Uint8Array(s)] for a string [s] *)
Variable utf8_decode : bytes -> string.
Variable uint8array_of_string : string -> bytes.

(** [eng.m(x)] awaited *)
Definition call (m : option (Value -> Res Value)) (name : string) (x : Value)
  : Res Value :=
  match m with
  | Some f => f x
  | None => Exn ("eng." ++ name ++ " is not a function")%string
  end.

(** [typeof v === 'string' ? v : new TextDecoder().decode(v)] *)
Definition as_string (v : Value) : string :=
  match v with
  | VStr s => s
  | VBytes b => utf8_decode b
  | VUndefined => utf8_decode []
  end.

(** [v instanceof Uint8Array ? v : new Uint8Array(v)] *)
Definition as_bytes (v : Value) : bytes :=
  match v with
  | VBytes b => b
  | VStr s => uint8array_of_string s
  | VUndefined => []
  end.

Definition step_reversible (eng : Subject) (enc : Value) : Res Verdict :=
  if reversible eng then
    match call (decode eng) "decode" enc with
    | Exn e => Exn e
    | Val dec =>
        if falsy dec then Val (Failed "Decode failed")
        else if String.eqb (as_string dec) testStr then Val Passed
        else Val (Failed "Reversible mismatch")
    end
  else Val Passed.

Definition step_selfInverse (eng : Subject) : Res Verdict :=
  if selfInverse eng then
    match call (encode eng) "encode" (VStr testStr) with
    | Exn e => Exn e
    | Val enc1 =>
        if falsy enc1 then Val (Failed "Self-inverse encode failed")
        else
          match call (encode eng) "encode" enc1 with
          | Exn e => Exn e
          | Val enc2 =>
              if falsy enc2 then Val (Failed "Self-inverse second encode failed")
              else if String.eqb (as_string enc2) testStr then Val Passed
              else Val (Failed "Self-inverse mismatch")
          end
    end
  else Val Passed.

Definition step_binarySafe (eng : Subject) : Res Verdict :=
  if binarySafe eng then
    match call (encode eng) "encode" (VBytes testBinary) with
    | Exn e => Exn e
    | Val encBin =>
        if falsy encBin then Val (Failed "Binary-safe encode failed")
        else if reversible eng || selfInverse eng then
          match call (decode eng) "decode" encBin with
          | Exn e => Exn e
          | Val decBin =>
              if falsy decBin then Val (Failed "Binary-safe decode failed")
              else
                let decBytes := as_bytes decBin in
                if negb (Nat.eqb (List.length decBytes)
                                 (List.length testBinary))
                then Val (Failed "Binary-safe size mismatch")
                else if bytes_eqb decBytes testBinary then Val Passed
                else Val (Failed "Binary-safe content mismatch")
          end
        else Val Passed
    end
  else Val Passed.

(** A stage that passed lets the next one run. *)
Definition and_then (r : Res Verdict) (next : Res Verdict) : Res Verdict :=
  match r with
  | Val Passed => next
  | _ => r
  end.

(** [validateEngine(eng)]; the [catch] turns an exception into a failure. *)
Definition validateEngine (eng : Subject) : Verdict :=
  let r :=
    match call (encode eng) "encode" (VStr testStr) with
    | Exn e => Exn e
    | Val enc =>
        if falsy enc || no_length enc
        then Val (Failed "Encode produced no output")
        else
          and_then (step_reversible eng enc)
            (and_then (step_selfInverse eng) (step_binarySafe eng))
    end in
  match r with
  | Val v => v
  | Exn e => Failed e
  end.

End Validation.

(** An entry of [S.engines] as [validateEngine] would see it: the flags,
    and no [encode] or [decode] property. *)
Definition of_engine (e : Host.Engine) : Subject :=
  {| encode := None; decode := None;
     reversible := Host.reversible e;
     selfInverse := Host.selfInverse e;
     binarySafe := Host.binarySafe e |}.

End Validation.

(** ** The chunked pipeline and the single-shot call as runs of the system *)
Module Pipeline.
Import Host.

Definition req_chunk (r : Request) : bytes :=
  match r with ReqData _ _ c _ _ => c | ReqLoad _ _ => [] end.

Definition req_last (r : Request) : bool :=
  match r with ReqData _ _ _ l _ => l | ReqLoad _ _ => false end.

Definition resp_payload (m : Response) : bytes :=
  match m with RChunk _ b => b | _ => [] end.

Definition is_chunk (m : Response) : bool :=
  match m with RChunk _ _ => true | _ => false end.

Definition is_terminal (m : Response) : bool :=
  match m with RResult _ | RError _ _ => true | _ => false end.

(** What the worker posts for a request whose transform yields [out]: the
    output, unless it is empty, and [result] after the last chunk. *)
Definition responses (id : Z) (out : bytes) (isLast : bool) : list Response :=
  match out with [] => [] | _ => [RChunk id out] end
  ++ (if isLast then [RResult id] else []).

(** The reading of "the host waits for the terminating message of a chunk
    before it sends the next" on the record of events: scanning the events
    of worker [h], a data request is posted only while none is
    outstanding, and a request stops being outstanding when a [result] or
    an [error] with its ID is received. *)
Fixpoint waits_for_terminal (h : nat) (outstanding : option Z)
         (evs : list Event) : bool :=
  match evs with
  | [] => true
  | EvPost h' (ReqData id _ _ _ _) :: rest =>
      if Nat.eqb h' h then
        match outstanding with
        | Some _ => false
        | None => waits_for_terminal h (Some id) rest
        end
      else waits_for_terminal h outstanding rest
  | EvMessage h' m :: rest =>
      if Nat.eqb h' h && is_terminal m
         && match outstanding with
            | Some id => resp_id m =? id
            | None => false
            end
      then waits_for_terminal h None rest
      else waits_for_terminal h outstanding rest
  | _ :: rest => waits_for_terminal h outstanding rest
  end.

Section Pipeline.

Variable P : Type.
Variable utf8_decode : bytes -> string.
Variable instantiate : string -> Res (Worker.Exports P * Worker.Inst P).

(** The engine: [T] is what it maps a chunk to, [Inv] what holds of its
    context between requests, [mode] the direction, [input] the bytes the
    operation is about. *)
Variable T : bytes -> bytes.
Variable Inv : Worker.State P -> Prop.
Variable mode : Mode.
Variable input : bytes.

(** The transform is chunk-boundary-agnostic, and the context answers a
    request for a chunk [c] (no longer than the input) with [T c]. *)
Definition engine_maps : Prop :=
  (forall a b, T (a ++ b) = T a ++ T b) /\
  (forall st, Inv st ->
     forall id c isLast tc,
       (List.length c <= List.length input)%nat ->
       let r := Worker.onmessage utf8_decode instantiate st
                  (ReqData id mode c isLast tc) in
       Inv (fst r) /\ snd r = responses id (T c) isLast).

(** The worker, the call, and the value of the counter when it began. *)
Variable h : nat.
Variable k : nat.
Variable n0 : Z.

Definition well_posted (r : Request) : Prop :=
  exists id c l tc,
    r = ReqData id mode c l tc /\ (List.length c <= List.length input)%nat.

(** The listeners of the worker: those attached before the operation,
    with older IDs, then one per request of this operation, and every
    message in flight has its listener. *)
Definition listening (w : World P) (wk : Wk P) : Prop :=
  exists old ids,
    handlers wk = old ++ map (fun i => HData i k) ids /\
    Forall (fun hd => handler_id hd < n0) old /\
    NoDup ids /\
    Forall (fun i => n0 <= i < nextRequestId w) ids /\
    Forall (fun r => In (req_id r) ids) (inbox wk) /\
    Forall (fun m => In (resp_id m) ids) (outbox wk).

Definition no_read (op : Op) : Prop :=
  match reader op with
  | Some f => reading f = None
  | None => True
  end.

(** Chunks remain to be read and sent; [rest] is what was not sent yet. *)
Definition sending (w : World P) (op : Op) (wk : Wk P) (rest : bytes) : Prop :=
  exists f,
    reader op = Some f /\ file f = input /\ Host.mode f = mode /\
    f_worker f = h /\ 0 < chunkSize f /\
    0 <= offset f < Z.of_nat (List.length input) /\
    reading f = Some (slice input (offset f) (chunkSize f)) /\
    rest = skipn (Z.to_nat (offset f)) input /\
    nextRequestId w
      + ceil_div (Z.of_nat (List.length input) - offset f) (chunkSize f)
      <= 2 ^ 53 /\
    Forall (fun r => req_last r = false) (inbox wk) /\
    Forall (fun m => is_chunk m = true) (outbox wk).

(** The last chunk was sent and waits in the worker's queue. *)
Definition last_queued (op : Op) (wk : Wk P) (rest : bytes) : Prop :=
  rest = [] /\ no_read op /\
  exists ib r,
    inbox wk = ib ++ [r] /\ req_last r = true /\
    Forall (fun r => req_last r = false) ib /\
    Forall (fun m => is_chunk m = true) (outbox wk).

(** The worker answered the last chunk; [result] is on its way. *)
Definition last_answered (op : Op) (wk : Wk P) (rest : bytes) : Prop :=
  rest = [] /\ no_read op /\ inbox wk = [] /\
  exists ob id,
    outbox wk = ob ++ [RResult id] /\
    Forall (fun m => is_chunk m = true) ob.

(** The operation is under way: what was received, what is on its way
    back, what the worker will make of its queue and of what is still to
    be sent add up to [T input]. *)
Definition running (w : World P) : Prop :=
  exists wk op rest,
    nth_error (workers w) h = Some wk /\
    nth_error (ops w) k = Some op /\
    terminated wk = false /\
    Inv (context wk) /\
    promise op = Pending /\
    n0 <= nextRequestId w <= 2 ^ 53 /\
    listening w wk /\
    Forall well_posted (inbox wk) /\
    List.concat (chunks op)
      ++ List.concat (map resp_payload (outbox wk))
      ++ T (List.concat (map req_chunk (inbox wk)))
      ++ T rest = T input /\
    (sending w op wk rest \/ last_queued op wk rest \/ last_answered op wk rest).

(** The promise resolved with [T input]; nothing is in flight. *)
Definition finished (w : World P) : Prop :=
  exists wk op,
    nth_error (workers w) h = Some wk /\
    nth_error (ops w) k = Some op /\
    promise op = Resolved (T input) /\
    inbox wk = [] /\ outbox wk = [] /\ no_read op.

(** The steps of the operation itself, the host doing nothing else. *)
Definition allowed (a : Action) : Prop :=
  a = AReaderLoad k \/ a = AWorker h \/ a = ADeliver h.

(** The operation settled with this output. *)
Definition settled_with (w : World P) (out : bytes) : Prop :=
  exists op, nth_error (ops w) k = Some op /\ promise op = Resolved out.

Definition unsent_chunks (op : Op) : nat :=
  match reader op with
  | Some f =>
      match reading f with
      | Some _ =>
          Z.to_nat (ceil_div (Z.of_nat (List.length (file f)) - offset f)
                             (chunkSize f))
      | None => O
      end
  | None => O
  end.

(** A bound on the steps the operation can still take. *)
Definition steps_left (w : World P) : nat :=
  match nth_error (workers w) h, nth_error (ops w) k with
  | Some wk, Some op =>
      4 * unsent_chunks op + 3 * List.length (inbox wk)
      + List.length (outbox wk)
  | _, _ => O
  end.

End Pipeline.

Arguments engine_maps {P} utf8_decode instantiate T Inv mode input.
Arguments running {P} T Inv mode input h k n0 w.
Arguments finished {P} T input h k w.
Arguments settled_with {P} k w out.
Arguments steps_left {P} h k w.
Arguments listening {P} k n0 w wk.
Arguments sending {P} mode input h w op wk rest.
Arguments last_queued {P} op wk rest.
Arguments last_answered {P} op wk rest.

End Pipeline.

(** ** A concrete engine to run the model on

    [Echo] copies its input to its output. Its allocator appends a
    4-byte-aligned block of zeros to the memory and never reuses one; the
    ID string lies at address 4 of the initial memory. The capability
    flags and the presence of [sb_free] and [sb_decode] are parameters. *)
Module Echo.

Definition I := Worker.Inst unit.

Definition pad4 (n : Z) : Z := 4 * ((n + 3) / 4).

Definition byte_of (z : Z) : byte :=
  match Byte.of_N (Z.to_N (z mod 256)) with Some b => b | None => x00 end.

Definition le32 (v : Z) : bytes :=
  [byte_of v; byte_of (v / 256); byte_of (v / 65536); byte_of (v / 16777216)].

Definition poke (m : bytes) (off : nat) (src : bytes) : bytes :=
  firstn off m ++ src ++ skipn (off + List.length src) m.

Definition arg (k : nat) (args : list Z) : Z := nth k args 0.

Definition mem0 : bytes := [x00; x00; x00; x00; x65; x63; x68; x6f].

Definition inst0 : I := {| Worker.mem := mem0; Worker.priv := tt |}.

Definition sb_alloc : Worker.ExportFn unit :=
  fun i args =>
    (Val (Z.of_nat (List.length (Worker.mem i))),
     {| Worker.mem := Worker.mem i ++ repeat x00 (Z.to_nat (pad4 (arg 0 args)));
        Worker.priv := tt |}).

Definition sb_free : Worker.ExportFn unit := fun i _ => (Val 0, i).

Definition sb_get_id : Worker.ExportFn unit :=
  fun i args =>
    (Val 4, {| Worker.mem := poke (Worker.mem i) (Z.to_nat (arg 0 args)) (le32 4);
               Worker.priv := tt |}).

Definition flag (v : Z) : Worker.ExportFn unit := fun i _ => (Val v, i).

(** [sb_encode] and [sb_decode]: the output is the input buffer itself *)
Definition sb_copy : Worker.ExportFn unit :=
  fun i args =>
    (Val (arg 0 args),
     {| Worker.mem := poke (Worker.mem i) (Z.to_nat (arg 2 args))
                           (le32 (arg 1 args));
        Worker.priv := tt |}).

Definition exports (bs si rv : Z) (with_free with_decode : bool)
  : Worker.Exports unit :=
  {| Worker.exp_fn := fun name =>
       if String.eqb name "sb_alloc" then Some sb_alloc
       else if String.eqb name "sb_free" then
              if with_free then Some sb_free else None
       else if String.eqb name "sb_get_id" then Some sb_get_id
       else if String.eqb name "sb_is_binary_safe" then Some (flag bs)
       else if String.eqb name "sb_is_self_inverse" then Some (flag si)
       else if String.eqb name "sb_is_reversible" then Some (flag rv)
       else if String.eqb name "sb_encode" then Some sb_copy
       else if String.eqb name "sb_decode" then
              if with_decode then Some sb_copy else None
       else None;
     Worker.exp_memory := true |}.

(** the complete engine: binary-safe, self-inverse, reversible *)
Definition full : Worker.Exports unit := exports 1 1 1 true true.

(** claims to be reversible, exports no [sb_decode] *)
Definition no_decode : Worker.Exports unit := exports 1 0 1 true false.

(** lacks the required [sb_free] *)
Definition no_free : Worker.Exports unit := exports 1 1 1 false true.

(** its flag exports return 2, 0 and -1 *)
Definition odd_flags : Worker.Exports unit := exports 2 0 (-1) true true.

(** What the URLs of the examples resolve to. *)
Definition instantiate (url : string)
  : Res (Worker.Exports unit * Worker.Inst unit) :=
  if String.eqb url "engines/echo.wasm" then Val (full, inst0)
  else if String.eqb url "engines/no_decode.wasm" then Val (no_decode, inst0)
  else if String.eqb url "engines/no_free.wasm" then Val (no_free, inst0)
  else if String.eqb url "engines/odd_flags.wasm" then Val (odd_flags, inst0)
  else Exn "Failed to fetch".

(** On ASCII, which is all the examples use, this is UTF-8 decoding. *)
Definition utf8_decode (b : bytes) : string := string_of_list_byte b.

(** What holds of a context running the complete engine between two
    requests: the memory is a non-empty whole number of 4-byte words. *)
Definition ready (st : Worker.State unit) : Prop :=
  exists i,
    Worker.wasmExports st = Some (full, i) /\
    (List.length (Worker.mem i) mod 4 = 0)%nat /\
    (4 <= List.length (Worker.mem i))%nat.

(** Loading the complete engine into a fresh host: the load is started,
    the worker answers, the host installs the engine. *)
Definition load_echo : list Host.Action :=
  [Host.ALoad "engines/echo.wasm" true; Host.AWorker 0; Host.ADeliver 0].

(** The world these steps lead to from the start. *)
Definition after (acts : list Host.Action) : Host.World unit :=
  match Host.run utf8_decode instantiate acts Host.init with
  | Some w => w
  | None => Host.init
  end.

(** The descriptor of the complete engine, its registry entry after a
    preset load into a fresh host, and its worker then. *)
Definition info : EngineInfo :=
  {| info_id := "echo"; info_name := "echo"; info_desc := "";
     info_binarySafe := true; info_selfInverse := true;
     info_reversible := true |}.

Definition engine : Host.Engine :=
  {| Host.id := "echo"; Host.name := "echo"; Host.desc := "";
     Host.binarySafe := true; Host.selfInverse := true;
     Host.reversible := true; Host.isPreset := true; Host.worker := 0 |}.

Definition worker0 : Host.Wk unit :=
  match nth_error (Host.workers (after load_echo)) 0 with
  | Some wk => wk
  | None => {| Host.handlers := []; Host.inbox := []; Host.outbox := [];
               Host.context := Worker.init; Host.terminated := true |}
  end.

(** A load, a single-shot call, a file operation and its only chunk, and
    the first answer of the worker. *)
Definition busy : list Host.Action :=
  load_echo ++
  [Host.ACall "echo" Encode [x41]; Host.AFile [x41; x42] "echo" Decode;
   Host.AReaderLoad 1; Host.AWorker 0; Host.ADeliver 0].

(** A file operation on two bytes, before its chunk is sent. *)
Definition one_chunk : list Host.Action :=
  load_echo ++ [Host.AFile [x41; x42] "echo" Encode].

Definition one_chunk_reader : Host.FileState :=
  {| Host.file := [x41; x42]; Host.mode := Encode; Host.f_worker := 0;
     Host.chunkSize := Host.CHUNK_SIZE; Host.totalChunks := 1;
     Host.offset := 0; Host.reading := Some [x41; x42] |}.

(** A file one byte longer than a chunk. *)
Definition two_chunk_file : bytes := repeat x00 (Z.to_nat (Host.CHUNK_SIZE + 1)).

(** A context in which the complete engine was just instantiated. *)
Definition fresh : Worker.State unit :=
  {| Worker.wasmExports := Some (full, inst0); Worker.engineInfo := None;
     Worker.log := [] |}.

End Echo.

(** ** How the tables of the host evolve from step to step *)
Module Evolution.
Import Host.

(** What message listeners do to an operation: they append the chunks
    they receive and settle its promise; its reader is not theirs. *)
Definition op_grows (o o' : Op) : Prop :=
  reader o' = reader o /\
  (exists extra, chunks o' = chunks o ++ extra) /\
  (promise o <> Pending -> promise o' = promise o).

(** The reader of operation [o] once [reader.onload] has sent the chunk
    read, and once [reader.onerror] has fired. *)
Definition advanced (f : FileState) : FileState :=
  processNextChunk
    {| file := file f; mode := mode f; f_worker := f_worker f;
       chunkSize := chunkSize f; totalChunks := totalChunks f;
       offset := offset f + chunkSize f; reading := None |}.

Definition stopped (f : FileState) : FileState :=
  {| file := file f; mode := mode f; f_worker := f_worker f;
     chunkSize := chunkSize f; totalChunks := totalChunks f;
     offset := offset f; reading := None |}.

(** The reader of a [processFile] call on [data] in chunks of [size]:
    it stands at a multiple of the chunk size, and the slice it is
    reading, if any, is the one that begins there. *)
Definition reads_slices (size : Z) (data : bytes) (md : Mode) (h : nat)
           (o : Op) : Prop :=
  exists f (i : nat),
    reader o = Some f /\ file f = data /\ chunkSize f = size /\
    totalChunks f = ceil_div (Z.of_nat (List.length data)) size /\
    mode f = md /\ f_worker f = h /\
    offset f = Z.of_nat i * size /\
    (reading f = None \/
     offset f < Z.of_nat (List.length data) /\
     reading f = Some (slice data (offset f) size)).

(** Of an engine of the registry, the descriptor its worker sent. *)
Definition info_of (e : Engine) : EngineInfo :=
  {| info_id := id e; info_name := name e; info_desc := desc e;
     info_binarySafe := binarySafe e; info_selfInverse := selfInverse e;
     info_reversible := reversible e |}.

(** The events that are neither a listener for a data request nor such
    a request. *)
Definition off_wire (ev : Event) : bool :=
  match ev with
  | EvListen _ (HData _ _) => false
  | EvPost _ (ReqData _ _ _ _ _) => false
  | _ => true
  end.

(** The request IDs the listeners attached for operation [k] wait for,
    oldest first. *)
Definition listened (k : nat) (evs : list Event) : list Z :=
  flat_map (fun ev => match ev with
                      | EvListen _ (HData n k') =>
                          if Nat.eqb k' k then [n] else []
                      | _ => []
                      end) evs.

(** The data requests posted under one of the IDs [ids], oldest first:
    the chunk, the [isLast] flag and the chunk count of each. *)
Definition posts_with (ids : list Z) (evs : list Event)
  : list (bytes * bool * option Z) :=
  flat_map (fun ev => match ev with
                      | EvPost _ (ReqData n _ c l t) =>
                          if existsb (Z.eqb n) ids then [(c, l, t)] else []
                      | _ => []
                      end) evs.

(** What was sent to the worker for operation [k]. *)
Definition sent_for (k : nat) (evs : list Event)
  : list (bytes * bool * option Z) :=
  posts_with (listened k evs) evs.

(** Chunk [j] of [data] cut in chunks of [size], as [processFile] posts
    it: the slice, whether it is the last, the chunk count. *)
Definition nth_chunk (size : Z) (data : bytes) (j : nat)
  : bytes * bool * option Z :=
  let total := ceil_div (Z.of_nat (List.length data)) size in
  (slice data (Z.of_nat j * size) size, Z.of_nat j =? total - 1, Some total).

Definition is_load_handler (hd : Handler) : bool :=
  match hd with HLoad _ _ => true | HData _ _ => false end.

Definition is_load_request (r : Request) : bool :=
  match r with ReqLoad _ _ => true | ReqData _ _ _ _ _ => false end.

Definition is_loaded (m : Response) : bool :=
  match m with RLoaded _ _ => true | _ => false end.

Section Evolution.

Variable P : Type.

(** What a step does to a worker that is not its subject: listeners may
    be detached, and it may be terminated. *)
Definition wk_shrinks (wk wk' : Wk P) : Prop :=
  incl (handlers wk') (handlers wk) /\
  inbox wk' = inbox wk /\ outbox wk' = outbox wk /\
  context wk' = context wk /\
  (terminated wk = true -> terminated wk' = true).

(** No listener of operation [k] is attached to a worker that still
    runs. *)
Definition unheard (k : nat) (w : World P) : Prop :=
  forall h wk n,
    nth_error (workers w) h = Some wk -> In (HData n k) (handlers wk) ->
    terminated wk = true.

(** Every listener belongs to an operation of the table. *)
Definition handlers_in_range (w : World P) : Prop :=
  forall h wk n k,
    nth_error (workers w) h = Some wk -> In (HData n k) (handlers wk) ->
    (k < List.length (ops w))%nat.

(** A worker whose load is under way: the only listener is the one of
    [createWorkerForEngine]; the request is in its queue, or it has handled
    it and its one answer, with the same ID, is on its way. *)
Definition loading (wk : Wk P) : Prop :=
  terminated wk = false /\
  exists n p,
    handlers wk = [HLoad n p] /\
    ((exists url, inbox wk = [ReqLoad n url] /\ outbox wk = [] /\
                  context wk = Worker.init) \/
     (exists r, inbox wk = [] /\ outbox wk = [r] /\ resp_id r = n /\
                forall n' info, r = RLoaded n' info ->
                  Worker.wasmExports (context wk) <> None /\
                  Worker.engineInfo (context wk) = Some info)).

(** A worker whose load is over: what is attached to it and queued at it
    are data requests and their answers. *)
Definition serving (wk : Wk P) : Prop :=
  Forall (fun hd => is_load_handler hd = false) (handlers wk) /\
  Forall (fun r => is_load_request r = false) (inbox wk) /\
  Forall (fun m => is_loaded m = false) (outbox wk).

(** What a step that is not a registration does to a worker: its phase
    stays or moves on, it is terminated no more than before, and the engine
    its context holds stays. *)
Definition keeps (wk wk' : Wk P) : Prop :=
  (serving wk -> serving wk') /\
  (loading wk -> loading wk' \/ serving wk') /\
  terminated wk' = terminated wk /\
  (Worker.wasmExports (context wk) <> None ->
   Worker.wasmExports (context wk') <> None) /\
  (forall i, Worker.engineInfo (context wk) = Some i ->
             Worker.engineInfo (context wk') = Some i).

(** The registry and the workers agree: an entry is stored under its own
    ID; its worker runs, has finished its load and holds the engine the
    entry describes; no two entries share a worker; a worker still loading
    is in no entry; and file readers send to workers whose load is over. *)
Definition registry_ok (w : World P) : Prop :=
  (forall engineId e,
     JsMap.get (engines w) engineId = Some e ->
     id e = engineId /\
     exists wk,
       nth_error (workers w) (worker e) = Some wk /\
       serving wk /\ terminated wk = false /\
       Worker.wasmExports (context wk) <> None /\
       Worker.engineInfo (context wk) = Some (info_of e)) /\
  (forall id1 id2 e1 e2,
     JsMap.get (engines w) id1 = Some e1 ->
     JsMap.get (engines w) id2 = Some e2 ->
     worker e1 = worker e2 -> id1 = id2) /\
  (forall h wk,
     nth_error (workers w) h = Some wk ->
     serving wk \/
     loading wk /\
     forall engineId e,
       JsMap.get (engines w) engineId = Some e -> worker e <> h) /\
  (forall k o f,
     nth_error (ops w) k = Some o -> reader o = Some f ->
     exists wk, nth_error (workers w) (f_worker f) = Some wk /\ serving wk).

(** From [w] to [w'] nothing was put on the wire. *)
Definition quiet_after (w w' : World P) : Prop :=
  exists new,
    events w' = events w ++ new /\
    Forall (fun ev => off_wire ev = true) new.

(** No listener was ever attached for an operation that does not exist
    yet. *)
Definition fresh_ops (w : World P) : Prop :=
  forall k, (List.length (ops w) <= k)%nat -> listened k (events w) = [].

(** What was sent for operation [k], a file operation on [data] in
    chunks of [size]: the chunks before the offset of its reader, in file
    order, one request each; and every ID its listeners wait for was
    posted. *)
Definition sent_ok (size : Z) (data : bytes) (k : nat) (w : World P) : Prop :=
  nextRequestId w < 2 ^ 53 ->
  Forall (fun m => In m (posted_ids (events w))) (listened k (events w)) /\
  forall o f,
    nth_error (ops w) k = Some o -> reader o = Some f ->
    exists i : nat,
      offset f = Z.of_nat i * size /\
      sent_for k (events w) = map (nth_chunk size data) (seq 0 i).

(** [unheard], decided. *)
Definition is_listener_of (k : nat) (hd : Handler) : bool :=
  match hd with
  | HData _ k' => Nat.eqb k' k
  | HLoad _ _ => false
  end.

Definition unheard_b (k : nat) (w : World P) : bool :=
  forallb (fun wk => terminated wk
                     || negb (existsb (is_listener_of k) (handlers wk)))
          (workers w).

End Evolution.

Arguments wk_shrinks {P} wk wk'.
Arguments unheard_b {P} k w.
Arguments quiet_after {P} w w'.
Arguments fresh_ops {P} w.
Arguments sent_ok {P} size data k w.
Arguments unheard {P} k w.
Arguments handlers_in_range {P} w.
Arguments loading {P} wk.
Arguments serving {P} wk.
Arguments keeps {P} wk wk'.
Arguments registry_ok {P} w.

End Evolution.

(** ** More runs of the example engine *)
Module EchoRuns.
Import Host.

(** The world a run leads to from [w]. *)
Definition from (w : World unit) (acts : list Action) : World unit :=
  match run Echo.utf8_decode Echo.instantiate acts w with
  | Some w' => w'
  | None => w
  end.

Definition worker_at (w : World unit) (h : nat) : Wk unit :=
  match nth_error (workers w) h with
  | Some wk => wk
  | None => {| handlers := []; inbox := []; outbox := [];
               context := Worker.init; terminated := true |}
  end.

Definition op_at (w : World unit) (k : nat) : Op :=
  match nth_error (ops w) k with
  | Some o => o
  | None => {| chunks := []; promise := Pending; reader := None |}
  end.

(** The engine is loaded, a call is made, and before the call is
    answered the engine is loaded again under the same ID: the first
    worker is terminated with the call in its queue. *)
Definition replaced : list Action :=
  Echo.load_echo ++
  [ACall "echo" Encode [x41];
   ALoad "engines/echo.wasm" false; AWorker 1; ADeliver 1].

(** The engine is loaded and called; a second load of the same module is
    started and its worker has answered: the answer waits in its outbox. *)
Definition reloading : list Action :=
  Echo.load_echo ++
  [ACall "echo" Encode [x41]; ALoad "engines/echo.wasm" false; AWorker 1].

(** The entry the second load installs. *)
Definition engine1 : Engine :=
  {| id := "echo"; name := "echo"; desc := "";
     binarySafe := true; selfInverse := true; reversible := true;
     isPreset := false; worker := 1 |}.

(** A call to an engine that is not registered, its promise rejected at
    once, and a load after it. *)
Definition rejected_call : World unit :=
  snd (callEngine "nope" Encode [] (@init unit)).

(** A file of three bytes read in chunks of two. *)
Definition three_bytes : bytes := [x41; x42; x43].

Definition reading_three : World unit :=
  snd (processFile_with 2 three_bytes "echo" Encode
         (Echo.after Echo.load_echo)).

(** The reader of the operation on [three_bytes] while its first slice
    is read. *)
Definition first_slice : FileState :=
  {| file := three_bytes; mode := Encode; f_worker := 0; chunkSize := 2;
     totalChunks := 2; offset := 0; reading := Some [x41; x42] |}.

(** The reader of that operation while its second slice is read. *)
Definition second_slice : FileState :=
  {| file := three_bytes; mode := Encode; f_worker := 0; chunkSize := 2;
     totalChunks := 2; offset := 2; reading := Some [x43] |}.

(** What happens after the engine was replaced: a call to the new
    worker, answered. *)
Definition next_call : list Action :=
  [ACall "echo" Encode [x42]; AWorker 1; ADeliver 1].

(** An engine object whose methods give back their input, flagged
    binary-safe, self-inverse and reversible. *)
Definition identity : Validation.Subject :=
  {| Validation.encode := Some (fun v => Val v);
     Validation.decode := Some (fun v => Val v);
     Validation.reversible := true;
     Validation.selfInverse := true;
     Validation.binarySafe := true |}.


(** [sb_alloc] of a module whose allocator works in an arena of [limit]
    bytes and, when the arena is exhausted, aborts with a trap instead of
    returning the null pointer. *)
Definition sb_alloc_arena (limit : Z) : Worker.ExportFn unit :=
  fun i args =>
    if limit <? Z.of_nat (List.length (Worker.mem i))
                + Echo.pad4 (Echo.arg 0 args)
    then (Exn "unreachable", i)
    else Echo.sb_alloc i args.

(** The complete engine with such an allocator, in an arena of 16
    bytes. *)
Definition arena : Worker.Exports unit :=
  {| Worker.exp_fn := fun name =>
       if String.eqb name "sb_alloc" then Some (sb_alloc_arena 16)
       else Worker.exp_fn Echo.full name;
     Worker.exp_memory := true |}.

(** The complete engine with an [sb_alloc] that returns an address
    outside the memory. *)
Definition astray : Worker.Exports unit :=
  {| Worker.exp_fn := fun name =>
       if String.eqb name "sb_alloc"
       then Some (fun i _ => (Val 1000, i))
       else Worker.exp_fn Echo.full name;
     Worker.exp_memory := true |}.

(** The complete engine with an [sb_free] that traps. *)
Definition no_release : Worker.Exports unit :=
  {| Worker.exp_fn := fun name =>
       if String.eqb name "sb_free"
       then Some (fun i _ => (Exn "unreachable", i))
       else Worker.exp_fn Echo.full name;
     Worker.exp_memory := true |}.

(** What the URLs of these modules resolve to. *)
Definition instantiate (url : string)
  : Res (Worker.Exports unit * Worker.Inst unit) :=
  if String.eqb url "engines/arena.wasm" then Val (arena, Echo.inst0)
  else Echo.instantiate url.

(** A context as the load of [engines/arena.wasm] leaves it, and how it
    answers a chunk of three bytes. *)
Definition arena_loaded : Worker.State unit :=
  fst (Worker.onmessage Echo.utf8_decode instantiate Worker.init
         (ReqLoad 0 "engines/arena.wasm")).

Definition arena_answer : Worker.State unit * list Response :=
  Worker.onmessage Echo.utf8_decode instantiate arena_loaded
    (ReqData 1 Encode [x41; x42; x43] true None).

(** The export calls made during the request. *)
Definition arena_calls : list Worker.Call :=
  skipn (List.length (Worker.log arena_loaded))
        (Worker.log (fst arena_answer)).

(** The same request to a context in which [astray] was instantiated. *)
Definition astray_answer : Worker.State unit * list Response :=
  Worker.onmessage Echo.utf8_decode Echo.instantiate
    {| Worker.wasmExports := Some (astray, Echo.inst0);
       Worker.engineInfo := None; Worker.log := [] |}
    (ReqData 1 Encode [x41; x42; x43] true None).

(** The same request to a context in which [no_release] was
    instantiated. *)
Definition no_release_answer : Worker.State unit * list Response :=
  Worker.onmessage Echo.utf8_decode Echo.instantiate
    {| Worker.wasmExports := Some (no_release, Echo.inst0);
       Worker.engineInfo := None; Worker.log := [] |}
    (ReqData 1 Encode [x41; x42; x43] true None).

(** An operation on the empty file. *)
Definition reading_nothing : World unit :=
  snd (processFile [] "echo" Decode (Echo.after Echo.load_echo)).

End EchoRuns.

(** ** JavaScript strings

    A string is a sequence of UTF-16 code units. The model holds the code
    units below 256 (the Latin-1 range), one per [ascii]; on these the
    operations below are the ones of the language. *)
Module Js.

Definition code (c : ascii) : nat := nat_of_ascii c.

(** White space and line terminators: what [trim], [\s] and [parseInt]
    skip. Below 256 these are TAB, LF, VT, FF, CR, SPACE and NBSP. *)
Definition is_space (c : ascii) : bool :=
  ((9 <=? code c) && (code c <=? 13) || (code c =? 32) || (code c =? 160))%nat.

Fixpoint trim_start (s : string) : string :=
  match s with
  | String c s' => if is_space c then trim_start s' else s
  | EmptyString => EmptyString
  end.

Definition rev (s : string) : string :=
  string_of_list_ascii (List.rev (list_ascii_of_string s)).

Definition trim_end (s : string) : string := rev (trim_start (rev s)).

(** [s.trim()] *)
Definition trim (s : string) : string := trim_end (trim_start s).

(** [c.toLowerCase()] for one code unit: A-Z, and the capital letters of
    Latin-1 (all of C0-DE but the multiplication sign) *)
Definition lower (c : ascii) : ascii :=
  if ((65 <=? code c) && (code c <=? 90)
      || (192 <=? code c) && (code c <=? 222) && negb (code c =? 215))%nat
  then ascii_of_nat (code c + 32)
  else c.

Fixpoint toLowerCase (s : string) : string :=
  match s with
  | String c s' => String (lower c) (toLowerCase s')
  | EmptyString => EmptyString
  end.

(** [s.startsWith(p)] *)
Definition startsWith (s p : string) : bool := String.prefix p s.

(** [s.indexOf(c)] for a single character; [None] is -1 *)
Fixpoint indexOf (s : string) (c : ascii) : option nat :=
  match s with
  | EmptyString => None
  | String c' s' =>
      if Ascii.eqb c' c then Some O
      else option_map S (indexOf s' c)
  end.

(** [s.substring(0, n)] and [s.substring(n)] for [0 <= n <= s.length] *)
Definition substring_to (s : string) (n : nat) : string :=
  String.substring 0 n s.

Definition substring_from (s : string) (n : nat) : string :=
  String.substring n (String.length s - n) s.

(** [s.split(c)] for a single character *)
Fixpoint split_go (c : ascii) (s cur : string) : list string :=
  match s with
  | EmptyString => [cur]
  | String c' s' =>
      if Ascii.eqb c' c then cur :: split_go c s' EmptyString
      else split_go c s' (cur ++ String c' EmptyString)
  end.

Definition split (s : string) (c : ascii) : list string :=
  split_go c s EmptyString.

(** [s.split(/\s+/)] *)
Fixpoint split_ws_go (s cur : string) (in_run : bool) : list string :=
  match s with
  | EmptyString => [cur]
  | String c s' =>
      if is_space c then
        if in_run then split_ws_go s' cur true
        else cur :: split_ws_go s' EmptyString true
      else split_ws_go s' (cur ++ String c EmptyString) false
  end.

Definition split_ws (s : string) : list string :=
  split_ws_go s EmptyString false.

(** [a.join(sep)] *)
Definition join (sep : string) (a : list string) : string :=
  String.concat sep a.

Definition newline : ascii := "010"%char.

(** The value of a digit in the radix, the letters in either case. *)
Definition digit_val (radix : Z) (c : ascii) : option Z :=
  let n := Z.of_nat (code c) in
  let d := if (48 <=? n) && (n <=? 57) then n - 48
           else if (97 <=? n) && (n <=? 122) then n - 87
           else if (65 <=? n) && (n <=? 90) then n - 55
           else radix in
  if d <? radix then Some d else None.

(** The number the longest prefix of digits of [s] denotes, after the
    digits read so far ([acc]); [None] when there is no digit at all. *)
Fixpoint digits (radix : Z) (s : string) (acc : option Z) : option Z :=
  match s with
  | String c s' =>
      match digit_val radix c with
      | Some d =>
          digits radix s'
                 (Some (radix * match acc with Some a => a | None => 0 end + d))
      | None => acc
      end
  | EmptyString => acc
  end.

(** [parseInt(s)]: leading white space, a sign, a [0x] prefix, then the
    longest prefix of digits; [None] is NaN. The integer is given exactly:
    the program compares it with array lengths and uses it as an index
    between these bounds, which the rounding of larger integers to a
    double does not affect. *)
Definition parseInt (s : string) : option Z :=
  let s1 := trim_start s in
  let '(sign, s2) :=
    match s1 with
    | String "-" r => (-1, r)
    | String "+" r => (1, r)
    | _ => (1, s1)
    end in
  let '(radix, s3) :=
    match s2 with
    | String "0" (String "x" r) => (16, r)
    | String "0" (String "X" r) => (16, r)
    | _ => (10, s2)
    end in
  option_map (Z.mul sign) (digits radix s3 None).

(** [a.slice(s, e)] for integers [s], [e]: an index below zero counts
    from the end, and both are brought into the bounds of the array. *)
Definition clamp_index (len i : Z) : Z :=
  if i <? 0 then Z.max (len + i) 0 else Z.min i len.

Definition slice {A} (a : list A) (s e : Z) : list A :=
  let len := Z.of_nat (List.length a) in
  let from := clamp_index len s in
  let to := clamp_index len e in
  firstn (Z.to_nat (to - from)) (skipn (Z.to_nat from) a).

End Js.

(** ** script.js: escaping text for the page *)
Module Html.

(** The replacement function of [esc]. *)
Definition entity (c : ascii) : string :=
  if Ascii.eqb c "&" then "&amp;"
  else if Ascii.eqb c "<" then "&lt;"
  else if Ascii.eqb c ">" then "&gt;"
  else if Ascii.eqb c "034" then "&quot;"
  else if Ascii.eqb c "'" then "&#39;"
  else String c EmptyString.

(** [esc(s)]: every character of the class is replaced by its entity. *)
Fixpoint esc (s : string) : string :=
  match s with
  | EmptyString => EmptyString
  | String c s' => entity c ++ esc s'
  end.

(** The characters [esc] is there to remove. *)
Definition special (c : ascii) : bool :=
  Ascii.eqb c "<" || Ascii.eqb c ">" || Ascii.eqb c "034" || Ascii.eqb c "'".

(** A text that is safe to put between tags or in a quoted attribute:
    it contains no [<], [>], double or single quote, and every [&] in it
    begins one of the five entities. *)
Definition starts_entity (s : string) : bool :=
  String.prefix "&amp;" s || String.prefix "&lt;" s || String.prefix "&gt;" s
  || String.prefix "&quot;" s || String.prefix "&#39;" s.

Fixpoint safe (s : string) : bool :=
  match s with
  | EmptyString => true
  | String c s' =>
      negb (special c)
      && (if Ascii.eqb c "&" then starts_entity s else true)
      && safe s'
  end.

(** A text without any character of the class of [esc]. *)
Fixpoint plain (s : string) : bool :=
  match s with
  | EmptyString => true
  | String c s' => negb (special c) && negb (Ascii.eqb c "&") && plain s'
  end.

End Html.

(** ** script.js: the hex dump of the [result] command *)
Module HexDump.

Definition hex_digit (n : nat) : ascii :=
  match String.get n "0123456789abcdef" with
  | Some c => c
  | None => "0"%char
  end.

(** [b.toString(16).padStart(2, '0')] for a byte *)
Definition hex2 (b : byte) : string :=
  let n := N.to_nat (Byte.to_N b) in
  String (hex_digit (n / 16)) (String (hex_digit (n mod 16)) EmptyString).

(** The body of the loop from index [i] on. *)
Fixpoint loop (bs : list byte) (i : nat) : string :=
  match bs with
  | [] => EmptyString
  | b :: rest =>
      hex2 b
      ++ (if ((i + 1) mod 16 =? 0)%nat then String Js.newline EmptyString
          else " ")
      ++ loop rest (S i)
  end.

(** What follows the byte at index [i]. *)
Definition sep (i : nat) : ascii :=
  if ((i + 1) mod 16 =? 0)%nat then Js.newline else " "%char.

Definition LIMIT : nat := 10 * 1024.

(** The text handed to [showPaged]. *)
Definition hex_dump (bs : list byte) : string :=
  Js.trim (loop (firstn LIMIT bs) 0
           ++ (if (LIMIT <? List.length bs)%nat
               then String Js.newline "... (truncated)"
               else EmptyString)).

(** A reader of dumps, to state what a dump keeps of the bytes: pairs of
    hex digits with one character between them, up to the first pair that
    is not one. *)
Definition hex_val (c : ascii) : option nat :=
  match Js.digit_val 16 c with
  | Some d => Some (Z.to_nat d)
  | None => None
  end.

Definition byte_of_nat (n : nat) : byte :=
  match Byte.of_N (N.of_nat n) with Some b => b | None => x00 end.

Fixpoint undump (s : string) : list byte :=
  match s with
  | String a (String b rest) =>
      match hex_val a, hex_val b with
      | Some x, Some y =>
          byte_of_nat (16 * x + y)
          :: match rest with
             | String _ rest' => undump rest'
             | EmptyString => []
             end
      | _, _ => []
      end
  | _ => []
  end.

End HexDump.

(** ** script.js: the terminal

    The command line, the pager and the select lists. What is printed is
    recorded as the calls of [print] and of the pager bar; the rest of the
    application (the commands, the callbacks of the select lists and the
    state they work on) is a parameter. *)
Module Shell.

(** [S.pager] *)
Record Pager := {
  lines : list string;
  h : Z;
  pages : Z;
  cur : Z
}.

(** [S.imode] *)
Inductive IMode := Cmd | Select | Paging.

(** An entry of a select list. *)
Record Opt := { value : string; label : string }.

(** What [print] is called with, by the call site: the text of a line of
    the pager or of a short text as given; for the lines built from a
    template, the parts filled in, escaped where the template escapes
    them. *)
Inductive Line :=
| LText (t : string)
| LPrompt (title : string)
| LItem (idx : nat) (label : string)
| LHint
| LInvalid
| LEcho (cmd : string) (comment : option string)
| LUnknown (cmd : string).

(** What happens to the page: a call of [print]; the pager bar, if
    there is one, removed; a new pager bar appended, showing the range of
    lines and the total, with its Prev and Next buttons disabled or not. *)
Inductive Out :=
| OPrint (l : Line)
| OBarRemoved
| OBar (first last total : Z) (prevDisabled nextDisabled : bool).

(** [Object.keys(cmds)] *)
Definition cmd_names : list string :=
  ["help"; "list"; "use"; "import"; "result"; "doc"; "clear"].

Section Shell.

(** The state behind the commands and callbacks, and the callbacks
    given to [enterSelect]. *)
Variable App : Type.
Variable Cb : Type.

Record Sh := {
  app : App;
  history : list string;        (* S.history *)
  histIdx : Z;                  (* S.histIdx *)
  imode : IMode;                (* S.imode *)
  selectOpts : list Opt;        (* S.selectOpts *)
  selectCb : option Cb;         (* S.selectCb *)
  pager : option Pager;         (* S.pager *)
  ti : string;                  (* $ti.value *)
  ps : string;                  (* $ps.textContent *)
  out : list Out
}.

(** The state at the start of the script. *)
Definition start (a : App) : Sh :=
  {| app := a; history := []; histIdx := -1; imode := Cmd; selectOpts := [];
     selectCb := None; pager := None; ti := ""; ps := ""; out := [] |}.

Definition emit (o : Out) (s : Sh) : Sh :=
  {| app := app s; history := history s; histIdx := histIdx s;
     imode := imode s; selectOpts := selectOpts s; selectCb := selectCb s;
     pager := pager s; ti := ti s; ps := ps s; out := out s ++ [o] |}.

Definition print (l : Line) (s : Sh) : Sh := emit (OPrint l) s.

Definition setPs (p : string) (s : Sh) : Sh :=
  {| app := app s; history := history s; histIdx := histIdx s;
     imode := imode s; selectOpts := selectOpts s; selectCb := selectCb s;
     pager := pager s; ti := ti s; ps := p; out := out s |}.

Definition set_ti (v : string) (s : Sh) : Sh :=
  {| app := app s; history := history s; histIdx := histIdx s;
     imode := imode s; selectOpts := selectOpts s; selectCb := selectCb s;
     pager := pager s; ti := v; ps := ps s; out := out s |}.

Definition clearTi (s : Sh) : Sh := set_ti "" s.

Definition set_imode (m : IMode) (s : Sh) : Sh :=
  {| app := app s; history := history s; histIdx := histIdx s;
     imode := m; selectOpts := selectOpts s; selectCb := selectCb s;
     pager := pager s; ti := ti s; ps := ps s; out := out s |}.

Definition set_pager (p : option Pager) (s : Sh) : Sh :=
  {| app := app s; history := history s; histIdx := histIdx s;
     imode := imode s; selectOpts := selectOpts s; selectCb := selectCb s;
     pager := p; ti := ti s; ps := ps s; out := out s |}.

Definition set_select (opts : list Opt) (cb : option Cb) (s : Sh) : Sh :=
  {| app := app s; history := history s; histIdx := histIdx s;
     imode := imode s; selectOpts := opts; selectCb := cb;
     pager := pager s; ti := ti s; ps := ps s; out := out s |}.

Definition set_history (hs : list string) (i : Z) (s : Sh) : Sh :=
  {| app := app s; history := hs; histIdx := i;
     imode := imode s; selectOpts := selectOpts s; selectCb := selectCb s;
     pager := pager s; ti := ti s; ps := ps s; out := out s |}.

(** *** The pager *)

Definition with_cur (c : Z) (p : Pager) : Pager :=
  {| lines := lines p; h := h p; pages := pages p; cur := c |}.

(** [renderPage()], [S.pager] being [p] *)
Definition renderPage (p : Pager) (s : Sh) : Sh :=
  let len := Z.of_nat (List.length (lines p)) in
  let first := cur p * h p in
  let last := Z.min (first + h p) len in
  let s1 := emit OBarRemoved s in
  let s2 := fold_left (fun s' l => print (LText l) s')
                      (Js.slice (lines p) first last) s1 in
  emit (OBar (first + 1) last len
             (cur p =? 0) (pages p - 1 <=? cur p)) s2.

(** [showPaged(text, h)], for a positive [h] *)
Definition showPaged (text : string) (h : Z) (s : Sh) : Sh :=
  let lines := Js.split text Js.newline in
  let pages := Host.ceil_div (Z.of_nat (List.length lines)) h in
  if pages <=? 1 then print (LText text) s
  else
    let p := {| lines := lines; h := h; pages := pages; cur := 0 |} in
    set_imode Paging (renderPage p (set_pager (Some p) s)).

(** [closePager()] *)
Definition closePager (s : Sh) : Sh :=
  setPs "$" (emit OBarRemoved (set_imode Cmd (set_pager None s))).

(** The buttons of the bar of the current pager. *)
Definition click_prev (s : Sh) : Sh :=
  match pager s with
  | Some p =>
      if 0 <? cur p
      then let p' := with_cur (cur p - 1) p in
           renderPage p' (set_pager (Some p') s)
      else s
  | None => s
  end.

Definition click_next (s : Sh) : Sh :=
  match pager s with
  | Some p =>
      if cur p <? pages p - 1
      then let p' := with_cur (cur p + 1) p in
           renderPage p' (set_pager (Some p') s)
      else s
  | None => s
  end.

(** *** Select lists *)

(** [enterSelect(opts, cb, title)] *)
Definition enterSelect (opts : list Opt) (cb : Cb) (title : string)
           (s : Sh) : Sh :=
  let s1 := set_select opts (Some cb) (set_imode Select s) in
  let s2 := print (LPrompt title) s1 in
  let s3 := fold_left (fun s' io =>
                         print (LItem (fst io) (Html.esc (label (snd io)))) s')
                      (combine (seq 0 (List.length opts)) opts) s2 in
  setPs "?" (print LHint s3).

(** The callbacks, called with an entry of the list or with [undefined],
    and the commands: each runs on the state and returns or throws. *)
Variable call : Cb -> option Opt -> Sh -> Res unit * Sh.
Variable run_cmd : string -> string -> Sh -> Res unit * Sh.

(** The methods [cmds] inherits from [Object.prototype], by name: called
    with a string they return or throw, and touch neither [S] nor the
    page. A property that is no function throws when called. *)
Variable inherited : string -> option (string -> Res unit).

(** The state as a choice leaves it before the callback runs. *)
Definition chosen (s : Sh) : Sh :=
  setPs "$" (set_select [] None (set_imode Cmd s)).

(** [cb(sel)] for the [cb] that was in [S.selectCb] *)
Definition call_back (cb : option Cb) (sel : option Opt) (s : Sh)
  : Res unit * Sh :=
  match cb with
  | Some c => call c sel s
  | None => (Exn "cb is not a function", s)
  end.

(** [handleSelectClick], for a click on a select item whose [data-idx]
    parses to [idx] ([None]: NaN) *)
Definition handleSelectClick (idx : option Z) (s : Sh) : Res unit * Sh :=
  match imode s with
  | Select =>
      match idx, selectCb s with
      | Some i, Some cb =>
          let sel := if i <? 0 then None
                     else nth_error (selectOpts s) (Z.to_nat i) in
          call cb sel (chosen s)
      | _, _ => (Val tt, s)
      end
  | _ => (Val tt, s)
  end.

(** *** The command line *)

(** [cmds[cmd](arg)], or the complaint *)
Definition dispatch (cmd arg : string) (s : Sh) : Res unit * Sh :=
  if existsb (String.eqb cmd) cmd_names then run_cmd cmd arg s
  else match inherited cmd with
       | Some f => (f arg, s)
       | None => (Val tt, print (LUnknown (Html.esc cmd)) s)
       end.

(** then [clearTi()], unless an exception passed *)
Definition finish (r : Res unit * Sh) : Res unit * Sh :=
  match r with
  | (Val _, s) => (Val tt, clearTi s)
  | (Exn e, s) => (Exn e, s)
  end.

(** [handleInput(raw)] *)
Definition handleInput (raw : string) (s : Sh) : Res unit * Sh :=
  let v := Js.trim raw in
  match pager s with
  | Some p =>
      let c := Js.toLowerCase v in
      let s1 :=
        if String.eqb c "n" && (cur p <? pages p - 1) then
          let p' := with_cur (cur p + 1) p in
          renderPage p' (set_pager (Some p') s)
        else if String.eqb c "p" && (0 <? cur p) then
          let p' := with_cur (cur p - 1) p in
          renderPage p' (set_pager (Some p') s)
        else if String.eqb c "q" then closePager s
        else s in
      (Val tt, clearTi s1)
  | None =>
      match imode s with
      | Select =>
          let valid :=
            match Js.parseInt v with
            | Some n =>
                if (1 <=? n) && (n <=? Z.of_nat (List.length (selectOpts s)))
                then Some n else None
            | None => None
            end in
          match valid with
          | Some n =>
              finish (call_back (selectCb s)
                        (nth_error (selectOpts s) (Z.to_nat (n - 1)))
                        (chosen s))
          | None => (Val tt, clearTi (print LInvalid s))
          end
      | _ =>
          let '(cmdPart, commentPart) :=
            match Js.indexOf v "#" with
            | Some i => (Js.trim (Js.substring_to v i), Js.substring_from v i)
            | None => (v, EmptyString)
            end in
          let s1 :=
            print (LEcho (Html.esc cmdPart)
                         (if String.eqb commentPart "" then None
                          else Some (Html.esc commentPart))) s in
          if String.eqb cmdPart "" then (Val tt, clearTi s1)
          else
            let hs := history s1 ++ [v] in
            let s2 := set_history hs (Z.of_nat (List.length hs)) s1 in
            (* [const [cmd, ...args] = ...]: the array is never empty *)
            match Js.split_ws cmdPart with
            | cmd :: args => finish (dispatch cmd (Js.join " " args) s2)
            | [] => finish (dispatch "undefined" "" s2)
            end
      end
  end.

(** [S.history[S.histIdx]] written to [$ti.value] *)
Definition recall (s : Sh) : Sh :=
  set_ti (match (if histIdx s <? 0 then None
                 else nth_error (history s) (Z.to_nat (histIdx s))) with
          | Some l => l
          | None => "undefined"
          end) s.

(** The keys the listener of the input line reacts to. *)
Inductive Key := Enter | ArrowUp | ArrowDown | Tab.

(** The [keydown] listener of [$ti] *)
Definition keydown (k : Key) (s : Sh) : Res unit * Sh :=
  match k with
  | Enter => handleInput (ti s) s
  | ArrowUp =>
      if 0 <? histIdx s
      then (Val tt, recall (set_history (history s) (histIdx s - 1) s))
      else (Val tt, s)
  | ArrowDown =>
      if histIdx s <? Z.of_nat (List.length (history s)) - 1
      then (Val tt, recall (set_history (history s) (histIdx s + 1) s))
      else (Val tt,
            set_ti "" (set_history (history s)
                         (Z.of_nat (List.length (history s))) s))
  | Tab =>
      match filter (fun c => Js.startsWith c (Js.toLowerCase (ti s)))
                   cmd_names with
      | [m] => (Val tt, set_ti m s)
      | _ => (Val tt, s)
      end
  end.

(** What the user does at the terminal. *)
Inductive Event :=
| Key_ (k : Key)
| Type_ (text : string)        (* the input line is edited to hold [text] *)
| ClickPrev
| ClickNext
| ClickClose
| ClickItem (idx : option Z).

Definition react (ev : Event) (s : Sh) : Res unit * Sh :=
  match ev with
  | Key_ k => keydown k s
  | Type_ text => (Val tt, set_ti text s)
  | ClickPrev => (Val tt, click_prev s)
  | ClickNext => (Val tt, click_next s)
  | ClickClose =>
      match pager s with
      | Some _ => (Val tt, closePager s)
      | None => (Val tt, s)
      end
  | ClickItem idx => handleSelectClick idx s
  end.

(** A session: the events in order; an exception ends the handling of
    its event and nothing more. *)
Fixpoint session (evs : list Event) (s : Sh) : Sh :=
  match evs with
  | [] => s
  | ev :: rest => session rest (snd (react ev s))
  end.

(** The pager, when open, is in order: more than one page of [h > 0]
    lines each, as many pages as the lines need, and the current page
    among them. *)
Definition pager_ok (s : Sh) : Prop :=
  match pager s with
  | Some p =>
      0 < h p /\
      pages p = Host.ceil_div (Z.of_nat (List.length (lines p))) (h p) /\
      1 < pages p /\ 0 <= cur p < pages p
  | None => True
  end.

(** A pager bar shows a range of lines that exists. *)
Definition bar_ok (o : Out) : Prop :=
  match o with
  | OBar first last total _ _ => 1 <= first <= last /\ last <= total
  | _ => True
  end.

(** The pager is in order, and so is every bar shown so far. *)
Definition shown_ok (s : Sh) : Prop :=
  pager_ok s /\ Forall bar_ok (out s).

(** The position in the history is on an entry or just past the last;
    before the first command it is -1. *)
Definition history_ok (s : Sh) : Prop :=
  -1 <= histIdx s <= Z.of_nat (List.length (history s)) /\
  (histIdx s = -1 -> history s = []).

(** The lines of page [c] of a pager. *)
Definition page (p : Pager) (c : Z) : list string :=
  Js.slice (lines p) (c * h p) (Z.min (c * h p + h p)
                                  (Z.of_nat (List.length (lines p)))).

(** The texts of the lines printed, in order. *)
Definition printed_texts (o : list Out) : list string :=
  flat_map (fun x => match x with OPrint (LText t) => [t] | _ => [] end) o.

End Shell.

Arguments Build_Sh {App Cb} app history histIdx imode selectOpts selectCb
  pager ti ps out.
Arguments app {App Cb} s.
Arguments history {App Cb} s.
Arguments histIdx {App Cb} s.
Arguments imode {App Cb} s.
Arguments selectOpts {App Cb} s.
Arguments selectCb {App Cb} s.
Arguments pager {App Cb} s.
Arguments ti {App Cb} s.
Arguments ps {App Cb} s.
Arguments out {App Cb} s.
Arguments start {App Cb} a.
Arguments emit {App Cb} o s.
Arguments print {App Cb} l s.
Arguments setPs {App Cb} p s.
Arguments set_ti {App Cb} v s.
Arguments clearTi {App Cb} s.
Arguments set_imode {App Cb} m s.
Arguments set_pager {App Cb} p s.
Arguments set_select {App Cb} opts cb s.
Arguments set_history {App Cb} hs i s.
Arguments renderPage {App Cb} p s.
Arguments showPaged {App Cb} text h s.
Arguments closePager {App Cb} s.
Arguments click_prev {App Cb} s.
Arguments click_next {App Cb} s.
Arguments enterSelect {App Cb} opts cb title s.
Arguments chosen {App Cb} s.
Arguments call_back {App Cb} call cb sel s.
Arguments handleSelectClick {App Cb} call idx s.
Arguments dispatch {App Cb} run_cmd inherited cmd arg s.
Arguments finish {App Cb} r.
Arguments handleInput {App Cb} call run_cmd inherited raw s.
Arguments recall {App Cb} s.
Arguments keydown {App Cb} call run_cmd inherited k s.
Arguments react {App Cb} call run_cmd inherited ev s.
Arguments session {App Cb} call run_cmd inherited evs s.
Arguments pager_ok {App Cb} s.
Arguments history_ok {App Cb} s.
Arguments shown_ok {App Cb} s.

(** A terminal whose commands and callbacks do nothing, to run the
    model on. *)
Definition idle_call (cb : unit) (sel : option Opt) (s : Sh unit unit)
  : Res unit * Sh unit unit := (Val tt, s).

Definition idle_cmd (cmd arg : string) (s : Sh unit unit)
  : Res unit * Sh unit unit := (Val tt, s).

Definition no_inherited (cmd : string) : option (string -> Res unit) := None.

(** A text of three lines, and the terminal showing it two lines a
    page. *)
Definition three_lines : string :=
  "a" ++ String Js.newline "b" ++ String Js.newline "c".

Definition paging_three : Sh unit unit := showPaged three_lines 2 (start tt).

(** A select list of two entries, open. *)
Definition two_opts : list Opt :=
  [{| value := "encode"; label := "Encode" |};
   {| value := "decode"; label := "Decode" |}].

Definition selecting : Sh unit unit :=
  enterSelect two_opts tt "Operation:" (start tt).

End Shell.

(** ** engine-worker.js when a call need not return

    [Worker] takes every export call and the fetch of a module to come
    back, with a value or an error. Here they may also never come back:
    an export that loops, a fetch that never settles. The statements of
    [self.onmessage] are the same; what is new is that the handling of a
    message can stop for good in the middle. *)
Module Hanging.
Section Hanging.

Variable P : Type.

(** An exported function: its result and the instance after the call,
    or [None] when the call never returns. *)
Definition ExportFn := Worker.Inst P -> list Z -> option (Res Z * Worker.Inst P).

Record Exports := {
  exp_fn : string -> option ExportFn;
  exp_memory : bool
}.

(** [exports[r]] as a truth value *)
Definition has_export (ex : Exports) (r : string) : bool :=
  if String.eqb r "memory" then exp_memory ex
  else match exp_fn ex r with Some _ => true | None => false end.

(** How a run of statements ends: it comes to its end, with a value or
    an error thrown, or it is stuck in a call. *)
Inductive Out (A : Type) : Type :=
| Done (r : Res A)
| Stuck.
Arguments Done {A} r.
Arguments Stuck {A}.

Definition M (A : Type) := Worker.WS P -> Out A * Worker.WS P.

Definition ret {A} (a : A) : M A := fun s => (Done (Val a), s).
Definition throw {A} (msg : string) : M A := fun s => (Done (Exn msg), s).
Definition bind {A B} (c : M A) (k : A -> M B) : M B :=
  fun s => match c s with
           | (Done (Val a), s') => k a s'
           | (Done (Exn e), s') => (Done (Exn e), s')
           | (Stuck, s') => (Stuck, s')
           end.
Definition lift {A} (r : Res A) : M A := fun s => (Done r, s).

(** [try { body } finally { fin }]: a body that is stuck never reaches
    the [finally] block *)
Definition try_finally {A} (body : M A) (fin : M unit) : M A :=
  fun s => match body s with
           | (Done r, s') =>
               match fin s' with
               | (Done (Val _), s'') => (Done r, s'')
               | (Done (Exn e), s'') => (Done (Exn e), s'')
               | (Stuck, s'') => (Stuck, s'')
               end
           | (Stuck, s') => (Stuck, s')
           end.

Notation "x <- c ;; k" := (bind c (fun x => k))
  (at level 61, c at next level, right associativity).
Notation "c ;;; k" := (bind c (fun _ => k))
  (at level 61, right associativity).

(** [exports.name(args)]; a call that never returns leaves the state as
    it was when it began *)
Definition invoke (ex : Exports) (name : string) (args : list Z) : M Z :=
  fun s =>
    match exp_fn ex name with
    | None => (Done (Exn (name ++ " is not a function")%string), s)
    | Some f =>
        match f (Worker.inst s) args with
        | Some (r, i') =>
            (Done r,
             {| Worker.inst := i';
                Worker.calls :=
                  Worker.calls s ++
                  [{| Worker.c_name := name; Worker.c_args := args;
                      Worker.c_ret := Worker.ret_of r |}];
                Worker.posted := Worker.posted s |})
        | None => (Stuck, s)
        end
    end.

Definition get_mem : M bytes :=
  fun s => (Done (Val (Worker.mem (Worker.inst s))), s).

Definition set_mem (m : bytes) : M unit :=
  fun s => (Done (Val tt),
            {| Worker.inst := {| Worker.mem := m;
                                 Worker.priv := Worker.priv (Worker.inst s) |};
               Worker.calls := Worker.calls s;
               Worker.posted := Worker.posted s |}).

(** [self.postMessage(r)] *)
Definition postMessage (r : Response) : M unit :=
  fun s => (Done (Val tt),
            {| Worker.inst := Worker.inst s; Worker.calls := Worker.calls s;
               Worker.posted := Worker.posted s ++ [r] |}).

Variable utf8_decode : bytes -> string.

(** [for (const r of required) if (!exports[r]) throw ...] *)
Fixpoint check_required (ex : Exports) (rs : list string) : Res unit :=
  match rs with
  | [] => Val tt
  | r :: rs' =>
      if has_export ex r then check_required ex rs'
      else Exn ("Missing export: " ++ r)%string
  end.

Definition readStr (ptr lenPtr : Z) : M string :=
  m <- get_mem ;;
  len <- lift (Mem.read_u32 m lenPtr) ;;
  if len =? 0 then ret ""
  else
    m' <- get_mem ;;
    b <- lift (Mem.read_bytes m' ptr len) ;;
    ret (utf8_decode b).

Definition read_string_export (ex : Exports) (name : string) : M string :=
  lenPtr <- invoke ex "sb_alloc" [4] ;;
  ptr <- invoke ex name [lenPtr] ;;
  s <- readStr ptr lenPtr ;;
  invoke ex "sb_free" [lenPtr; 4] ;;;
  ret s.

Definition load_body (ex : Exports) : M EngineInfo :=
  lift (check_required ex Worker.required) ;;;
  engineId <- read_string_export ex "sb_get_id" ;;
  engineName <- (if has_export ex "sb_get_name"
                 then read_string_export ex "sb_get_name"
                 else ret engineId) ;;
  engineDesc <- (if has_export ex "sb_get_desc"
                 then read_string_export ex "sb_get_desc"
                 else ret "") ;;
  bs <- invoke ex "sb_is_binary_safe" [] ;;
  si <- invoke ex "sb_is_self_inverse" [] ;;
  rv <- invoke ex "sb_is_reversible" [] ;;
  ret {| info_id := engineId; info_name := engineName;
         info_desc := engineDesc;
         info_binarySafe := (bs =? 1);
         info_selfInverse := (si =? 1);
         info_reversible := (rv =? 1) |}.

Definition transform (ex : Exports) (id : Z) (type : Mode)
           (inPtr byteLength outLenPtr : Z) (isLast : bool) : M unit :=
  outPtr <- invoke ex (Worker.fnName type) [inPtr; byteLength; outLenPtr] ;;
  m1 <- get_mem ;;
  outLen <- lift (Mem.read_u32 m1 outLenPtr) ;;
  (if negb (outPtr =? 0) && negb (outLen =? 0)
   then m2 <- get_mem ;;
        result <- lift (Mem.read_bytes m2 outPtr outLen) ;;
        postMessage (RChunk id result)
   else ret tt) ;;;
  (if isLast then postMessage (RResult id) else ret tt).

Definition release (ex : Exports) (inPtr byteLength outLenPtr : Z) : M unit :=
  invoke ex "sb_free" [inPtr; byteLength] ;;;
  invoke ex "sb_free" [outLenPtr; 4] ;;;
  ret tt.

Definition data_body (ex : Exports) (id : Z) (type : Mode) (chunk : bytes)
           (isLast : bool) : M unit :=
  let byteLength := Z.of_nat (List.length chunk) in
  inPtr <- invoke ex "sb_alloc" [byteLength] ;;
  if inPtr =? 0 then throw "sb_alloc failed"
  else
    m <- get_mem ;;
    m' <- lift (Mem.write_bytes m inPtr chunk) ;;
    set_mem m' ;;;
    outLenPtr <- invoke ex "sb_alloc" [4] ;;
    if outLenPtr =? 0 then
      invoke ex "sb_free" [inPtr; byteLength] ;;;
      throw "sb_alloc for outLenPtr failed"
    else
      try_finally (transform ex id type inPtr byteLength outLenPtr isLast)
                  (release ex inPtr byteLength outLenPtr).

(** The worker's globals, as in [Worker.State]. *)
Record State := {
  wasmExports : option (Exports * Worker.Inst P);
  engineInfo : option EngineInfo;
  log : list Worker.Call
}.

(** [fetch], [WebAssembly.compile] and [WebAssembly.instantiate] of a
    URL; [None] when one of these promises never settles. *)
Variable instantiate : string -> option (Res (Exports * Worker.Inst P)).

(** What a run of [self.onmessage] leaves: the globals, the messages
    posted, and whether the handler came to its end. *)
Record Handled := {
  after : State;
  answers : list Response;
  finished : bool
}.

(** [self.onmessage] *)
Definition onmessage (st : State) (req : Request) : Handled :=
  match req with
  | ReqLoad id wasmUrl =>
      match instantiate wasmUrl with
      | None => {| after := st; answers := []; finished := false |}
      | Some (Exn e) =>
          {| after := st; answers := [RError id e]; finished := true |}
      | Some (Val (ex, i0)) =>
          match load_body ex {| Worker.inst := i0; Worker.calls := log st;
                                Worker.posted := [] |} with
          | (Done (Val info), s) =>
              {| after := {| wasmExports := Some (ex, Worker.inst s);
                             engineInfo := Some info;
                             log := Worker.calls s |};
                 answers := Worker.posted s ++ [RLoaded id info];
                 finished := true |}
          | (Done (Exn e), s) =>
              {| after := {| wasmExports := wasmExports st;
                             engineInfo := engineInfo st;
                             log := Worker.calls s |};
                 answers := Worker.posted s ++ [RError id e];
                 finished := true |}
          | (Stuck, s) =>
              {| after := {| wasmExports := wasmExports st;
                             engineInfo := engineInfo st;
                             log := Worker.calls s |};
                 answers := Worker.posted s;
                 finished := false |}
          end
      end
  | ReqData id type chunk isLast _ =>
      match wasmExports st with
      | None => {| after := st; answers := [RError id "Engine not loaded"];
                   finished := true |}
      | Some (ex, i) =>
          let '(o, s) :=
            data_body ex id type chunk isLast
                      {| Worker.inst := i; Worker.calls := log st;
                         Worker.posted := [] |} in
          {| after := {| wasmExports := Some (ex, Worker.inst s);
                         engineInfo := engineInfo st;
                         log := Worker.calls s |};
             answers := Worker.posted s ++ match o with
                                           | Done (Exn e) => [RError id e]
                                           | _ => []
                                           end;
             finished := match o with Stuck => false | Done _ => true end |}
      end
  end.

(** [sb_alloc] and [sb_free] return, failure of [sb_alloc] is the null
    pointer, and a non-null result of [sb_alloc(n)] is the address of [n]
    bytes of the memory. *)
Definition conforming_allocator (ex : Exports) : Prop :=
  exists alloc free,
    exp_fn ex "sb_alloc" = Some alloc /\
    exp_fn ex "sb_free" = Some free /\
    (forall i n, exists p i',
        alloc i [n] = Some (Val p, i') /\
        (p <> 0 -> 0 <= p /\ p + n <= Z.of_nat (List.length (Worker.mem i')))) /\
    (forall i args, exists v i', free i args = Some (Val v, i')).

(** A computation that posts nothing, however it ends. *)
Definition quiet {A} (c : M A) : Prop :=
  forall (s : Worker.WS P) o (s' : Worker.WS P),
    c s = (o, s') -> Worker.posted s' = Worker.posted s.

(** An end that is not a value, and the same end for the statements
    that would have followed. *)
Definition fails {A} (o : Out A) : Prop :=
  match o with Done (Val _) => False | _ => True end.

Definition recast {A B} (o : Out A) : Out B :=
  match o with
  | Done (Exn e) => Done (Exn e)
  | _ => Stuck
  end.

(** A computation here and one of [Worker] that do the same. *)
Definition agrees {A} (c' : M A) (c : Worker.M P A) : Prop :=
  forall s, c' s = (Done (fst (c s)), snd (c s)).

(** A module of [Worker], every call of which comes back, seen here. *)
Definition returning (f : Worker.ExportFn P) : ExportFn :=
  fun i args => Some (f i args).

Definition of_exports (ex : Worker.Exports P) : Exports :=
  {| exp_fn := fun name => option_map returning (Worker.exp_fn ex name);
     exp_memory := Worker.exp_memory ex |}.

Definition of_state (st : Worker.State P) : State :=
  {| wasmExports :=
       match Worker.wasmExports st with
       | Some (ex, i) => Some (of_exports ex, i)
       | None => None
       end;
     engineInfo := Worker.engineInfo st;
     log := Worker.log st |}.

Definition of_instantiate
           (inst0 : string -> Res (Worker.Exports P * Worker.Inst P))
           (url : string) : option (Res (Exports * Worker.Inst P)) :=
  Some (match inst0 url with
        | Val (ex, i) => Val (of_exports ex, i)
        | Exn e => Exn e
        end).

End Hanging.

Arguments Done {A} r.
Arguments Stuck {A}.
Arguments Build_Exports {P} exp_fn exp_memory.
Arguments exp_fn {P} e name.
Arguments exp_memory {P} e.
Arguments has_export {P} ex r.
Arguments ret {P A} a _.
Arguments throw {P A} msg _.
Arguments bind {P A B} c k _.
Arguments lift {P A} r _.
Arguments try_finally {P A} body fin _.
Arguments invoke {P} ex name args _.
Arguments get_mem {P} _.
Arguments set_mem {P} m _.
Arguments postMessage {P} r _.
Arguments check_required {P} ex rs.
Arguments readStr {P} utf8_decode ptr lenPtr _.
Arguments read_string_export {P} utf8_decode ex name _.
Arguments load_body {P} utf8_decode ex _.
Arguments transform {P} ex id type inPtr byteLength outLenPtr isLast _.
Arguments release {P} ex inPtr byteLength outLenPtr _.
Arguments data_body {P} ex id type chunk isLast _.
Arguments Build_State {P} wasmExports engineInfo log.
Arguments wasmExports {P} s.
Arguments engineInfo {P} s.
Arguments log {P} s.
Arguments Build_Handled {P} after answers finished.
Arguments after {P} h.
Arguments answers {P} h.
Arguments finished {P} h.
Arguments onmessage {P} utf8_decode instantiate st req.
Arguments conforming_allocator {P} ex.
Arguments quiet {P A} c.
Arguments returning {P} f.
Arguments of_exports {P} ex.
Arguments of_state {P} st.
Arguments of_instantiate {P} inst0 url.
Arguments agrees {P A} c' c.

(** The complete example engine with an [sb_encode] that never
    returns. *)
Definition looping : ExportFn unit := fun _ _ => None.

Definition echo_looping : Exports unit :=
  {| exp_fn := fun name =>
       if String.eqb name "sb_encode" then Some looping
       else exp_fn (of_exports Echo.full) name;
     exp_memory := true |}.

(** A context in which it was just instantiated. *)
Definition fresh_looping : State unit :=
  {| wasmExports := Some (echo_looping, Echo.inst0); engineInfo := None;
     log := [] |}.

(** What the URLs of the examples resolve to; [engines/slow.wasm] is
    never fetched to its end. *)
Definition instantiate (url : string)
  : option (Res (Exports unit * Worker.Inst unit)) :=
  if String.eqb url "engines/slow.wasm" then None
  else if String.eqb url "engines/looping.wasm"
       then Some (Val (echo_looping, Echo.inst0))
  else match Echo.instantiate url with
       | Val (ex, i) => Some (Val (of_exports ex, i))
       | Exn e => Some (Exn e)
       end.

End Hanging.

(** * Properties of the worker *)
Module WorkerFacts.
Import Worker.

Section WorkerFacts.

Variable P : Type.
Variable utf8_decode : bytes -> string.
Variable instantiate : string -> Res (Exports P * Inst P).


Lemma bind_val {A B} (c : M P A) (k : A -> M P B) (s s' : WS P) b :
  bind c k s = (Val b, s') ->
  exists a s1, c s = (Val a, s1) /\ k a s1 = (Val b, s').
Proof.
  unfold bind. destruct (c s) as [[a|e] s1]; intros H.
  - eauto.
  - discriminate.
Qed.

Lemma quiet_bind {A B} (c : M P A) (k : A -> M P B) :
  quiet c -> (forall a, quiet (P:=P) (k a)) -> quiet (P:=P) (bind c k).
Proof.
  intros Hc Hk s r s'. unfold bind.
  destruct (c s) as [[a|e] s1] eqn:E; intros H.
  - rewrite (Hk _ _ _ _ H). eauto.
  - inversion H; subst. eauto.
Qed.

Lemma quiet_ret {A} (a : A) : quiet (P:=P) (ret (P:=P) a).
Proof. intros s r s' H. inversion H; reflexivity. Qed.

Lemma quiet_throw {A} e : quiet (P:=P) (throw (P:=P) (A:=A) e).
Proof. intros s r s' H. inversion H; reflexivity. Qed.

Lemma quiet_lift {A} (x : Res A) : quiet (P:=P) (lift (P:=P) x).
Proof. intros s r s' H. inversion H; reflexivity. Qed.

Lemma quiet_get_mem : quiet (P:=P) (get_mem (P:=P)).
Proof. intros s r s' H. inversion H; reflexivity. Qed.

Lemma quiet_invoke ex name args : quiet (P:=P) (invoke (P:=P) ex name args).
Proof.
  intros s r s'. unfold invoke.
  destruct (exp_fn ex name) as [f|].
  - destruct (f (inst s) args) as [r0 i']. intros H; inversion H; reflexivity.
  - intros H; inversion H; reflexivity.
Qed.

Lemma quiet_readStr ptr lenPtr : quiet (P:=P) (readStr utf8_decode ptr lenPtr).
Proof.
  unfold readStr.
  apply quiet_bind; [apply quiet_get_mem|intros m].
  apply quiet_bind; [apply quiet_lift|intros len].
  destruct (len =? 0); [apply quiet_ret|].
  apply quiet_bind; [apply quiet_get_mem|intros m'].
  apply quiet_bind; [apply quiet_lift|intros b].
  apply quiet_ret.
Qed.

Lemma quiet_read_string_export ex name :
  quiet (P:=P) (read_string_export utf8_decode ex name).
Proof.
  unfold read_string_export.
  apply quiet_bind; [apply quiet_invoke|intros lenPtr].
  apply quiet_bind; [apply quiet_invoke|intros ptr].
  apply quiet_bind; [apply quiet_readStr|intros s].
  apply quiet_bind; [apply quiet_invoke|intros _].
  apply quiet_ret.
Qed.

Lemma quiet_load_body ex : quiet (P:=P) (load_body utf8_decode ex).
Proof.
  unfold load_body.
  apply quiet_bind; [apply quiet_lift|intros _].
  apply quiet_bind; [apply quiet_read_string_export|intros engineId].
  apply quiet_bind;
    [destruct (has_export ex "sb_get_name");
     [apply quiet_read_string_export|apply quiet_ret]|intros engineName].
  apply quiet_bind;
    [destruct (has_export ex "sb_get_desc");
     [apply quiet_read_string_export|apply quiet_ret]|intros engineDesc].
  apply quiet_bind; [apply quiet_invoke|intros bs].
  apply quiet_bind; [apply quiet_invoke|intros si].
  apply quiet_bind; [apply quiet_invoke|intros rv].
  apply quiet_ret.
Qed.

Lemma invoke_val (ex : Exports P) name args (s s' : WS P) v :
  invoke ex name args s = (Val v, s') ->
  calls s' = calls s ++ [{| c_name := name; c_args := args; c_ret := Some v |}].
Proof.
  unfold invoke. destruct (exp_fn ex name) as [f|]; [|discriminate].
  destruct (f (inst s) args) as [r0 i']. intros H; inversion H; subst.
  reflexivity.
Qed.

(** What the load branch answers, by cases. *)
Lemma onmessage_load st id url :
  onmessage utf8_decode instantiate st (ReqLoad id url) =
  match instantiate url with
  | Exn e => (st, [RError id e])
  | Val (ex, i0) =>
      match load_body utf8_decode ex
              {| inst := i0; calls := log st; posted := [] |} with
      | (Val info, s) =>
          ({| wasmExports := Some (ex, inst s); engineInfo := Some info;
              log := calls s |}, [RLoaded id info])
      | (Exn e, s) =>
          ({| wasmExports := wasmExports st; engineInfo := engineInfo st;
              log := calls s |}, [RError id e])
      end
  end.
Proof.
  unfold onmessage. destruct (instantiate url) as [[ex i0]|e]; [|reflexivity].
  destruct (load_body utf8_decode ex _) as [[info|e] s] eqn:E;
    apply quiet_load_body in E; simpl in E; rewrite E; reflexivity.
Qed.

(** C10. When a load is answered with a descriptor, the record of export
    calls ends with the calls of the three flag exports, and each flag of
    the descriptor is true exactly when its export returned 1; any other
    value, zero or not, gives false. *)
Theorem capability_flag_iff_export_returns_1 :
  forall st id url id' info,
    In (RLoaded id' info)
       (snd (onmessage utf8_decode instantiate st (ReqLoad id url))) ->
    exists pre bs si rv,
      log (fst (onmessage utf8_decode instantiate st (ReqLoad id url))) =
        pre ++ [ {| c_name := "sb_is_binary_safe"; c_args := [];
                    c_ret := Some bs |};
                 {| c_name := "sb_is_self_inverse"; c_args := [];
                    c_ret := Some si |};
                 {| c_name := "sb_is_reversible"; c_args := [];
                    c_ret := Some rv |} ] /\
      (info_binarySafe info = true <-> bs = 1) /\
      (info_selfInverse info = true <-> si = 1) /\
      (info_reversible info = true <-> rv = 1).
Proof.
  intros st id url id' info. rewrite onmessage_load.
  destruct (instantiate url) as [[ex i0]|e]; simpl.
  2:{ intros [H|[]]; discriminate. }
  destruct (load_body utf8_decode ex _) as [[info0|e] s] eqn:E; simpl.
  2:{ intros [H|[]]; discriminate. }
  intros [H|[]]. inversion H; subst id' info0; clear H.
  unfold load_body in E.
  apply bind_val in E as (? & s1 & _ & E).
  apply bind_val in E as (engineId & s2 & _ & E).
  apply bind_val in E as (engineName & s3 & _ & E).
  apply bind_val in E as (engineDesc & s4 & _ & E).
  apply bind_val in E as (bs & s5 & Hbs & E).
  apply bind_val in E as (si & s6 & Hsi & E).
  apply bind_val in E as (rv & s7 & Hrv & E).
  inversion E; subst; clear E.
  apply invoke_val in Hbs, Hsi, Hrv.
  exists (calls s4), bs, si, rv. simpl.
  rewrite Hrv, Hsi, Hbs, <- !app_assoc. simpl.
  repeat split; try apply Z.eqb_eq; try (intros; apply Z.eqb_eq; assumption).
Qed.


Lemma obtained_app (a b : list Call) : obtained (a ++ b) = obtained a ++ obtained b.
Proof. unfold obtained. apply flat_map_app. Qed.

Lemma released_app (a b : list Call) : released (a ++ b) = released a ++ released b.
Proof. unfold released. apply flat_map_app. Qed.

Lemma alloc_failed_app (a b : list Call) :
  alloc_failed (a ++ b) = alloc_failed a || alloc_failed b.
Proof. unfold alloc_failed. apply existsb_app. Qed.

Lemma silent_bind {A B} (c : M P A) (k : A -> M P B) :
  silent c -> (forall a, silent (P:=P) (k a)) -> silent (P:=P) (bind c k).
Proof.
  intros Hc Hk s r s'. unfold bind.
  destruct (c s) as [[a|e] s1] eqn:E; intros H.
  - rewrite (Hk _ _ _ _ H). eauto.
  - inversion H; subst. eauto.
Qed.

Lemma silent_ret {A} (a : A) : silent (P:=P) (ret (P:=P) a).
Proof. intros s r s' H. inversion H; reflexivity. Qed.

Lemma silent_lift {A} (x : Res A) : silent (P:=P) (lift (P:=P) x).
Proof. intros s r s' H. inversion H; reflexivity. Qed.

Lemma silent_get_mem : silent (P:=P) (get_mem (P:=P)).
Proof. intros s r s' H. inversion H; reflexivity. Qed.

Lemma silent_postMessage m : silent (P:=P) (postMessage (P:=P) m).
Proof. intros s r s' H. inversion H; reflexivity. Qed.

Lemma invoke_shape (ex : Exports P) name args (s s' : WS P) r :
  invoke ex name args s = (r, s') ->
  calls s' = calls s \/
  calls s' = calls s ++ [{| c_name := name; c_args := args; c_ret := ret_of r |}].
Proof.
  unfold invoke. destruct (exp_fn ex name) as [f|].
  - destruct (f (inst s) args) as [r0 i']. intros H; inversion H; subst.
    right; reflexivity.
  - intros H; inversion H; subst. left; reflexivity.
Qed.

(** The body of the [try]: at most one call, to the transform export. *)
Lemma transform_calls (ex : Exports P) id type inPtr n outLenPtr isLast
      (s s' : WS P) r :
  transform ex id type inPtr n outLenPtr isLast s = (r, s') ->
  exists l, calls s' = calls s ++ l /\ obtained l = [] /\ released l = [] /\
            alloc_failed l = false.
Proof.
  unfold transform. unfold bind at 1.
  destruct (invoke ex (fnName type) [inPtr; n; outLenPtr] s)
    as [[outPtr|e] s1] eqn:E; intros H.
  - assert (Hs : calls s' = calls s1).
    { revert H. apply silent_bind; [apply silent_get_mem|intros m1].
      apply silent_bind; [apply silent_lift|intros outLen].
      apply silent_bind.
      - destruct (negb (outPtr =? 0) && negb (outLen =? 0)).
        + apply silent_bind; [apply silent_get_mem|intros m2].
          apply silent_bind; [apply silent_lift|intros res].
          apply silent_postMessage.
        + apply silent_ret.
      - intros _. destruct isLast; [apply silent_postMessage|apply silent_ret]. }
    rewrite Hs. apply invoke_shape in E as [E|E]; rewrite E.
    + exists []. rewrite app_nil_r. auto.
    + eexists; split; [reflexivity|]. destruct type; auto.
  - inversion H; subst. apply invoke_shape in E as [E|E]; rewrite E.
    + exists []. rewrite app_nil_r. auto.
    + eexists; split; [reflexivity|]. destruct type; auto.
Qed.

Lemma data_body_exits (ex : Exports P) id type chunk isLast (s0 : WS P) :
  conforming_allocator ex ->
  forall r (s : WS P),
    data_body ex id type chunk isLast s0 = (r, s) ->
    exists new,
      calls s = calls s0 ++ new /\
      released new = obtained new /\
      (alloc_failed new = false ->
       exists inPtr outLenPtr,
         obtained new = [(inPtr, Z.of_nat (List.length chunk)); (outLenPtr, 4)]) /\
      (alloc_failed new = true ->
       posted s = posted s0 /\
       (r = Exn "sb_alloc failed" \/ r = Exn "sb_alloc for outLenPtr failed")).
Proof.
  intros (alloc & free & Ha & Hf & Halloc & Hfree) r s.
  unfold data_body. unfold bind at 1. unfold invoke at 1. rewrite Ha.
  destruct (Halloc (inst s0) (Z.of_nat (List.length chunk)))
    as (p & i1 & Hp & Hin).
  rewrite Hp.
  destruct (Z.eqb_spec p 0) as [->|Hp0].
  { (* the input buffer could not be allocated *)
    intros H; inversion H; subst; clear H. simpl.
    eexists; split; [reflexivity|]. simpl. repeat split; auto.
    discriminate. }
  destruct (Hin Hp0) as [Hlo Hhi].
  assert (Ep : (p =? 0) = false) by (apply Z.eqb_neq; assumption).
  assert (Em : match p with 0 => true | _ => false end = false)
    by (destruct p; congruence).
  unfold bind at 1. unfold get_mem at 1. simpl.
  unfold bind at 1. unfold lift at 1. unfold Mem.write_bytes.
  replace (p <? 0) with false by (symmetry; apply Z.ltb_ge; lia).
  replace (Z.of_nat (List.length (mem i1)) <? p + Z.of_nat (List.length chunk))
    with false by (symmetry; apply Z.ltb_ge; lia).
  simpl. unfold bind at 1. unfold set_mem at 1. simpl.
  unfold bind at 1. unfold invoke at 1. rewrite Ha. simpl inst.
  match goal with
  | |- context [alloc ?j [4]] => destruct (Halloc j 4) as (q & i2 & Hq & _)
  end.
  rewrite Hq.
  destruct (Z.eqb_spec q 0) as [->|Hq0].
  { (* the length cell could not be allocated *)
    unfold bind at 1. unfold invoke at 1. rewrite Hf. simpl inst.
    match goal with
    | |- context [free ?j ?a] => destruct (Hfree j a) as (v & i3 & Hv)
    end.
    rewrite Hv. cbn [bind throw calls posted inst].
    intros H; inversion H; subst; clear H. cbn [calls posted inst].
    eexists; split; [rewrite <- !app_assoc; reflexivity|]. simpl.
    rewrite Ep, Em. simpl. repeat split; auto. discriminate. }
  assert (Eq : (q =? 0) = false) by (apply Z.eqb_neq; assumption).
  assert (Em' : match q with 0 => true | _ => false end = false)
    by (destruct q; congruence).
  unfold try_finally.
  match goal with
  | |- context [transform ?a ?b ?c ?d ?e ?f ?g ?s] =>
      destruct (transform a b c d e f g s) as [r1 s1] eqn:Et
  end.
  apply transform_calls in Et as (l & Hl & Hob & Hre & Hfa). simpl in Hl.
  unfold release. unfold bind at 1. unfold invoke at 1. rewrite Hf.
  destruct (Hfree (inst s1) [p; Z.of_nat (List.length chunk)]) as (v & i3 & Hv).
  rewrite Hv. unfold bind at 1. unfold invoke at 1. rewrite Hf. simpl inst.
  destruct (Hfree i3 [q; 4]) as (v' & i4 & Hv'). rewrite Hv'.
  cbn [bind ret calls posted inst].
  intros H. assert (Hs : calls s = ((calls s1 ++
      [{| c_name := "sb_free"; c_args := [p; Z.of_nat (List.length chunk)];
          c_ret := Some v |}]) ++
      [{| c_name := "sb_free"; c_args := [q; 4]; c_ret := Some v' |}])).
  { destruct r1; inversion H; subst; reflexivity. }
  clear H. rewrite Hs, Hl.
  eexists; split; [rewrite <- !app_assoc; reflexivity|].
  rewrite !released_app, !obtained_app, !alloc_failed_app, Hob, Hre, Hfa.
  simpl. rewrite Ep, Eq, Em, Em'. simpl.
  repeat split; eauto; discriminate.
Qed.

(** What holds under the contract of the allocator. With an allocator
    that keeps to the ABI, the buffers handed to [sb_free] during an
    encode/decode request are exactly the buffers obtained from
    [sb_alloc], whether the transform returned, threw or is missing; when
    no allocation failed these are the input buffer and the 4-byte length
    cell; and a null pointer from [sb_alloc] makes the request fail with
    an allocation error, the input buffer, if it was obtained, having been
    freed. *)
Theorem buffers_freed_on_every_exit_path :
  forall (ex : Exports P) i st id type chunk isLast totalChunks,
    conforming_allocator ex ->
    wasmExports st = Some (ex, i) ->
    let req := ReqData id type chunk isLast totalChunks in
    let st' := fst (onmessage utf8_decode instantiate st req) in
    let out := snd (onmessage utf8_decode instantiate st req) in
    exists new,
      log st' = log st ++ new /\
      released new = obtained new /\
      (alloc_failed new = false ->
       exists inPtr outLenPtr,
         obtained new = [(inPtr, Z.of_nat (List.length chunk)); (outLenPtr, 4)]) /\
      (alloc_failed new = true ->
       out = [RError id "sb_alloc failed"] \/
       out = [RError id "sb_alloc for outLenPtr failed"]).
Proof.
  intros ex i st id type chunk isLast totalChunks Hc Hst.
  cbv zeta. unfold onmessage. rewrite Hst.
  destruct (data_body ex id type chunk isLast _) as [r s] eqn:E.
  apply (data_body_exits _ _ _ _ _ _ Hc) in E
    as (new & Hlog & Hbal & Hok & Hfail).
  simpl in *. exists new. repeat split; auto.
  intros Hf. destruct (Hfail Hf) as [Hp [-> | ->]]; rewrite Hp; auto.
Qed.

End WorkerFacts.
End WorkerFacts.

(** * Properties of the host *)
Module HostFacts.
Import Host.

Lemma nth_error_upd_eq {A} (l : list A) i f x :
  nth_error l i = Some x -> nth_error (upd l i f) i = Some (f x).
Proof.
  revert i; induction l as [|y l IH]; intros [|i] H; simpl in *;
    try discriminate.
  - inversion H; reflexivity.
  - auto.
Qed.

Lemma nth_error_upd_neq {A} (l : list A) i j f :
  i <> j -> nth_error (upd l i f) j = nth_error l j.
Proof.
  revert i j; induction l as [|y l IH]; intros [|i] [|j] H; simpl; auto.
  - contradiction.
Qed.

Lemma upd_length {A} (l : list A) i f : List.length (upd l i f) = List.length l.
Proof.
  revert i; induction l as [|y l IH]; intros [|i]; simpl; auto.
Qed.

Lemma upd_app_last {A} (l : list A) x f :
  upd (l ++ [x]) (List.length l) f = l ++ [f x].
Proof. induction l as [|y l IH]; simpl; [reflexivity|now rewrite IH]. Qed.

Lemma nth_error_app_last {A} (l : list A) x :
  nth_error (l ++ [x]) (List.length l) = Some x.
Proof. induction l as [|y l IH]; simpl; auto. Qed.

Lemma upd_upd {A} (l : list A) i f g :
  upd (upd l i f) i g = upd l i (fun x => g (f x)).
Proof.
  revert i; induction l as [|y l IH]; intros [|i]; simpl; auto.
  now rewrite IH.
Qed.

Section HostFacts.

Variable P : Type.
Variable utf8_decode : bytes -> string.
Variable instantiate : string -> Res (Worker.Exports P * Worker.Inst P).

(** The world once a load was started in [w]: a new worker with the load
    request in its queue. *)
Lemma loadWasmEngine_eq (w : World P) url isPreset :
  loadWasmEngine url isPreset w =
  {| engines := engines w;
     nextRequestId := js_succ (nextRequestId w);
     workers := workers w ++
       [{| handlers := [HLoad (nextRequestId w) isPreset];
           inbox := [ReqLoad (nextRequestId w) url];
           outbox := []; context := Worker.init; terminated := false |}];
     ops := ops w;
     events := events w ++
       [EvNewWorker (List.length (workers w));
        EvListen (List.length (workers w)) (HLoad (nextRequestId w) isPreset);
        EvPost (List.length (workers w)) (ReqLoad (nextRequestId w) url)] |}.
Proof.
  unfold loadWasmEngine, createWorkerForEngine, new_worker,
    postinc_nextRequestId, addEventListener, postMessage, upd_worker, emit,
    set_workers. simpl.
  rewrite upd_app_last. simpl. rewrite upd_app_last. simpl.
  rewrite <- !app_assoc. reflexivity.
Qed.

Lemma run_load (w : World P) url isPreset st r :
  Worker.onmessage utf8_decode instantiate Worker.init
    (ReqLoad (nextRequestId w) url) = (st, [r]) ->
  let h := List.length (workers w) in
  run utf8_decode instantiate [ALoad url isPreset; AWorker h; ADeliver h] w =
  Some (run_handler h r (HLoad (nextRequestId w) isPreset)
          (answered w st url isPreset r)).
Proof.
  intros Hw h. unfold run, step. rewrite loadWasmEngine_eq.
  unfold worker_turn. cbn [workers]. subst h. rewrite nth_error_app_last.
  cbn [terminated inbox context]. rewrite Hw.
  unfold upd_worker, set_workers. cbn [workers]. rewrite upd_app_last.
  unfold host_turn. cbn [workers]. rewrite nth_error_app_last.
  cbn [terminated outbox handlers inbox context app].
  unfold upd_worker, set_workers. cbn [workers]. rewrite upd_app_last.
  unfold dispatch, emit. cbn [workers]. rewrite nth_error_app_last.
  cbn [handlers fold_left engines nextRequestId ops events inbox outbox context terminated].
  rewrite <- !app_assoc. reflexivity.
Qed.


(** ** The registry *)

Lemma get_set_same {V} (m : @JsMap.t V) k v : JsMap.get (JsMap.set m k v) k = Some v.
Proof.
  induction m as [|[k' v'] m IH]; simpl.
  - now rewrite String.eqb_refl.
  - destruct (String.eqb_spec k' k) as [->|Hne]; simpl.
    + now rewrite String.eqb_refl.
    + destruct (String.eqb_spec k' k); [contradiction|assumption].
Qed.

Lemma in_keys_set {V} (m : @JsMap.t V) k v k0 :
  In k0 (JsMap.keys (JsMap.set m k v)) -> In k0 (JsMap.keys m) \/ k0 = k.
Proof.
  induction m as [|[k' v'] m IH]; simpl.
  - intros [H|[]]; auto.
  - destruct (String.eqb_spec k' k) as [->|Hne]; simpl; intros [H|H]; auto.
    destruct (IH H); auto.
Qed.

Lemma keys_set_nodup {V} (m : @JsMap.t V) k v :
  NoDup (JsMap.keys m) -> NoDup (JsMap.keys (JsMap.set m k v)).
Proof.
  induction m as [|[k' v'] m IH]; simpl; intros H.
  - constructor; [intros []|constructor].
  - inversion H as [|? ? Hn Hd]; subst.
    destruct (String.eqb_spec k' k) as [->|Hne]; simpl.
    + constructor; assumption.
    + constructor; [|auto].
      intros Hin. apply in_keys_set in Hin as [Hin|Heq]; [auto|congruence].
Qed.

Lemma count_absent {V} (m : @JsMap.t V) k :
  ~ In k (JsMap.keys m) -> JsMap.count m k = 0%nat.
Proof.
  unfold JsMap.count. induction m as [|[k' v'] m IH]; simpl; intros H; auto.
  destruct (String.eqb_spec k' k) as [->|Hne]; [exfalso; auto|].
  apply IH. intros Hin; auto.
Qed.

Lemma count_nodup {V} (m : @JsMap.t V) k v :
  NoDup (JsMap.keys m) -> JsMap.get m k = Some v -> JsMap.count m k = 1%nat.
Proof.
  unfold JsMap.count. induction m as [|[k' v'] m IH]; simpl; intros Hd Hg.
  - discriminate.
  - inversion Hd as [|? ? Hn Hd']; subst.
    destruct (String.eqb_spec k' k) as [->|Hne]; simpl.
    + f_equal. apply (count_absent m k Hn).
    + auto.
Qed.

(** ** What the host's operations leave alone *)

Lemma fold_left_inv {A B} (f : A -> B -> A) (I : A -> Prop) l a :
  I a -> (forall a b, I a -> I (f a b)) -> I (fold_left f l a).
Proof. revert a; induction l; simpl; auto. Qed.

Lemma run_handler_engines (w : World P) h r hd :
  NoDup (JsMap.keys (engines w)) ->
  NoDup (JsMap.keys (engines (run_handler h r hd w))).
Proof.
  intros H. destruct hd as [rid p|rid k]; simpl;
    destruct (resp_id r =? rid); auto; destruct r; simpl; auto.
  unfold loadWasmEngine_loaded. simpl.
  destruct (JsMap.get (engines w) (info_id payload)); simpl;
    apply keys_set_nodup; assumption.
Qed.

Lemma step_engines (w w' : World P) a :
  step utf8_decode instantiate a w = Some w' ->
  NoDup (JsMap.keys (engines w)) -> NoDup (JsMap.keys (engines w')).
Proof.
  destruct a; simpl; intros H Hd.
  - inversion H; subst. rewrite loadWasmEngine_eq. assumption.
  - inversion H; subst. unfold callEngine.
    destruct (JsMap.get (engines w) engineId); simpl; assumption.
  - inversion H; subst. unfold processFile, processFile_with. simpl.
    destruct (JsMap.get (engines w) engineId); simpl; assumption.
  - destruct (pending_read k w) as [[f c]|]; inversion H; subst. assumption.
  - destruct (pending_read k w) as [[f c]|]; inversion H; subst. assumption.
  - unfold worker_turn in H. destruct (nth_error (workers w) h); [|discriminate].
    destruct (terminated w0); [discriminate|].
    destruct (inbox w0); [discriminate|].
    destruct (Worker.onmessage _ _ _ _). inversion H; subst. assumption.
  - unfold host_turn in H. destruct (nth_error (workers w) h); [|discriminate].
    destruct (terminated w0); [discriminate|].
    destruct (outbox w0); [discriminate|]. inversion H; subst.
    unfold dispatch. destruct (nth_error _ h); [|assumption].
    apply fold_left_inv; [assumption|].
    intros; apply run_handler_engines; assumption.
Qed.

Lemma run_engines acts : forall (w w' : World P),
  run utf8_decode instantiate acts w = Some w' ->
  NoDup (JsMap.keys (engines w)) -> NoDup (JsMap.keys (engines w')).
Proof.
  induction acts as [|a acts IH]; simpl; intros w w' H Hd.
  - inversion H; subst; assumption.
  - destruct (step utf8_decode instantiate a w) as [w1|] eqn:E; [|discriminate].
    eapply IH; [eassumption|]. eapply step_engines; eassumption.
Qed.

(** The rest of [loadWasmEngine] after its [await], run where the ID of
    the descriptor is registered already and the keys are distinct: the
    keys stay distinct, the one entry under the ID is the new engine, and
    the worker of the old entry is terminated before the [set]. *)
Lemma installing_over_a_registered_id :
  forall (w : World P),
    NoDup (JsMap.keys (engines w)) ->
    forall h info isPreset old,
      JsMap.get (engines w) (info_id info) = Some old ->
      let engine :=
        {| id := info_id info; name := info_name info; desc := info_desc info;
           binarySafe := info_binarySafe info;
           selfInverse := info_selfInverse info;
           reversible := info_reversible info;
           isPreset := isPreset; worker := h |} in
      let w' := loadWasmEngine_loaded h info isPreset w in
      NoDup (JsMap.keys (engines w')) /\
      JsMap.count (engines w') (info_id info) = 1%nat /\
      JsMap.get (engines w') (info_id info) = Some engine /\
      events w' = events w ++
        [EvPrint (Overwritten (info_id info)); EvTerminate (worker old);
         EvSet (info_id info) h; EvReturn (LoadOk engine)] /\
      (forall wk, nth_error (workers w) (worker old) = Some wk ->
         exists wk', nth_error (workers w') (worker old) = Some wk' /\
                     terminated wk' = true).
Proof.
  intros w Hd h info isPreset old Hget engine w'.
  assert (Hd' : NoDup (JsMap.keys (engines w'))).
  { subst w'. unfold loadWasmEngine_loaded. simpl. rewrite Hget. simpl.
    apply keys_set_nodup; assumption. }
  assert (Hg' : JsMap.get (engines w') (info_id info) = Some engine).
  { subst w'. unfold loadWasmEngine_loaded. simpl. rewrite Hget. simpl.
    apply get_set_same. }
  repeat split.
  - assumption.
  - eapply count_nodup; eassumption.
  - assumption.
  - subst w'. unfold loadWasmEngine_loaded. simpl. rewrite Hget. simpl.
    rewrite <- !app_assoc. reflexivity.
  - intros wk Hwk. subst w'. unfold loadWasmEngine_loaded. simpl.
    rewrite Hget. simpl.
    eexists; split; [apply nth_error_upd_eq; eassumption|reflexivity].
Qed.

(** C9. For an ID that is not registered, [callEngine] and [processFile]
    return a promise rejected with "Engine not found"; no worker is touched
    (nothing is posted, so no context allocates anything) and no request
    ID is drawn. *)
Theorem unregistered_engine_not_found_and_nothing_sent :
  forall (w : World P) engineId,
    JsMap.get (engines w) engineId = None ->
    (forall type input,
       let k := fst (callEngine engineId type input w) in
       let w' := snd (callEngine engineId type input w) in
       nth_error (ops w') k =
         Some {| chunks := []; promise := Rejected "Engine not found";
                 reader := None |} /\
       workers w' = workers w /\
       nextRequestId w' = nextRequestId w /\
       events w' = events w) /\
    (forall chunkSize file mode,
       let k := fst (processFile_with chunkSize file engineId mode w) in
       let w' := snd (processFile_with chunkSize file engineId mode w) in
       nth_error (ops w') k =
         Some {| chunks := []; promise := Rejected "Engine not found";
                 reader := None |} /\
       workers w' = workers w /\
       nextRequestId w' = nextRequestId w /\
       posted_ids (events w') = posted_ids (events w)).
Proof.
  intros w engineId Hget. split.
  - intros type input. unfold callEngine. rewrite Hget. simpl.
    rewrite nth_error_app_last. auto.
  - intros chunkSize file mode. unfold processFile_with. simpl.
    rewrite Hget. simpl. rewrite nth_error_app_last.
    repeat split; auto.
    unfold posted_ids. rewrite flat_map_app. simpl. apply app_nil_r.
Qed.

End HostFacts.
End HostFacts.

(** * Loading an engine, end to end *)
Module LoadFacts.
Import Host.
Import WorkerFacts HostFacts.

Section LoadFacts.

Variable P : Type.
Variable utf8_decode : bytes -> string.
Variable instantiate : string -> Res (Worker.Exports P * Worker.Inst P).

Lemma check_required_missing (ex : Worker.Exports P) r :
  In r Worker.claimed_required -> Worker.has_export ex r = false ->
  exists r', In r' Worker.claimed_required /\ Worker.has_export ex r' = false /\
             Worker.check_required ex Worker.required =
             Exn ("Missing export: " ++ r')%string.
Proof.
  intros Hin Hr. unfold Worker.required. cbn [Worker.check_required].
  destruct (Worker.has_export ex "sb_encode") eqn:E1;
    [|exists "sb_encode"; repeat split; unfold Worker.claimed_required; simpl; auto 10].
  destruct (Worker.has_export ex "sb_alloc") eqn:E2;
    [|exists "sb_alloc"; repeat split; unfold Worker.claimed_required; simpl; auto 10].
  destruct (Worker.has_export ex "sb_free") eqn:E3;
    [|exists "sb_free"; repeat split; unfold Worker.claimed_required; simpl; auto 10].
  destruct (Worker.has_export ex "sb_get_id") eqn:E4;
    [|exists "sb_get_id"; repeat split; unfold Worker.claimed_required; simpl; auto 10].
  destruct (Worker.has_export ex "sb_is_binary_safe") eqn:E5;
    [|exists "sb_is_binary_safe"; repeat split;
      unfold Worker.claimed_required; simpl; auto 10].
  destruct (Worker.has_export ex "sb_is_self_inverse") eqn:E6;
    [|exists "sb_is_self_inverse"; repeat split;
      unfold Worker.claimed_required; simpl; auto 10].
  destruct (Worker.has_export ex "sb_is_reversible") eqn:E7;
    [|exists "sb_is_reversible"; repeat split; unfold Worker.claimed_required; simpl; auto 10].
  exfalso. unfold Worker.claimed_required in Hin. simpl in Hin.
  repeat (destruct Hin as [<-|Hin]; [congruence|]). exact Hin.
Qed.

Lemma onmessage_missing_export (ex : Worker.Exports P) i0 st id url r :
  instantiate url = Val (ex, i0) ->
  In r Worker.claimed_required -> Worker.has_export ex r = false ->
  exists r', In r' Worker.claimed_required /\ Worker.has_export ex r' = false /\
    Worker.onmessage utf8_decode instantiate st (ReqLoad id url) =
    (st, [RError id ("Missing export: " ++ r')%string]).
Proof.
  intros Hi Hin Hr.
  destruct (check_required_missing ex r Hin Hr) as (r' & Hin' & Hr' & Hc).
  exists r'. repeat split; auto.
  rewrite onmessage_load, Hi. unfold Worker.load_body.
  unfold Worker.bind at 1. unfold Worker.lift at 1. rewrite Hc. simpl.
  destruct st; reflexivity.
Qed.

(** C4. A module lacking one of encode, alloc, free, get_id and the
    three flag exports: the worker answers the load with an error naming a
    missing export of that list and leaves its state as it was (no export
    was called); the host returns the failure, and the registry is as
    before. *)
Theorem missing_required_export_fails_load :
  forall (w : World P) url isPreset ex i0 r,
    instantiate url = Val (ex, i0) ->
    In r Worker.claimed_required ->
    Worker.has_export ex r = false ->
    let h := List.length (workers w) in
    let n := nextRequestId w in
    exists r' w',
      In r' Worker.claimed_required /\ Worker.has_export ex r' = false /\
      (forall st id,
         Worker.onmessage utf8_decode instantiate st (ReqLoad id url) =
         (st, [RError id ("Missing export: " ++ r')%string])) /\
      run utf8_decode instantiate [ALoad url isPreset; AWorker h; ADeliver h] w
        = Some w' /\
      engines w' = engines w /\
      events w' = events w ++
        [EvNewWorker h; EvListen h (HLoad n isPreset);
         EvPost h (ReqLoad n url);
         EvMessage h (RError n ("Missing export: " ++ r')%string);
         EvReturn (LoadFail ("Missing export: " ++ r')%string)].
Proof.
  intros w url isPreset ex i0 r Hi Hin Hr h n.
  destruct (check_required_missing ex r Hin Hr) as (r' & Hin' & Hr' & Hc).
  assert (Hw : forall st id,
             Worker.onmessage utf8_decode instantiate st (ReqLoad id url) =
             (st, [RError id ("Missing export: " ++ r')%string])).
  { intros st id. rewrite onmessage_load, Hi. unfold Worker.load_body.
    unfold Worker.bind at 1. unfold Worker.lift at 1. rewrite Hc. simpl.
    destruct st; reflexivity. }
  exists r'. eexists.
  split; [assumption|]. split; [assumption|]. split; [exact Hw|].
  split; [apply run_load; apply Hw|].
  simpl. rewrite Z.eqb_refl. simpl. split; [reflexivity|].
  rewrite <- app_assoc. reflexivity.
Qed.

(** Any successful load, start to end: the engine is installed, and the
    events are the creation of the worker, the load request, its answer,
    the replacement of an older entry if there is one, and the [set]; the
    load request is the only message posted. *)
Theorem successful_load_installs_without_validation :
  forall (w : World P) url isPreset st info,
    Worker.onmessage utf8_decode instantiate Worker.init
      (ReqLoad (nextRequestId w) url) = (st, [RLoaded (nextRequestId w) info]) ->
    let h := List.length (workers w) in
    let n := nextRequestId w in
    let engine :=
      {| id := info_id info; name := info_name info; desc := info_desc info;
         binarySafe := info_binarySafe info;
         selfInverse := info_selfInverse info;
         reversible := info_reversible info;
         isPreset := isPreset; worker := h |} in
    exists w',
      run utf8_decode instantiate [ALoad url isPreset; AWorker h; ADeliver h] w
        = Some w' /\
      JsMap.get (engines w') (info_id info) = Some engine /\
      events w' = events w ++
        [EvNewWorker h; EvListen h (HLoad n isPreset);
         EvPost h (ReqLoad n url); EvMessage h (RLoaded n info)] ++
        match JsMap.get (engines w) (info_id info) with
        | Some old => [EvPrint (Overwritten (info_id info));
                       EvTerminate (worker old)]
        | None => []
        end ++
        [EvSet (info_id info) h; EvReturn (LoadOk engine)] /\
      posted_ids (events w') = posted_ids (events w) ++ [n].
Proof.
  intros w url isPreset st info Hw h n engine.
  eexists. split; [apply run_load; exact Hw|].
  subst h n engine.
  cbn [run_handler resp_id]. rewrite Z.eqb_refl.
  unfold loadWasmEngine_loaded, removeEventListener, upd_worker, set_workers,
    answered. simpl.
  destruct (JsMap.get (engines w) (info_id info)) as [old|] eqn:Hg; simpl.
  - repeat split.
    + apply get_set_same.
    + rewrite <- !app_assoc. reflexivity.
    + unfold posted_ids. rewrite !flat_map_app. simpl.
      rewrite !app_nil_r. reflexivity.
  - repeat split.
    + apply get_set_same.
    + rewrite <- !app_assoc. reflexivity.
    + unfold posted_ids. rewrite !flat_map_app. simpl.
      rewrite !app_nil_r. reflexivity.
Qed.

End LoadFacts.
End LoadFacts.

(** * The request counter *)
Module CounterFacts.
Import Host.
Import HostFacts.

Lemma js_succ_ge n : n <= js_succ n.
Proof. unfold js_succ. destruct (n <? 2 ^ 53); lia. Qed.

Lemma js_succ_exact n : n < 2 ^ 53 -> js_succ n = n + 1.
Proof.
  unfold js_succ. intros H. destruct (Z.ltb_spec n (2 ^ 53)); lia.
Qed.

Lemma js_succ_le n : n <= 2 ^ 53 -> js_succ n <= 2 ^ 53.
Proof. unfold js_succ. destruct (Z.ltb_spec n (2 ^ 53)); lia. Qed.

Lemma ids_upto_succ n : 0 <= n -> ids_upto (n + 1) = ids_upto n ++ [n].
Proof.
  intros H. unfold ids_upto.
  replace (Z.to_nat (n + 1)) with (S (Z.to_nat n)) by lia.
  rewrite seq_S, map_app. simpl. now rewrite Z2Nat.id.
Qed.

Lemma ids_upto_sorted n : StronglySorted Z.lt (ids_upto n).
Proof.
  unfold ids_upto. generalize (Z.to_nat n) as k. intros k.
  generalize 0%nat as a. induction k as [|k IH]; intros a; simpl.
  - constructor.
  - constructor; [apply IH|].
    apply Forall_forall. intros x Hx. apply in_map_iff in Hx as (y & <- & Hy).
    apply in_seq in Hy. lia.
Qed.

Lemma sorted_nodup l : StronglySorted Z.lt l -> NoDup l.
Proof.
  induction 1 as [|a l Hs IH Hf]; constructor; auto.
  intros Hin. rewrite Forall_forall in Hf. specialize (Hf a Hin). lia.
Qed.

Lemma posted_ids_app evs evs' :
  posted_ids (evs ++ evs') = posted_ids evs ++ posted_ids evs'.
Proof. unfold posted_ids. apply flat_map_app. Qed.

Section CounterFacts.

Variable P : Type.
Variable utf8_decode : bytes -> string.
Variable instantiate : string -> Res (Worker.Exports P * Worker.Inst P).

(** ** How the operations on worker objects change the pending set *)

Lemma pending_upd_same (ws : list (Wk P)) h f :
  (forall wk, handlers (f wk) = handlers wk) ->
  pending (upd ws h f) = pending ws.
Proof.
  intros Hf. unfold pending. revert h.
  induction ws as [|wk ws IH]; intros [|h]; simpl; auto.
  - now rewrite Hf.
  - now rewrite IH.
Qed.

Lemma pending_new (ws : list (Wk P)) wk :
  handlers wk = [] -> pending (ws ++ [wk]) = pending ws.
Proof.
  intros H. unfold pending. rewrite flat_map_app. simpl. rewrite H.
  now rewrite !app_nil_r.
Qed.

Lemma pending_add (ws : list (Wk P)) h f hd :
  (forall wk, handlers (f wk) = handlers wk ++ [hd]) ->
  Permutation (pending (upd ws h f)) (pending ws) \/
  Permutation (pending (upd ws h f)) (hd :: pending ws).
Proof.
  intros Hf. unfold pending. revert h.
  induction ws as [|wk ws IH]; intros [|h]; simpl.
  - left; constructor.
  - left; constructor.
  - right. rewrite Hf. rewrite <- app_assoc. simpl.
    symmetry. apply Permutation_middle.
  - destruct (IH h) as [Hp|Hp].
    + left. now apply Permutation_app_head.
    + right. etransitivity; [apply Permutation_app_head; exact Hp|].
      symmetry. apply Permutation_middle.
Qed.

Lemma remove_one_split hd l :
  remove_one hd l = l \/
  exists a x b, l = a ++ x :: b /\ remove_one hd l = a ++ b.
Proof.
  induction l as [|y l IH]; simpl; auto.
  destruct (handler_eqb y hd).
  - right. exists [], y, l. auto.
  - destruct IH as [IH|(a & x & b & -> & IH)].
    + left; now rewrite IH.
    + right. exists (y :: a), x, b. simpl. now rewrite IH.
Qed.

Lemma pending_remove (ws : list (Wk P)) h f hd :
  (forall wk, handlers (f wk) = remove_one hd (handlers wk)) ->
  pending (upd ws h f) = pending ws \/
  exists a x b, pending ws = a ++ x :: b /\ pending (upd ws h f) = a ++ b.
Proof.
  intros Hf. unfold pending. revert h.
  induction ws as [|wk ws IH]; intros [|h]; simpl; auto.
  - rewrite Hf.
    destruct (remove_one_split hd (handlers wk)) as [E|(a & x & b & E1 & E2)].
    + left; now rewrite E.
    + right. exists a, x, (b ++ flat_map handlers ws).
      rewrite E2, E1, <- !app_assoc. auto.
  - destruct (IH h) as [E|(a & x & b & E1 & E2)].
    + left; now rewrite E.
    + right. exists (handlers wk ++ a), x, b.
      rewrite E1, E2, <- !app_assoc. auto.
Qed.

Lemma pending_ok_weaken (ws : list (Wk P)) n n' :
  pending_ok ws n -> n <= n' -> pending_ok ws n'.
Proof.
  intros [Hd Hb] Hle. split; [assumption|].
  eapply Forall_impl; [|exact Hb]. simpl. intros; lia.
Qed.

Lemma pending_ok_perm (l l' : list Handler) n :
  Permutation l' l ->
  NoDup (map handler_id l) /\ Forall (fun hd => 0 <= handler_id hd < n) l ->
  NoDup (map handler_id l') /\ Forall (fun hd => 0 <= handler_id hd < n) l'.
Proof.
  intros Hp [Hd Hb]. split.
  - eapply Permutation_NoDup; [|exact Hd].
    apply Permutation_map. now symmetry.
  - rewrite Forall_forall in *. intros x Hx. apply Hb.
    eapply Permutation_in; eassumption.
Qed.

Lemma pending_ok_add (ws : list (Wk P)) h f hd n :
  (forall wk, handlers (f wk) = handlers wk ++ [hd]) ->
  pending_ok ws n -> 0 <= n -> handler_id hd = n ->
  pending_ok (upd ws h f) (n + 1).
Proof.
  intros Hf Hok Hn Hid. unfold pending_ok.
  destruct (pending_add ws h f hd Hf) as [Hp|Hp];
    apply (pending_ok_perm _ _ _ Hp).
  - apply (pending_ok_weaken ws n); [assumption|lia].
  - destruct Hok as [Hd Hb]. split; simpl.
    + constructor; [|assumption]. rewrite Hid. intros Hin.
      apply in_map_iff in Hin as (x & Hx & Hin).
      rewrite Forall_forall in Hb. specialize (Hb x Hin). lia.
    + constructor; [lia|]. eapply Forall_impl; [|exact Hb]. simpl. intros; lia.
Qed.

Lemma pending_ok_remove (ws : list (Wk P)) h f hd n :
  (forall wk, handlers (f wk) = remove_one hd (handlers wk)) ->
  pending_ok ws n -> pending_ok (upd ws h f) n.
Proof.
  intros Hf [Hd Hb]. unfold pending_ok.
  destruct (pending_remove ws h f hd Hf) as [E|(a & x & b & E1 & E2)].
  - rewrite E. auto.
  - rewrite E2. rewrite E1 in Hd, Hb. split.
    + rewrite map_app in *. simpl in Hd. eapply NoDup_remove_1; exact Hd.
    + apply Forall_app in Hb as [Ha Hb]. inversion Hb; subst.
      apply Forall_app; auto.
Qed.


(** ** The invariant of the counter *)

Lemma counter_ok_ext (w w' : World P) :
  nextRequestId w' = nextRequestId w ->
  posted_ids (events w') = posted_ids (events w) ->
  (forall n, pending_ok (workers w) n -> pending_ok (workers w') n) ->
  counter_ok w -> counter_ok w'.
Proof.
  intros Hn He Hp [Hb Hc]. unfold counter_ok. rewrite Hn, He.
  split; [assumption|]. intros Hlt. destruct (Hc Hlt). auto.
Qed.

Lemma counter_ok_issue (w w' : World P) :
  nextRequestId w' = js_succ (nextRequestId w) ->
  posted_ids (events w') = posted_ids (events w) ++ [nextRequestId w] ->
  (pending_ok (workers w) (nextRequestId w) ->
   pending_ok (workers w') (nextRequestId w + 1)) ->
  counter_ok w -> counter_ok w'.
Proof.
  intros Hn He Hp [Hb Hc]. unfold counter_ok. rewrite Hn, He.
  split; [split; [pose proof (js_succ_ge (nextRequestId w)); lia
                 |apply js_succ_le; lia]|].
  intros Hlt. pose proof (js_succ_ge (nextRequestId w)) as Hge.
  assert (Hlt' : nextRequestId w < 2 ^ 53) by lia.
  destruct (Hc Hlt') as [Hids Hpend].
  rewrite js_succ_exact by assumption.
  rewrite ids_upto_succ by lia. rewrite Hids. auto.
Qed.

Lemma run_handler_counter (w : World P) h r hd :
  counter_ok w -> counter_ok (run_handler h r hd w).
Proof.
  intros H. destruct hd as [rid p|rid k]; simpl;
    destruct (resp_id r =? rid); auto.
  - assert (H1 : counter_ok (removeEventListener h (HLoad rid p) w)).
    { revert H. apply counter_ok_ext; auto.
      intros n. simpl. apply pending_ok_remove with (hd := HLoad rid p).
      reflexivity. }
    destruct r; auto.
    + revert H1. apply counter_ok_ext.
      * unfold loadWasmEngine_loaded. simpl.
        destruct (JsMap.get _ _); reflexivity.
      * unfold loadWasmEngine_loaded. simpl.
        destruct (JsMap.get _ _); simpl;
          rewrite !posted_ids_app; simpl; rewrite ?app_nil_r; reflexivity.
      * intros n. unfold loadWasmEngine_loaded. simpl.
        destruct (JsMap.get _ _); simpl; auto.
        intros Hp. unfold pending_ok. rewrite pending_upd_same; auto.
    + revert H1. apply counter_ok_ext; auto.
      simpl. rewrite posted_ids_app. simpl. apply app_nil_r.
  - destruct r; auto; revert H; apply counter_ok_ext; simpl; auto;
      intros n; apply pending_ok_remove with (hd := HData rid k); reflexivity.
Qed.

Lemma step_counter (w w' : World P) a :
  step utf8_decode instantiate a w = Some w' -> counter_ok w -> counter_ok w'.
Proof.
  destruct a as [url p|engineId type input|f0 engineId m|k|k|h|h];
    simpl; intros H Hc.
  - (* a load is started *)
    inversion H; subst. rewrite loadWasmEngine_eq. generalize Hc.
    apply counter_ok_issue; simpl; auto.
    + rewrite posted_ids_app. reflexivity.
    + intros Hp. unfold pending_ok, pending in *. rewrite flat_map_app. simpl.
      apply (pending_ok_perm (HLoad (nextRequestId w) p
                                :: flat_map handlers (workers w))).
      { symmetry. apply Permutation_cons_append. }
      destruct Hp as [Hd Hb]. destruct Hc as [Hn _]. split; simpl.
      * constructor; [|assumption]. intros Hin.
        apply in_map_iff in Hin as (x & Hx & Hin).
        rewrite Forall_forall in Hb. specialize (Hb x Hin). lia.
      * constructor; [simpl; lia|]. eapply Forall_impl; [|exact Hb]. simpl. intros; lia.
  - (* a single-shot call *)
    inversion H; subst. unfold callEngine.
    destruct (JsMap.get (engines w) engineId) as [e|]; simpl.
    + generalize Hc. apply counter_ok_issue; simpl; auto.
      * rewrite !posted_ids_app; simpl; rewrite ?app_nil_r; reflexivity.
      * intros Hp. unfold pending_ok. rewrite pending_upd_same by reflexivity.
        apply pending_ok_add with (hd := HData (nextRequestId w)
                                            (List.length (ops w)));
          auto. destruct Hc; lia.
    + generalize Hc. apply counter_ok_ext; auto.
  - (* a file operation is started *)
    inversion H; subst. unfold processFile, processFile_with. simpl.
    destruct (JsMap.get (engines w) engineId) as [e|]; simpl;
      generalize Hc; apply counter_ok_ext; simpl; auto;
      rewrite posted_ids_app; simpl; apply app_nil_r.
  - (* a chunk was read and is sent *)
    destruct (pending_read k w) as [[f c]|]; inversion H; subst.
    unfold reader_onload. simpl. generalize Hc.
    apply counter_ok_issue; simpl; auto.
    + rewrite !posted_ids_app; simpl; rewrite ?app_nil_r; reflexivity.
    + intros Hp. unfold pending_ok. rewrite pending_upd_same by reflexivity.
      apply pending_ok_add with (hd := HData (nextRequestId w) k); auto.
      destruct Hc; lia.
  - destruct (pending_read k w) as [[f c]|]; inversion H; subst.
    generalize Hc. apply counter_ok_ext; auto.
  - (* a worker handles a request *)
    unfold worker_turn in H.
    destruct (nth_error (workers w) h) as [wk|]; [|discriminate].
    destruct (terminated wk); [discriminate|].
    destruct (inbox wk) as [|req rest] eqn:Ei; [discriminate|].
    destruct (Worker.onmessage _ _ _ _) as [st out]. inversion H; subst.
    generalize Hc. apply counter_ok_ext; auto.
    intros n. simpl. unfold pending_ok. rewrite pending_upd_same; auto.
  - (* the host receives a message *)
    unfold host_turn in H.
    destruct (nth_error (workers w) h) as [wk|]; [|discriminate].
    destruct (terminated wk); [discriminate|].
    destruct (outbox wk) as [|r rest]; [discriminate|]. inversion H; subst.
    unfold dispatch. destruct (nth_error _ h); [|].
    + apply fold_left_inv; [|intros; apply run_handler_counter; assumption].
      generalize Hc. apply counter_ok_ext; simpl; auto.
      * rewrite posted_ids_app. simpl. apply app_nil_r.
      * intros n. unfold pending_ok. rewrite pending_upd_same; auto.
    + generalize Hc. apply counter_ok_ext; simpl; auto.
      * rewrite posted_ids_app. simpl. apply app_nil_r.
      * intros n. unfold pending_ok. rewrite pending_upd_same; auto.
Qed.


Lemma run_counter acts : forall (w w' : World P),
  run utf8_decode instantiate acts w = Some w' -> counter_ok w -> counter_ok w'.
Proof.
  induction acts as [|a acts IH]; simpl; intros w w' H Hc.
  - inversion H; subst; assumption.
  - destruct (step utf8_decode instantiate a w) as [w1|] eqn:E; [|discriminate].
    eapply IH; [eassumption|]. eapply step_counter; eassumption.
Qed.

Lemma init_counter : counter_ok (init (P:=P)).
Proof.
  unfold counter_ok, pending_ok. simpl. repeat split; try lia; constructor.
Qed.

Lemma in_ids_upto i n : 0 <= i < n -> In i (ids_upto n).
Proof.
  intros H. unfold ids_upto. apply in_map_iff. exists (Z.to_nat i).
  split; [lia|]. apply in_seq. lia.
Qed.

Lemma pending_contains (ws : list (Wk P)) h wk :
  nth_error ws h = Some wk -> incl (handlers wk) (pending ws).
Proof.
  intros H hd Hin. unfold pending. apply in_flat_map. exists wk.
  split; [eapply nth_error_In; eassumption|assumption].
Qed.

(** C7. In every state reached from the start by any sequence of loads,
    single-shot calls, file operations, chunk reads, worker steps and
    deliveries, while the counter is below 2^53: the IDs of the requests
    posted are 0, 1, 2, ... up to the counter, in this order, hence strictly
    increasing; and the listeners pending at the workers have pairwise
    distinct IDs, all among those posted. *)
Theorem request_ids_strictly_increasing_never_reused :
  forall acts (w : World P),
    run utf8_decode instantiate acts init = Some w ->
    nextRequestId w < 2 ^ 53 ->
    posted_ids (events w) = ids_upto (nextRequestId w) /\
    StronglySorted Z.lt (posted_ids (events w)) /\
    NoDup (map handler_id (pending (workers w))) /\
    Forall (fun hd => In (handler_id hd) (posted_ids (events w)))
           (pending (workers w)).
Proof.
  intros acts w Hrun Hlt.
  destruct (run_counter acts init w Hrun init_counter) as [Hb Hc].
  destruct (Hc Hlt) as [Hids [Hnd Hpend]].
  rewrite Hids. repeat split.
  - apply ids_upto_sorted.
  - assumption.
  - eapply Forall_impl; [|exact Hpend]. simpl. intros hd Hhd.
    apply in_ids_upto. assumption.
Qed.

End CounterFacts.
End CounterFacts.

(** * The chunked pipeline against the single-shot call *)
Module PipelineFacts.
Import Host Pipeline.
Import HostFacts CounterFacts.

(** split conjunctions, and nothing else *)
Ltac conj := repeat match goal with |- _ /\ _ => split end.

Lemma app_self_nil {A} (l : list A) : l = l ++ l -> l = [].
Proof.
  intros H. apply (f_equal (@List.length A)) in H. rewrite length_app in H.
  destruct l; [reflexivity|simpl in H; lia].
Qed.

Lemma payload_responses id out isLast :
  List.concat (map resp_payload (responses id out isLast)) = out.
Proof.
  unfold responses. destruct out as [|b out]; destruct isLast; simpl;
    rewrite ?app_nil_r; reflexivity.
Qed.

Lemma responses_ids id out isLast :
  Forall (fun m => resp_id m = id) (responses id out isLast).
Proof.
  unfold responses. destruct out; destruct isLast; simpl; repeat constructor.
Qed.

Lemma responses_not_last id out :
  Forall (fun m => is_chunk m = true) (responses id out false).
Proof. unfold responses. destruct out; simpl; repeat constructor. Qed.

Lemma responses_last id out :
  exists ob, responses id out true = ob ++ [RResult id] /\
             Forall (fun m => is_chunk m = true) ob.
Proof.
  unfold responses. destruct out.
  - exists []. simpl. auto.
  - eexists [_]. simpl. split; [reflexivity|]. repeat constructor.
Qed.

Lemma responses_length id out isLast :
  (List.length (responses id out isLast) <= 2)%nat.
Proof. unfold responses. destruct out; destruct isLast; simpl; lia. Qed.

Lemma ceil_div_step x c : 0 < c -> ceil_div (x - c) c = ceil_div x c - 1.
Proof.
  intros Hc. unfold ceil_div.
  replace (x - c + c - 1) with (x + c - 1 + (-1) * c) by lia.
  rewrite Z.div_add by lia. lia.
Qed.

Lemma ceil_div_pos x c : 0 < c -> 0 < x -> 1 <= ceil_div x c.
Proof.
  intros Hc Hx. unfold ceil_div.
  assert (c <= x + c - 1) by lia.
  pose proof (Z.div_le_mono c (x + c - 1) c Hc H) as Hd.
  rewrite Z.div_same in Hd by lia. exact Hd.
Qed.

Lemma slice_length (f : bytes) from n :
  (List.length (slice f from n) <= List.length f)%nat.
Proof.
  unfold slice. rewrite length_firstn, length_skipn. lia.
Qed.

Lemma slice_skipn (f : bytes) from n :
  0 <= from -> 0 <= n ->
  skipn (Z.to_nat from) f = slice f from n ++ skipn (Z.to_nat (from + n)) f.
Proof.
  intros Hf Hn. unfold slice.
  rewrite Z2Nat.inj_add by lia.
  rewrite (Nat.add_comm (Z.to_nat from)), <- skipn_skipn.
  symmetry. apply firstn_skipn.
Qed.

Section PipelineFacts.

Variable P : Type.
Variable utf8_decode : bytes -> string.
Variable instantiate : string -> Res (Worker.Exports P * Worker.Inst P).

(** ** Which listener a message reaches *)

Lemma run_handler_other (w : World P) h m hd :
  handler_id hd <> resp_id m -> run_handler h m hd w = w.
Proof.
  intros Hne. destruct hd as [rid p|rid k]; simpl in *;
    destruct (Z.eqb_spec (resp_id m) rid); congruence.
Qed.

Lemma fold_handlers_other (w : World P) h m l :
  Forall (fun hd => handler_id hd <> resp_id m) l ->
  fold_left (fun w' hd => run_handler h m hd w') l w = w.
Proof.
  induction 1 as [|hd l Hhd Hl IH]; simpl; [reflexivity|].
  rewrite run_handler_other by assumption. exact IH.
Qed.

Lemma dispatch_to_listener (w : World P) h k n0 m wk old ids :
  nth_error (workers w) h = Some wk ->
  handlers wk = old ++ map (fun i => HData i k) ids ->
  Forall (fun hd => handler_id hd < n0) old ->
  NoDup ids -> Forall (fun i => n0 <= i) ids ->
  In (resp_id m) ids ->
  dispatch h m w = run_handler h m (HData (resp_id m) k) w.
Proof.
  intros Hwk Hh Hold Hnd Hge Hin. unfold dispatch. rewrite Hwk, Hh.
  rewrite fold_left_app.
  rewrite (fold_handlers_other w h m old).
  2:{ eapply Forall_impl; [|exact Hold]. simpl. intros hd Hlt.
      rewrite Forall_forall in Hge. specialize (Hge _ Hin). lia. }
  apply in_split in Hin as (a & b & Hab). rewrite Hab in *.
  rewrite map_app, fold_left_app. simpl.
  apply NoDup_remove_2 in Hnd.
  rewrite (fold_handlers_other w h m (map (fun i => HData i k) a)).
  2:{ apply Forall_forall. intros hd Hhd.
      apply in_map_iff in Hhd as (i & <- & Hi). simpl.
      intros ->. apply Hnd. apply in_or_app. auto. }
  apply fold_handlers_other.
  apply Forall_forall. intros hd Hhd.
  apply in_map_iff in Hhd as (i & <- & Hi). simpl.
  intros ->. apply Hnd. apply in_or_app. auto.
Qed.


(** ** The three steps, by their effect on the worker and the call *)

Lemma reader_onload_effect (w : World P) k f c wk op :
  nth_error (workers w) (f_worker f) = Some wk ->
  nth_error (ops w) k = Some op ->
  let n := nextRequestId w in
  let req := ReqData n (Host.mode f) c
               (Z.of_nat (List.length (file f)) <=? offset f + chunkSize f)
               (Some (totalChunks f)) in
  let f' := processNextChunk
              {| file := file f; mode := Host.mode f; f_worker := f_worker f;
                 chunkSize := chunkSize f; totalChunks := totalChunks f;
                 offset := offset f + chunkSize f; reading := None |} in
  let w' := reader_onload k f c w in
  nextRequestId w' = js_succ n /\
  nth_error (workers w') (f_worker f) =
    Some {| handlers := handlers wk ++ [HData n k];
            inbox := inbox wk ++ [req]; outbox := outbox wk;
            context := context wk; terminated := terminated wk |} /\
  nth_error (ops w') k = Some (set_reader (Some f') op).
Proof.
  intros Hwk Hop. cbv zeta. unfold reader_onload, postinc_nextRequestId.
  unfold upd_op, postMessage, addEventListener, upd_worker, emit, set_workers,
    set_ops. cbn [nextRequestId workers ops]. repeat split.
  - rewrite upd_upd. erewrite nth_error_upd_eq by eassumption. reflexivity.
  - erewrite nth_error_upd_eq by eassumption. reflexivity.
Qed.

Lemma worker_turn_effect (w w' : World P) h k wk :
  nth_error (workers w) h = Some wk ->
  worker_turn utf8_decode instantiate h w = Some w' ->
  exists req rest,
    inbox wk = req :: rest /\ terminated wk = false /\
    let r := Worker.onmessage utf8_decode instantiate (context wk) req in
    nextRequestId w' = nextRequestId w /\
    nth_error (workers w') h =
      Some {| handlers := handlers wk; inbox := rest;
              outbox := outbox wk ++ snd r; context := fst r;
              terminated := terminated wk |} /\
    nth_error (ops w') k = nth_error (ops w) k.
Proof.
  intros Hwk. unfold worker_turn. rewrite Hwk.
  destruct (terminated wk) eqn:Et; [discriminate|].
  destruct (inbox wk) as [|req rest] eqn:Ei; [discriminate|].
  destruct (Worker.onmessage _ _ _ _) as [st out] eqn:Eo.
  intros H; inversion H; subst w'; clear H.
  exists req, rest. repeat split; auto. cbv zeta. rewrite Eo.
  unfold upd_worker, set_workers. cbn [nextRequestId workers ops fst snd].
  repeat split.
  erewrite nth_error_upd_eq by eassumption. rewrite Et. reflexivity.
Qed.

Lemma host_turn_effect (w w' : World P) h wk :
  nth_error (workers w) h = Some wk ->
  host_turn h w = Some w' ->
  exists m rest,
    outbox wk = m :: rest /\ terminated wk = false /\
    let w1 := emit (EvMessage h m)
                (upd_worker h (fun wk' =>
                   {| handlers := handlers wk'; inbox := inbox wk';
                      outbox := rest; context := context wk';
                      terminated := terminated wk' |}) w) in
    w' = dispatch h m w1 /\
    nextRequestId w1 = nextRequestId w /\
    ops w1 = ops w /\
    nth_error (workers w1) h =
      Some {| handlers := handlers wk; inbox := inbox wk; outbox := rest;
              context := context wk; terminated := terminated wk |}.
Proof.
  intros Hwk. unfold host_turn. rewrite Hwk.
  destruct (terminated wk) eqn:Et; [discriminate|].
  destruct (outbox wk) as [|m rest] eqn:Eo; [discriminate|].
  intros H; inversion H; subst w'; clear H.
  exists m, rest. repeat split; auto.
  unfold emit, upd_worker, set_workers. cbn [workers].
  erewrite nth_error_upd_eq by eassumption. rewrite Et. reflexivity.
Qed.

(** a [chunk] message reaching its listener *)
Lemma chunk_effect (w : World P) h k id payload :
  let w' := run_handler h (RChunk id payload) (HData id k) w in
  nextRequestId w' = nextRequestId w /\
  workers w' = workers w /\
  ops w' = upd (ops w) k (push_chunk payload).
Proof. simpl. rewrite Z.eqb_refl. auto. Qed.

(** a [result] message reaching its listener *)
Lemma result_effect (w : World P) h k id wk op :
  nth_error (workers w) h = Some wk ->
  nth_error (ops w) k = Some op ->
  let w' := run_handler h (RResult id) (HData id k) w in
  nextRequestId w' = nextRequestId w /\
  nth_error (workers w') h =
    Some {| handlers := remove_one (HData id k) (handlers wk);
            inbox := inbox wk; outbox := outbox wk; context := context wk;
            terminated := terminated wk |} /\
  nth_error (ops w') k = Some (resolve_op op).
Proof.
  intros Hwk Hop. simpl. rewrite Z.eqb_refl.
  unfold removeEventListener, upd_op, upd_worker, set_workers, set_ops.
  cbn [nextRequestId workers ops]. repeat split.
  - erewrite nth_error_upd_eq by eassumption. reflexivity.
  - erewrite nth_error_upd_eq by eassumption. reflexivity.
Qed.


(** ** The invariant of an operation *)
Section Operation.

Variable T : bytes -> bytes.
Variable Inv : Worker.State P -> Prop.
Variable mode : Mode.
Variable input : bytes.
Variable h : nat.
Variable k : nat.
Variable n0 : Z.

Hypothesis engine : engine_maps utf8_decode instantiate T Inv mode input.

Lemma T_nil : T [] = [].
Proof. destruct engine as [Hhom _]. apply app_self_nil. apply (Hhom [] []). Qed.

Lemma no_read_pending (w : World P) op :
  nth_error (ops w) k = Some op -> no_read op -> pending_read k w = None.
Proof.
  intros Hop Hn. unfold pending_read, no_read in *. rewrite Hop.
  destruct (reader op) as [f|]; [|reflexivity]. now rewrite Hn.
Qed.

(** the file reader hands over a chunk *)
Lemma sent_step (w w' : World P) :
  running T Inv mode input h k n0 w ->
  step utf8_decode instantiate (AReaderLoad k) w = Some w' ->
  running T Inv mode input h k n0 w' /\
  (steps_left h k w' < steps_left h k w)%nat.
Proof.
  intros (wk & op & rest & Hwk & Hop & Hterm & Hinv & Hprom & Hn & Hlis & Hwp
          & Hval & Hphase) Hstep.
  simpl in Hstep.
  destruct Hphase as [Hs|[(_ & Hnr & _)|(_ & Hnr & _)]];
    try (rewrite (no_read_pending w op Hop Hnr) in Hstep; discriminate).
  destruct Hs as (f & Hr & Hfile & Hmode & Hfw & Hcs & Hoff & Hread & Hrest
                  & Hbound & Hnl & Hch).
  unfold pending_read in Hstep. rewrite Hop, Hr, Hread in Hstep.
  inversion Hstep; subst w'; clear Hstep.
  rewrite <- Hfw in Hwk.
  destruct (reader_onload_effect w k f (slice input (offset f) (chunkSize f))
              wk op Hwk Hop) as (Hn' & Hwk' & Hop').
  rewrite Hfw in Hwk, Hwk'. rewrite Hfile, Hmode in Hwk', Hop'.
  set (size := Z.of_nat (List.length input)) in *.
  set (n := nextRequestId w) in *.
  set (c := slice input (offset f) (chunkSize f)) in *.
  assert (Hcd : 1 <= ceil_div (size - offset f) (chunkSize f))
    by (apply ceil_div_pos; lia).
  assert (Hsucc : js_succ n = n + 1) by (apply js_succ_exact; lia).
  rewrite Hsucc in Hn'.
  destruct engine as [Hhom Hans].
  destruct Hlis as (old & ids & Hh & Hold & Hnd & Hids & Hin & Hout).
  assert (Hrest' : rest = c ++ skipn (Z.to_nat (offset f + chunkSize f)) input).
  { rewrite Hrest. apply slice_skipn; lia. }
  split.
  - eexists _, _, (skipn (Z.to_nat (offset f + chunkSize f)) input).
    split; [exact Hwk'|]. split; [exact Hop'|].
    cbn [terminated context promise set_reader inbox outbox chunks handlers].
    split; [assumption|]. split; [assumption|]. split; [assumption|].
    split; [rewrite Hn'; lia|].
    split.
    { (* listeners *)
      exists old, (ids ++ [n]). rewrite Hn'. repeat split.
      - rewrite Hh, map_app, <- app_assoc. reflexivity.
      - assumption.
      - apply NoDup_app_remove_l with (l := []). simpl.
        apply Permutation_NoDup with (l := n :: ids);
          [apply Permutation_cons_append|].
        constructor; [|assumption]. intros Hi.
        rewrite Forall_forall in Hids. specialize (Hids _ Hi). lia.
      - apply Forall_app. split.
        + eapply Forall_impl; [|exact Hids]. simpl. intros; lia.
        + repeat constructor; lia.
      - apply Forall_app. split.
        + eapply Forall_impl; [|exact Hin]. simpl. intros a Ha.
          apply in_or_app; auto.
        + repeat constructor. simpl. apply in_or_app; simpl; auto.
      - eapply Forall_impl; [|exact Hout]. simpl. intros a Ha.
        apply in_or_app; auto. }
    split.
    { apply Forall_app. split; [assumption|]. repeat constructor.
      eexists _, _, _, _. split; [reflexivity|]. apply slice_length. }
    split.
    { rewrite map_app, concat_app. simpl. rewrite app_nil_r.
      rewrite Hhom, <- !app_assoc, <- Hhom, <- Hrest'. exact Hval. }
    destruct (Z.leb_spec size (offset f + chunkSize f)) as [Hle|Hgt].
    + (* that was the last chunk *)
      right; left. repeat split.
      * apply skipn_all2. subst size. lia.
      * unfold no_read. simpl. subst size.
        destruct (Z.leb_spec (Z.of_nat (List.length input))
                    (offset f + chunkSize f)); [reflexivity|lia].
      * eexists _, _. repeat split; eauto.
    + left. eexists. split; [reflexivity|].
      unfold processNextChunk.
      cbn [file Host.mode f_worker chunkSize offset reading inbox outbox].
      fold size.
      destruct (Z.leb_spec size (offset f + chunkSize f)) as [Hle'|_]; [lia|].
      rewrite Hn'.
      replace (size - (offset f + chunkSize f))
        with (size - offset f - chunkSize f) by lia.
      rewrite ceil_div_step by lia.
      repeat split; try assumption; try reflexivity; try lia.
      apply Forall_app. split; [assumption|]. repeat constructor.
  - unfold steps_left. rewrite Hwk, Hop, Hwk', Hop'.
    cbn [inbox outbox]. rewrite length_app. simpl.
    unfold unsent_chunks. simpl. rewrite Hr, Hread, Hfile.
    fold size.
    destruct (Z.leb_spec size (offset f + chunkSize f)) as [Hle|Hgt].
    + lia.
    + replace (size - (offset f + chunkSize f))
        with (size - offset f - chunkSize f) by lia.
      rewrite ceil_div_step by lia. lia.
Qed.

(** the worker handles the oldest request in its queue *)
Lemma handled_step (w w' : World P) :
  running T Inv mode input h k n0 w ->
  step utf8_decode instantiate (AWorker h) w = Some w' ->
  running T Inv mode input h k n0 w' /\
  (steps_left h k w' < steps_left h k w)%nat.
Proof.
  intros (wk & op & rest & Hwk & Hop & Hterm & Hinv & Hprom & Hn & Hlis & Hwp
          & Hval & Hphase) Hstep.
  simpl in Hstep.
  destruct (worker_turn_effect w w' h k wk Hwk Hstep)
    as (req & rest_in & Hin & _ & Hn' & Hwk' & Hop').
  cbv zeta in Hn', Hwk', Hop'. rewrite Hop in Hop'.
  rewrite Hin in Hwp, Hval.
  pose proof (Forall_inv Hwp) as Hreq. pose proof (Forall_inv_tail Hwp) as Hwp'.
  destruct Hreq as (id & c & l & tc & Ereq & Hlen). rewrite Ereq in *.
  clear Ereq req.
  destruct engine as [Hhom Hans].
  destruct (Hans (context wk) Hinv id c l tc Hlen) as [Hinv' Hresp].
  cbv zeta in Hinv', Hresp. rewrite Hresp in Hwk'.
  destruct Hlis as (old & ids & Hh & Hold & Hnd & Hids & Hinb & Hout).
  rewrite Hin in Hinb.
  pose proof (Forall_inv Hinb) as Hid. pose proof (Forall_inv_tail Hinb) as Hinb'.
  simpl in Hid.
  split.
  - exists {| handlers := handlers wk; inbox := rest_in;
              outbox := outbox wk ++ responses id (T c) l;
              context := fst (Worker.onmessage utf8_decode instantiate
                               (context wk) (ReqData id mode c l tc));
              terminated := terminated wk |}, op, rest.
    split; [exact Hwk'|]. split; [exact Hop'|].
    cbn [terminated context inbox outbox handlers].
    split; [assumption|]. split; [assumption|]. split; [assumption|].
    split; [rewrite Hn'; assumption|].
    split.
    { exists old, ids. rewrite Hn'. conj; try assumption.
      apply Forall_app. split; [assumption|].
      eapply Forall_impl; [|apply responses_ids]. simpl. intros m ->. exact Hid. }
    split; [assumption|].
    split.
    { rewrite map_app, concat_app, payload_responses.
      simpl in Hval. rewrite Hhom in Hval. rewrite <- !app_assoc.
      rewrite <- !app_assoc in Hval. exact Hval. }
    destruct Hphase as [Hs|[Hq|Ha]].
    + (* more chunks are to come: this one was not the last *)
      left. destruct Hs as (f & Hr & Hfile & Hmode & Hfw & Hcs & Hoff & Hread
                            & Hrest & Hbound & Hnl & Hch).
      rewrite Hin in Hnl.
      pose proof (Forall_inv Hnl) as Hl. pose proof (Forall_inv_tail Hnl) as Hnl'.
      simpl in Hl. subst l.
      exists f. rewrite Hn'. cbn [inbox outbox].
      conj; try assumption; try lia.
      apply Forall_app. split; [assumption|apply responses_not_last].
    + destruct Hq as (Hrest & Hnr & ib & r & Hib & Hlast & Hnl & Hch).
      rewrite Hin in Hib. destruct ib as [|r0 ib]; simpl in Hib.
      * (* this was the last chunk *)
        injection Hib as Er Erest. subst r rest_in. simpl in Hlast. subst l.
        right; right. split; [assumption|]. split; [assumption|].
        split; [reflexivity|].
        destruct (responses_last id (T c)) as (ob & Hob & Hobc).
        exists (outbox wk ++ ob), id. cbn [outbox]. rewrite Hob, app_assoc.
        split; [reflexivity|]. apply Forall_app; auto.
      * injection Hib as Er Erest. subst r0 rest_in.
        pose proof (Forall_inv Hnl) as Hl.
        pose proof (Forall_inv_tail Hnl) as Hnl'.
        simpl in Hl. subst l.
        right; left. split; [assumption|]. split; [assumption|].
        exists ib, r. cbn [inbox outbox]. conj; try assumption; try reflexivity.
        apply Forall_app. split; [assumption|apply responses_not_last].
    + destruct Ha as (_ & _ & Hnil & _). congruence.
  - unfold steps_left. rewrite Hwk, Hop, Hwk', Hop'.
    cbn [inbox outbox]. rewrite Hin, length_app. simpl.
    pose proof (responses_length id (T c) l). lia.
Qed.

(** the host receives the oldest message the worker posted *)
Lemma delivered_step (w w' : World P) :
  running T Inv mode input h k n0 w ->
  step utf8_decode instantiate (ADeliver h) w = Some w' ->
  (running T Inv mode input h k n0 w' \/ finished T input h k w') /\
  (steps_left h k w' < steps_left h k w)%nat.
Proof.
  intros (wk & op & rest & Hwk & Hop & Hterm & Hinv & Hprom & Hn & Hlis & Hwp
          & Hval & Hphase) Hstep.
  simpl in Hstep.
  destruct (host_turn_effect w w' h wk Hwk Hstep)
    as (m & rest_out & Hout & _ & Hw' & Hn1 & Hops1 & Hwk1).
  cbv zeta in Hw', Hn1, Hops1, Hwk1.
  set (w1 := emit (EvMessage h m) _) in *.
  destruct Hlis as (old & ids & Hh & Hold & Hnd & Hids & Hinb & Houtb).
  rewrite Hout in Houtb, Hval.
  pose proof (Forall_inv Houtb) as Hid.
  pose proof (Forall_inv_tail Houtb) as Houtb'.
  rewrite (dispatch_to_listener w1 h k n0 m _ old ids Hwk1) in Hw';
    try assumption.
  2:{ eapply Forall_impl; [|exact Hids]. simpl. intros; lia. }
  assert (Hop1 : nth_error (ops w1) k = Some op) by (rewrite Hops1; exact Hop).
  assert (Hcase :
    (exists id payload, m = RChunk id payload /\
       (sending mode input h w op wk rest /\
          Forall (fun m => is_chunk m = true) rest_out \/
        last_queued op wk rest /\
          Forall (fun m => is_chunk m = true) rest_out \/
        rest = [] /\ no_read op /\ inbox wk = [] /\
          exists ob id', rest_out = ob ++ [RResult id'] /\
                         Forall (fun m => is_chunk m = true) ob)) \/
    (exists id, m = RResult id /\ rest_out = [] /\ rest = [] /\
                no_read op /\ inbox wk = [])).
  { destruct Hphase as [Hs|[Hq|Ha]].
    - pose proof Hs as (f & _ & _ & _ & _ & _ & _ & _ & _ & _ & _ & Hch).
      rewrite Hout in Hch. pose proof (Forall_inv Hch) as Hm.
      destruct m; try discriminate. left. eexists _, _. split; [reflexivity|].
      left. split; [assumption|]. exact (Forall_inv_tail Hch).
    - pose proof Hq as (_ & _ & ib & r & _ & _ & _ & Hch).
      rewrite Hout in Hch. pose proof (Forall_inv Hch) as Hm.
      destruct m; try discriminate. left. eexists _, _. split; [reflexivity|].
      right; left. split; [assumption|]. exact (Forall_inv_tail Hch).
    - destruct Ha as (Hrest & Hnr & Hnil & ob & id' & Hob & Hch).
      rewrite Hout in Hob. destruct ob as [|m0 ob]; simpl in Hob.
      + injection Hob as -> ->. right. exists id'. auto.
      + injection Hob as <- ->. pose proof (Forall_inv Hch) as Hm.
        destruct m; try discriminate. left. eexists _, _.
        split; [reflexivity|]. right; right.
        conj; try assumption. exists ob, id'. split; [reflexivity|].
        exact (Forall_inv_tail Hch). }
  destruct Hcase as [(id & payload & -> & Hph)|(id & -> & -> & -> & Hnr & Hnil)].
  - (* a chunk of output *)
    simpl in Hid, Hw'.
    destruct (chunk_effect w1 h k id payload) as (Hn' & Hws' & Hops').
    cbv zeta in Hn', Hws', Hops'. simpl in Hn', Hws', Hops'.
    rewrite <- Hw' in Hn', Hws', Hops'.
    assert (Hwk' : nth_error (workers w') h =
                   Some {| handlers := handlers wk; inbox := inbox wk;
                           outbox := rest_out; context := context wk;
                           terminated := terminated wk |})
      by (rewrite Hws'; exact Hwk1).
    assert (Hop' : nth_error (ops w') k = Some (push_chunk payload op))
      by (rewrite Hops'; apply nth_error_upd_eq; exact Hop1).
    split.
    + left. eexists _, _, rest. split; [exact Hwk'|]. split; [exact Hop'|].
      cbn [terminated context inbox outbox handlers promise chunks push_chunk].
      split; [assumption|]. split; [assumption|]. split; [assumption|].
      split; [rewrite Hn', ?Hn1; assumption|].
      split.
      { exists old, ids. rewrite Hn', ?Hn1. conj; assumption. }
      split; [assumption|].
      split.
      { rewrite concat_app. simpl. rewrite app_nil_r.
        simpl in Hval. rewrite <- !app_assoc. rewrite <- !app_assoc in Hval.
        exact Hval. }
      destruct Hph as [[Hs Hch]|[[Hq Hch]|(Hrest & Hnr & Hnil & Hob)]].
      * left. destruct Hs as (f & Hr & Hfile & Hmode & Hfw & Hcs & Hoff
                              & Hread & Hrest & Hbound & Hnl & _).
        exists f. rewrite Hn', ?Hn1. cbn [inbox outbox reader push_chunk].
        conj; try assumption; try lia.
      * right; left. destruct Hq as (Hrest & Hnr & ib & r & Hib & Hl & Hnl & _).
        split; [assumption|]. split; [exact Hnr|].
        exists ib, r. cbn [inbox outbox]. conj; assumption.
      * right; right. split; [assumption|]. split; [exact Hnr|].
        split; [assumption|]. exact Hob.
    + unfold steps_left. rewrite Hwk, Hop, Hwk', Hop'.
      cbn [inbox outbox]. rewrite Hout. simpl.
      unfold unsent_chunks. cbn [reader push_chunk]. lia.
  - (* the result *)
    simpl in Hid, Hw'.
    destruct (result_effect w1 h k id _ op Hwk1 Hop1) as (Hn' & Hwk' & Hop').
    cbv zeta in Hn', Hwk', Hop'. simpl in Hn', Hwk', Hop'.
    rewrite <- Hw' in Hn', Hwk', Hop'.
    split.
    + right. eexists _, _. split; [exact Hwk'|]. split; [exact Hop'|].
      cbn [inbox outbox]. conj; try assumption; try reflexivity.
      unfold resolve_op, settle_op. simpl. rewrite Hprom. simpl.
      rewrite Hnil in Hval. simpl in Hval. rewrite T_nil in Hval.
      rewrite !app_nil_r in Hval. rewrite Hval. reflexivity.
    + unfold steps_left. rewrite Hwk, Hop, Hwk', Hop'.
      cbn [inbox outbox]. rewrite Hout. simpl.
      unfold unsent_chunks. cbn [reader resolve_op settle_op]. lia.
Qed.

Lemma allowed_step (w w' : World P) a :
  allowed h k a ->
  running T Inv mode input h k n0 w ->
  step utf8_decode instantiate a w = Some w' ->
  (running T Inv mode input h k n0 w' \/ finished T input h k w') /\
  (steps_left h k w' < steps_left h k w)%nat.
Proof.
  intros [->|[->| ->]] Hr Hs.
  - destruct (sent_step w w' Hr Hs); auto.
  - destruct (handled_step w w' Hr Hs); auto.
  - apply delivered_step; assumption.
Qed.

(** Once the promise resolved, the operation takes no further step. *)
Lemma finished_stuck (w : World P) a :
  allowed h k a -> finished T input h k w ->
  step utf8_decode instantiate a w = None.
Proof.
  intros Ha (wk & op & Hwk & Hop & _ & Hin & Hout & Hnr).
  destruct Ha as [->|[->| ->]]; simpl.
  - now rewrite (no_read_pending w op Hop Hnr).
  - unfold worker_turn. rewrite Hwk, Hin. destruct (terminated wk); reflexivity.
  - unfold host_turn. rewrite Hwk, Hout. destruct (terminated wk); reflexivity.
Qed.

(** While it is under way, some step can be taken. *)
Lemma running_progress (w : World P) :
  running T Inv mode input h k n0 w ->
  exists a w', allowed h k a /\ step utf8_decode instantiate a w = Some w'.
Proof.
  intros (wk & op & rest & Hwk & Hop & Hterm & Hinv & Hprom & Hn & Hlis & Hwp
          & Hval & Hphase).
  destruct Hphase as [Hs|[Hq|Ha]].
  - destruct Hs as (f & Hr & _ & _ & _ & _ & _ & Hread & _).
    exists (AReaderLoad k). eexists. split; [left; reflexivity|]. simpl.
    unfold pending_read. rewrite Hop, Hr, Hread. reflexivity.
  - destruct Hq as (_ & _ & ib & r & Hib & _).
    exists (AWorker h). unfold allowed. simpl. unfold worker_turn.
    rewrite Hwk, Hterm, Hib.
    destruct ib as [|r0 ib]; simpl;
      destruct (Worker.onmessage _ _ _ _); eauto.
  - destruct Ha as (_ & _ & _ & ob & id & Hob & _).
    exists (ADeliver h). unfold allowed. simpl. unfold host_turn.
    rewrite Hwk, Hterm, Hob. destruct ob as [|m ob]; simpl; eauto.
Qed.

(** In whatever order the steps are taken, the operation is under way or
    has resolved with [T input]. *)
Lemma run_safe acts : forall (w w' : World P),
  Forall (allowed h k) acts ->
  run utf8_decode instantiate acts w = Some w' ->
  running T Inv mode input h k n0 w \/ finished T input h k w ->
  running T Inv mode input h k n0 w' \/ finished T input h k w'.
Proof.
  induction acts as [|a acts IH]; simpl; intros w w' Hall Hrun Hw.
  - inversion Hrun; subst; assumption.
  - pose proof (Forall_inv Hall) as Ha.
    pose proof (Forall_inv_tail Hall) as Hall'.
    destruct (step utf8_decode instantiate a w) as [w1|] eqn:Es;
      [|discriminate].
    destruct Hw as [Hr|Hf].
    + destruct (allowed_step w w1 a Ha Hr Es) as [Hw1 _]. eauto.
    + rewrite (finished_stuck w a Ha Hf) in Es. discriminate.
Qed.

(** ... and it can always be brought to its end. *)
Lemma run_complete n : forall (w : World P),
  (steps_left h k w <= n)%nat ->
  running T Inv mode input h k n0 w ->
  exists acts w',
    Forall (allowed h k) acts /\
    run utf8_decode instantiate acts w = Some w' /\
    finished T input h k w'.
Proof.
  induction n as [|n IH]; intros w Hle Hr.
  - destruct (running_progress w Hr) as (a & w1 & Ha & Hs).
    destruct (allowed_step w w1 a Ha Hr Hs) as [_ Hlt]. lia.
  - destruct (running_progress w Hr) as (a & w1 & Ha & Hs).
    destruct (allowed_step w w1 a Ha Hr Hs) as [[Hr1|Hf1] Hlt].
    + destruct (IH w1 ltac:(lia) Hr1) as (acts & w' & Hall & Hrun & Hf).
      exists (a :: acts), w'. conj; auto. simpl. now rewrite Hs.
    + exists [a], w1. conj; auto. simpl. now rewrite Hs.
Qed.

Lemma state_promise (w : World P) op :
  running T Inv mode input h k n0 w \/ finished T input h k w ->
  nth_error (ops w) k = Some op ->
  promise op = Pending \/ promise op = Resolved (T input).
Proof.
  intros [(wk & op' & rest & _ & Hop & _ & _ & Hp & _)
         |(wk & op' & _ & Hop & Hp & _)] Hop';
    rewrite Hop in Hop'; inversion Hop'; subst; auto.
Qed.

Lemma finished_settled (w : World P) :
  finished T input h k w -> settled_with k w (T input).
Proof. intros (wk & op & _ & Hop & Hp & _). exists op. auto. Qed.

End Operation.

(** ** Where the two operations start *)
Section Start.

Variable T : bytes -> bytes.
Variable Inv : Worker.State P -> Prop.
Variable mode : Mode.
Variable input : bytes.
Variable engineId : string.
Variable e : Engine.
Variable wk0 : Wk P.
Variable w0 : World P.

Hypothesis engine : engine_maps utf8_decode instantiate T Inv mode input.
Hypothesis registered : JsMap.get (engines w0) engineId = Some e.
Hypothesis its_worker : nth_error (workers w0) (worker e) = Some wk0.
Hypothesis alive : terminated wk0 = false.
Hypothesis idle_in : inbox wk0 = [].
Hypothesis idle_out : outbox wk0 = [].
Hypothesis context_ok : Inv (context wk0).
Hypothesis older :
  Forall (fun hd => handler_id hd < nextRequestId w0) (handlers wk0).
Hypothesis nonempty : input <> [].

Lemma processFile_effect chunkSize :
  let w1 := snd (processFile_with chunkSize input engineId mode w0) in
  nextRequestId w1 = nextRequestId w0 /\
  workers w1 = workers w0 /\
  ops w1 = ops w0 ++
    [{| chunks := []; promise := Pending;
        reader := Some (processNextChunk
          {| file := input; Host.mode := mode; f_worker := worker e;
             Host.chunkSize := chunkSize;
             totalChunks := ceil_div (Z.of_nat (List.length input)) chunkSize;
             offset := 0; reading := None |}) |}].
Proof.
  unfold processFile_with. cbn [print emit engines]. rewrite registered.
  simpl. auto.
Qed.

Lemma processFile_running chunkSize :
  0 < chunkSize ->
  nextRequestId w0 + ceil_div (Z.of_nat (List.length input)) chunkSize
    <= 2 ^ 53 ->
  0 <= nextRequestId w0 ->
  running T Inv mode input (worker e) (List.length (ops w0))
          (nextRequestId w0)
          (snd (processFile_with chunkSize input engineId mode w0)).
Proof.
  intros Hcs Hbound Hn0.
  assert (Hsize : 0 < Z.of_nat (List.length input))
    by (destruct input; [contradiction|simpl; lia]).
  pose proof (ceil_div_pos _ _ Hcs Hsize) as Hcd.
  destruct (processFile_effect chunkSize) as (Hn & Hws & Hops).
  cbv zeta in Hn, Hws, Hops.
  set (w1 := snd (processFile_with chunkSize input engineId mode w0)) in *.
  eexists wk0, _, input.
  split; [rewrite Hws; exact its_worker|].
  split; [rewrite Hops; apply nth_error_app_last|].
  cbn [promise chunks reader].
  split; [assumption|]. split; [assumption|]. split; [reflexivity|].
  split; [rewrite Hn; lia|].
  split.
  { exists (handlers wk0), []. rewrite idle_in, idle_out, Hn. simpl.
    rewrite app_nil_r. conj; auto; constructor. }
  split; [rewrite idle_in; constructor|].
  split.
  { rewrite idle_in, idle_out. simpl. now rewrite (T_nil T Inv mode input engine). }
  left. eexists. split; [reflexivity|].
  unfold processNextChunk.
  cbn [file Host.mode f_worker Host.chunkSize offset reading].
  destruct (Z.leb_spec (Z.of_nat (List.length input)) 0); [lia|].
  rewrite idle_in, idle_out, Z.sub_0_r, Hn.
  conj; try reflexivity; try assumption; try lia; constructor.
Qed.

Lemma callEngine_effect :
  let w2 := snd (callEngine engineId mode input w0) in
  nextRequestId w2 = js_succ (nextRequestId w0) /\
  nth_error (workers w2) (worker e) =
    Some {| handlers := handlers wk0
                        ++ [HData (nextRequestId w0) (List.length (ops w0))];
            inbox := inbox wk0
                     ++ [ReqData (nextRequestId w0) mode input true None];
            outbox := outbox wk0; context := context wk0;
            terminated := terminated wk0 |} /\
  ops w2 = ops w0 ++ [{| chunks := []; promise := Pending; reader := None |}].
Proof.
  unfold callEngine. rewrite registered.
  unfold postinc_nextRequestId, new_op, postMessage, addEventListener,
    upd_worker, emit, set_workers, set_ops.
  cbn [snd ops workers nextRequestId].
  rewrite upd_upd. conj; auto.
  erewrite nth_error_upd_eq by exact its_worker. reflexivity.
Qed.

Lemma callEngine_running :
  0 <= nextRequestId w0 < 2 ^ 53 ->
  running T Inv mode input (worker e) (List.length (ops w0))
          (nextRequestId w0)
          (snd (callEngine engineId mode input w0)).
Proof.
  intros Hn0.
  destruct callEngine_effect as (Hn & Hwk & Hops).
  cbv zeta in Hn, Hwk, Hops.
  set (w2 := snd (callEngine engineId mode input w0)) in *.
  rewrite (js_succ_exact _ (proj2 Hn0)) in Hn.
  eexists _, _, [].
  split; [exact Hwk|].
  split; [rewrite Hops; apply nth_error_app_last|].
  cbn [promise chunks reader terminated context inbox outbox handlers].
  split; [assumption|]. split; [assumption|]. split; [reflexivity|].
  split; [rewrite Hn; lia|].
  split.
  { exists (handlers wk0), [nextRequestId w0]. rewrite idle_in, idle_out, Hn.
    simpl. conj; auto.
    - constructor; [intros []|constructor].
    - repeat constructor; lia. }
  split.
  { rewrite idle_in. repeat constructor. eexists _, _, _, _.
    split; [reflexivity|]. lia. }
  split.
  { rewrite idle_in, idle_out. simpl. rewrite !app_nil_r.
    now rewrite (T_nil T Inv mode input engine), app_nil_r. }
  right; left. split; [reflexivity|]. split; [exact I|].
  exists [], (ReqData (nextRequestId w0) mode input true None).
  rewrite idle_in, idle_out. conj; auto.
Qed.

End Start.

(** C6. For an engine whose transform [T] preserves concatenation and
    whose context answers a chunk [c] with [T c], an input of at least one
    chunk and any positive chunk size: in whatever order the steps are
    taken, the chunked operation and the single-shot call over the same
    input can only settle with the same output, and each of them can be
    run to its end, where it resolves with [T input]. *)
Theorem chunked_output_equals_single_shot :
  forall (T : bytes -> bytes) (Inv : Worker.State P -> Prop) mode input
         chunkSize engineId e wk0 acts0 (w0 : World P),
    engine_maps utf8_decode instantiate T Inv mode input ->
    run utf8_decode instantiate acts0 init = Some w0 ->
    JsMap.get (engines w0) engineId = Some e ->
    nth_error (workers w0) (worker e) = Some wk0 ->
    terminated wk0 = false -> inbox wk0 = [] -> outbox wk0 = [] ->
    Inv (context wk0) ->
    0 < chunkSize ->
    1 <= ceil_div (Z.of_nat (List.length input)) chunkSize ->
    nextRequestId w0 + ceil_div (Z.of_nat (List.length input)) chunkSize
      <= 2 ^ 53 ->
    let h := worker e in
    let k := List.length (ops w0) in
    let chunked := snd (processFile_with chunkSize input engineId mode w0) in
    let single := snd (callEngine engineId mode input w0) in
    (forall acts1 acts2 w1 w2 out1 out2,
       Forall (allowed h k) acts1 -> Forall (allowed h k) acts2 ->
       run utf8_decode instantiate acts1 chunked = Some w1 ->
       run utf8_decode instantiate acts2 single = Some w2 ->
       settled_with k w1 out1 -> settled_with k w2 out2 ->
       out1 = out2) /\
    (exists acts w,
       Forall (allowed h k) acts /\
       run utf8_decode instantiate acts chunked = Some w /\
       settled_with k w (T input)) /\
    (exists acts w,
       Forall (allowed h k) acts /\
       run utf8_decode instantiate acts single = Some w /\
       settled_with k w (T input)).
Proof.
  intros T Inv mode input chunkSize engineId e wk0 acts0 w0 Heng Hreach Hget
         Hwk Hterm Hin Hout Hinv Hcs Hcount Hbound h k chunked single.
  assert (Hne : input <> []).
  { intros ->. unfold ceil_div in Hcount. simpl in Hcount.
    rewrite Z.div_small in Hcount by lia. lia. }
  destruct (run_counter P utf8_decode instantiate acts0 init w0 Hreach
              (init_counter P)) as [Hb Hc].
  destruct (Hc ltac:(lia)) as [_ [_ Hpend]].
  assert (Hold : Forall (fun hd => handler_id hd < nextRequestId w0)
                        (handlers wk0)).
  { apply Forall_forall. intros hd Hhd.
    apply (pending_contains P _ _ _ Hwk) in Hhd.
    rewrite Forall_forall in Hpend. specialize (Hpend _ Hhd). simpl in Hpend.
    lia. }
  assert (Hr1 : running T Inv mode input h k (nextRequestId w0) chunked).
  { apply processFile_running with (wk0 := wk0); auto; lia. }
  assert (Hr2 : running T Inv mode input h k (nextRequestId w0) single).
  { apply callEngine_running with (wk0 := wk0); auto; lia. }
  split; [|split].
  - intros acts1 acts2 w1 w2 out1 out2 Ha1 Ha2 Hrun1 Hrun2
           (op1 & Hop1 & Hp1) (op2 & Hop2 & Hp2).
    pose proof (run_safe T Inv mode input h k _ Heng acts1 _ _ Ha1 Hrun1
                  (or_introl Hr1)) as Hs1.
    pose proof (run_safe T Inv mode input h k _ Heng acts2 _ _ Ha2 Hrun2
                  (or_introl Hr2)) as Hs2.
    destruct (state_promise T Inv mode input h k _ _ _ Hs1 Hop1) as [E1|E1];
      rewrite E1 in Hp1; [discriminate|].
    destruct (state_promise T Inv mode input h k _ _ _ Hs2 Hop2) as [E2|E2];
      rewrite E2 in Hp2; [discriminate|].
    congruence.
  - destruct (run_complete T Inv mode input h k _ Heng _ chunked (le_n _) Hr1)
      as (acts & w & Hall & Hrun & Hf).
    exists acts, w. repeat split; auto. eapply finished_settled; eassumption.
  - destruct (run_complete T Inv mode input h k _ Heng _ single (le_n _) Hr2)
      as (acts & w & Hall & Hrun & Hf).
    exists acts, w. repeat split; auto. eapply finished_settled; eassumption.
Qed.

End PipelineFacts.
End PipelineFacts.

(** * The example engine meets the assumptions made of engines *)
Module EchoFacts.
Import Worker.

Lemma byte_at_byte_of z : Z.of_N (Byte.to_N (Echo.byte_of z)) = z mod 256.
Proof.
  unfold Echo.byte_of.
  pose proof (Z.mod_pos_bound z 256 ltac:(lia)) as Hb.
  destruct (Byte.of_N (Z.to_N (z mod 256))) as [b|] eqn:E.
  - apply Byte.to_of_N in E. rewrite E. apply Z2N.id. lia.
  - apply Byte.of_N_None_iff in E. lia.
Qed.

Lemma le32_value v :
  0 <= v < 2 ^ 32 ->
  v mod 256 + 256 * ((v / 256) mod 256) + 65536 * ((v / 65536) mod 256)
  + 16777216 * ((v / 16777216) mod 256) = v.
Proof.
  intros Hv. change (2 ^ 32) with 4294967296 in Hv.
  Z.div_mod_to_equations. lia.
Qed.

Lemma pad4_bounds n : 0 <= n -> n <= Echo.pad4 n /\ Echo.pad4 n mod 4 = 0.
Proof.
  intros Hn. unfold Echo.pad4. split.
  - Z.div_mod_to_equations. lia.
  - rewrite Z.mul_comm. apply Z.mod_mul. lia.
Qed.

Lemma read_u32_le32 (a b : bytes) v :
  (List.length a mod 4 = 0)%nat -> 0 <= v < 2 ^ 32 ->
  Mem.read_u32 (a ++ Echo.le32 v ++ b) (Z.of_nat (List.length a)) = Val v.
Proof.
  intros Ha Hv. unfold Mem.read_u32.
  assert (H0 : (Z.of_nat (List.length a) <? 0) = false)
    by (apply Z.ltb_ge; lia).
  assert (H1 : (Z.of_nat (List.length a) mod 4 =? 0) = true).
  { apply Z.eqb_eq. change 4 with (Z.of_nat 4).
    rewrite <- Nat2Z.inj_mod, Ha. reflexivity. }
  assert (H2 : (Z.of_nat (List.length (a ++ Echo.le32 v ++ b))
                <? Z.of_nat (List.length a) + 4) = false).
  { apply Z.ltb_ge. rewrite !length_app. simpl. lia. }
  rewrite H0, H1, H2. simpl. f_equal.
  rewrite Nat2Z.id. unfold Mem.byte_at.
  replace (List.length a) with (List.length a + 0)%nat at 1 by lia.
  rewrite !app_nth2_plus. simpl.
  rewrite !byte_at_byte_of. apply le32_value. assumption.
Qed.


Lemma firstn_app_exact {A} (a b : list A) : firstn (List.length a) (a ++ b) = a.
Proof.
  rewrite firstn_app, firstn_all, Nat.sub_diag. simpl. apply app_nil_r.
Qed.

Lemma skipn_app_exact {A} (a b : list A) : skipn (List.length a) (a ++ b) = b.
Proof. rewrite skipn_app, skipn_all, Nat.sub_diag. reflexivity. Qed.

Lemma skipn_repeat {A} (x : A) k n : skipn k (repeat x n) = repeat x (n - k).
Proof.
  revert k; induction n as [|n IH]; intros [|k]; simpl; auto.
Qed.

(** The allocator of the example keeps to the ABI. *)
Lemma echo_allocator_conforms bs si rv with_decode :
  conforming_allocator (Echo.exports bs si rv true with_decode).
Proof.
  exists Echo.sb_alloc, Echo.sb_free. split; [reflexivity|].
  split; [reflexivity|]. split.
  - intros i n. eexists _, _. split; [reflexivity|]. intros _.
    simpl. rewrite length_app, repeat_length. unfold Echo.arg. simpl.
    split; [lia|].
    destruct (Z.le_gt_cases 0 n) as [Hn|Hn].
    + destruct (pad4_bounds n Hn). lia.
    + lia.
  - intros i args. eexists _, _. reflexivity.
Qed.

(** The calls of the example, as equations on the state they act on. *)
Lemma echo_alloc n (s : WS unit) :
  invoke Echo.full "sb_alloc" [n] s =
  (Val (Z.of_nat (List.length (mem (inst s)))),
   {| inst := {| mem := mem (inst s) ++ repeat x00 (Z.to_nat (Echo.pad4 n));
                 priv := tt |};
      calls := calls s ++ [{| c_name := "sb_alloc"; c_args := [n];
                              c_ret := Some (Z.of_nat (List.length (mem (inst s)))) |}];
      posted := posted s |}).
Proof. reflexivity. Qed.

Lemma echo_free args (s : WS unit) :
  invoke Echo.full "sb_free" args s =
  (Val 0, {| inst := inst s;
             calls := calls s ++ [{| c_name := "sb_free"; c_args := args;
                                     c_ret := Some 0 |}];
             posted := posted s |}).
Proof. reflexivity. Qed.

Lemma echo_copy type p n q (s : WS unit) :
  invoke Echo.full (fnName type) [p; n; q] s =
  (Val p,
   {| inst := {| mem := Echo.poke (mem (inst s)) (Z.to_nat q) (Echo.le32 n);
                 priv := tt |};
      calls := calls s ++ [{| c_name := fnName type; c_args := [p; n; q];
                              c_ret := Some p |}];
      posted := posted s |}).
Proof. destruct type; reflexivity. Qed.

Ltac run_worker :=
  cbv beta iota delta [bind ret lift throw get_mem set_mem postMessage
                       try_finally];
  cbn [inst mem priv calls posted].

(** What one request does to a context running the example. *)
Lemma echo_data_body id type c isLast (s0 : WS unit) :
  (List.length (mem (inst s0)) mod 4 = 0)%nat ->
  (4 <= List.length (mem (inst s0)))%nat ->
  Z.of_nat (List.length c) < 2 ^ 32 ->
  exists s1,
    data_body Echo.full id type c isLast s0 = (Val tt, s1) /\
    posted s1 = posted s0 ++ Pipeline.responses id c isLast /\
    (List.length (mem (inst s1)) mod 4 = 0)%nat /\
    (4 <= List.length (mem (inst s1)))%nat.
Proof.
  intros Hal Hsz Hlen.
  set (m0 := mem (inst s0)) in *.
  set (n := Z.of_nat (List.length c)) in *.
  destruct (pad4_bounds n ltac:(lia)) as [Hpad Hpadm].
  set (pad := Z.to_nat (Echo.pad4 n)) in *.
  assert (Hpadn : (List.length c <= pad)%nat) by lia.
  (* the memory once the input was copied in *)
  set (m2 := m0 ++ c ++ repeat x00 (pad - List.length c)).
  assert (Hm2len : List.length m2 = (List.length m0 + pad)%nat).
  { unfold m2. rewrite !length_app, repeat_length. lia. }
  assert (Hm2al : (List.length m2 mod 4 = 0)%nat).
  { assert (Hpm : (pad mod 4 = 0)%nat).
    { apply Nat2Z.inj. rewrite Nat2Z.inj_mod. unfold pad.
      rewrite Z2Nat.id by lia. exact Hpadm. }
    rewrite Hm2len, Nat.Div0.add_mod, Hal, Hpm. reflexivity. }
  assert (Hend : (List.length (m2 ++ Echo.le32 n) mod 4 = 0)%nat
                 /\ (4 <= List.length (m2 ++ Echo.le32 n))%nat).
  { rewrite length_app. simpl List.length. split; [|lia].
    replace (List.length m2 + 4)%nat with (List.length m2 + 1 * 4)%nat by lia.
    rewrite Nat.Div0.mod_add. exact Hm2al. }
  assert (Hwrite : Mem.write_bytes (m0 ++ repeat x00 pad)
                     (Z.of_nat (List.length m0)) c = Val m2).
  { unfold Mem.write_bytes.
    replace (Z.of_nat (List.length m0) <? 0) with false
      by (symmetry; apply Z.ltb_ge; lia).
    replace (Z.of_nat (List.length (m0 ++ repeat x00 pad))
             <? Z.of_nat (List.length m0) + Z.of_nat (List.length c))
      with false
      by (symmetry; apply Z.ltb_ge; rewrite length_app, repeat_length; lia).
    cbn [orb]. rewrite Nat2Z.id, firstn_app_exact.
    rewrite (Nat.add_comm (List.length m0)), <- skipn_skipn, skipn_app_exact.
    rewrite skipn_repeat. reflexivity. }
  assert (Hpoke : Echo.poke (m2 ++ repeat x00 4) (Z.to_nat (Z.of_nat (List.length m2)))
                    (Echo.le32 n) = m2 ++ Echo.le32 n ++ []).
  { unfold Echo.poke. rewrite Nat2Z.id, firstn_app_exact.
    rewrite skipn_all2; [reflexivity|]. rewrite length_app. simpl. lia. }
  assert (Hread : Mem.read_bytes (m2 ++ Echo.le32 n ++ [])
                    (Z.of_nat (List.length m0)) n = Val c).
  { unfold Mem.read_bytes.
    replace (Z.of_nat (List.length m0) <? 0) with false
      by (symmetry; apply Z.ltb_ge; lia).
    replace (n <? 0) with false by (symmetry; apply Z.ltb_ge; lia).
    replace (Z.of_nat (List.length (m2 ++ Echo.le32 n ++ []))
             <? Z.of_nat (List.length m0) + n) with false
      by (symmetry; apply Z.ltb_ge; rewrite length_app, Hm2len; lia).
    cbn [orb]. rewrite Nat2Z.id. unfold m2.
    rewrite <- !app_assoc, skipn_app_exact.
    unfold n. rewrite Nat2Z.id, firstn_app_exact. reflexivity. }
  assert (Hp : (Z.of_nat (List.length m0) =? 0) = false)
    by (apply Z.eqb_neq; lia).
  assert (Hq : (Z.of_nat (List.length m2) =? 0) = false)
    by (apply Z.eqb_neq; lia).
  unfold data_body, transform, release. fold n.
  run_worker. rewrite echo_alloc. fold m0 pad. rewrite Hp.
  run_worker. rewrite Hwrite.
  run_worker. rewrite echo_alloc. run_worker.
  change (Z.to_nat (Echo.pad4 4)) with 4%nat. rewrite Hq.
  run_worker. rewrite echo_copy. run_worker. rewrite Hpoke.
  rewrite (read_u32_le32 m2 [] n Hm2al) by lia.
  rewrite Hp. cbn [negb andb].
  destruct (Z.eqb_spec n 0) as [Hn0|Hn0]; cbn [negb].
  - (* empty input: nothing to copy out *)
    assert (Hresp : Pipeline.responses id c isLast
                    = if isLast then [RResult id] else []).
    { destruct c; [reflexivity|unfold n in Hn0; simpl in Hn0; lia]. }
    rewrite Hresp.
    destruct isLast; run_worker; rewrite !echo_free; run_worker;
      rewrite app_nil_r;
      (eexists; split; [reflexivity|]; run_worker;
       split; [rewrite ?app_nil_r; reflexivity|exact Hend]).
  - assert (Hresp : Pipeline.responses id c isLast
                    = RChunk id c :: if isLast then [RResult id] else []).
    { destruct c; [contradiction|reflexivity]. }
    rewrite Hresp.
    run_worker. rewrite Hread.
    destruct isLast; run_worker; rewrite !echo_free; run_worker;
      rewrite app_nil_r;
      (eexists; split; [reflexivity|]; run_worker;
       split; [rewrite <- ?app_assoc; reflexivity|exact Hend]).
Qed.

(** The example answers every request with a copy of its input. *)
Lemma echo_engine_maps mode input :
  Z.of_nat (List.length input) < 2 ^ 32 ->
  Pipeline.engine_maps Echo.utf8_decode Echo.instantiate (fun b => b)
    Echo.ready mode input.
Proof.
  intros Hin. split; [reflexivity|].
  intros st (i & Hw & Hal & Hsz) id c isLast tc Hlen. cbv zeta.
  unfold onmessage. rewrite Hw.
  destruct (echo_data_body id mode c isLast
              {| inst := i; calls := log st; posted := [] |} Hal Hsz
              ltac:(lia)) as (s1 & Hbody & Hposted & Hal' & Hsz').
  rewrite Hbody. cbn [fst snd]. split.
  - exists (inst s1). auto.
  - rewrite Hposted. simpl. apply app_nil_r.
Qed.

End EchoFacts.

(** * How the chunks of a file are sent *)
Module ChunkFacts.
Import Host Pipeline.
Import HostFacts.

Section ChunkFacts.

Variable P : Type.
Variable utf8_decode : bytes -> string.
Variable instantiate : string -> Res (Worker.Exports P * Worker.Inst P).

(** One step of [reader.onload]: the chunk read is posted under the next
    request ID, and unless it was the last the read of the next slice is
    under way when the step ends. *)
Lemma reader_onload_posts :
  forall (w : World P) k f c,
    pending_read k w = Some (f, c) ->
    let n := nextRequestId w in
    let last := Z.of_nat (List.length (file f)) <=? offset f + chunkSize f in
    let f' := processNextChunk
                {| file := file f; mode := mode f; f_worker := f_worker f;
                   chunkSize := chunkSize f; totalChunks := totalChunks f;
                   offset := offset f + chunkSize f; reading := None |} in
    exists w',
      step utf8_decode instantiate (AReaderLoad k) w = Some w' /\
      events w' = events w ++
        [EvListen (f_worker f) (HData n k);
         EvPost (f_worker f)
                (ReqData n (mode f) c last (Some (totalChunks f)))] /\
      pending_read k w' =
        if last then None
        else Some (f', slice (file f) (offset f + chunkSize f) (chunkSize f)).
Proof.
  intros w k f c Hp n last f'. simpl. rewrite Hp.
  eexists. split; [reflexivity|]. split.
  - unfold reader_onload. simpl. rewrite <- app_assoc. reflexivity.
  - unfold pending_read in Hp.
    destruct (nth_error (ops w) k) as [o|] eqn:Ho; [|discriminate].
    unfold reader_onload, pending_read. simpl.
    erewrite nth_error_upd_eq by exact Ho. simpl. fold last.
    destruct last; reflexivity.
Qed.

End ChunkFacts.

(** C2, as stated, fails. For a file one byte longer than a chunk, the
    host posts the second chunk (request 2) right after the first (request
    1), no message for the first having arrived: [waits_for_terminal] is
    false on the record of events. *)
Lemma second_chunk_posted_before_first_is_answered :
  option_map (fun w => (waits_for_terminal 0 None (events w),
                        posted_ids (events w)))
    (run Echo.utf8_decode Echo.instantiate (Echo.load_echo ++
               [AFile Echo.two_chunk_file "echo" Encode;
                AReaderLoad 0; AReaderLoad 0]) init)
  = Some (false, [0; 1; 2]).
Proof. vm_compute. reflexivity. Qed.

End ChunkFacts.

(** * The model run on the example engine *)
Module Runs.
Import Host.

Lemma run_after acts :
  match run Echo.utf8_decode Echo.instantiate acts (@init unit) with
  | Some _ => true
  | None => false
  end
  = true ->
  run Echo.utf8_decode Echo.instantiate acts (@init unit) = Some (Echo.after acts).
Proof.
  unfold Echo.after.
  destruct (run Echo.utf8_decode Echo.instantiate acts (@init unit));
    [reflexivity|discriminate].
Qed.

(** C1 (the code as it is). Loading the example engine into a fresh host:
    at the end the engine is in the registry; from start to end the host
    posted one message, the load request, and the worker called the
    allocator, [sb_get_id] and the three flag exports only. [sb_encode] was
    never called, so the self-test, which begins by encoding the probe
    string, was not run; and nothing was printed. *)
Theorem load_installs_engine_and_never_validates :
  option_map
    (fun w => (JsMap.keys (engines w),
               events w,
               map (fun wk => (map Worker.c_name (Worker.log (context wk)),
                               inbox wk, outbox wk)) (workers w)))
    (run Echo.utf8_decode Echo.instantiate Echo.load_echo (@init unit))
  = Some
      (["echo"],
       [EvNewWorker 0; EvListen 0 (HLoad 0 true);
        EvPost 0 (ReqLoad 0 "engines/echo.wasm");
        EvMessage 0 (RLoaded 0
          {| info_id := "echo"; info_name := "echo"; info_desc := "";
             info_binarySafe := true; info_selfInverse := true;
             info_reversible := true |});
        EvSet "echo" 0;
        EvReturn (LoadOk
          {| id := "echo"; name := "echo"; desc := "";
             binarySafe := true; selfInverse := true; reversible := true;
             isPreset := true; worker := 0 |})],
       [(["sb_alloc"; "sb_get_id"; "sb_free"; "sb_is_binary_safe";
          "sb_is_self_inverse"; "sb_is_reversible"], [], [])]).
Proof. vm_compute. reflexivity. Qed.

(** What the self-test answers for an entry of the registry. *)
Lemma validateEngine_of_engine utf8_decode uint8array_of_string e :
  Validation.validateEngine utf8_decode uint8array_of_string
    (Validation.of_engine e)
  = Validation.Failed "eng.encode is not a function".
Proof. reflexivity. Qed.

(** C3 (the code as it is). A module with every export the load checks,
    whose [sb_is_reversible] returns 1 and which exports no [sb_decode]:
    the worker answers [loaded] with the reversible flag set, the host
    installs the engine, and only a later decode request fails. *)
Theorem reversible_module_without_decode_is_loaded :
  Worker.has_export Echo.no_decode "sb_decode" = false /\
  snd (Worker.onmessage Echo.utf8_decode Echo.instantiate Worker.init
         (ReqLoad 0 "engines/no_decode.wasm"))
  = [RLoaded 0 {| info_id := "echo"; info_name := "echo"; info_desc := "";
                  info_binarySafe := true; info_selfInverse := false;
                  info_reversible := true |}] /\
  option_map (fun w => JsMap.keys (engines w))
    (run Echo.utf8_decode Echo.instantiate
         [ALoad "engines/no_decode.wasm" false; AWorker 0; ADeliver 0]
              (@init unit))
  = Some ["echo"] /\
  snd (Worker.onmessage Echo.utf8_decode Echo.instantiate
         (fst (Worker.onmessage Echo.utf8_decode Echo.instantiate Worker.init
                 (ReqLoad 0 "engines/no_decode.wasm")))
         (ReqData 1 Decode [x41] true None))
  = [RError 1 "sb_decode is not a function"].
Proof. vm_compute. repeat split; reflexivity. Qed.


(** ** The theorems at concrete inputs *)

Lemma worker0_ready : Echo.ready (context Echo.worker0).
Proof.
  unfold Echo.ready. eexists. split; [reflexivity|].
  split; vm_compute; [reflexivity|repeat constructor].
Qed.

Lemma missing_required_export_fails_load_witness :
  Echo.instantiate "engines/no_free.wasm" = Val (Echo.no_free, Echo.inst0) /\
  In "sb_free" Worker.claimed_required /\
  Worker.has_export Echo.no_free "sb_free" = false /\
  exists r' w',
    In r' Worker.claimed_required /\
    Worker.has_export Echo.no_free r' = false /\
    (forall st id,
       Worker.onmessage Echo.utf8_decode Echo.instantiate st
         (ReqLoad id "engines/no_free.wasm") =
       (st, [RError id ("Missing export: " ++ r')%string])) /\
    run Echo.utf8_decode Echo.instantiate
      [ALoad "engines/no_free.wasm" false; AWorker 0; ADeliver 0]
             (@init unit) = Some w' /\
    engines w' = engines (@init unit) /\
    events w' = events (@init unit) ++
      [EvNewWorker 0; EvListen 0 (HLoad 0 false);
       EvPost 0 (ReqLoad 0 "engines/no_free.wasm");
       EvMessage 0 (RError 0 ("Missing export: " ++ r')%string);
       EvReturn (LoadFail ("Missing export: " ++ r')%string)].
Proof.
  split; [reflexivity|]. split; [simpl; auto|]. split; [reflexivity|].
  apply (LoadFacts.missing_required_export_fails_load unit Echo.utf8_decode
           Echo.instantiate (@init unit) "engines/no_free.wasm" false
           Echo.no_free Echo.inst0 "sb_free").
  - reflexivity.
  - simpl; auto.
  - reflexivity.
Defined.


Lemma unregistered_engine_not_found_and_nothing_sent_witness :
  JsMap.get (engines (@init unit)) "nope" = None /\
  (forall type input,
     let k := fst (callEngine "nope" type input (@init unit)) in
     let w' := snd (callEngine "nope" type input (@init unit)) in
     nth_error (ops w') k =
       Some {| chunks := []; promise := Rejected "Engine not found";
               reader := None |} /\
     workers w' = workers (@init unit) /\
     nextRequestId w' = nextRequestId (@init unit) /\
     events w' = events (@init unit)) /\
  (forall chunkSize file mode,
     let k := fst (processFile_with chunkSize file "nope" mode (@init unit)) in
     let w' := snd (processFile_with chunkSize file "nope" mode (@init unit)) in
     nth_error (ops w') k =
       Some {| chunks := []; promise := Rejected "Engine not found";
               reader := None |} /\
     workers w' = workers (@init unit) /\
     nextRequestId w' = nextRequestId (@init unit) /\
     posted_ids (events w') = posted_ids (events (@init unit))).
Proof.
  split; [reflexivity|].
  apply (HostFacts.unregistered_engine_not_found_and_nothing_sent unit
           (@init unit) "nope").
  reflexivity.
Defined.

Lemma capability_flag_iff_export_returns_1_witness :
  let info := {| info_id := "echo"; info_name := "echo"; info_desc := "";
                 info_binarySafe := false; info_selfInverse := false;
                 info_reversible := false |} in
  In (RLoaded 0 info)
     (snd (Worker.onmessage Echo.utf8_decode Echo.instantiate Worker.init
             (ReqLoad 0 "engines/odd_flags.wasm"))) /\
  exists pre bs si rv,
    Worker.log (fst (Worker.onmessage Echo.utf8_decode Echo.instantiate Worker.init
                       (ReqLoad 0 "engines/odd_flags.wasm"))) =
      pre ++ [ {| Worker.c_name := "sb_is_binary_safe"; Worker.c_args := [];
                  Worker.c_ret := Some bs |};
               {| Worker.c_name := "sb_is_self_inverse"; Worker.c_args := [];
                  Worker.c_ret := Some si |};
               {| Worker.c_name := "sb_is_reversible"; Worker.c_args := [];
                  Worker.c_ret := Some rv |} ] /\
    (info_binarySafe info = true <-> bs = 1) /\
    (info_selfInverse info = true <-> si = 1) /\
    (info_reversible info = true <-> rv = 1).
Proof.
  cbv zeta. split; [vm_compute; left; reflexivity|].
  apply (WorkerFacts.capability_flag_iff_export_returns_1 unit
           Echo.utf8_decode Echo.instantiate Worker.init 0
           "engines/odd_flags.wasm" 0).
  vm_compute; left; reflexivity.
Defined.

Lemma buffers_freed_on_every_exit_path_witness :
  Worker.conforming_allocator Echo.full /\
  Worker.wasmExports Echo.fresh = Some (Echo.full, Echo.inst0) /\
  let req := ReqData 1 Encode [x41; x42; x43] true None in
  let st' := fst (Worker.onmessage Echo.utf8_decode Echo.instantiate Echo.fresh req) in
  let out := snd (Worker.onmessage Echo.utf8_decode Echo.instantiate Echo.fresh req) in
  exists new,
    Worker.log st' = Worker.log Echo.fresh ++ new /\
    Worker.released new = Worker.obtained new /\
    (Worker.alloc_failed new = false ->
     exists inPtr outLenPtr,
       Worker.obtained new = [(inPtr, 3); (outLenPtr, 4)]) /\
    (Worker.alloc_failed new = true ->
     out = [RError 1 "sb_alloc failed"] \/
     out = [RError 1 "sb_alloc for outLenPtr failed"]).
Proof.
  split; [apply EchoFacts.echo_allocator_conforms|]. split; [reflexivity|].
  apply (WorkerFacts.buffers_freed_on_every_exit_path unit Echo.utf8_decode
           Echo.instantiate Echo.full Echo.inst0 Echo.fresh 1 Encode
           [x41; x42; x43] true None).
  - apply EchoFacts.echo_allocator_conforms.
  - reflexivity.
Defined.

Lemma request_ids_strictly_increasing_never_reused_witness :
  run Echo.utf8_decode Echo.instantiate Echo.busy (@init unit) = Some (Echo.after Echo.busy) /\
  nextRequestId (Echo.after Echo.busy) < 2 ^ 53 /\
  let w := Echo.after Echo.busy in
  posted_ids (events w) = ids_upto (nextRequestId w) /\
  StronglySorted Z.lt (posted_ids (events w)) /\
  NoDup (map handler_id (pending (workers w))) /\
  Forall (fun hd => In (handler_id hd) (posted_ids (events w)))
         (pending (workers w)).
Proof.
  split; [apply run_after; vm_compute; reflexivity|].
  split; [vm_compute; reflexivity|].
  apply (CounterFacts.request_ids_strictly_increasing_never_reused unit
           Echo.utf8_decode Echo.instantiate Echo.busy (Echo.after Echo.busy)).
  - apply run_after; vm_compute; reflexivity.
  - vm_compute; reflexivity.
Defined.

Lemma chunked_output_equals_single_shot_witness :
  let input := [x41; x42; x43] in
  let w0 := Echo.after Echo.load_echo in
  Pipeline.engine_maps Echo.utf8_decode Echo.instantiate (fun b => b)
    Echo.ready Encode input /\
  run Echo.utf8_decode Echo.instantiate Echo.load_echo (@init unit) = Some w0 /\
  JsMap.get (engines w0) "echo" = Some Echo.engine /\
  nth_error (workers w0) (worker Echo.engine) = Some Echo.worker0 /\
  terminated Echo.worker0 = false /\
  inbox Echo.worker0 = [] /\ outbox Echo.worker0 = [] /\
  Echo.ready (context Echo.worker0) /\
  0 < 2 /\
  1 <= ceil_div (Z.of_nat (List.length input)) 2 /\
  nextRequestId w0 + ceil_div (Z.of_nat (List.length input)) 2 <= 2 ^ 53 /\
  let h := worker Echo.engine in
  let k := List.length (ops w0) in
  let chunked := snd (processFile_with 2 input "echo" Encode w0) in
  let single := snd (callEngine "echo" Encode input w0) in
  (forall acts1 acts2 w1 w2 out1 out2,
     Forall (Pipeline.allowed h k) acts1 ->
     Forall (Pipeline.allowed h k) acts2 ->
     run Echo.utf8_decode Echo.instantiate acts1 chunked = Some w1 ->
     run Echo.utf8_decode Echo.instantiate acts2 single = Some w2 ->
     Pipeline.settled_with k w1 out1 -> Pipeline.settled_with k w2 out2 ->
     out1 = out2) /\
  (exists acts w,
     Forall (Pipeline.allowed h k) acts /\
     run Echo.utf8_decode Echo.instantiate acts chunked = Some w /\
     Pipeline.settled_with k w input) /\
  (exists acts w,
     Forall (Pipeline.allowed h k) acts /\
     run Echo.utf8_decode Echo.instantiate acts single = Some w /\
     Pipeline.settled_with k w input).
Proof.
  cbv zeta.
  assert (Hmaps : Pipeline.engine_maps Echo.utf8_decode Echo.instantiate
                    (fun b => b) Echo.ready Encode [x41; x42; x43])
    by (apply EchoFacts.echo_engine_maps; vm_compute; reflexivity).
  assert (Hrun : run Echo.utf8_decode Echo.instantiate Echo.load_echo (@init unit)
                 = Some (Echo.after Echo.load_echo))
    by (apply run_after; vm_compute; reflexivity).
  assert (Hget : JsMap.get (engines (Echo.after Echo.load_echo)) "echo"
                 = Some Echo.engine) by (vm_compute; reflexivity).
  assert (Hwk : nth_error (workers (Echo.after Echo.load_echo))
                  (worker Echo.engine) = Some Echo.worker0).
  { unfold Echo.worker0. simpl worker.
    assert (Hs : match nth_error (workers (Echo.after Echo.load_echo)) 0 with
                 | Some _ => true | None => false end = true)
      by (vm_compute; reflexivity).
    destruct (nth_error (workers (Echo.after Echo.load_echo)) 0);
      [reflexivity|discriminate]. }
  assert (Hterm : terminated Echo.worker0 = false) by (vm_compute; reflexivity).
  assert (Hin : inbox Echo.worker0 = []) by (vm_compute; reflexivity).
  assert (Hout : outbox Echo.worker0 = []) by (vm_compute; reflexivity).
  assert (Hcs : 0 < 2) by lia.
  assert (Hcount : 1 <= ceil_div (Z.of_nat (List.length [x41; x42; x43])) 2)
    by (vm_compute; discriminate).
  assert (Hbound : nextRequestId (Echo.after Echo.load_echo)
                   + ceil_div (Z.of_nat (List.length [x41; x42; x43])) 2
                   <= 2 ^ 53) by (vm_compute; discriminate).
  repeat (split; [assumption || exact worker0_ready|]).
  exact (PipelineFacts.chunked_output_equals_single_shot unit Echo.utf8_decode
           Echo.instantiate (fun b => b) Echo.ready Encode [x41; x42; x43] 2
           "echo" Echo.engine Echo.worker0 Echo.load_echo
           (Echo.after Echo.load_echo) Hmaps Hrun Hget Hwk Hterm Hin Hout
           worker0_ready Hcs Hcount Hbound).
Defined.

End Runs.

(** * The worker: what every request is answered with *)
Module WorkerAnswers.
Import Worker.
Import WorkerFacts.

Section WorkerAnswers.

Variable P : Type.
Variable utf8_decode : bytes -> string.
Variable instantiate : string -> Res (Exports P * Inst P).

Lemma bind_inv {A B} (c : M P A) (k : A -> M P B) (s s' : WS P) r :
  bind c k s = (r, s') ->
  (exists a s1, c s = (Val a, s1) /\ k a s1 = (r, s')) \/
  (exists e, c s = (Exn e, s') /\ r = Exn e).
Proof.
  unfold bind. destruct (c s) as [[a|e] s1]; intros H.
  - left. eauto.
  - right. inversion H; subst. eauto.
Qed.

Lemma read_bytes_length m off len b :
  Mem.read_bytes m off len = Val b -> List.length b = Z.to_nat len.
Proof.
  unfold Mem.read_bytes.
  destruct ((off <? 0) || (len <? 0)
            || (Z.of_nat (List.length m) <? off + len)) eqn:E; [discriminate|].
  intros H; inversion H; subst; clear H.
  apply orb_false_elim in E as [E E3]. apply orb_false_elim in E as [E1 E2].
  apply Z.ltb_ge in E1, E2, E3.
  rewrite length_firstn, length_skipn. lia.
Qed.

Lemma read_bytes_nonempty m off len b :
  Mem.read_bytes m off len = Val b -> len <> 0 -> b <> [].
Proof.
  intros H Hn Hb. pose proof (read_bytes_length _ _ _ _ H) as Hl.
  unfold Mem.read_bytes in H.
  destruct ((off <? 0) || (len <? 0)
            || (Z.of_nat (List.length m) <? off + len)) eqn:E; [discriminate|].
  apply orb_false_elim in E as [E E3]. apply orb_false_elim in E as [E1 E2].
  apply Z.ltb_ge in E2. subst b. simpl in Hl. lia.
Qed.

(** The messages a run of the [try] body adds: nothing when it throws;
    otherwise the output, if there is one, then [result] after the last
    chunk. *)
Lemma transform_posts (ex : Exports P) id type inPtr n outLenPtr isLast
      (s s' : WS P) r :
  transform ex id type inPtr n outLenPtr isLast s = (r, s') ->
  match r with
  | Val _ =>
      exists cs,
        posted s' = posted s ++ map (RChunk id) cs
                    ++ (if isLast then [RResult id] else []) /\
        (List.length cs <= 1)%nat /\ Forall (fun c => c <> []) cs
  | Exn _ => posted s' = posted s
  end.
Proof.
  unfold transform. intros H.
  apply bind_inv in H as [(outPtr & s1 & E1 & H)|(e & E1 & ->)];
    [|eapply quiet_invoke; eassumption].
  apply quiet_invoke in E1.
  apply bind_inv in H as [(m1 & s2 & E2 & H)|(e & E2 & ->)];
    [|inversion E2].
  inversion E2; subst s2 m1; clear E2.
  apply bind_inv in H as [(outLen & s2 & E2 & H)|(e & E2 & ->)].
  2:{ unfold lift in E2. inversion E2; subst. assumption. }
  unfold lift in E2. inversion E2 as [[E2' Hs2]]; subst s2; clear E2.
  apply bind_inv in H as [(u & s3 & E3 & H)|(e & E3 & ->)].
  - (* the output was read, or there was none *)
    assert (Hcs : exists cs, posted s3 = posted s1 ++ map (RChunk id) cs /\
                             (List.length cs <= 1)%nat /\
                             Forall (fun c => c <> []) cs).
    { destruct (negb (outPtr =? 0) && negb (outLen =? 0)) eqn:Ec.
      - apply bind_inv in E3 as [(m2 & s4 & E4 & E3)|(e & E4 & Hn)];
          [|discriminate].
        inversion E4; subst s4 m2; clear E4.
        apply bind_inv in E3 as [(res & s4 & E4 & E3)|(e & E4 & Hn)];
          [|discriminate].
        unfold lift in E4. inversion E4 as [[E4' Hs4]]; subst s4; clear E4.
        unfold postMessage in E3. inversion E3; subst; clear E3. simpl.
        exists [res]. split; [reflexivity|]. split; [simpl; lia|].
        constructor; [|constructor].
        apply andb_prop in Ec as [_ Ec]. apply negb_true_iff in Ec.
        apply Z.eqb_neq in Ec. eapply read_bytes_nonempty; eassumption.
      - unfold ret in E3. inversion E3; subst. exists [].
        simpl. rewrite app_nil_r. split; [reflexivity|].
        split; [simpl; lia|constructor]. }
    destruct Hcs as (cs & Hp & Hl & Hne).
    destruct isLast.
    + unfold postMessage in H. inversion H; subst; clear H. simpl.
      exists cs. rewrite Hp, E1, <- app_assoc. auto.
    + unfold ret in H. inversion H; subst; clear H.
      exists cs. rewrite Hp, E1, app_nil_r. auto.
  - (* reading the output failed *)
    destruct (negb (outPtr =? 0) && negb (outLen =? 0)).
    + apply bind_inv in E3 as [(m2 & s4 & E4 & E3)|(e' & E4 & Hn)];
        [|inversion E4].
      inversion E4; subst s4 m2; clear E4.
      apply bind_inv in E3 as [(res & s4 & E4 & E3)|(e' & E4 & Hn)].
      * unfold postMessage in E3. inversion E3.
      * unfold lift in E4. inversion E4; subst. assumption.
    + unfold ret in E3. inversion E3.
Qed.

Lemma quiet_release (ex : Exports P) inPtr n outLenPtr :
  quiet (P:=P) (release ex inPtr n outLenPtr).
Proof.
  unfold release.
  apply quiet_bind; [apply quiet_invoke|intros _].
  apply quiet_bind; [apply quiet_invoke|intros _].
  apply quiet_ret.
Qed.

(** What one encode/decode request posts before the outer [catch]. *)
Lemma data_body_posts (ex : Exports P) id type chunk isLast (s0 s : WS P) r :
  data_body ex id type chunk isLast s0 = (r, s) ->
  exists cs fin,
    posted s = posted s0 ++ map (RChunk id) cs ++ fin /\
    (List.length cs <= 1)%nat /\ Forall (fun c => c <> []) cs /\
    (fin = [] \/ fin = [RResult id] /\ isLast = true) /\
    (forall v, r = Val v -> isLast = true -> fin = [RResult id]).
Proof.
  assert (Hnone : forall s1 : WS P, posted s1 = posted s0 ->
            exists cs fin,
              posted s1 = posted s0 ++ map (RChunk id) cs ++ fin /\
              (List.length cs <= 1)%nat /\ Forall (fun c => c <> []) cs /\
              (fin = [] \/ fin = [RResult id] /\ isLast = true) /\
              fin = []).
  { intros s1 H1. exists [], []. simpl. rewrite app_nil_r.
    repeat split; auto. }
  unfold data_body. intros H.
  apply bind_inv in H as [(inPtr & s1 & E1 & H)|(e & E1 & ->)].
  2:{ apply quiet_invoke in E1. destruct (Hnone _ E1) as (cs & fin & ? & ? & ? & ? & ?).
      exists cs, fin. repeat split; auto. discriminate. }
  apply quiet_invoke in E1.
  destruct (inPtr =? 0).
  { unfold throw in H. inversion H; subst.
    destruct (Hnone _ E1) as (cs & fin & ? & ? & ? & ? & ?).
    exists cs, fin. repeat split; auto. discriminate. }
  apply bind_inv in H as [(m & s2 & E2 & H)|(e & E2 & ->)]; [|inversion E2].
  inversion E2; subst s2 m; clear E2.
  apply bind_inv in H as [(m' & s2 & E2 & H)|(e & E2 & ->)].
  2:{ unfold lift in E2. inversion E2; subst.
      destruct (Hnone _ E1) as (cs & fin & ? & ? & ? & ? & ?).
      exists cs, fin. repeat split; auto. discriminate. }
  unfold lift in E2. inversion E2 as [[E2' Hs2]]; subst s2; clear E2.
  apply bind_inv in H as [(u & s2 & E2 & H)|(e & E2 & ->)]; [|inversion E2].
  unfold set_mem in E2. inversion E2; subst s2; clear E2.
  apply bind_inv in H as [(outLenPtr & s2 & E2 & H)|(e & E2 & ->)].
  2:{ apply quiet_invoke in E2. simpl in E2.
      destruct (Hnone s ltac:(congruence)) as (cs & fin & ? & ? & ? & ? & ?).
      exists cs, fin. repeat split; auto. discriminate. }
  apply quiet_invoke in E2. simpl in E2.
  destruct (outLenPtr =? 0).
  { assert (Hq : posted s = posted s2).
    { revert H. apply quiet_bind; [apply quiet_invoke|intros _].
      apply quiet_throw. }
    assert (Hr : exists e, r = Exn e).
    { apply bind_inv in H as [(a & s3 & _ & H)|(e & _ & ->)]; [|eauto].
      unfold throw in H. inversion H; eauto. }
    destruct Hr as (e & ->).
    destruct (Hnone s ltac:(congruence)) as (cs & fin & ? & ? & ? & ? & ?).
    exists cs, fin. repeat split; auto. discriminate. }
  unfold try_finally in H.
  destruct (transform ex id type inPtr (Z.of_nat (List.length chunk)) outLenPtr
              isLast s2) as [r1 s3] eqn:Et.
  destruct (release ex inPtr (Z.of_nat (List.length chunk)) outLenPtr s3)
    as [r2 s4] eqn:Er.
  apply quiet_release in Er.
  assert (Hs : posted s = posted s3).
  { destruct r2; inversion H; subst; assumption. }
  apply transform_posts in Et. destruct r1 as [u1|e].
  - destruct Et as (cs & Hp & Hl & Hne).
    exists cs, (if isLast then [RResult id] else []).
    rewrite Hs, Hp, E2, E1. repeat split; auto.
    + destruct isLast; auto.
    + intros v _ ->. reflexivity.
  - assert (Hr : exists e', r = Exn e').
    { destruct r2; inversion H; subst; eauto. }
    destruct Hr as (e' & ->).
    destruct (Hnone s ltac:(congruence)) as (cs & fin & ? & ? & ? & ? & ?).
    exists cs, fin. repeat split; auto. discriminate.
Qed.

(** The calls of a string export that returned. *)
Lemma read_string_export_calls (ex : Exports P) name (s s' : WS P) v :
  read_string_export utf8_decode ex name s = (Val v, s') ->
  exists p ptr f,
    calls s' = calls s ++
      [{| c_name := "sb_alloc"; c_args := [4]; c_ret := Some p |};
       {| c_name := name; c_args := [p]; c_ret := Some ptr |};
       {| c_name := "sb_free"; c_args := [p; 4]; c_ret := Some f |}].
Proof.
  unfold read_string_export. intros H.
  apply bind_val in H as (p & s1 & E1 & H). apply invoke_val in E1.
  apply bind_val in H as (ptr & s2 & E2 & H). apply invoke_val in E2.
  apply bind_val in H as (str & s3 & E3 & H).
  assert (Hs3 : calls s3 = calls s2).
  { revert E3. unfold readStr.
    apply silent_bind; [apply silent_get_mem|intros m].
    apply silent_bind; [apply silent_lift|intros len].
    destruct (len =? 0); [apply silent_ret|].
    apply silent_bind; [apply silent_get_mem|intros m'].
    apply silent_bind; [apply silent_lift|intros b]. apply silent_ret. }
  apply bind_val in H as (f & s4 & E4 & H). apply invoke_val in E4.
  unfold ret in H. inversion H; subst; clear H.
  exists p, ptr, f. rewrite E4, Hs3, E2, E1, <- !app_assoc. reflexivity.
Qed.

(** The descriptor of a load that succeeded, step by step. *)
Lemma load_body_val (ex : Exports P) (s0 s : WS P) info :
  load_body utf8_decode ex s0 = (Val info, s) ->
  exists s1 s2 s3 bs si rv,
    read_string_export utf8_decode ex "sb_get_id" s0 = (Val (info_id info), s1) /\
    (if has_export ex "sb_get_name"
     then read_string_export utf8_decode ex "sb_get_name" s1
          = (Val (info_name info), s2)
     else s2 = s1 /\ info_name info = info_id info) /\
    (if has_export ex "sb_get_desc"
     then read_string_export utf8_decode ex "sb_get_desc" s2
          = (Val (info_desc info), s3)
     else s3 = s2 /\ info_desc info = "") /\
    calls s = calls s3 ++
      [{| c_name := "sb_is_binary_safe"; c_args := []; c_ret := Some bs |};
       {| c_name := "sb_is_self_inverse"; c_args := []; c_ret := Some si |};
       {| c_name := "sb_is_reversible"; c_args := []; c_ret := Some rv |}].
Proof.
  unfold load_body. intros H.
  apply bind_val in H as (u & s0' & E0 & H).
  unfold lift in E0. inversion E0 as [[E0' Hs0]]; subst s0'; clear E0.
  apply bind_val in H as (engineId & s1 & E1 & H).
  apply bind_val in H as (engineName & s2 & E2 & H).
  apply bind_val in H as (engineDesc & s3 & E3 & H).
  apply bind_val in H as (bs & s4 & E4 & H). apply invoke_val in E4.
  apply bind_val in H as (si & s5 & E5 & H). apply invoke_val in E5.
  apply bind_val in H as (rv & s6 & E6 & H). apply invoke_val in E6.
  unfold ret in H. inversion H; subst; clear H. simpl.
  exists s1, s2, s3, bs, si, rv. split; [assumption|].
  split; [|split].
  - destruct (has_export ex "sb_get_name"); [assumption|].
    unfold ret in E2. inversion E2; subst. auto.
  - destruct (has_export ex "sb_get_desc"); [assumption|].
    unfold ret in E3. inversion E3; subst. auto.
  - rewrite E6, E5, E4, <- !app_assoc. reflexivity.
Qed.

(** X4. The name and description exports are optional: a module
    without [sb_get_name] is named by its ID, and one without [sb_get_desc]
    has the empty description. *)
Theorem optional_metadata_defaults :
  forall st id url ex i0 id' info,
    instantiate url = Val (ex, i0) ->
    In (RLoaded id' info)
       (snd (onmessage utf8_decode instantiate st (ReqLoad id url))) ->
    (has_export ex "sb_get_name" = false -> info_name info = info_id info) /\
    (has_export ex "sb_get_desc" = false -> info_desc info = "").
Proof.
  intros st id url ex i0 id' info Hi Hin.
  rewrite onmessage_load, Hi in Hin.
  destruct (load_body utf8_decode ex _) as [[info0|e] s] eqn:E;
    simpl in Hin; destruct Hin as [Hin|[]]; [|discriminate].
  inversion Hin; subst info0 id'; clear Hin.
  apply load_body_val in E
    as (s1 & s2 & s3 & bs & si & rv & _ & Hname & Hdesc & _).
  split; intros Hn; rewrite Hn in *; tauto.
Qed.

Lemma obtained_released_cell name p ptr f :
  String.eqb name "sb_alloc" = false -> String.eqb name "sb_free" = false ->
  let l := [{| c_name := "sb_alloc"; c_args := [4]; c_ret := Some p |};
            {| c_name := name; c_args := [p]; c_ret := Some ptr |};
            {| c_name := "sb_free"; c_args := [p; 4]; c_ret := Some f |}] in
  released l = [(p, 4)] /\
  (alloc_failed l = false -> obtained l = [(p, 4)]) /\
  alloc_failed l = (p =? 0).
Proof.
  intros Ha Hf. cbv zeta. unfold released, obtained, alloc_failed. simpl.
  rewrite Ha, Hf. simpl. split; [reflexivity|].
  destruct p; simpl; split; auto; discriminate.
Qed.

(** X5. During a load that succeeds, every length cell obtained
    from [sb_alloc] is handed back to [sb_free] before the answer is
    posted: unless [sb_alloc] returned null, the buffers freed are the
    buffers obtained, each of 4 bytes, one per string export read. *)
Theorem load_frees_every_length_cell :
  forall st id url id' info,
    In (RLoaded id' info)
       (snd (onmessage utf8_decode instantiate st (ReqLoad id url))) ->
    exists new,
      log (fst (onmessage utf8_decode instantiate st (ReqLoad id url)))
        = log st ++ new /\
      (alloc_failed new = false ->
       released new = obtained new /\
       Forall (fun b => snd b = 4) (obtained new) /\
       (1 <= List.length (obtained new) <= 3)%nat).
Proof.
  intros st id url id' info Hin. rewrite onmessage_load in *.
  destruct (instantiate url) as [[ex i0]|e];
    [|simpl in Hin; destruct Hin as [Hin|[]]; discriminate].
  destruct (load_body utf8_decode ex _) as [[info0|e] s] eqn:E;
    simpl in Hin; destruct Hin as [Hin|[]]; [|discriminate].
  inversion Hin; subst info0 id'; clear Hin. cbn [fst log].
  apply load_body_val in E
    as (s1 & s2 & s3 & bs & si & rv & Hid & Hname & Hdesc & Hcalls).
  apply read_string_export_calls in Hid as (p1 & q1 & f1 & H1).
  simpl in H1.
  assert (Hn : exists l2, calls s2 = calls s1 ++ l2 /\
             (l2 = [] \/ exists p q f,
                l2 = [{| c_name := "sb_alloc"; c_args := [4]; c_ret := Some p |};
                      {| c_name := "sb_get_name"; c_args := [p]; c_ret := Some q |};
                      {| c_name := "sb_free"; c_args := [p; 4]; c_ret := Some f |}])).
  { destruct (has_export ex "sb_get_name").
    - apply read_string_export_calls in Hname as (p & q & f & H).
      eexists; split; [eassumption|]. right; eauto.
    - destruct Hname as [-> _]. exists []. rewrite app_nil_r. auto. }
  assert (Hd : exists l3, calls s3 = calls s2 ++ l3 /\
             (l3 = [] \/ exists p q f,
                l3 = [{| c_name := "sb_alloc"; c_args := [4]; c_ret := Some p |};
                      {| c_name := "sb_get_desc"; c_args := [p]; c_ret := Some q |};
                      {| c_name := "sb_free"; c_args := [p; 4]; c_ret := Some f |}])).
  { destruct (has_export ex "sb_get_desc").
    - apply read_string_export_calls in Hdesc as (p & q & f & H).
      eexists; split; [eassumption|]. right; eauto.
    - destruct Hdesc as [-> _]. exists []. rewrite app_nil_r. auto. }
  destruct Hn as (l2 & H2 & Hl2). destruct Hd as (l3 & H3 & Hl3).
  rewrite Hcalls, H3, H2, H1, <- !app_assoc.
  eexists; split; [reflexivity|].
  rewrite !alloc_failed_app, !released_app, !obtained_app.
  destruct (obtained_released_cell "sb_get_id" p1 q1 f1 eq_refl eq_refl)
    as (R1 & O1 & F1).
  set (flags := [{| c_name := "sb_is_binary_safe"; c_args := [];
                    c_ret := Some bs |};
                 {| c_name := "sb_is_self_inverse"; c_args := [];
                    c_ret := Some si |};
                 {| c_name := "sb_is_reversible"; c_args := [];
                    c_ret := Some rv |}]).
  assert (Fl : released flags = [] /\ obtained flags = [] /\
               alloc_failed flags = false) by (repeat split).
  destruct Fl as (Rf & Of & Ff). rewrite Rf, Of, Ff, R1.
  assert (C2 : released l2 = [] /\ obtained l2 = [] /\ alloc_failed l2 = false
               \/ exists p, released l2 = [(p, 4)] /\
                    (alloc_failed l2 = false -> obtained l2 = [(p, 4)])).
  { destruct Hl2 as [->|(p & q & f & ->)]; [left; repeat split|right].
    exists p.
    destruct (obtained_released_cell "sb_get_name" p q f eq_refl eq_refl)
      as (R & O & _). auto. }
  assert (C3 : released l3 = [] /\ obtained l3 = [] /\ alloc_failed l3 = false
               \/ exists p, released l3 = [(p, 4)] /\
                    (alloc_failed l3 = false -> obtained l3 = [(p, 4)])).
  { destruct Hl3 as [->|(p & q & f & ->)]; [left; repeat split|right].
    exists p.
    destruct (obtained_released_cell "sb_get_desc" p q f eq_refl eq_refl)
      as (R & O & _). auto. }
  intros Hf. rewrite !orb_false_r in Hf.
  apply orb_false_elim in Hf as [Hf1 Hf]. apply orb_false_elim in Hf as [Hf2 Hf3].
  rewrite (O1 Hf1).
  destruct C2 as [(R2 & O2 & _)|(p2 & R2 & O2)];
    destruct C3 as [(R3 & O3 & _)|(p3 & R3 & O3)];
    rewrite R2, R3; try rewrite (O2 Hf2); try rewrite (O3 Hf3);
    try rewrite O2; try rewrite O3; simpl;
    (split; [reflexivity|split; [repeat constructor|lia]]).
Qed.

End WorkerAnswers.
End WorkerAnswers.

(** * The host, step by step: what can and cannot change *)
Module HostSteps.
Import Host Evolution.
Import HostFacts.

Lemma nth_error_upd {A} (l : list A) i j f :
  nth_error (upd l i f) j =
  if Nat.eqb i j then option_map f (nth_error l j) else nth_error l j.
Proof.
  destruct (Nat.eqb_spec i j) as [->|Hn].
  - destruct (nth_error l j) as [x|] eqn:E.
    + apply nth_error_upd_eq; assumption.
    + simpl. apply nth_error_None. rewrite upd_length.
      apply nth_error_None; assumption.
  - apply nth_error_upd_neq; assumption.
Qed.

Lemma remove_one_incl hd l : incl (remove_one hd l) l.
Proof.
  induction l as [|x l IH]; simpl; [apply incl_refl|].
  destruct (handler_eqb x hd).
  - apply incl_tl, incl_refl.
  - intros y [->|Hy]; [left; reflexivity|right; apply IH; assumption].
Qed.

Lemma op_grows_refl o : op_grows o o.
Proof.
  split; [reflexivity|]. split; [exists []; symmetry; apply app_nil_r|auto].
Qed.

Lemma op_grows_trans o1 o2 o3 : op_grows o1 o2 -> op_grows o2 o3 -> op_grows o1 o3.
Proof.
  intros (R1 & (x1 & C1) & P1) (R2 & (x2 & C2) & P2). split; [congruence|].
  split.
  - exists (x1 ++ x2). rewrite C2, C1, app_assoc. reflexivity.
  - intros Hp. rewrite P2; [auto|]. rewrite P1; assumption.
Qed.

Lemma op_grows_push b o : op_grows o (push_chunk b o).
Proof.
  split; [reflexivity|]. split; [exists [b]; reflexivity|auto].
Qed.

Lemma op_grows_settle q o : op_grows o (settle_op q o).
Proof.
  split; [reflexivity|]. split; [exists []; symmetry; apply app_nil_r|].
  simpl. destruct (promise o); simpl; congruence.
Qed.

Section HostSteps.

Variable P : Type.
Variable utf8_decode : bytes -> string.
Variable instantiate : string -> Res (Worker.Exports P * Worker.Inst P).

Lemma wk_shrinks_refl (wk : Wk P) : wk_shrinks wk wk.
Proof. unfold wk_shrinks. auto using incl_refl. Qed.

Lemma wk_shrinks_trans (a b c : Wk P) :
  wk_shrinks a b -> wk_shrinks b c -> wk_shrinks a c.
Proof.
  intros (H1 & I1 & O1 & C1 & T1) (H2 & I2 & O2 & C2 & T2).
  unfold wk_shrinks. repeat split; try congruence; auto.
  eapply incl_tran; eassumption.
Qed.

(** ** One listener *)

Lemma run_handler_op h r hd (w : World P) k o :
  nth_error (ops w) k = Some o ->
  exists o',
    nth_error (ops (run_handler h r hd w)) k = Some o' /\
    op_grows o o' /\
    ((forall n, hd <> HData n k) -> o' = o).
Proof.
  intros Ho. destruct hd as [rid p|rid k']; simpl.
  - exists o. split; [|split; [apply op_grows_refl|auto]].
    destruct (resp_id r =? rid); [|assumption].
    destruct r; simpl; try assumption.
    unfold loadWasmEngine_loaded. simpl.
    destruct (JsMap.get _ _); assumption.
  - destruct (resp_id r =? rid);
      [|exists o; split; [assumption|split; [apply op_grows_refl|auto]]].
    destruct (Nat.eqb_spec k' k) as [->|Hk].
    + destruct r; simpl; rewrite ?nth_error_upd, ?Nat.eqb_refl, ?Ho; simpl;
        eexists; (split; [reflexivity|]);
        (split; [|intros Hn; exfalso; eapply Hn; reflexivity]).
      * apply op_grows_refl.
      * apply op_grows_push.
      * apply op_grows_settle.
      * apply op_grows_settle.
    + exists o. split; [|split; [apply op_grows_refl|auto]].
      destruct r; simpl; (rewrite ?nth_error_upd_neq by assumption); assumption.
Qed.

Lemma fold_handlers_op h r l : forall (w : World P) k o,
  nth_error (ops w) k = Some o ->
  exists o',
    nth_error (ops (fold_left (fun w' hd => run_handler h r hd w') l w)) k
      = Some o' /\
    op_grows o o' /\
    ((forall n, ~ In (HData n k) l) -> o' = o).
Proof.
  induction l as [|hd l IH]; simpl; intros w k o Ho.
  - exists o. split; [assumption|split; [apply op_grows_refl|auto]].
  - destruct (run_handler_op h r hd w k o Ho) as (o1 & H1 & G1 & E1).
    destruct (IH _ k o1 H1) as (o2 & H2 & G2 & E2).
    exists o2. split; [assumption|]. split; [eapply op_grows_trans; eassumption|].
    intros Hn. rewrite E2, E1; auto.
    + intros n Heq. apply (Hn n). left; assumption.
    + intros n Hin. apply (Hn n). right; assumption.
Qed.

Lemma run_handler_workers h r hd (w : World P) j wk :
  nth_error (workers w) j = Some wk ->
  exists wk',
    nth_error (workers (run_handler h r hd w)) j = Some wk' /\
    wk_shrinks wk wk'.
Proof.
  intros Hj.
  assert (Hrm : forall hd0,
             exists wk', nth_error (workers (removeEventListener h hd0 w)) j
                         = Some wk' /\ wk_shrinks wk wk').
  { intros hd0. simpl. rewrite nth_error_upd, Hj.
    destruct (Nat.eqb h j); simpl; eexists; (split; [reflexivity|]);
      [|apply wk_shrinks_refl].
    unfold wk_shrinks; simpl. auto using remove_one_incl. }
  destruct hd as [rid p|rid k]; simpl.
  - destruct (resp_id r =? rid); [|eauto using wk_shrinks_refl].
    destruct (Hrm (HLoad rid p)) as (wk1 & H1 & S1).
    destruct r; try (exists wk1; split; assumption).
    unfold loadWasmEngine_loaded. cbn [workers emit set_engines].
    destruct (JsMap.get _ _) as [old|]; [|exists wk1; split; assumption].
    cbn [workers emit set_engines terminate upd_worker set_workers print].
    change (upd (workers w) h _) with (workers (removeEventListener h (HLoad rid p) w)).
    rewrite nth_error_upd, H1.
    destruct (Nat.eqb (worker old) j); simpl; eexists; (split; [reflexivity|]);
      [|assumption].
    eapply wk_shrinks_trans; [eassumption|].
    unfold wk_shrinks; simpl. auto using incl_refl.
  - destruct (resp_id r =? rid); [|eauto using wk_shrinks_refl].
    destruct r; simpl; eauto using wk_shrinks_refl;
      rewrite nth_error_upd, Hj;
      (destruct (Nat.eqb h j); simpl; eexists; (split; [reflexivity|]);
       [|apply wk_shrinks_refl]);
      unfold wk_shrinks; simpl; auto using remove_one_incl.
Qed.

Lemma fold_handlers_workers h r l : forall (w : World P) j wk,
  nth_error (workers w) j = Some wk ->
  exists wk',
    nth_error (workers (fold_left (fun w' hd => run_handler h r hd w') l w)) j
      = Some wk' /\
    wk_shrinks wk wk'.
Proof.
  induction l as [|hd l IH]; simpl; intros w j wk Hj.
  - eauto using wk_shrinks_refl.
  - destruct (run_handler_workers h r hd w j wk Hj) as (wk1 & H1 & S1).
    destruct (IH _ j wk1 H1) as (wk2 & H2 & S2).
    eauto using wk_shrinks_trans.
Qed.

Lemma run_handler_workers_length h r hd (w : World P) :
  List.length (workers (run_handler h r hd w)) = List.length (workers w).
Proof.
  destruct hd as [rid p|rid k]; simpl; destruct (resp_id r =? rid); auto;
    destruct r; simpl; rewrite ?upd_length; auto.
  unfold loadWasmEngine_loaded. simpl.
  destruct (JsMap.get _ _); simpl; rewrite ?upd_length; reflexivity.
Qed.

Lemma fold_handlers_workers_length h r l : forall (w : World P),
  List.length (workers (fold_left (fun w' hd => run_handler h r hd w') l w))
  = List.length (workers w).
Proof.
  induction l as [|hd l IH]; simpl; intros w; [reflexivity|].
  rewrite IH. apply run_handler_workers_length.
Qed.

(** ** One step *)

(** What a step does to an operation of the table: only the reader's
    events touch its reader, and only the delivery of a message to one of
    its listeners adds chunks or settles it. *)
Lemma step_op a (w w' : World P) k o :
  step utf8_decode instantiate a w = Some w' -> nth_error (ops w) k = Some o ->
  exists o',
    nth_error (ops w') k = Some o' /\
    match a with
    | AReaderLoad k' =>
        if Nat.eqb k' k
        then exists f c, pending_read k w = Some (f, c) /\
                         o' = set_reader (Some (advanced f)) o
        else o' = o
    | AReaderError k' =>
        if Nat.eqb k' k
        then exists f c, pending_read k w = Some (f, c) /\
                         o' = set_reader (Some (stopped f))
                                (settle_op (Rejected "File read error") o)
        else o' = o
    | ADeliver h =>
        op_grows o o' /\
        (forall wk, nth_error (workers w) h = Some wk ->
                    (forall n, ~ In (HData n k) (handlers wk)) -> o' = o)
    | _ => o' = o
    end.
Proof.
  intros H Ho.
  assert (Hlt : (k < List.length (ops w))%nat)
    by (apply nth_error_Some; congruence).
  destruct a as [url p|engineId type input|f0 engineId m|k'|k'|h|h];
    simpl in H.
  - inversion H; subst. rewrite loadWasmEngine_eq. simpl. eauto.
  - inversion H; subst. unfold callEngine.
    destruct (JsMap.get (engines w) engineId) as [e|]; simpl;
      (rewrite nth_error_app1 by assumption); eauto.
  - inversion H; subst. unfold processFile, processFile_with. simpl.
    destruct (JsMap.get (engines w) engineId) as [e|]; simpl;
      (rewrite nth_error_app1 by assumption); eauto.
  - destruct (pending_read k' w) as [[f c]|] eqn:Ep; inversion H; subst.
    unfold reader_onload. simpl. rewrite nth_error_upd, Ho.
    destruct (Nat.eqb_spec k' k) as [->|Hk]; simpl; [|eauto].
    eexists; split; [reflexivity|]. exists f, c. split; [assumption|reflexivity].
  - destruct (pending_read k' w) as [[f c]|] eqn:Ep; inversion H; subst.
    unfold reader_onerror. simpl. rewrite nth_error_upd, Ho.
    destruct (Nat.eqb_spec k' k) as [->|Hk]; simpl; [|eauto].
    eexists; split; [reflexivity|]. exists f, c. split; [assumption|reflexivity].
  - unfold worker_turn in H.
    destruct (nth_error (workers w) h) as [wk|]; [|discriminate].
    destruct (terminated wk); [discriminate|].
    destruct (inbox wk) as [|req rest]; [discriminate|].
    destruct (Worker.onmessage _ _ _ _) as [st out]. inversion H; subst.
    simpl. eauto.
  - unfold host_turn in H.
    destruct (nth_error (workers w) h) as [wk|] eqn:Eh; [|discriminate].
    destruct (terminated wk); [discriminate|].
    destruct (outbox wk) as [|r rest]; [discriminate|]. inversion H; subst.
    unfold dispatch. simpl. rewrite nth_error_upd, Nat.eqb_refl, Eh. simpl.
    match goal with
    | |- context [fold_left ?f ?l ?w0] =>
        destruct (fold_handlers_op h r l w0 k o Ho) as (o' & Ho' & Hg & He)
    end.
    exists o'. split; [assumption|]. split; [assumption|].
    intros wk0 Hwk0 Hn. inversion Hwk0; subst wk0. auto.
Qed.

(** Where a listener of an operation can come from: it was there before
    the step, or the step is the call that began the operation, or the
    step sent one of its chunks. *)
Lemma step_listener a (w w' : World P) h wk' n k :
  step utf8_decode instantiate a w = Some w' ->
  nth_error (workers w') h = Some wk' -> In (HData n k) (handlers wk') ->
  (exists wk, nth_error (workers w) h = Some wk /\
              In (HData n k) (handlers wk) /\
              (terminated wk = true -> terminated wk' = true)) \/
  (exists engineId type input,
      a = ACall engineId type input /\ k = List.length (ops w) /\
      (k < List.length (ops w'))%nat) \/
  a = AReaderLoad k.
Proof.
  intros H Hh Hin.
  destruct a as [url p|engineId type input|f0 engineId m|k'|k'|h0|h0];
    simpl in H.
  - inversion H; subst. rewrite loadWasmEngine_eq in Hh. simpl in Hh.
    destruct (Nat.lt_ge_cases h (List.length (workers w))) as [Hl|Hl].
    + rewrite nth_error_app1 in Hh by assumption. left. eauto.
    + rewrite nth_error_app2 in Hh by assumption.
      destruct (h - List.length (workers w))%nat as [|d]; simpl in Hh.
      * inversion Hh; subst. simpl in Hin. destruct Hin as [Hin|[]].
        discriminate.
      * destruct d; discriminate.
  - inversion H; subst. unfold callEngine in Hh.
    destruct (JsMap.get (engines w) engineId) as [e|] eqn:Ee; simpl in Hh;
      [|left; eauto].
    rewrite upd_upd, nth_error_upd in Hh.
    destruct (Nat.eqb (worker e) h).
    + destruct (nth_error (workers w) h) as [wk|]; [|discriminate].
      simpl in Hh. inversion Hh; subst; clear Hh. simpl in Hin.
      apply in_app_or in Hin as [Hin|[Hin|[]]].
      * left. eauto.
      * inversion Hin; subst. right; left. exists engineId, type, input.
        split; [reflexivity|]. split; [reflexivity|].
        unfold callEngine. rewrite Ee. simpl. rewrite length_app. simpl. lia.
    + left. eauto.
  - inversion H; subst. unfold processFile, processFile_with in Hh.
    simpl in Hh.
    destruct (JsMap.get (engines w) engineId) as [e|]; simpl in Hh;
      left; eauto.
  - destruct (pending_read k' w) as [[f c]|] eqn:Ep; inversion H; subst.
    unfold reader_onload in Hh. simpl in Hh.
    rewrite upd_upd, nth_error_upd in Hh.
    destruct (Nat.eqb (f_worker f) h).
    + destruct (nth_error (workers w) h) as [wk|]; [|discriminate].
      simpl in Hh. inversion Hh; subst; clear Hh. simpl in Hin.
      apply in_app_or in Hin as [Hin|[Hin|[]]].
      * left. eauto.
      * inversion Hin; subst. right; right. reflexivity.
    + left. eauto.
  - destruct (pending_read k' w) as [[f c]|] eqn:Ep; inversion H; subst.
    left. eauto.
  - unfold worker_turn in H.
    destruct (nth_error (workers w) h0) as [wk|] eqn:E0; [|discriminate].
    destruct (terminated wk) eqn:Et; [discriminate|].
    destruct (inbox wk) as [|req rest]; [discriminate|].
    destruct (Worker.onmessage _ _ _ _) as [st out]. inversion H; subst.
    simpl in Hh. rewrite nth_error_upd in Hh.
    destruct (Nat.eqb_spec h0 h) as [->|Hn].
    + rewrite E0 in Hh. simpl in Hh. inversion Hh; subst; clear Hh.
      left. exists wk. simpl in *. auto.
    + left. eauto.
  - unfold host_turn in H.
    destruct (nth_error (workers w) h0) as [wk|] eqn:E0; [|discriminate].
    destruct (terminated wk) eqn:Et; [discriminate|].
    destruct (outbox wk) as [|r rest]; [discriminate|]. inversion H; subst.
    unfold dispatch in Hh. simpl in Hh.
    rewrite nth_error_upd, Nat.eqb_refl, E0 in Hh. simpl in Hh.
    match type of Hh with
    | nth_error (workers (fold_left ?f ?l ?w0)) _ = _ =>
        pose proof (fold_handlers_workers_length h0 r l w0) as Hlen;
        pose proof (fold_handlers_workers h0 r l w0 h) as Hfw
    end.
    simpl in Hlen, Hfw. rewrite upd_length in Hlen.
    assert (Hlt : (h < List.length (workers w))%nat).
    { rewrite <- Hlen. apply nth_error_Some. congruence. }
    destruct (nth_error (workers w) h) as [wk0|] eqn:Eh;
      [|apply nth_error_None in Eh; lia].
    rewrite nth_error_upd, Eh in Hfw.
    destruct (Nat.eqb_spec h0 h) as [->|Hn]; simpl in Hfw.
    + destruct (Hfw _ eq_refl) as (wk2 & H2 & (Hi & _ & _ & _ & Ht)).
      rewrite Hh in H2. inversion H2; subst wk2.
      left. exists wk0. split; [reflexivity|]. split.
      * rewrite E0 in Eh. inversion Eh; subst. apply Hi in Hin. exact Hin.
      * rewrite E0 in Eh. inversion Eh; subst. simpl in Ht. congruence.
    + destruct (Hfw _ eq_refl) as (wk2 & H2 & (Hi & _ & _ & _ & Ht)).
      rewrite Hh in H2. inversion H2; subst wk2.
      left. exists wk0. auto.
Qed.

(** A worker stays in the table, and once it is terminated its context
    does no more work and none of its messages is received. *)
Lemma step_worker a (w w' : World P) h wk :
  step utf8_decode instantiate a w = Some w' -> nth_error (workers w) h = Some wk ->
  exists wk',
    nth_error (workers w') h = Some wk' /\
    (terminated wk = true ->
     terminated wk' = true /\ context wk' = context wk /\
     outbox wk' = outbox wk).
Proof.
  intros H Hh.
  assert (Hlt : (h < List.length (workers w))%nat)
    by (apply nth_error_Some; congruence).
  destruct a as [url p|engineId type input|f0 engineId m|k'|k'|h0|h0];
    simpl in H.
  - inversion H; subst. rewrite loadWasmEngine_eq. simpl.
    rewrite nth_error_app1 by assumption. eauto.
  - inversion H; subst. unfold callEngine.
    destruct (JsMap.get (engines w) engineId) as [e|]; simpl; [|eauto].
    rewrite upd_upd, nth_error_upd, Hh.
    destruct (Nat.eqb (worker e) h); simpl; eauto.
  - inversion H; subst. unfold processFile, processFile_with. simpl.
    destruct (JsMap.get (engines w) engineId) as [e|]; simpl; eauto.
  - destruct (pending_read k' w) as [[f c]|] eqn:Ep; inversion H; subst.
    unfold reader_onload. simpl. rewrite upd_upd, nth_error_upd, Hh.
    destruct (Nat.eqb (f_worker f) h); simpl; eauto.
  - destruct (pending_read k' w) as [[f c]|] eqn:Ep; inversion H; subst.
    simpl. eauto.
  - unfold worker_turn in H.
    destruct (nth_error (workers w) h0) as [wk0|] eqn:E0; [|discriminate].
    destruct (terminated wk0) eqn:Et; [discriminate|].
    destruct (inbox wk0) as [|req rest]; [discriminate|].
    destruct (Worker.onmessage _ _ _ _) as [st out]. inversion H; subst.
    simpl. rewrite nth_error_upd, Hh.
    destruct (Nat.eqb_spec h0 h) as [->|Hn]; simpl; [|eauto].
    eexists; split; [reflexivity|]. intros Ht.
    rewrite E0 in Hh. inversion Hh; subst. congruence.
  - unfold host_turn in H.
    destruct (nth_error (workers w) h0) as [wk0|] eqn:E0; [|discriminate].
    destruct (terminated wk0) eqn:Et; [discriminate|].
    destruct (outbox wk0) as [|r rest]; [discriminate|]. inversion H; subst.
    unfold dispatch. simpl. rewrite nth_error_upd, Nat.eqb_refl, E0. simpl.
    match goal with
    | |- context [fold_left ?f ?l ?w0] =>
        pose proof (fold_handlers_workers h0 r l w0 h) as Hfw
    end.
    simpl in Hfw. rewrite nth_error_upd, Hh in Hfw.
    destruct (Nat.eqb_spec h0 h) as [->|Hn]; simpl in Hfw;
      destruct (Hfw _ eq_refl) as (wk2 & H2 & (_ & _ & Ho & Hc & Ht));
      exists wk2; (split; [assumption|]); intros Htm.
    + rewrite E0 in Hh. inversion Hh; subst. congruence.
    + auto.
Qed.

End HostSteps.
End HostSteps.

(** * The host over whole runs: what lasts *)
Module HostLasting.
Import Host Evolution.
Import HostFacts HostSteps PipelineFacts.

(** ** Slices of a file *)

Lemma firstn_add_skipn {A} (l : list A) a b :
  firstn (a + b) l = firstn a l ++ firstn b (skipn a l).
Proof.
  revert l; induction a as [|a IH]; intros l; simpl; [reflexivity|].
  destruct l as [|x l]; simpl.
  - rewrite firstn_nil. reflexivity.
  - rewrite IH. reflexivity.
Qed.

Lemma slices_concat (f : bytes) (c n : nat) :
  List.concat (map (fun i => firstn c (skipn (i * c) f)) (seq 0 n))
  = firstn (n * c) f.
Proof.
  induction n as [|n IH]; [reflexivity|].
  rewrite seq_S, map_app, concat_app, IH. simpl. rewrite app_nil_r.
  rewrite <- firstn_add_skipn. f_equal. lia.
Qed.

Lemma ceil_div_covers x c : 0 < c -> x <= ceil_div x c * c.
Proof.
  intros Hc. unfold ceil_div.
  pose proof (Z.div_mod (x + c - 1) c ltac:(lia)) as Hd.
  pose proof (Z.mod_pos_bound (x + c - 1) c Hc) as Hm. nia.
Qed.

Lemma ceil_div_nonneg x c : 0 < c -> 0 <= x -> 0 <= ceil_div x c.
Proof.
  intros Hc Hx. unfold ceil_div. apply Z.div_pos; lia.
Qed.

Lemma ceil_div_least x c i : 0 < c -> i * c < x -> i < ceil_div x c.
Proof.
  intros Hc Hi. pose proof (ceil_div_covers x c Hc). nia.
Qed.

Lemma ceil_div_last x c i :
  0 < c -> i * c < x -> (x <= i * c + c <-> i = ceil_div x c - 1).
Proof.
  intros Hc Hi. unfold ceil_div.
  pose proof (Z.div_mod (x + c - 1) c ltac:(lia)) as Hd.
  pose proof (Z.mod_pos_bound (x + c - 1) c Hc) as Hm.
  split; intros H; nia.
Qed.

(** The slices of a file in chunks of [size], laid end to end, are the
    file. *)
Lemma slices_cover (data : bytes) size :
  0 < size ->
  List.concat (map (fun i => slice data (Z.of_nat i * size) size)
                 (seq 0 (Z.to_nat (ceil_div (Z.of_nat (List.length data)) size))))
  = data.
Proof.
  intros Hs.
  set (n := Z.to_nat (ceil_div (Z.of_nat (List.length data)) size)).
  rewrite (map_ext _ (fun i => firstn (Z.to_nat size)
                                 (skipn (i * Z.to_nat size) data))).
  2:{ intros i. unfold slice. f_equal. f_equal. nia. }
  rewrite slices_concat. apply firstn_all2.
  pose proof (ceil_div_covers (Z.of_nat (List.length data)) size Hs).
  pose proof (ceil_div_nonneg (Z.of_nat (List.length data)) size Hs
                ltac:(lia)).
  subst n. nia.
Qed.

Lemma slice_nonempty (data : bytes) from size :
  0 < size -> 0 <= from < Z.of_nat (List.length data) ->
  slice data from size <> [] /\
  Z.of_nat (List.length (slice data from size)) <= size /\
  (from + size <= Z.of_nat (List.length data) ->
   Z.of_nat (List.length (slice data from size)) = size).
Proof.
  intros Hs Hf. unfold slice.
  assert (Hl : List.length (firstn (Z.to_nat size) (skipn (Z.to_nat from) data))
               = Nat.min (Z.to_nat size) (List.length data - Z.to_nat from))
    by (rewrite length_firstn, length_skipn; reflexivity).
  split; [|split].
  - intros E. rewrite E in Hl. simpl in Hl. lia.
  - lia.
  - intros. lia.
Qed.

Lemma keys_set_grows {V} (m : @JsMap.t V) k v :
  exists added, JsMap.keys (JsMap.set m k v) = JsMap.keys m ++ added.
Proof.
  induction m as [|[k' v'] m IH]; simpl.
  - exists [k]. reflexivity.
  - destruct (String.eqb_spec k' k) as [->|Hn]; simpl.
    + exists []. rewrite app_nil_r. reflexivity.
    + destruct IH as (added & IH). exists added.
      unfold JsMap.keys in *. simpl. rewrite IH. reflexivity.
Qed.

Section HostLasting.

Variable P : Type.
Variable utf8_decode : bytes -> string.
Variable instantiate : string -> Res (Worker.Exports P * Worker.Inst P).

Lemma deliver_live h (w w' : World P) :
  step utf8_decode instantiate (ADeliver h) w = Some w' ->
  exists wk, nth_error (workers w) h = Some wk /\ terminated wk = false.
Proof.
  simpl. unfold host_turn.
  destruct (nth_error (workers w) h) as [wk|]; [|discriminate].
  destruct (terminated wk) eqn:Et; [discriminate|]. intros _. eauto.
Qed.

Lemma pending_read_no_read k (w : World P) o :
  nth_error (ops w) k = Some o -> Pipeline.no_read o ->
  pending_read k w = None.
Proof.
  unfold pending_read, Pipeline.no_read. intros -> H.
  destruct (reader o) as [f|]; [|reflexivity]. rewrite H. reflexivity.
Qed.

Lemma pending_read_op k (w : World P) f c :
  pending_read k w = Some (f, c) ->
  exists o, nth_error (ops w) k = Some o /\ reader o = Some f /\
            reading f = Some c.
Proof.
  unfold pending_read.
  destruct (nth_error (ops w) k) as [o|]; [|discriminate].
  destruct (reader o) as [f0|] eqn:Er; [|discriminate].
  destruct (reading f0) as [c0|] eqn:E; [|discriminate].
  intros H; inversion H; subst. eauto.
Qed.

(** ** Promises *)

Lemma step_promise a (w w' : World P) k o :
  step utf8_decode instantiate a w = Some w' ->
  nth_error (ops w) k = Some o ->
  exists o',
    nth_error (ops w') k = Some o' /\
    (promise o <> Pending -> promise o' = promise o).
Proof.
  intros H Ho.
  destruct (step_op _ _ _ a w w' k o H Ho) as (o' & Ho' & Hc).
  exists o'. split; [assumption|]. intros Hp.
  destruct a as [url p|engineId type input|f0 engineId m|k'|k'|h|h];
    try (subst o'; reflexivity).
  - destruct (Nat.eqb k' k); [|subst; reflexivity].
    destruct Hc as (f & c & _ & ->). reflexivity.
  - destruct (Nat.eqb k' k); [|subst; reflexivity].
    destruct Hc as (f & c & _ & ->). simpl.
    destruct (promise o); simpl; congruence.
  - destruct Hc as [(_ & _ & Hg) _]. auto.
Qed.

(** X6. A promise that is settled stays as it is, whatever
    happens afterwards: the first [resolve] or [reject] of an operation
    decides it. An operation rejected for one chunk is not resolved by the
    [result] of a later one. *)
Theorem settled_operation_stays_settled :
  forall acts (w w' : World P) k o,
    run utf8_decode instantiate acts w = Some w' ->
    nth_error (ops w) k = Some o -> promise o <> Pending ->
    exists o', nth_error (ops w') k = Some o' /\ promise o' = promise o.
Proof.
  induction acts as [|a acts IH]; simpl; intros w w' k o H Ho Hp.
  - inversion H; subst. eauto.
  - destruct (step utf8_decode instantiate a w) as [w1|] eqn:E; [|discriminate].
    destruct (step_promise a w w1 k o E Ho) as (o1 & Ho1 & Hp1).
    specialize (Hp1 Hp).
    destruct (IH w1 w' k o1 H Ho1 ltac:(congruence)) as (o' & Ho' & Hp').
    exists o'. split; [assumption|congruence].
Qed.

(** ** The registry *)

Lemma run_handler_keys h r hd (w : World P) :
  exists added,
    JsMap.keys (engines (run_handler h r hd w))
    = JsMap.keys (engines w) ++ added.
Proof.
  assert (Hrefl : exists added : list string,
             JsMap.keys (engines w) = JsMap.keys (engines w) ++ added)
    by (exists []; symmetry; apply app_nil_r).
  destruct hd as [rid p|rid k]; simpl;
    destruct (resp_id r =? rid); auto; destruct r; simpl; auto.
  unfold loadWasmEngine_loaded. simpl.
  destruct (JsMap.get (engines w) (info_id payload)); simpl;
    apply keys_set_grows.
Qed.

Lemma fold_handlers_keys h r l : forall (w : World P),
  exists added,
    JsMap.keys (engines (fold_left (fun w' hd => run_handler h r hd w') l w))
    = JsMap.keys (engines w) ++ added.
Proof.
  induction l as [|hd l IH]; simpl; intros w.
  - exists []. symmetry; apply app_nil_r.
  - destruct (IH (run_handler h r hd w)) as (a2 & H2).
    destruct (run_handler_keys h r hd w) as (a1 & H1).
    exists (a1 ++ a2). rewrite H2, H1, app_assoc. reflexivity.
Qed.

Lemma step_keys a (w w' : World P) :
  step utf8_decode instantiate a w = Some w' ->
  exists added, JsMap.keys (engines w') = JsMap.keys (engines w) ++ added.
Proof.
  assert (Hrefl : exists added : list string,
             JsMap.keys (engines w) = JsMap.keys (engines w) ++ added)
    by (exists []; symmetry; apply app_nil_r).
  destruct a as [url p|engineId type input|f0 engineId m|k'|k'|h|h];
    simpl; intros H.
  - inversion H; subst. rewrite loadWasmEngine_eq. assumption.
  - inversion H; subst. unfold callEngine.
    destruct (JsMap.get (engines w) engineId); simpl; assumption.
  - inversion H; subst. unfold processFile, processFile_with. simpl.
    destruct (JsMap.get (engines w) engineId); simpl; assumption.
  - destruct (pending_read k' w) as [[f c]|]; inversion H; subst. assumption.
  - destruct (pending_read k' w) as [[f c]|]; inversion H; subst. assumption.
  - unfold worker_turn in H. destruct (nth_error (workers w) h); [|discriminate].
    destruct (terminated w0); [discriminate|].
    destruct (inbox w0); [discriminate|].
    destruct (Worker.onmessage _ _ _ _). inversion H; subst. assumption.
  - unfold host_turn in H. destruct (nth_error (workers w) h); [|discriminate].
    destruct (terminated w0); [discriminate|].
    destruct (outbox w0); [discriminate|]. inversion H; subst.
    unfold dispatch. destruct (nth_error _ h); [|assumption].
    match goal with
    | |- context [fold_left ?f ?l ?w0] =>
        destruct (fold_handlers_keys h r l w0) as (added & Hk)
    end.
    exists added. exact Hk.
Qed.

(** X7. No step removes an engine from the registry or changes the
    order of its IDs: the IDs registered before a run are, in the same
    order, the first IDs registered after it. The number under which
    [list] shows an engine and [use] accepts it never changes. *)
Theorem registry_keeps_its_entries_in_order :
  forall acts (w w' : World P),
    run utf8_decode instantiate acts w = Some w' ->
    exists added, JsMap.keys (engines w') = JsMap.keys (engines w) ++ added.
Proof.
  induction acts as [|a acts IH]; simpl; intros w w' H.
  - inversion H; subst. exists []. symmetry; apply app_nil_r.
  - destruct (step utf8_decode instantiate a w) as [w1|] eqn:E; [|discriminate].
    destruct (step_keys a w w1 E) as (a1 & H1).
    destruct (IH w1 w' H) as (a2 & H2).
    exists (a1 ++ a2). rewrite H2, H1, app_assoc. reflexivity.
Qed.

(** ** Terminated workers *)

(** X8. A worker that was terminated stays terminated; its context
    handles no further request, and the messages it had posted and the
    host had not yet received are never received. *)
Theorem terminated_worker_does_nothing_more :
  forall acts (w w' : World P) h wk,
    run utf8_decode instantiate acts w = Some w' ->
    nth_error (workers w) h = Some wk -> terminated wk = true ->
    exists wk',
      nth_error (workers w') h = Some wk' /\ terminated wk' = true /\
      context wk' = context wk /\ outbox wk' = outbox wk.
Proof.
  induction acts as [|a acts IH]; simpl; intros w w' h wk H Hh Ht.
  - inversion H; subst. eauto.
  - destruct (step utf8_decode instantiate a w) as [w1|] eqn:E; [|discriminate].
    destruct (step_worker _ _ _ a w w1 h wk E Hh) as (wk1 & H1 & Hf).
    destruct (Hf Ht) as (T1 & C1 & O1).
    destruct (IH w1 w' h wk1 H H1 T1) as (wk' & H' & T' & C' & O').
    exists wk'. repeat split; congruence.
Qed.

(** ** Operations nobody listens to *)

Lemma step_unheard a (w w' : World P) k o :
  step utf8_decode instantiate a w = Some w' ->
  nth_error (ops w) k = Some o -> Pipeline.no_read o -> unheard k w ->
  nth_error (ops w') k = Some o /\ unheard k w'.
Proof.
  intros H Ho Hr Hu.
  pose proof (pending_read_no_read k w o Ho Hr) as Hpr.
  destruct (step_op _ _ _ a w w' k o H Ho) as (o' & Ho' & Hc).
  assert (Eo : o' = o).
  { destruct a as [url p|engineId type input|f0 engineId m|k'|k'|h|h];
      try assumption.
    - destruct (Nat.eqb k' k); [|assumption].
      destruct Hc as (f & c & Hc & _). congruence.
    - destruct (Nat.eqb k' k); [|assumption].
      destruct Hc as (f & c & Hc & _). congruence.
    - destruct Hc as [_ Hc].
      destruct (deliver_live h w w' H) as (wk & Hwk & Ht).
      apply (Hc wk Hwk). intros n Hin.
      rewrite (Hu h wk n Hwk Hin) in Ht. discriminate. }
  subst o'. split; [assumption|].
  intros h wk' n Hh Hin.
  destruct (step_listener _ _ _ a w w' h wk' n k H Hh Hin)
    as [(wk & Hwk & Hin' & Ht)|[(e & t & i & _ & Hk & _)|Ha]].
  - apply Ht. eapply Hu; eassumption.
  - assert (k < List.length (ops w))%nat by (apply nth_error_Some; congruence).
    lia.
  - subst a. simpl in H. rewrite Hpr in H. discriminate.
Qed.

Lemma run_unheard acts : forall (w w' : World P) k o,
  run utf8_decode instantiate acts w = Some w' ->
  nth_error (ops w) k = Some o -> Pipeline.no_read o -> unheard k w ->
  nth_error (ops w') k = Some o.
Proof.
  induction acts as [|a acts IH]; simpl; intros w w' k o H Ho Hr Hu.
  - inversion H; subst. assumption.
  - destruct (step utf8_decode instantiate a w) as [w1|] eqn:E; [|discriminate].
    destruct (step_unheard a w w1 k o E Ho Hr Hu) as [Ho1 Hu1].
    eapply IH; eassumption.
Qed.

(** X9. An operation that has no file read under way and whose
    listeners, if any, are all attached to terminated workers never
    changes again: it receives no chunk and its promise is never settled.
    This is what happens to a call whose engine is replaced before the
    call is answered. *)
Theorem operation_without_live_listener_never_changes :
  forall acts (w w' : World P) k o,
    run utf8_decode instantiate acts w = Some w' ->
    nth_error (ops w) k = Some o -> Pipeline.no_read o -> unheard k w ->
    nth_error (ops w') k = Some o.
Proof. intros acts. apply run_unheard. Qed.

Lemma step_ops_length a (w w' : World P) :
  step utf8_decode instantiate a w = Some w' ->
  (List.length (ops w) <= List.length (ops w'))%nat.
Proof.
  intros H.
  destruct (List.length (ops w)) as [|n] eqn:El; [lia|].
  destruct (nth_error (ops w) n) as [o|] eqn:Eo.
  - destruct (step_op _ _ _ a w w' n o H Eo) as (o' & Ho' & _).
    assert (n < List.length (ops w'))%nat by (apply nth_error_Some; congruence).
    lia.
  - apply nth_error_None in Eo. lia.
Qed.

Lemma step_in_range a (w w' : World P) :
  step utf8_decode instantiate a w = Some w' ->
  handlers_in_range w -> handlers_in_range w'.
Proof.
  intros H Hr h wk' n k Hh Hin.
  pose proof (step_ops_length a w w' H) as Hlen.
  destruct (step_listener _ _ _ a w w' h wk' n k H Hh Hin)
    as [(wk & Hwk & Hin' & _)|[(e & t & i & _ & _ & Hk)|Ha]].
  - specialize (Hr h wk n k Hwk Hin'). lia.
  - assumption.
  - subst a. simpl in H.
    destruct (pending_read k w) as [[f c]|] eqn:Ep; [|discriminate].
    apply pending_read_op in Ep as (o & Ho & _).
    assert (k < List.length (ops w))%nat by (apply nth_error_Some; congruence).
    lia.
Qed.

Lemma run_in_range acts : forall (w w' : World P),
  run utf8_decode instantiate acts w = Some w' ->
  handlers_in_range w -> handlers_in_range w'.
Proof.
  induction acts as [|a acts IH]; simpl; intros w w' H Hr.
  - inversion H; subst; assumption.
  - destruct (step utf8_decode instantiate a w) as [w1|] eqn:E; [|discriminate].
    eapply IH; [eassumption|]. eapply step_in_range; eassumption.
Qed.

Lemma init_in_range : handlers_in_range (init (P:=P)).
Proof. intros h wk n k H. destruct h; discriminate. Qed.

(** X10. [processFile] on an empty file, for a registered engine,
    returns a promise that is never settled: there is no chunk to read, so
    nothing is ever sent, and nothing that happens later resolves or
    rejects it. *)
Theorem empty_file_operation_never_settles :
  forall acts0 (w : World P) chunkSize engineId e md acts w',
    run utf8_decode instantiate acts0 init = Some w ->
    JsMap.get (engines w) engineId = Some e ->
    let k := fst (processFile_with chunkSize [] engineId md w) in
    let w1 := snd (processFile_with chunkSize [] engineId md w) in
    run utf8_decode instantiate acts w1 = Some w' ->
    posted_ids (events w1) = posted_ids (events w) /\
    exists o,
      nth_error (ops w') k = Some o /\ promise o = Pending /\ chunks o = [] /\
      pending_read k w' = None.
Proof.
  intros acts0 w chunkSize engineId e md acts w' Hreach Hget k w1 Hrun.
  pose proof (run_in_range acts0 init w Hreach init_in_range) as Hrange.
  subst k w1. unfold processFile_with in *. cbn [print emit engines] in *.
  rewrite Hget in *. cbn [new_op fst snd] in *.
  match type of Hrun with
  | run _ _ _ ?w0 = _ => set (w1 := w0) in *
  end.
  set (o := {| chunks := []; promise := Pending;
               reader := Some (processNextChunk
                 {| file := []; mode := md; f_worker := worker e;
                    chunkSize := chunkSize;
                    totalChunks := ceil_div (Z.of_nat (List.length (@nil byte)))
                                     chunkSize;
                    offset := 0; reading := None |}) |}).
  assert (Ho : nth_error (ops w1) (List.length (ops w)) = Some o).
  { subst w1. simpl. apply nth_error_app_last. }
  assert (Hr : Pipeline.no_read o) by reflexivity.
  assert (Hu : unheard (List.length (ops w)) w1).
  { intros h wk n Hh Hin. subst w1. simpl in Hh.
    specialize (Hrange h wk n _ Hh Hin). lia. }
  split.
  - subst w1. simpl. rewrite CounterFacts.posted_ids_app. simpl.
    apply app_nil_r.
  - exists o. pose proof (run_unheard acts w1 w' _ o Hrun Ho Hr Hu)
      as Ho'.
    split; [assumption|]. split; [reflexivity|]. split; [reflexivity|].
    eapply pending_read_no_read; eassumption.
Qed.

(** ** The file reader *)

Lemma step_no_read a (w w' : World P) k o :
  step utf8_decode instantiate a w = Some w' ->
  nth_error (ops w) k = Some o -> Pipeline.no_read o ->
  exists o',
    nth_error (ops w') k = Some o' /\ Pipeline.no_read o' /\
    (promise o <> Pending -> promise o' = promise o).
Proof.
  intros H Ho Hr.
  pose proof (pending_read_no_read k w o Ho Hr) as Hpr.
  destruct (step_op _ _ _ a w w' k o H Ho) as (o' & Ho' & Hc).
  exists o'. split; [assumption|].
  destruct a as [url p|engineId type input|f0 engineId m|k'|k'|h|h];
    try (subst o'; auto).
  - destruct (Nat.eqb k' k); [|subst; auto].
    destruct Hc as (f & c & Hc & _). congruence.
  - destruct (Nat.eqb k' k); [|subst; auto].
    destruct Hc as (f & c & Hc & _). congruence.
  - destruct Hc as [(Hrd & _ & Hg) _]. split; [|assumption].
    unfold Pipeline.no_read in *. rewrite Hrd. assumption.
Qed.

Lemma run_no_read acts : forall (w w' : World P) k o,
  run utf8_decode instantiate acts w = Some w' ->
  nth_error (ops w) k = Some o -> Pipeline.no_read o ->
  exists o',
    nth_error (ops w') k = Some o' /\ Pipeline.no_read o' /\
    (promise o <> Pending -> promise o' = promise o).
Proof.
  induction acts as [|a acts IH]; simpl; intros w w' k o H Ho Hr.
  - inversion H; subst. eauto.
  - destruct (step utf8_decode instantiate a w) as [w1|] eqn:E; [|discriminate].
    destruct (step_no_read a w w1 k o E Ho Hr) as (o1 & Ho1 & Hr1 & Hp1).
    destruct (IH w1 w' k o1 H Ho1 Hr1) as (o' & Ho' & Hr' & Hp').
    exists o'. split; [assumption|]. split; [assumption|].
    intros Hp. rewrite Hp'; [auto|]. rewrite Hp1; assumption.
Qed.

(** X11. When the file reader fails, the operation is rejected
    with "File read error" (unless it was settled before), nothing is sent,
    and the reading stops for good: no later step reads or sends another
    chunk of the file. *)
Theorem read_error_rejects_and_stops_the_reading :
  forall (w : World P) k f c,
    pending_read k w = Some (f, c) ->
    exists o w1,
      nth_error (ops w) k = Some o /\
      step utf8_decode instantiate (AReaderError k) w = Some w1 /\
      workers w1 = workers w /\ events w1 = events w /\
      forall acts w',
        run utf8_decode instantiate acts w1 = Some w' ->
        pending_read k w' = None /\
        exists o',
          nth_error (ops w') k = Some o' /\
          promise o' = settle (promise o) (Rejected "File read error").
Proof.
  intros w k f c Hp.
  destruct (pending_read_op k w f c Hp) as (o & Ho & Hrd & Hc).
  exists o, (reader_onerror k f w). split; [assumption|].
  split; [simpl; rewrite Hp; reflexivity|].
  split; [reflexivity|]. split; [reflexivity|].
  intros acts w' Hrun.
  set (o1 := set_reader (Some (stopped f))
               (settle_op (Rejected "File read error") o)).
  assert (Ho1 : nth_error (ops (reader_onerror k f w)) k = Some o1).
  { unfold reader_onerror. simpl. rewrite nth_error_upd, Nat.eqb_refl, Ho.
    reflexivity. }
  assert (Hr1 : Pipeline.no_read o1) by reflexivity.
  destruct (run_no_read acts _ w' k o1 Hrun Ho1 Hr1) as (o' & Ho' & Hr' & Hp').
  split; [eapply pending_read_no_read; eassumption|].
  exists o'. split; [assumption|].
  rewrite Hp'; [reflexivity|]. simpl. destruct (promise o); discriminate.
Qed.

Lemma ceil_div_below x c : 0 < c -> 0 < x -> (ceil_div x c - 1) * c < x.
Proof.
  intros Hc Hx. unfold ceil_div.
  pose proof (Z.div_mod (x + c - 1) c ltac:(lia)) as Hd.
  pose proof (Z.mod_pos_bound (x + c - 1) c Hc) as Hm. nia.
Qed.

Lemma step_slices a (w w' : World P) k size data md h o :
  step utf8_decode instantiate a w = Some w' ->
  nth_error (ops w) k = Some o -> reads_slices size data md h o ->
  exists o', nth_error (ops w') k = Some o' /\ reads_slices size data md h o'.
Proof.
  intros H Ho Hs.
  destruct (step_op _ _ _ a w w' k o H Ho) as (o' & Ho' & Hc).
  exists o'. split; [assumption|].
  destruct Hs as (f & i & Hrd & Hf & Hcs & Ht & Hm & Hw & Hoff & Hread).
  destruct a as [url p|engineId type input|f0 engineId m|k'|k'|h0|h0];
    try (subst o'; exists f, i; repeat split; assumption).
  - destruct (Nat.eqb k' k);
      [|subst o'; exists f, i; repeat split; assumption].
    destruct Hc as (f1 & c & Hp & ->).
    apply pending_read_op in Hp as (o1 & Ho1 & Hrd1 & Hc1).
    assert (f1 = f) by congruence. subst f1.
    exists (advanced f), (S i). unfold advanced, processNextChunk.
    cbn [reader set_reader file mode f_worker chunkSize totalChunks offset
         reading chunks promise].
    rewrite Hf, Hcs. repeat split; try assumption.
    + rewrite Hoff, Nat2Z.inj_succ. lia.
    + destruct (Z.leb_spec (Z.of_nat (List.length data)) (offset f + size));
        [left; reflexivity|right]. split; [assumption|reflexivity].
  - destruct (Nat.eqb k' k);
      [|subst o'; exists f, i; repeat split; assumption].
    destruct Hc as (f1 & c & Hp & ->).
    apply pending_read_op in Hp as (o1 & Ho1 & Hrd1 & Hc1).
    assert (f1 = f) by congruence. subst f1.
    exists (stopped f), i. unfold stopped. simpl.
    repeat split; try assumption. left; reflexivity.
  - destruct Hc as [(Hrd' & _ & _) _].
    exists f, i. repeat split; try assumption. congruence.
Qed.

Lemma run_slices acts : forall (w w' : World P) k size data md h o,
  run utf8_decode instantiate acts w = Some w' ->
  nth_error (ops w) k = Some o -> reads_slices size data md h o ->
  exists o', nth_error (ops w') k = Some o' /\ reads_slices size data md h o'.
Proof.
  induction acts as [|a acts IH]; simpl; intros w w' k size data md h o H Ho Hs.
  - inversion H; subst. eauto.
  - destruct (step utf8_decode instantiate a w) as [w1|] eqn:E; [|discriminate].
    destruct (step_slices a w w1 k size data md h o E Ho Hs) as (o1 & Ho1 & Hs1).
    eapply IH; eassumption.
Qed.

(** X12. Whatever else happens while a file is processed, the
    chunk the reader holds is always one of the consecutive slices of
    [chunkSize] bytes of the file: slice [i], from byte [i * chunkSize], for
    an [i] below the chunk count. It is never empty, only the last slice
    can be shorter than [chunkSize], the [isLast] flag it will be sent with
    is set on the last slice and on no other, and the slices laid end to
    end are the file. *)
Theorem file_is_read_in_consecutive_slices :
  forall (w : World P) size data engineId md e acts w' f c,
    0 < size ->
    JsMap.get (engines w) engineId = Some e ->
    let k := fst (processFile_with size data engineId md w) in
    let total := ceil_div (Z.of_nat (List.length data)) size in
    run utf8_decode instantiate acts
        (snd (processFile_with size data engineId md w)) = Some w' ->
    pending_read k w' = Some (f, c) ->
    (exists i,
        0 <= i < total /\ offset f = i * size /\
        c = slice data (i * size) size /\ c <> [] /\
        Z.of_nat (List.length c) <= size /\
        (i < total - 1 -> Z.of_nat (List.length c) = size) /\
        ((Z.of_nat (List.length data) <=? offset f + size) = true
         <-> i = total - 1)) /\
    file f = data /\ chunkSize f = size /\ totalChunks f = total /\
    mode f = md /\ f_worker f = worker e /\
    List.concat (map (fun i => slice data (Z.of_nat i * size) size)
                   (seq 0 (Z.to_nat total))) = data.
Proof.
  intros w size data engineId md e acts w' f c Hs Hget k total Hrun Hp.
  subst k. unfold processFile_with in *. cbn [print emit engines] in *.
  rewrite Hget in *. cbn [new_op fst snd] in *.
  match type of Hrun with
  | run _ _ _ ?w0 = _ => set (w1 := w0) in *
  end.
  set (o := {| chunks := []; promise := Pending;
               reader := Some (processNextChunk
                 {| file := data; mode := md; f_worker := worker e;
                    chunkSize := size; totalChunks := total;
                    offset := 0; reading := None |}) |}).
  assert (Ho : nth_error (ops w1) (List.length (ops w)) = Some o).
  { subst w1. simpl. apply nth_error_app_last. }
  assert (Hsl : reads_slices size data md (worker e) o).
  { eexists _, O. split; [reflexivity|]. unfold processNextChunk. simpl.
    repeat split.
    destruct (Z.leb_spec (Z.of_nat (List.length data)) 0);
      [left; reflexivity|right]. split; [assumption|reflexivity]. }
  destruct (run_slices acts w1 w' _ size data md (worker e) o Hrun Ho Hsl)
    as (o' & Ho' & (f' & i & Hrd & Hf & Hcs & Ht & Hm & Hw & Hoff & Hread)).
  apply pending_read_op in Hp as (o1 & Ho1 & Hrd1 & Hc1).
  simpl in Ho1. rewrite Ho' in Ho1. inversion Ho1; subst o1; clear Ho1.
  assert (f' = f) by congruence. subst f'.
  destruct Hread as [Hn|[Hlt Hsome]]; [congruence|].
  assert (c = slice data (offset f) size) by congruence. subst c.
  assert (Hpos : 0 < Z.of_nat (List.length data)) by lia.
  assert (Hil : Z.of_nat i * size < Z.of_nat (List.length data)) by lia.
  pose proof (ceil_div_least _ size (Z.of_nat i) Hs Hil) as Hi.
  pose proof (ceil_div_last _ size (Z.of_nat i) Hs Hil) as Hlast.
  pose proof (ceil_div_below _ size Hs Hpos) as Hbelow.
  destruct (slice_nonempty data (offset f) size Hs ltac:(lia))
    as (Hne & Hle & Hfull).
  fold total in Hi, Hlast, Hbelow.
  split; [|repeat split; try assumption; apply slices_cover; assumption].
  exists (Z.of_nat i). rewrite Hoff in *.
  split; [lia|]. split; [reflexivity|]. split; [reflexivity|].
  split; [assumption|]. split; [assumption|]. split.
  - intros Hlt'. apply Hfull. nia.
  - split.
    + intros Hb. apply Z.leb_le in Hb. apply Hlast. lia.
    + intros Hb. apply Z.leb_le. apply Hlast. assumption.
Qed.

End HostLasting.
End HostLasting.

(** * The registry and the workers behind it *)
Module RegistryFacts.
Import Host Evolution.
Import HostFacts HostSteps.

Lemma get_set_other {V} (m : @JsMap.t V) k k' v :
  k <> k' -> JsMap.get (JsMap.set m k v) k' = JsMap.get m k'.
Proof.
  intros Hn. induction m as [|[k0 v0] m IH]; simpl.
  - destruct (String.eqb_spec k k'); [contradiction|reflexivity].
  - destruct (String.eqb_spec k0 k) as [->|Hk]; simpl.
    + destruct (String.eqb_spec k k'); [contradiction|reflexivity].
    + destruct (String.eqb_spec k0 k'); [reflexivity|assumption].
Qed.

Lemma fold_left_inv_in {A B} (f : A -> B -> A) (I : A -> Prop) l :
  forall a, I a -> (forall a b, In b l -> I a -> I (f a b)) ->
            I (fold_left f l a).
Proof.
  induction l as [|b l IH]; simpl; intros a Ha Hf; [assumption|].
  apply IH; [apply Hf; auto|]. intros a' b' Hin. apply Hf. auto.
Qed.

Lemma info_of_engine info p h :
  info_of {| id := info_id info; name := info_name info;
             desc := info_desc info; binarySafe := info_binarySafe info;
             selfInverse := info_selfInverse info;
             reversible := info_reversible info;
             isPreset := p; worker := h |} = info.
Proof. destruct info; reflexivity. Qed.

Section RegistryFacts.

Variable P : Type.
Variable utf8_decode : bytes -> string.
Variable instantiate : string -> Res (Worker.Exports P * Worker.Inst P).

(** ** What the worker contributes *)

Lemma load_answer st n url :
  exists r,
    snd (Worker.onmessage utf8_decode instantiate st (ReqLoad n url)) = [r] /\
    resp_id r = n /\
    forall n' info,
      r = RLoaded n' info ->
      Worker.wasmExports
        (fst (Worker.onmessage utf8_decode instantiate st (ReqLoad n url)))
        <> None /\
      Worker.engineInfo
        (fst (Worker.onmessage utf8_decode instantiate st (ReqLoad n url)))
        = Some info.
Proof.
  rewrite WorkerFacts.onmessage_load.
  destruct (instantiate url) as [[ex i0]|e].
  - destruct (Worker.load_body utf8_decode ex _) as [[info|e] s]; simpl.
    + eexists; split; [reflexivity|]. split; [reflexivity|].
      intros n' info' H. inversion H; subst. split; [discriminate|reflexivity].
    + eexists; split; [reflexivity|]. split; [reflexivity|]. discriminate.
  - simpl. eexists; split; [reflexivity|]. split; [reflexivity|]. discriminate.
Qed.

Lemma data_answer st id type chunk isLast tc :
  Forall (fun m => is_loaded m = false)
    (snd (Worker.onmessage utf8_decode instantiate st
            (ReqData id type chunk isLast tc))) /\
  (Worker.wasmExports st <> None ->
   Worker.wasmExports
     (fst (Worker.onmessage utf8_decode instantiate st
             (ReqData id type chunk isLast tc))) <> None) /\
  Worker.engineInfo
    (fst (Worker.onmessage utf8_decode instantiate st
            (ReqData id type chunk isLast tc)))
  = Worker.engineInfo st.
Proof.
  unfold Worker.onmessage.
  destruct (Worker.wasmExports st) as [[ex i]|] eqn:Ew.
  - destruct (Worker.data_body ex id type chunk isLast _) as [r s] eqn:E.
    apply WorkerAnswers.data_body_posts in E
      as (cs & fin & Hp & _ & _ & Hfin & _).
    simpl in Hp. cbn [fst snd Worker.wasmExports Worker.engineInfo].
    split; [|split; [discriminate|reflexivity]].
    rewrite Hp. apply Forall_app. split; [|destruct r; repeat constructor].
    apply Forall_app. split.
    + apply Forall_forall. intros m Hm. apply in_map_iff in Hm as (c & <- & _).
      reflexivity.
    + destruct Hfin as [->|[-> _]]; repeat constructor.
  - simpl. split; [repeat constructor|]. rewrite Ew. split; [auto|reflexivity].
Qed.

(** ** Phases of a worker *)

Lemma loading_not_serving (wk : Wk P) : loading wk -> serving wk -> False.
Proof.
  intros (_ & n & p & Hh & _) (Hs & _ & _). rewrite Hh in Hs.
  inversion Hs; subst. discriminate.
Qed.

Lemma keeps_refl (wk : Wk P) : keeps wk wk.
Proof.
  unfold keeps. split; [auto|]. split; [left; assumption|].
  split; [reflexivity|]. split; auto.
Qed.

Lemma keeps_serving (wk wk' : Wk P) :
  serving wk -> serving wk' -> terminated wk' = terminated wk ->
  (Worker.wasmExports (context wk) <> None ->
   Worker.wasmExports (context wk') <> None) ->
  Worker.engineInfo (context wk') = Worker.engineInfo (context wk) ->
  keeps wk wk'.
Proof.
  intros Hs Hs' Ht Hw Hi. unfold keeps. split; [auto|].
  split; [intros Hl; exfalso; eapply loading_not_serving; eassumption|].
  split; [assumption|]. split; [assumption|]. intros i H. congruence.
Qed.

(** ** Steps that register nothing *)

Lemma registry_frame (w w' : World P) :
  registry_ok w ->
  engines w' = engines w ->
  (forall j wk, nth_error (workers w) j = Some wk ->
     exists wk', nth_error (workers w') j = Some wk' /\ keeps wk wk') ->
  (forall j wk', nth_error (workers w') j = Some wk' ->
     nth_error (workers w) j = None -> loading wk') ->
  (forall k o' f,
     nth_error (ops w') k = Some o' -> reader o' = Some f ->
     (exists k0 o f0, nth_error (ops w) k0 = Some o /\ reader o = Some f0 /\
                      f_worker f0 = f_worker f) \/
     (exists engineId e, JsMap.get (engines w) engineId = Some e /\
                         worker e = f_worker f)) ->
  registry_ok w'.
Proof.
  intros (R1 & R2 & R3 & R4) He Hfw Hnew Hrd.
  assert (Hserv : forall j wk, nth_error (workers w) j = Some wk -> serving wk ->
                    exists wk', nth_error (workers w') j = Some wk' /\ serving wk').
  { intros j wk Hj Hs. destruct (Hfw j wk Hj) as (wk' & Hj' & (K1 & _)).
    eauto. }
  unfold registry_ok. rewrite He. split; [|split; [|split]].
  - intros engineId e Hg. destruct (R1 engineId e Hg)
      as (Hid & wk & Hwk & Hs & Ht & Hx & Hi).
    split; [assumption|].
    destruct (Hfw _ wk Hwk) as (wk' & Hwk' & (K1 & K2 & K3 & K4 & K5)).
    exists wk'. split; [assumption|]. split; [auto|].
    split; [congruence|]. split; auto.
  - assumption.
  - intros h wk' Hh. destruct (nth_error (workers w) h) as [wk|] eqn:Eh.
    + destruct (Hfw h wk Eh) as (wk'' & Hh'' & (K1 & K2 & _)).
      rewrite Hh in Hh''. inversion Hh''; subst wk''; clear Hh''.
      destruct (R3 h wk Eh) as [Hs|[Hl Hu]]; [left; auto|].
      destruct (K2 Hl) as [Hl'|Hs']; [right; auto|left; assumption].
    + right. split; [apply Hnew with (j := h); assumption|].
      intros engineId e Hg Hw. destruct (R1 engineId e Hg) as (_ & wk & Hwk & _).
      rewrite Hw in Hwk. congruence.
  - intros k o' f Ho' Hr.
    destruct (Hrd k o' f Ho' Hr)
      as [(k0 & o & f0 & Ho & Hr0 & Hf)|(engineId & e & Hg & Hf)].
    + destruct (R4 k0 o f0 Ho Hr0) as (wk & Hwk & Hs).
      rewrite <- Hf. eapply Hserv; eassumption.
    + destruct (R1 engineId e Hg) as (_ & wk & Hwk & Hs & _).
      rewrite <- Hf. eapply Hserv; eassumption.
Qed.

(** The readers of a table of operations that only grew by entries
    without a reader, or was not touched. *)
Lemma readers_same (w w' : World P) :
  (forall k o', nth_error (ops w') k = Some o' ->
     reader o' = None \/
     exists o, nth_error (ops w) k = Some o /\
               option_map f_worker (reader o') = option_map f_worker (reader o)) ->
  forall k o' f,
    nth_error (ops w') k = Some o' -> reader o' = Some f ->
    (exists k0 o f0, nth_error (ops w) k0 = Some o /\ reader o = Some f0 /\
                     f_worker f0 = f_worker f) \/
    (exists engineId e, JsMap.get (engines w) engineId = Some e /\
                        worker e = f_worker f).
Proof.
  intros H k o' f Ho' Hr. left.
  destruct (H k o' Ho') as [Hn|(o & Ho & Hf)]; [congruence|].
  rewrite Hr in Hf. destruct (reader o) as [f0|] eqn:E; [|discriminate].
  simpl in Hf. inversion Hf. exists k, o, f0. auto.
Qed.

Lemma ops_app_readers (os : list Op) o k o' :
  reader o = None ->
  nth_error (os ++ [o]) k = Some o' ->
  reader o' = None \/
  exists o0, nth_error os k = Some o0 /\
             option_map f_worker (reader o') = option_map f_worker (reader o0).
Proof.
  intros Hr Hk.
  destruct (Nat.lt_ge_cases k (List.length os)) as [Hl|Hl].
  - rewrite nth_error_app1 in Hk by assumption. right. eauto.
  - rewrite nth_error_app2 in Hk by assumption.
    destruct (k - List.length os)%nat as [|d]; simpl in Hk.
    + inversion Hk; subst. left; assumption.
    + destruct d; discriminate.
Qed.

Lemma ops_upd_readers (os : list Op) k0 g k o' :
  (forall o, option_map f_worker (reader (g o)) = option_map f_worker (reader o)) ->
  nth_error (upd os k0 g) k = Some o' ->
  reader o' = None \/
  exists o0, nth_error os k = Some o0 /\
             option_map f_worker (reader o') = option_map f_worker (reader o0).
Proof.
  intros Hg Hk. rewrite nth_error_upd in Hk. right.
  destruct (Nat.eqb k0 k).
  - destruct (nth_error os k) as [o|]; [|discriminate]. simpl in Hk.
    inversion Hk; subst. eauto.
  - eauto.
Qed.

Lemma ops_same_readers (os : list Op) k o' :
  nth_error os k = Some o' ->
  reader o' = None \/
  exists o0, nth_error os k = Some o0 /\
             option_map f_worker (reader o') = option_map f_worker (reader o0).
Proof. intros H. right. eauto. Qed.

Lemma workers_upd_frame (ws : list (Wk P)) h g :
  (forall wk, nth_error ws h = Some wk -> keeps wk (g wk)) ->
  (forall j wk, nth_error ws j = Some wk ->
     exists wk', nth_error (upd ws h g) j = Some wk' /\ keeps wk wk') /\
  (forall j wk', nth_error (upd ws h g) j = Some wk' ->
     nth_error ws j = None -> loading wk').
Proof.
  intros Hg. split.
  - intros j wk Hj. rewrite nth_error_upd, Hj.
    destruct (Nat.eqb_spec h j) as [->|Hn]; simpl; eexists;
      (split; [reflexivity|]); [auto|apply keeps_refl].
  - intros j wk' Hj Hn. rewrite nth_error_upd, Hn in Hj.
    destruct (Nat.eqb h j); discriminate.
Qed.

Lemma workers_same_frame (ws : list (Wk P)) :
  (forall j wk, nth_error ws j = Some wk ->
     exists wk', nth_error ws j = Some wk' /\ keeps wk wk') /\
  (forall j wk', nth_error ws j = Some wk' ->
     nth_error ws j = None -> loading wk').
Proof.
  split; [eauto using keeps_refl|congruence].
Qed.

(** A data listener, called with any message, keeps the registry and the
    workers in agreement. *)
Lemma run_handler_data_ok h r n k (w : World P) :
  registry_ok w -> registry_ok (run_handler h r (HData n k) w).
Proof.
  intros Hok. simpl. destruct (resp_id r =? n); [|assumption].
  assert (Hrm : forall (g : Op -> Op),
            (forall o, reader (g o) = reader o) ->
            registry_ok (removeEventListener h (HData n k) (upd_op k g w))).
  { intros g Hg.
    destruct (workers_upd_frame (workers w) h
                (fun wk => {| handlers := remove_one (HData n k) (handlers wk);
                              inbox := inbox wk; outbox := outbox wk;
                              context := context wk;
                              terminated := terminated wk |})) as [F1 F2].
    { intros wk Hwk. unfold keeps; simpl.
      split; [|split; [|split; [reflexivity|split; auto]]].
      - intros (S1 & S2 & S3). split; [|split; assumption]. simpl.
        rewrite Forall_forall in *. intros x Hx. apply S1.
        eapply remove_one_incl; eassumption.
      - intros (Ht & n0 & p & Hh & Hq). left. split; [assumption|].
        exists n0, p. simpl. rewrite Hh. simpl. auto. }
    apply (registry_frame w); auto.
    apply readers_same. intros k1 o' Hk1. simpl in Hk1.
    eapply ops_upd_readers; [|eassumption]. intros o. rewrite Hg. reflexivity. }
  assert (Hup : forall (g : Op -> Op),
            (forall o, reader (g o) = reader o) ->
            registry_ok (upd_op k g w)).
  { intros g Hg.
    destruct (workers_same_frame (workers w)) as [F1 F2].
    apply (registry_frame w); auto.
    apply readers_same. intros k1 o' Hk1. simpl in Hk1.
    eapply ops_upd_readers; [|eassumption]. intros o. rewrite Hg. reflexivity. }
  destruct r; simpl; auto.
Qed.

(** ** The registration of a loaded engine *)

Lemma registration_frame (w w' : World P) h wk info p wk3 :
  registry_ok w ->
  nth_error (workers w) h = Some wk -> loading wk ->
  (forall engineId e, JsMap.get (engines w) engineId = Some e -> worker e <> h) ->
  let engine :=
    {| id := info_id info; name := info_name info; desc := info_desc info;
       binarySafe := info_binarySafe info;
       selfInverse := info_selfInverse info;
       reversible := info_reversible info;
       isPreset := p; worker := h |} in
  engines w' = JsMap.set (engines w) (info_id info) engine ->
  ops w' = ops w ->
  nth_error (workers w') h = Some wk3 ->
  serving wk3 -> terminated wk3 = false ->
  Worker.wasmExports (context wk3) <> None ->
  Worker.engineInfo (context wk3) = Some info ->
  (forall j wk0, j <> h -> nth_error (workers w) j = Some wk0 ->
     exists wk', nth_error (workers w') j = Some wk' /\
                 (serving wk0 -> serving wk') /\
                 ((forall old, JsMap.get (engines w) (info_id info) = Some old ->
                               worker old <> j) -> wk' = wk0)) ->
  (forall j, nth_error (workers w) j = None -> nth_error (workers w') j = None) ->
  registry_ok w'.
Proof.
  intros (R1 & R2 & R3 & R4) Hh Hl Hu engine He Ho Hh' Hs3 Ht3 Hx3 Hi3 Hold Hnone.
  assert (Hentry : forall engineId e,
            JsMap.get (engines w') engineId = Some e ->
            engineId = info_id info /\ e = engine \/
            engineId <> info_id info /\ JsMap.get (engines w) engineId = Some e).
  { intros engineId e Hg. rewrite He in Hg.
    destruct (String.eqb_spec (info_id info) engineId) as [<-|Hn].
    - rewrite get_set_same in Hg. inversion Hg. auto.
    - rewrite get_set_other in Hg by assumption. right. auto. }
  assert (Hkeep : forall engineId e,
            engineId <> info_id info ->
            JsMap.get (engines w) engineId = Some e ->
            forall wk0, nth_error (workers w) (worker e) = Some wk0 ->
                        nth_error (workers w') (worker e) = Some wk0).
  { intros engineId e Hn Hg wk0 Hwk0.
    destruct (Hold (worker e) wk0 (Hu _ _ Hg) Hwk0) as (wk' & Hwk' & _ & Hsame).
    rewrite Hwk'. f_equal. apply Hsame. intros old Hgo Hw.
    apply Hn. symmetry. eapply R2; eassumption. }
  split; [|split; [|split]].
  - intros engineId e Hg.
    destruct (Hentry _ _ Hg) as [[-> ->]|[Hn Hg']].
    + split; [reflexivity|]. exists wk3. subst engine.
      rewrite info_of_engine. cbn [worker]. auto.
    + destruct (R1 _ _ Hg') as (Hid & wk0 & Hwk0 & Hrest).
      split; [assumption|]. exists wk0. split; [|assumption].
      eapply Hkeep; eassumption.
  - intros id1 id2 e1 e2 H1 H2 Hw.
    destruct (Hentry _ _ H1) as [[-> ->]|[Hn1 Hg1]];
      destruct (Hentry _ _ H2) as [[-> ->]|[Hn2 Hg2]].
    + reflexivity.
    + exfalso. apply (Hu _ _ Hg2). simpl in Hw. congruence.
    + exfalso. apply (Hu _ _ Hg1). simpl in Hw. congruence.
    + eapply R2; eassumption.
  - intros j wk' Hj.
    destruct (Nat.eq_dec j h) as [->|Hjh].
    { left. congruence. }
    destruct (nth_error (workers w) j) as [wk0|] eqn:Ej;
      [|rewrite (Hnone j Ej) in Hj; discriminate].
    destruct (Hold j wk0 Hjh Ej) as (wk'' & Hj'' & Hserv & Hsame).
    rewrite Hj in Hj''. inversion Hj''; subst wk''; clear Hj''.
    destruct (R3 j wk0 Ej) as [Hs|[Hl0 Hu0]]; [left; auto|].
    right. rewrite Hsame.
    + split; [assumption|]. intros engineId e Hg.
      destruct (Hentry _ _ Hg) as [[-> ->]|[Hn Hg']]; [simpl; auto|eauto].
    + intros old Hgo. eauto.
  - intros k o f Hk Hr. rewrite Ho in Hk.
    destruct (R4 k o f Hk Hr) as (wk0 & Hwk0 & Hs0).
    destruct (Nat.eq_dec (f_worker f) h) as [Hfh|Hfh].
    + exfalso. rewrite Hfh, Hh in Hwk0. inversion Hwk0; subst wk0.
      eapply loading_not_serving; eassumption.
    + destruct (Hold _ wk0 Hfh Hwk0) as (wk' & Hwk' & Hserv & _). eauto.
Qed.

(** ** Every step *)

Lemma serving_with_request (wk : Wk P) n k req :
  serving wk -> is_load_request req = false ->
  keeps wk {| handlers := handlers wk ++ [HData n k];
              inbox := inbox wk ++ [req]; outbox := outbox wk;
              context := context wk; terminated := terminated wk |}.
Proof.
  intros Hs Hr. apply keeps_serving; auto.
  destruct Hs as (S1 & S2 & S3). split; [|split]; simpl.
  - apply Forall_app. split; [assumption|repeat constructor].
  - apply Forall_app. split; [assumption|repeat constructor; assumption].
  - assumption.
Qed.

Lemma step_registry a (w w' : World P) :
  step utf8_decode instantiate a w = Some w' ->
  registry_ok w -> registry_ok w'.
Proof.
  intros H Hok. pose proof Hok as (R1 & R2 & R3 & R4).
  destruct a as [url p|engineId type input|f0 engineId m|k|k|h|h];
    simpl in H.
  - (* a load is started: a new worker, loading *)
    inversion H; subst; clear H. rewrite loadWasmEngine_eq.
    apply (registry_frame w); [assumption|reflexivity| | |].
    + intros j wk Hj. exists wk. cbn [workers].
      rewrite nth_error_app1 by (apply nth_error_Some; congruence).
      split; [assumption|apply keeps_refl].
    + intros j wk' Hj Hn. cbn [workers] in Hj. apply nth_error_None in Hn.
      rewrite nth_error_app2 in Hj by assumption.
      destruct (j - List.length (workers w))%nat as [|d]; simpl in Hj;
        [|destruct d; discriminate].
      inversion Hj; subst. split; [reflexivity|].
      exists (nextRequestId w), p. split; [reflexivity|]. left. exists url. auto.
    + apply readers_same. intros k o' Hk. apply ops_same_readers. exact Hk.
  - (* a single-shot call *)
    inversion H; subst; clear H. unfold callEngine.
    destruct (JsMap.get (engines w) engineId) as [e|] eqn:Eg.
    + destruct (R1 _ _ Eg) as (_ & wk & Hwk & Hs & _).
      cbn [postinc_nextRequestId new_op fst snd].
      destruct (workers_upd_frame (workers w) (worker e)
                  (fun wk => {| handlers := handlers wk
                                   ++ [HData (nextRequestId w) (List.length (ops w))];
                                inbox := inbox wk
                                   ++ [ReqData (nextRequestId w) type input true None];
                                outbox := outbox wk; context := context wk;
                                terminated := terminated wk |})) as [F1 F2].
      { intros wk0 Hwk0. assert (wk0 = wk) by congruence. subst wk0.
        apply serving_with_request; auto. }
      apply (registry_frame w); [assumption|reflexivity| | |].
      * intros j wk0 Hj. simpl. rewrite upd_upd. apply F1. assumption.
      * intros j wk' Hj Hn. simpl in Hj. rewrite upd_upd in Hj. eapply F2; eassumption.
      * apply readers_same. intros k o' Hk. simpl in Hk.
        eapply ops_app_readers; [|eassumption]. reflexivity.
    + destruct (workers_same_frame (workers w)) as [F1 F2].
      apply (registry_frame w); [assumption|reflexivity|exact F1|exact F2|].
      apply readers_same. intros k o' Hk. simpl in Hk.
      eapply ops_app_readers; [|eassumption]. reflexivity.
  - (* a file operation is started *)
    inversion H; subst; clear H. unfold processFile, processFile_with.
    cbn [print emit engines].
    destruct (workers_same_frame (workers w)) as [F1 F2].
    destruct (JsMap.get (engines w) engineId) as [e|] eqn:Eg.
    + apply (registry_frame w); [assumption|reflexivity|exact F1|exact F2|].
      intros k o' f Hk Hr. simpl in Hk.
      destruct (Nat.lt_ge_cases k (List.length (ops w))) as [Hl|Hl].
      * rewrite nth_error_app1 in Hk by assumption. left.
        exists k, o', f. auto.
      * rewrite nth_error_app2 in Hk by assumption.
        destruct (k - List.length (ops w))%nat as [|d]; simpl in Hk;
          [|destruct d; discriminate].
        inversion Hk; subst o'; clear Hk. simpl in Hr.
        inversion Hr; subst f; clear Hr. right. exists engineId, e. auto.
    + apply (registry_frame w); [assumption|reflexivity|exact F1|exact F2|].
      apply readers_same. intros k o' Hk. simpl in Hk.
      eapply ops_app_readers; [|eassumption]. reflexivity.
  - (* a chunk was read and is sent *)
    destruct (pending_read k w) as [[f c]|] eqn:Ep; inversion H; subst; clear H.
    apply HostLasting.pending_read_op in Ep as (o & Ho & Hrd & Hc).
    destruct (R4 k o f Ho Hrd) as (wk & Hwk & Hs).
    unfold reader_onload. cbn [postinc_nextRequestId].
    destruct (workers_upd_frame (workers w) (f_worker f)
                (fun wk => {| handlers := handlers wk ++ [HData (nextRequestId w) k];
                              inbox := inbox wk
                                 ++ [ReqData (nextRequestId w) (mode f) c
                                       (Z.of_nat (List.length (file f))
                                        <=? offset f + chunkSize f)
                                       (Some (totalChunks f))];
                              outbox := outbox wk; context := context wk;
                              terminated := terminated wk |})) as [F1 F2].
    { intros wk0 Hwk0. assert (wk0 = wk) by congruence. subst wk0.
      apply serving_with_request; auto. }
    apply (registry_frame w); [assumption|reflexivity| | |].
    + intros j wk0 Hj. simpl. rewrite upd_upd. apply F1. assumption.
    + intros j wk' Hj Hn. simpl in Hj. rewrite upd_upd in Hj. eapply F2; eassumption.
    + intros k1 o' f1 Hk1 Hr1. left. simpl in Hk1. rewrite nth_error_upd in Hk1.
      destruct (Nat.eqb_spec k k1) as [->|Hn].
      * rewrite Ho in Hk1. simpl in Hk1. inversion Hk1; subst o'; clear Hk1.
        simpl in Hr1. inversion Hr1; subst f1; clear Hr1.
        exists k1, o, f. auto.
      * exists k1, o', f1. auto.
  - (* the reader failed *)
    destruct (pending_read k w) as [[f c]|] eqn:Ep; inversion H; subst; clear H.
    apply HostLasting.pending_read_op in Ep as (o & Ho & Hrd & Hc).
    destruct (workers_same_frame (workers w)) as [F1 F2].
    apply (registry_frame w); [assumption|reflexivity|exact F1|exact F2|].
    intros k1 o' f1 Hk1 Hr1. left. simpl in Hk1. rewrite nth_error_upd in Hk1.
    destruct (Nat.eqb_spec k k1) as [->|Hn].
    + rewrite Ho in Hk1. simpl in Hk1. inversion Hk1; subst o'; clear Hk1.
      simpl in Hr1. inversion Hr1; subst f1; clear Hr1.
      exists k1, o, f. auto.
    + exists k1, o', f1. auto.
  - (* a worker handles a request *)
    unfold worker_turn in H.
    destruct (nth_error (workers w) h) as [wk|] eqn:Eh; [|discriminate].
    destruct (terminated wk) eqn:Et; [discriminate|].
    destruct (inbox wk) as [|req rest] eqn:Ei; [discriminate|].
    destruct (Worker.onmessage utf8_decode instantiate (context wk) req)
      as [st out] eqn:Em.
    inversion H; subst; clear H.
    destruct (workers_upd_frame (workers w) h
                (fun wk' => {| handlers := handlers wk'; inbox := rest;
                               outbox := outbox wk' ++ out; context := st;
                               terminated := terminated wk' |})) as [F1 F2].
    { intros wk0 Hwk0. assert (wk0 = wk) by congruence. subst wk0.
      destruct req as [n url|id type chunk isLast tc].
      - (* the load request *)
        destruct (load_answer (context wk) n url) as (r & Hout & Hid & Hinfo).
        rewrite Em in Hout, Hinfo. simpl in Hout, Hinfo. subst out.
        unfold keeps. cbn [handlers inbox outbox context terminated].
        split; [|split; [|split; [reflexivity|split]]].
        + intros (_ & S2 & _). rewrite Ei in S2. inversion S2; subst. discriminate.
        + intros (_ & n0 & p0 & Hh0 & [(url0 & Hi0 & Ho0 & Hc0)|(r0 & Hi0 & _)]);
            [|congruence].
          left. split; [assumption|]. exists n0, p0. simpl.
          split; [assumption|]. right.
          rewrite Ei in Hi0. inversion Hi0; subst n0 url0 rest.
          exists r. rewrite Ho0. simpl. auto.
        + intros Hx. destruct (R3 h wk Eh) as [(_ & S2 & _)|[Hl _]].
          * rewrite Ei in S2. inversion S2; subst. discriminate.
          * destruct Hl as (_ & n0 & p0 & _ & [(url0 & _ & _ & Hc0)|(r0 & Hi0 & _)]);
              [|congruence].
            rewrite Hc0 in Hx. simpl in Hx. contradiction.
        + intros i Hi. destruct (R3 h wk Eh) as [(_ & S2 & _)|[Hl _]].
          * rewrite Ei in S2. inversion S2; subst. discriminate.
          * destruct Hl as (_ & n0 & p0 & _ & [(url0 & _ & _ & Hc0)|(r0 & Hi0 & _)]);
              [|congruence].
            rewrite Hc0 in Hi. simpl in Hi. discriminate.
      - (* a data request *)
        destruct (data_answer (context wk) id type chunk isLast tc)
          as (Hout & Hx & Hi).
        rewrite Em in Hout, Hx, Hi. simpl in Hout, Hx, Hi.
        unfold keeps. cbn [handlers inbox outbox context terminated].
        split; [|split; [|split; [reflexivity|split]]].
        + intros (S1 & S2 & S3). split; [assumption|]. split; simpl.
          * rewrite Ei in S2. inversion S2; assumption.
          * apply Forall_app. auto.
        + intros (_ & n0 & p0 & Hh0 & [(url0 & Hi0 & _)|(r0 & Hi0 & _)]);
            congruence.
        + assumption.
        + intros i Hinfo. congruence. }
    destruct (workers_same_frame (workers w)) as [_ _].
    apply (registry_frame w); [assumption|reflexivity| | |].
    + intros j wk0 Hj. simpl. apply F1. assumption.
    + intros j wk' Hj Hn. simpl in Hj. eapply F2; eassumption.
    + apply readers_same. intros k o' Hk. apply ops_same_readers. exact Hk.
  - (* the host receives a message *)
    unfold host_turn in H.
    destruct (nth_error (workers w) h) as [wk|] eqn:Eh; [|discriminate].
    destruct (terminated wk) eqn:Et; [discriminate|].
    destruct (outbox wk) as [|r rest] eqn:Eo; [discriminate|].
    inversion H; subst; clear H.
    unfold dispatch. cbn [workers emit upd_worker set_workers].
    rewrite nth_error_upd, Nat.eqb_refl, Eh. cbn [option_map handlers].
    destruct (R3 h wk Eh) as [Hs|[Hl Hu]].
    + (* from a worker that serves: only data listeners run *)
      apply fold_left_inv_in.
      * destruct (workers_upd_frame (workers w) h
                    (fun wk' => {| handlers := handlers wk'; inbox := inbox wk';
                                   outbox := rest; context := context wk';
                                   terminated := terminated wk' |})) as [F1 F2].
        { intros wk0 Hwk0. assert (wk0 = wk) by congruence. subst wk0.
          apply keeps_serving; auto.
          destruct Hs as (S1 & S2 & S3). split; [|split]; simpl; auto.
          rewrite Eo in S3. inversion S3; assumption. }
        apply (registry_frame w); [assumption|reflexivity| | |].
        -- intros j wk0 Hj. simpl. apply F1. assumption.
        -- intros j wk' Hj Hn. simpl in Hj. eapply F2; eassumption.
        -- apply readers_same. intros k o' Hk. apply ops_same_readers. exact Hk.
      * intros w0 hd Hin Hw0. destruct hd as [n p|n k].
        -- destruct Hs as (S1 & _). rewrite Forall_forall in S1.
           specialize (S1 _ Hin). discriminate.
        -- apply run_handler_data_ok. assumption.
    + (* the answer to a load *)
      pose proof Hl as (_ & n & p & Hh & [(url & _ & Ho & _)|(r0 & Hi & Ho & Hid & Hinfo)]);
        [congruence|].
      rewrite Eo in Ho. inversion Ho; subst r0 rest; clear Ho.
      rewrite Hh. cbn [fold_left run_handler]. rewrite Hid, Z.eqb_refl.
      set (wk3 := {| handlers := []; inbox := []; outbox := [];
                     context := context wk; terminated := false |}).
      assert (E3 : forall ev,
                workers (removeEventListener h (HLoad n p)
                           (emit ev
                              (set_workers
                                 (upd (workers w) h
                                    (fun wk' => {| handlers := handlers wk';
                                                   inbox := inbox wk';
                                                   outbox := [];
                                                   context := context wk';
                                                   terminated := terminated wk' |}))
                                 w)))
                = upd (workers w) h (fun _ => wk3)).
      { intros ev. simpl. rewrite upd_upd.
        assert (Hg : forall x, nth_error (workers w) h = Some x ->
                  {| handlers := remove_one (HLoad n p) (handlers x);
                     inbox := inbox x; outbox := [];
                     context := context x; terminated := terminated x |} = wk3).
        { intros x Hx. assert (x = wk) by congruence. subst x.
          unfold wk3. rewrite Hh, Hi, Et. simpl.
          rewrite Z.eqb_refl, Bool.eqb_reflx. reflexivity. }
        clear - Hg. revert h Hg. induction (workers w) as [|y l IH];
          intros [|h] Hg; simpl; auto.
        - rewrite (Hg y eq_refl). reflexivity.
        - rewrite IH; auto. }
      assert (Hs3 : serving wk3) by (repeat constructor).
      destruct r as [id0 info|id0 payload|id0|id0 e].
      * (* loaded: the engine is registered *)
        destruct (Hinfo id0 info eq_refl) as [Hx Hi3].
        unfold loadWasmEngine_loaded. cbn [id].
        match goal with
        | |- context [JsMap.get (engines ?w0) (info_id info)] =>
            change (engines w0) with (engines w)
        end.
        destruct (JsMap.get (engines w) (info_id info)) as [old|] eqn:Eg.
        -- eapply (registration_frame w _ h wk info p wk3);
             try eassumption; try reflexivity.
           ++ cbn [workers emit set_engines terminate upd_worker set_workers print].
              rewrite E3. rewrite nth_error_upd.
              destruct (Nat.eqb_spec (worker old) h) as [Hw|Hw];
                [exfalso; eapply Hu; eassumption|].
              rewrite nth_error_upd, Nat.eqb_refl, Eh. reflexivity.
           ++ intros j wk0 Hj Hwk0.
              cbn [workers emit set_engines terminate upd_worker set_workers print].
              rewrite E3. rewrite nth_error_upd.
              rewrite (nth_error_upd_neq (workers w) h j) by auto.
              rewrite Hwk0.
              destruct (Nat.eqb_spec (worker old) j) as [Hw|Hw]; simpl;
                eexists; (split; [reflexivity|]).
              ** split; [intros (S1 & S2 & S3); split; [|split]; assumption|].
                 intros Hno. exfalso. eapply Hno; eauto.
              ** auto.
           ++ intros j Hn.
              cbn [workers emit set_engines terminate upd_worker set_workers print].
              rewrite E3. rewrite !nth_error_upd, Hn.
              destruct (Nat.eqb (worker old) j); destruct (Nat.eqb h j); reflexivity.
        -- eapply (registration_frame w _ h wk info p wk3);
             try eassumption; try reflexivity.
           ++ cbn [workers emit set_engines].
              rewrite E3. rewrite nth_error_upd, Nat.eqb_refl, Eh. reflexivity.
           ++ intros j wk0 Hj Hwk0. cbn [workers emit set_engines].
              rewrite E3. rewrite (nth_error_upd_neq (workers w) h j) by auto.
              exists wk0. auto.
           ++ intros j Hn. cbn [workers emit set_engines].
              rewrite E3. rewrite nth_error_upd, Hn.
              destruct (Nat.eqb h j); reflexivity.
      * (* not an answer a load gets *)
        apply (registry_frame w); [assumption|reflexivity| | |].
        -- rewrite E3. apply workers_upd_frame. intros wk0 Hwk0.
           assert (wk0 = wk) by congruence. subst wk0.
           unfold keeps. simpl. split; [auto|]. split; [auto|].
           split; [auto|]. split; auto.
        -- rewrite E3. apply workers_upd_frame. intros wk0 Hwk0.
           assert (wk0 = wk) by congruence. subst wk0.
           unfold keeps. simpl. split; [auto|]. split; [auto|].
           split; [auto|]. split; auto.
        -- apply readers_same. intros k o' Hk. apply ops_same_readers. exact Hk.
      * apply (registry_frame w); [assumption|reflexivity| | |].
        -- rewrite E3. apply workers_upd_frame. intros wk0 Hwk0.
           assert (wk0 = wk) by congruence. subst wk0.
           unfold keeps. simpl. split; [auto|]. split; [auto|].
           split; [auto|]. split; auto.
        -- rewrite E3. apply workers_upd_frame. intros wk0 Hwk0.
           assert (wk0 = wk) by congruence. subst wk0.
           unfold keeps. simpl. split; [auto|]. split; [auto|].
           split; [auto|]. split; auto.
        -- apply readers_same. intros k o' Hk. apply ops_same_readers. exact Hk.
      * (* the load failed *)
        unfold loadWasmEngine_failed.
        apply (registry_frame w); [assumption|reflexivity| | |].
        -- cbn [workers emit]. rewrite E3. apply workers_upd_frame.
           intros wk0 Hwk0.
           assert (wk0 = wk) by congruence. subst wk0.
           unfold keeps. simpl. split; [auto|]. split; [auto|].
           split; [auto|]. split; auto.
        -- cbn [workers emit]. rewrite E3. apply workers_upd_frame.
           intros wk0 Hwk0.
           assert (wk0 = wk) by congruence. subst wk0.
           unfold keeps. simpl. split; [auto|]. split; [auto|].
           split; [auto|]. split; auto.
        -- apply readers_same. intros k o' Hk. apply ops_same_readers. exact Hk.
Qed.

Lemma run_registry acts : forall (w w' : World P),
  run utf8_decode instantiate acts w = Some w' ->
  registry_ok w -> registry_ok w'.
Proof.
  induction acts as [|a acts IH]; simpl; intros w w' H Hok.
  - inversion H; subst; assumption.
  - destruct (step utf8_decode instantiate a w) as [w1|] eqn:E; [|discriminate].
    eapply IH; [eassumption|]. eapply step_registry; eassumption.
Qed.

Lemma init_registry : registry_ok (init (P:=P)).
Proof.
  split; [|split; [|split]]; simpl.
  - intros engineId e H. discriminate.
  - intros id1 id2 e1 e2 H. discriminate.
  - intros h wk H. destruct h; discriminate.
  - intros k o f H. destruct k; discriminate.
Qed.

(** X13. In every state the host can reach, each engine of the
    registry is stored under its own ID, and its worker is in working
    order: it has not been terminated, its load has succeeded, so that
    [wasmExports] is set, and the descriptor it keeps is the one in the
    registry; nothing but data requests is queued at it. No two entries
    share a worker. *)
Theorem registered_engines_are_loaded_and_live :
  forall acts (w : World P),
    run utf8_decode instantiate acts init = Some w ->
    forall engineId e,
      JsMap.get (engines w) engineId = Some e ->
      id e = engineId /\
      (exists wk,
         nth_error (workers w) (worker e) = Some wk /\
         terminated wk = false /\
         Worker.wasmExports (context wk) <> None /\
         Worker.engineInfo (context wk) = Some (info_of e) /\
         Forall (fun r => is_load_request r = false) (inbox wk)) /\
      (forall engineId' e',
         JsMap.get (engines w) engineId' = Some e' ->
         worker e' = worker e -> engineId' = engineId).
Proof.
  intros acts w Hrun engineId e Hg.
  destruct (run_registry acts init w Hrun init_registry) as (R1 & R2 & _ & _).
  destruct (R1 _ _ Hg) as (Hid & wk & Hwk & (_ & S2 & _) & Ht & Hx & Hi).
  split; [assumption|]. split.
  - exists wk. auto.
  - intros engineId' e' Hg' Hw. eapply R2; eassumption.
Qed.

End RegistryFacts.
End RegistryFacts.

(** * The validation self-test as a function *)
Module ValidationFacts.
Import Validation.

Section ValidationFacts.

Variable utf8_decode : bytes -> string.
Variable uint8array_of_string : string -> bytes.

Lemma bytes_eqb_eq a b : bytes_eqb a b = true -> a = b.
Proof.
  unfold bytes_eqb. destruct (list_eq_dec Byte.byte_eq_dec a b); congruence.
Qed.

Lemma call_val m name x v :
  call m name x = Val v -> exists f, m = Some f /\ f x = Val v.
Proof. destruct m as [f|]; simpl; [eauto|discriminate]. Qed.

Lemma and_then_passed r next :
  and_then r next = Val Passed -> r = Val Passed /\ next = Val Passed.
Proof.
  destruct r as [[|e]|e]; simpl; intros H; try discriminate. auto.
Qed.

(** X14. What a verdict [{ok: true}] of [validateEngine] stands
    for. Encoding the probe string gave a non-empty output. If the engine
    is flagged reversible, decoding that output gave back the probe
    string; if self-inverse, encoding it again did. If it is flagged
    binary-safe, the 16 probe bytes were encoded, and, when the engine is
    also reversible or self-inverse, decoding gave back exactly those
    bytes: so a binary-safe, self-inverse engine passes only if it has a
    [decode] method as well. *)
Theorem passed_validation_means_the_probes_round_trip :
  forall eng,
    validateEngine utf8_decode uint8array_of_string eng = Passed ->
    exists f enc,
      encode eng = Some f /\ f (VStr testStr) = Val enc /\
      falsy enc = false /\ no_length enc = false /\
      (reversible eng = true ->
       exists g dec,
         decode eng = Some g /\ g enc = Val dec /\
         as_string utf8_decode dec = testStr) /\
      (selfInverse eng = true ->
       exists enc2, f enc = Val enc2 /\ as_string utf8_decode enc2 = testStr) /\
      (binarySafe eng = true ->
       exists encBin,
         f (VBytes testBinary) = Val encBin /\ falsy encBin = false /\
         (reversible eng || selfInverse eng = true ->
          exists g decBin,
            decode eng = Some g /\ g encBin = Val decBin /\
            as_bytes uint8array_of_string decBin = testBinary)).
Proof.
  intros eng H. unfold validateEngine in H.
  destruct (call (encode eng) "encode" (VStr testStr)) as [enc|e] eqn:Ec;
    [|discriminate].
  apply call_val in Ec as (f & Hf & Henc). exists f, enc.
  destruct (falsy enc || no_length enc) eqn:En; [discriminate|].
  apply orb_false_elim in En as [En1 En2].
  match type of H with
  | match ?r with _ => _ end = _ => destruct r as [v|e] eqn:Er; [|discriminate]
  end.
  subst v. apply and_then_passed in Er as [Hrev Er].
  apply and_then_passed in Er as [Hself Hbin].
  repeat (split; [assumption|]). split; [|split].
  - intros Hr. unfold step_reversible in Hrev. rewrite Hr in Hrev.
    destruct (call (decode eng) "decode" enc) as [dec|e] eqn:Ed; [|discriminate].
    apply call_val in Ed as (g & Hg & Hdec). exists g, dec.
    destruct (falsy dec); [discriminate|].
    destruct (String.eqb_spec (as_string utf8_decode dec) testStr);
      [auto|discriminate].
  - intros Hs. unfold step_selfInverse in Hself. rewrite Hs, Hf in Hself.
    simpl in Hself. rewrite Henc, En1 in Hself.
    destruct (f enc) as [enc2|e] eqn:E2; [|discriminate]. exists enc2.
    destruct (falsy enc2); [discriminate|].
    destruct (String.eqb_spec (as_string utf8_decode enc2) testStr);
      [auto|discriminate].
  - intros Hb. unfold step_binarySafe in Hbin. rewrite Hb, Hf in Hbin.
    simpl in Hbin.
    destruct (f (VBytes testBinary)) as [encBin|e] eqn:Eb; [|discriminate].
    exists encBin. destruct (falsy encBin); [discriminate|].
    split; [reflexivity|]. split; [reflexivity|]. intros Hrs.
    rewrite Hrs in Hbin.
    destruct (call (decode eng) "decode" encBin) as [decBin|e] eqn:Ed;
      [|discriminate].
    apply call_val in Ed as (g & Hg & Hdec). exists g, decBin.
    destruct (falsy decBin); [discriminate|].
    destruct (negb _); [discriminate|].
    destruct (bytes_eqb _ _) eqn:Eq; [|discriminate].
    apply bytes_eqb_eq in Eq. auto.
Qed.

End ValidationFacts.
End ValidationFacts.

(** * Escaping *)
Module HtmlFacts.
Import Html.

(** The five characters of the class, and the others. *)
Lemma entity_cases c :
  c = "&"%char /\ entity c = "&amp;" \/
  c = "<"%char /\ entity c = "&lt;" \/
  c = ">"%char /\ entity c = "&gt;" \/
  c = "034"%char /\ entity c = "&quot;" \/
  c = "'"%char /\ entity c = "&#39;" \/
  entity c = String c EmptyString /\ Ascii.eqb c "&" = false /\
  special c = false.
Proof.
  unfold entity, special.
  destruct (Ascii.eqb_spec c "&"); [auto|].
  destruct (Ascii.eqb_spec c "<"); [auto|].
  destruct (Ascii.eqb_spec c ">"); [auto 6|].
  destruct (Ascii.eqb_spec c "034"); [auto 8|].
  destruct (Ascii.eqb_spec c "'"); [auto 10|].
  do 5 right. auto.
Qed.

Lemma esc_app a b : esc (a ++ b)%string = (esc a ++ esc b)%string.
Proof.
  induction a as [|c a IH]; simpl; [reflexivity|].
  rewrite IH.
  generalize (entity c). intros e. induction e as [|x e IHe]; simpl;
    [reflexivity|now rewrite IHe].
Qed.

Lemma prefix_app p r : String.prefix p (p ++ r)%string = true.
Proof.
  induction p as [|a p IH]; simpl; [destruct r; reflexivity|].
  destruct (ascii_dec a a); [assumption|congruence].
Qed.

(** An entity in front of a safe text. *)
Lemma safe_entity e r :
  e = "&amp;" \/ e = "&lt;" \/ e = "&gt;" \/ e = "&quot;" \/ e = "&#39;" ->
  safe (e ++ r)%string = safe r.
Proof.
  intros [ -> | [ -> | [ -> | [ -> | -> ] ] ] ];
    change (safe (?x ++ r)%string) with
      (starts_entity (x ++ r)%string && safe r);
    unfold starts_entity; rewrite prefix_app;
    rewrite ?orb_true_r; reflexivity.
Qed.

(** X15. The output of [esc] can be put between tags and inside a
    quoted attribute: it holds no [<], [>] or quote, and every [&] in it
    begins one of the five entities. A text without any of the five
    characters is left as it is, and escaping goes through
    concatenation. *)
Theorem escaped_text_is_safe :
  forall s,
    safe (esc s) = true /\
    (plain s = true -> esc s = s) /\
    (forall t, esc (s ++ t)%string = (esc s ++ esc t)%string).
Proof.
  intros s. split; [|split].
  - induction s as [|c s IH]; [reflexivity|]. simpl.
    destruct (entity_cases c)
      as [[-> ->]|[[-> ->]|[[-> ->]|[[-> ->]|[[-> ->]|(-> & Hn & Hs)]]]]];
      try (rewrite safe_entity by (vm_compute; auto 6); exact IH).
    simpl. rewrite Hs, Hn, IH. reflexivity.
  - induction s as [|c s IH]; [reflexivity|]. simpl. intros H.
    apply andb_prop in H as [H Hp]. apply andb_prop in H as [Hs Hn].
    apply negb_true_iff in Hs, Hn.
    destruct (entity_cases c)
      as [[-> _]|[[-> _]|[[-> _]|[[-> _]|[[-> _]|(-> & _ & _)]]]]];
      try discriminate.
    simpl. rewrite (IH Hp). reflexivity.
  - intros t. apply esc_app.
Qed.

Lemma entity_head c r c' r' :
  (entity c ++ r)%string = (entity c' ++ r')%string -> c = c' /\ r = r'.
Proof.
  destruct (entity_cases c)
    as [[-> ->]|[[-> ->]|[[-> ->]|[[-> ->]|[[-> ->]|(-> & Hn & Hs)]]]]];
    destruct (entity_cases c')
      as [[-> ->]|[[-> ->]|[[-> ->]|[[-> ->]|[[-> ->]|(-> & Hn' & Hs')]]]]];
    simpl; intros H; try discriminate;
    try (inversion H; subst; auto; fail);
    try (inversion H; subst; discriminate).
Qed.

Lemma esc_injective : forall s t, esc s = esc t -> s = t.
Proof.
  induction s as [|c s IH]; intros [|c' t] H; simpl in H.
  - reflexivity.
  - exfalso. destruct (entity_cases c')
      as [[_ E]|[[_ E]|[[_ E]|[[_ E]|[[_ E]|(E & _)]]]]];
      rewrite E in H; discriminate.
  - exfalso. destruct (entity_cases c)
      as [[_ E]|[[_ E]|[[_ E]|[[_ E]|[[_ E]|(E & _)]]]]];
      rewrite E in H; discriminate.
  - apply entity_head in H as [-> H]. f_equal. apply IH. assumption.
Qed.

(** X16. Two different texts are escaped to two different texts:
    nothing is lost on the way to the page, and a text that already
    holds an entity is not taken for the character it stands for. *)
Theorem escaping_loses_nothing :
  forall s t, s <> t -> esc s <> esc t.
Proof.
  intros s t Hne E. apply Hne. apply esc_injective. exact E.
Qed.

End HtmlFacts.

(** * The hex dump *)
Module HexDumpFacts.
Import HexDump.

Lemma list_of_app a b :
  list_ascii_of_string (a ++ b)%string =
  list_ascii_of_string a ++ list_ascii_of_string b.
Proof. induction a; simpl; [reflexivity|now rewrite IHa]. Qed.

Lemma string_of_app l l' :
  string_of_list_ascii (l ++ l') =
  (string_of_list_ascii l ++ string_of_list_ascii l')%string.
Proof. induction l; simpl; [reflexivity|now rewrite IHl]. Qed.

Lemma rev_snoc t c : Js.rev (t ++ String c EmptyString) = String c (Js.rev t).
Proof.
  unfold Js.rev. rewrite list_of_app. simpl. rewrite rev_app_distr.
  reflexivity.
Qed.

Lemma rev_cons t c : Js.rev (String c t) = (Js.rev t ++ String c EmptyString)%string.
Proof. unfold Js.rev. simpl. rewrite string_of_app. reflexivity. Qed.

Lemma rev_rev t : Js.rev (Js.rev t) = t.
Proof.
  unfold Js.rev. rewrite list_ascii_of_string_of_list_ascii, rev_involutive.
  apply string_of_list_ascii_of_string.
Qed.

Lemma trim_end_space t c :
  Js.is_space c = true ->
  Js.trim_end (t ++ String c EmptyString) = Js.trim_end t.
Proof.
  intros H. unfold Js.trim_end. rewrite rev_snoc. simpl. rewrite H.
  reflexivity.
Qed.

Lemma trim_end_char t c :
  Js.is_space c = false ->
  Js.trim_end (t ++ String c EmptyString) = (t ++ String c EmptyString)%string.
Proof.
  intros H. unfold Js.trim_end. rewrite rev_snoc. simpl. rewrite H.
  rewrite rev_cons, rev_rev. reflexivity.
Qed.

Lemma append_assoc (a b c : string) :
  ((a ++ b) ++ c)%string = (a ++ (b ++ c))%string.
Proof. induction a; simpl; [reflexivity|now rewrite IHa]. Qed.

Lemma append_nil_r (a : string) : (a ++ EmptyString)%string = a.
Proof. induction a; simpl; [reflexivity|now rewrite IHa]. Qed.

(** Two hex digits, none of them white space, that read back as the
    byte. *)
Lemma hex2_shape b :
  exists x y,
    hex2 b = String x (String y EmptyString) /\
    Js.is_space x = false /\ Js.is_space y = false /\
    forall rest, undump (String x (String y rest)) =
                 b :: match rest with
                      | String _ rest' => undump rest'
                      | EmptyString => []
                      end.
Proof.
  destruct b; do 2 eexists; (split; [reflexivity|]);
    (split; [reflexivity|]); (split; [reflexivity|]);
    intros rest; reflexivity.
Qed.

Lemma sep_space i : Js.is_space (sep i) = true.
Proof. unfold sep. destruct (_ =? _)%nat; reflexivity. Qed.

Lemma loop_cons b rest i :
  loop (b :: rest) i =
  (hex2 b ++ String (sep i) (loop rest (S i)))%string.
Proof.
  simpl. unfold sep. destruct (_ =? _)%nat; reflexivity.
Qed.

Lemma loop_snoc init b i :
  loop (init ++ [b]) i =
  (loop init i ++ hex2 b
   ++ String (sep (i + List.length init)) EmptyString)%string.
Proof.
  revert i. induction init as [|a init IH]; intros i.
  - rewrite Nat.add_0_r. simpl app. rewrite loop_cons. reflexivity.
  - simpl app. rewrite !loop_cons, IH. simpl List.length.
    rewrite Nat.add_succ_r. simpl Nat.add.
    destruct (hex2_shape a) as (x & y & -> & _). reflexivity.
Qed.

Lemma undump_loop bs i r :
  undump (loop bs i ++ r) = bs ++ undump r.
Proof.
  revert i. induction bs as [|b bs IH]; intros i; [reflexivity|].
  rewrite loop_cons. destruct (hex2_shape b) as (x & y & -> & _ & _ & U).
  simpl append. rewrite U, IH. reflexivity.
Qed.

Lemma loop_starts b rest i :
  exists x t, loop (b :: rest) i = String x t /\ Js.is_space x = false.
Proof.
  rewrite loop_cons. destruct (hex2_shape b) as (x & y & -> & Hx & _).
  simpl. eauto.
Qed.

(** The dump of a non-empty array that fits: the loop's text without its
    last separator. *)
Lemma trim_loop init b :
  Js.trim (loop (init ++ [b]) 0) = (loop init 0 ++ hex2 b)%string.
Proof.
  unfold Js.trim.
  assert (Hs : Js.trim_start (loop (init ++ [b]) 0) = loop (init ++ [b]) 0).
  { destruct init as [|a init]; simpl app;
      [destruct (loop_starts b [] 0) as (x & t & -> & Hx)
      |destruct (loop_starts a (init ++ [b]) 0) as (x & t & -> & Hx)];
      simpl; rewrite Hx; reflexivity. }
  rewrite Hs, loop_snoc.
  destruct (hex2_shape b) as (x & y & -> & _ & Hy & _).
  change (loop init 0 ++ String x (String y EmptyString)
          ++ String (sep (0 + List.length init)) EmptyString)%string
    with (loop init 0
          ++ String x (String y (String (sep (0 + List.length init))
                                        EmptyString)))%string.
  replace (loop init 0
           ++ String x (String y (String (sep (0 + List.length init))
                                         EmptyString)))%string
    with (((loop init 0 ++ String x EmptyString) ++ String y EmptyString)
          ++ String (sep (0 + List.length init)) EmptyString)%string
    by (rewrite !append_assoc; reflexivity).
  rewrite trim_end_space by apply sep_space.
  rewrite trim_end_char by assumption.
  rewrite append_assoc. reflexivity.
Qed.

(** X17. The hex dump shows the first 10240 bytes of the output as
    they are: they can be read back from the text it hands to the pager,
    whether the dump was cut or not. *)
Theorem dump_shows_the_first_bytes :
  exists read : string -> list byte,
    forall bs, read (hex_dump bs) = firstn LIMIT bs.
Proof.
  exists undump. intros bs. unfold hex_dump.
  destruct (LIMIT <? List.length bs)%nat eqn:Hlen.
  - apply Nat.ltb_lt in Hlen.
    assert (Hne : firstn LIMIT bs <> []).
    { intros E. apply (f_equal (@List.length byte)) in E.
      rewrite length_firstn in E. cbn [List.length] in E.
      assert (0 < LIMIT)%nat by (unfold LIMIT; apply Nat.mul_pos_pos; lia).
      lia. }
    generalize dependent (firstn LIMIT bs). intros F Hne.
    destruct F as [|b F]; [congruence|]. clear Hne.
    set (tail := String Js.newline "... (truncated)").
    assert (Ht : Js.trim (loop (b :: F) 0 ++ tail) =
                 (loop (b :: F) 0 ++ tail)%string).
    { unfold Js.trim.
      destruct (loop_starts b F 0) as (x & t & -> & Hx).
      simpl append. simpl Js.trim_start. rewrite Hx.
      change (String x (t ++ tail))
        with (String x t ++ tail)%string.
      change tail with (String Js.newline "... (truncated"
                        ++ String ")" EmptyString)%string.
      rewrite <- append_assoc. apply trim_end_char. reflexivity. }
    rewrite Ht, undump_loop. simpl undump. apply app_nil_r.
  - apply Nat.ltb_ge in Hlen. rewrite firstn_all2 by assumption.
    rewrite append_nil_r.
    destruct bs as [|b0 bs']; [reflexivity|].
    destruct (@exists_last _ (b0 :: bs')) as (init & b & ->);
      [discriminate|].
    rewrite trim_loop, undump_loop.
    destruct (hex2_shape b) as (x & y & -> & _ & _ & U).
    rewrite U. reflexivity.
Qed.

End HexDumpFacts.

(** * The terminal *)
Module ShellFacts.
Import Shell.

(** ** Lines and pages *)

Lemma concat_cons sep x y r :
  String.concat sep (x :: y :: r) =
  (x ++ sep ++ String.concat sep (y :: r))%string.
Proof. reflexivity. Qed.

Lemma split_go_nonempty c s cur : Js.split_go c s cur <> [].
Proof.
  revert cur; induction s as [|a s IH]; intros cur; simpl; [discriminate|].
  destruct (Ascii.eqb a c); [discriminate|apply IH].
Qed.

Lemma join_split_go c s cur :
  String.concat (String c EmptyString) (Js.split_go c s cur) =
  (cur ++ s)%string.
Proof.
  revert cur; induction s as [|a s IH]; intros cur; simpl.
  - symmetry. apply HexDumpFacts.append_nil_r.
  - destruct (Ascii.eqb_spec a c) as [->|Hne].
    + pose proof (split_go_nonempty c s EmptyString) as Hn.
      specialize (IH EmptyString).
      destruct (Js.split_go c s EmptyString) as [|y r]; [congruence|].
      rewrite concat_cons, IH. reflexivity.
    + rewrite IH, HexDumpFacts.append_assoc. reflexivity.
Qed.

Lemma pages_concat {A} (l : list A) (c n : nat) :
  List.concat (map (fun i => firstn c (skipn (i * c) l)) (seq 0 n))
  = firstn (n * c) l.
Proof.
  induction n as [|n IH]; [reflexivity|].
  rewrite seq_S, map_app, concat_app, IH. simpl. rewrite app_nil_r.
  rewrite <- HostLasting.firstn_add_skipn. f_equal. lia.
Qed.

(** A page inside the text is the slice of [h] lines that begins at
    its first line. *)
Lemma page_firstn p c :
  0 < h p -> 0 <= c -> c * h p <= Z.of_nat (List.length (lines p)) ->
  page p c = firstn (Z.to_nat (h p)) (skipn (Z.to_nat c * Z.to_nat (h p)) (lines p)).
Proof.
  intros Hh Hc Hin. unfold page, Js.slice, Js.clamp_index.
  set (len := Z.of_nat (List.length (lines p))) in *.
  assert (E1 : (c * h p <? 0) = false) by (apply Z.ltb_ge; nia).
  assert (E2 : (Z.min (c * h p + h p) len <? 0) = false)
    by (apply Z.ltb_ge; lia).
  rewrite E1, E2.
  rewrite (Z.min_l (c * h p) len) by lia.
  rewrite (Z.min_l (Z.min (c * h p + h p) len) len) by lia.
  rewrite <- Z2Nat.inj_mul by lia.
  set (k := skipn (Z.to_nat (c * h p)) (lines p)).
  assert (Hk : List.length k = (List.length (lines p) - Z.to_nat (c * h p))%nat)
    by (unfold k; apply length_skipn).
  destruct (Z.le_ge_cases (c * h p + h p) len) as [Hle|Hge].
  - rewrite Z.min_l by lia. f_equal. lia.
  - rewrite Z.min_r by lia.
    rewrite !firstn_all2; [reflexivity| |]; rewrite Hk; unfold len in *; lia.
Qed.

Lemma page_bounds p c :
  0 < h p -> 0 <= c -> c * h p < Z.of_nat (List.length (lines p)) ->
  page p c <> [] /\ Z.of_nat (List.length (page p c)) <= h p.
Proof.
  intros Hh Hc Hin. rewrite page_firstn by lia.
  rewrite <- Z2Nat.inj_mul by lia.
  split.
  - intros E. apply (f_equal (@List.length string)) in E.
    rewrite length_firstn, length_skipn in E. simpl in E. lia.
  - rewrite length_firstn. lia.
Qed.

Lemma fold_print {App Cb} (ls : list string) (s : Sh App Cb) :
  let s' := fold_left (fun s' l => print (LText l) s') ls s in
  out s' = out s ++ map (fun l => OPrint (LText l)) ls /\
  pager s' = pager s /\ history s' = history s /\ histIdx s' = histIdx s /\
  imode s' = imode s /\ selectOpts s' = selectOpts s /\
  selectCb s' = selectCb s /\ ti s' = ti s /\ ps s' = ps s /\ app s' = app s.
Proof.
  revert s; induction ls as [|l ls IH]; intros s; simpl.
  - rewrite app_nil_r. repeat split; reflexivity.
  - destruct (IH (print (LText l) s)) as (E & R). simpl in IH.
    cbv zeta in E, R. rewrite E. simpl. rewrite <- app_assoc. simpl.
    split; [reflexivity|]. exact R.
Qed.

Lemma printed_app o o' :
  printed_texts (o ++ o') = printed_texts o ++ printed_texts o'.
Proof. unfold printed_texts. apply flat_map_app. Qed.

Lemma printed_lines ls :
  printed_texts (map (fun l => OPrint (LText l)) ls) = ls.
Proof. induction ls as [|l ls IH]; simpl; [reflexivity|now rewrite IH]. Qed.

(** What [renderPage] does: the old bar goes, the lines of the current
    page are printed, a new bar is appended; nothing else changes. *)
Lemma renderPage_spec {App Cb} p (s : Sh App Cb) :
  let s' := renderPage p s in
  out s' = out s ++ [OBarRemoved]
           ++ map (fun l => OPrint (LText l)) (page p (cur p))
           ++ [OBar (cur p * h p + 1)
                    (Z.min (cur p * h p + h p)
                           (Z.of_nat (List.length (lines p))))
                    (Z.of_nat (List.length (lines p)))
                    (cur p =? 0) (pages p - 1 <=? cur p)] /\
  pager s' = pager s /\ history s' = history s /\ histIdx s' = histIdx s /\
  imode s' = imode s /\ selectOpts s' = selectOpts s /\
  selectCb s' = selectCb s /\ ti s' = ti s /\ ps s' = ps s /\ app s' = app s.
Proof.
  unfold renderPage. cbv zeta.
  match goal with |- context [fold_left ?f ?ls ?s0] =>
    destruct (fold_print ls s0) as (E & R) end.
  cbv zeta in E, R. simpl. rewrite E. simpl.
  split; [|exact R].
  rewrite <- !app_assoc. reflexivity.
Qed.


Lemma one_page len hh :
  0 < hh -> 0 <= len -> (Host.ceil_div len hh <=? 1) = (len <=? hh).
Proof.
  intros Hh Hl. unfold Host.ceil_div.
  pose proof (Z.div_mod (len + hh - 1) hh ltac:(lia)) as Hd.
  pose proof (Z.mod_pos_bound (len + hh - 1) hh Hh) as Hm.
  destruct (Z.leb_spec ((len + hh - 1) / hh) 1);
    destruct (Z.leb_spec len hh); try reflexivity; nia.
Qed.

Lemma on_a_page len hh c :
  0 < hh -> 0 <= c < Host.ceil_div len hh -> c * hh < len.
Proof.
  intros Hh Hc. unfold Host.ceil_div in Hc.
  pose proof (Z.div_mod (len + hh - 1) hh ltac:(lia)) as Hd.
  pose proof (Z.mod_pos_bound (len + hh - 1) hh Hh) as Hm. nia.
Qed.

Section Terminal.

Variable App : Type.
Variable Cb : Type.
Variable call : Cb -> option Opt -> Sh App Cb -> Res unit * Sh App Cb.
Variable run_cmd : string -> string -> Sh App Cb -> Res unit * Sh App Cb.
Variable inherited : string -> option (string -> Res unit).

(** X18. [showPaged] with a positive page height loses no line: the
    lines joined by line feeds are the text; a text of at most [h] lines
    is printed as it is; a longer one opens the pager on its first page,
    and the pages, none of them empty or longer than [h] lines, put one
    after the other are the lines of the text, each once and in order. *)
Theorem pages_hold_every_line_once :
  forall text hh (s : Sh App Cb),
    0 < hh ->
    let ls := Js.split text Js.newline in
    let s' := showPaged text hh s in
    Js.join (String Js.newline EmptyString) ls = text /\
    (Z.of_nat (List.length ls) <= hh -> s' = print (LText text) s) /\
    (hh < Z.of_nat (List.length ls) ->
     exists p,
       pager s' = Some p /\ imode s' = Paging /\
       lines p = ls /\ h p = hh /\ cur p = 0 /\ 1 < pages p /\
       List.concat (map (fun c => page p (Z.of_nat c))
                        (seq 0 (Z.to_nat (pages p)))) = ls /\
       (forall c, 0 <= c < pages p ->
                  page p c <> [] /\ Z.of_nat (List.length (page p c)) <= hh) /\
       printed_texts (out s') = printed_texts (out s) ++ page p 0).
Proof.
  intros text hh s Hh ls s'.
  split; [|split].
  - unfold Js.join, ls, Js.split. apply join_split_go.
  - intros Hle. unfold s', showPaged. fold ls. cbv zeta.
    rewrite one_page by lia.
    destruct (Z.leb_spec (Z.of_nat (List.length ls)) hh); [reflexivity|lia].
  - intros Hlt. unfold s', showPaged. fold ls. cbv zeta.
    rewrite one_page by lia.
    destruct (Z.leb_spec (Z.of_nat (List.length ls)) hh); [lia|].
    set (p := {| lines := ls; h := hh;
                 pages := Host.ceil_div (Z.of_nat (List.length ls)) hh;
                 cur := 0 |}).
    destruct (renderPage_spec p (set_pager (Some p) s))
      as (Eo & Ep & _).
    cbv zeta in Eo, Ep.
    assert (Hpg : 1 < pages p).
    { pose proof (one_page (Z.of_nat (List.length ls)) hh Hh ltac:(lia)) as E.
      destruct (Z.leb_spec (Z.of_nat (List.length ls)) hh); [lia|].
      apply Z.leb_gt in E. exact E. }
    exists p. split; [exact Ep|]. split; [reflexivity|].
    split; [reflexivity|]. split; [reflexivity|]. split; [reflexivity|].
    split; [exact Hpg|]. split; [|split].
    + rewrite (map_ext_in _ (fun c => firstn (Z.to_nat hh)
                                        (skipn (c * Z.to_nat hh) ls))).
      * rewrite pages_concat. apply firstn_all2.
        pose proof (HostLasting.ceil_div_covers
                      (Z.of_nat (List.length ls)) hh Hh) as Hc.
        change (pages p) with
          (Host.ceil_div (Z.of_nat (List.length ls)) hh). nia.
      * intros c Hc. apply in_seq in Hc.
        rewrite page_firstn; simpl h; simpl lines.
        -- rewrite Nat2Z.id. reflexivity.
        -- lia.
        -- lia.
        -- apply Z.lt_le_incl, on_a_page; [lia|].
           change (pages p) with
             (Host.ceil_div (Z.of_nat (List.length ls)) hh) in Hc. lia.
    + intros c Hc. apply (page_bounds p c); simpl h; simpl lines;
        [lia|lia|]. apply on_a_page; [lia|exact Hc].
    + unfold set_imode. cbn [out]. rewrite Eo.
      unfold set_pager. cbn [out].
      rewrite !printed_app, printed_lines. simpl.
      rewrite app_nil_r. reflexivity.
Qed.


(** ** The pager during a session *)

Lemma shown_ok_frame (s s' : Sh App Cb) extra :
  pager s' = pager s -> out s' = out s ++ extra -> Forall bar_ok extra ->
  shown_ok s -> shown_ok s'.
Proof.
  intros Ep Eo Hx [Hp Hb]. split.
  - unfold pager_ok in *. rewrite Ep. exact Hp.
  - rewrite Eo. apply Forall_app. split; assumption.
Qed.

Lemma shown_ok_same (s s' : Sh App Cb) :
  pager s' = pager s -> out s' = out s -> shown_ok s -> shown_ok s'.
Proof.
  intros Ep Eo. apply (shown_ok_frame s s' []); [assumption| |constructor].
  rewrite app_nil_r. assumption.
Qed.

Lemma shown_ok_print l (s : Sh App Cb) : shown_ok s -> shown_ok (print l s).
Proof.
  apply (shown_ok_frame s _ [OPrint l]); [reflexivity|reflexivity|].
  repeat constructor.
Qed.

Lemma shown_ok_close (s : Sh App Cb) : shown_ok s -> shown_ok (closePager s).
Proof.
  intros [_ Hb]. split; [exact I|]. simpl. apply Forall_app. split;
    [assumption|repeat constructor].
Qed.

(** Turning to a page of the pager. *)
Lemma shown_ok_turn p c (s : Sh App Cb) :
  shown_ok s -> pager s = Some p -> 0 <= c < pages p ->
  shown_ok (renderPage (with_cur c p) (set_pager (Some (with_cur c p)) s)).
Proof.
  intros [Hp Hb] E Hc. unfold pager_ok in Hp. rewrite E in Hp.
  destruct Hp as (Hh & Hpg & H1 & _).
  destruct (renderPage_spec (with_cur c p)
              (set_pager (Some (with_cur c p)) s)) as (Eo & Ep & _).
  cbv zeta in Eo, Ep.
  split.
  - unfold pager_ok. rewrite Ep. simpl. auto.
  - rewrite Eo. simpl out. apply Forall_app. split; [assumption|].
    constructor; [exact I|]. apply Forall_app. split.
    + apply Forall_forall. intros o Ho. apply in_map_iff in Ho.
      destruct Ho as (l & <- & _). exact I.
    + constructor; [|constructor]. simpl.
      pose proof (on_a_page (Z.of_nat (List.length (lines p))) (h p) c Hh
                            ltac:(rewrite <- Hpg; exact Hc)).
      nia.
Qed.

(** X19. Whatever is typed or clicked, the pager stays in order and
    never shows a range of lines that does not exist, provided the
    commands and the callbacks of select lists keep it so (they open
    pagers through [showPaged] only): when open it has more than one
    page and stands on one of them, and every bar shown says
    [first-last / total] with [1 <= first <= last <= total]. *)
Theorem pager_never_leaves_its_pages :
  (forall cb sel s, shown_ok s -> shown_ok (snd (call cb sel s))) ->
  (forall cmd arg s, shown_ok s -> shown_ok (snd (run_cmd cmd arg s))) ->
  forall evs s,
    shown_ok s -> shown_ok (session call run_cmd inherited evs s).
Proof.
  intros Hcall Hcmd evs. induction evs as [|ev evs IH]; intros s Hs;
    [exact Hs|].
  simpl. apply IH. clear IH.
  assert (Hfin : forall r : Res unit * Sh App Cb,
             shown_ok (snd r) -> shown_ok (snd (finish r))).
  { intros [[[]|e] s0] H; simpl in *; [|exact H].
    revert H. apply shown_ok_same; reflexivity. }
  assert (Hin : forall raw, shown_ok (snd (handleInput call run_cmd inherited raw s))).
  { intros raw. unfold handleInput. cbv zeta.
    destruct (pager s) as [p|] eqn:Ep.
    - pose proof Hs as [Hp _]. unfold pager_ok in Hp. rewrite Ep in Hp.
      destruct Hp as (_ & _ & _ & Hc).
      cbn [snd].
      match goal with |- shown_ok (clearTi ?x) =>
        apply (shown_ok_same x); [reflexivity|reflexivity|] end.
      destruct (String.eqb _ "n" && _) eqn:En.
      { apply andb_prop in En as [_ En]. apply Z.ltb_lt in En.
        apply shown_ok_turn; [assumption|assumption|lia]. }
      destruct (String.eqb _ "p" && _) eqn:Epr.
      { apply andb_prop in Epr as [_ Epr]. apply Z.ltb_lt in Epr.
        apply shown_ok_turn; [assumption|assumption|lia]. }
      destruct (String.eqb _ "q"); [apply shown_ok_close|]; assumption.
    - destruct (imode s) eqn:Em.
      2:{ match goal with |- context [match ?v with Some _ => _ | None => _ end] =>
            destruct v as [n|] end.
          - apply Hfin. unfold call_back.
            destruct (selectCb s) as [cb|].
            + apply Hcall. revert Hs. apply shown_ok_same; reflexivity.
            + simpl. revert Hs. apply shown_ok_same; reflexivity.
          - cbn [snd].
            match goal with |- shown_ok (clearTi ?x) =>
              apply (shown_ok_same x); [reflexivity|reflexivity|] end.
            apply shown_ok_print. assumption. }
      all: match goal with |- context [match ?v with Some _ => _ | None => _ end] =>
             destruct v as [i|] end.
      all: match goal with |- context [print ?l ?s0] =>
             pose proof (shown_ok_print l s0 Hs) as Hpr;
             set (s1 := print l s0) in * end.
      all: match goal with |- context [if String.eqb ?a ?b then _ else _] =>
             destruct (String.eqb a b) end; cbn [snd];
        [match goal with |- shown_ok (clearTi ?x) =>
           apply (shown_ok_same x); [reflexivity|reflexivity|exact Hpr] end|].
      all: match goal with |- context [set_history ?a ?b ?s0] =>
             assert (H2 : shown_ok (set_history a b s0))
               by (revert Hpr; apply shown_ok_same; reflexivity);
             set (s2 := set_history a b s0) in * end.
      all: assert (Hd : forall cmd arg,
                     shown_ok (snd (dispatch run_cmd inherited cmd arg s2)))
        by (intros cmd arg; unfold dispatch;
            destruct (existsb _ _); [apply Hcmd; exact H2|];
            destruct (inherited cmd); [exact H2|];
            apply shown_ok_print; exact H2).
      all: destruct (Js.split_ws _); apply Hfin, Hd. }
  destruct ev as [k|text| | | |idx]; cbn [react].
  - destruct k; cbn [keydown].
    + apply Hin.
    + destruct (_ <? _); simpl; [|exact Hs].
      revert Hs. apply shown_ok_same; reflexivity.
    + destruct (_ <? _); simpl; revert Hs; apply shown_ok_same; reflexivity.
    + match goal with |- context [filter ?f ?l] =>
        destruct (filter f l) as [|m [|m' r]] end; cbn [snd]; exact Hs.
  - cbn [snd]. revert Hs. apply shown_ok_same; reflexivity.
  - unfold click_prev. destruct (pager s) as [p|] eqn:Ep; [|exact Hs].
    pose proof Hs as [Hp _]. unfold pager_ok in Hp. rewrite Ep in Hp.
    destruct (Z.ltb_spec 0 (cur p)); [|exact Hs].
    apply shown_ok_turn; [assumption|assumption|lia].
  - unfold click_next. destruct (pager s) as [p|] eqn:Ep; [|exact Hs].
    pose proof Hs as [Hp _]. unfold pager_ok in Hp. rewrite Ep in Hp.
    destruct (Z.ltb_spec (cur p) (pages p - 1)); [|exact Hs].
    apply shown_ok_turn; [assumption|assumption|lia].
  - destruct (pager s); simpl; [apply shown_ok_close|]; exact Hs.
  - unfold handleSelectClick.
    destruct (imode s); try exact Hs.
    destruct idx as [i|]; [|exact Hs].
    destruct (selectCb s) as [cb|]; [|exact Hs].
    apply Hcall. revert Hs. apply shown_ok_same; reflexivity.
Qed.


(** ** The history *)

Lemma history_ok_same (s s' : Sh App Cb) :
  history s' = history s -> histIdx s' = histIdx s ->
  history_ok s -> history_ok s'.
Proof. unfold history_ok. intros -> ->. auto. Qed.

Lemma history_ok_push v (s : Sh App Cb) :
  history_ok (set_history (history s ++ [v])
                (Z.of_nat (List.length (history s ++ [v]))) s).
Proof.
  unfold history_ok. cbn [history histIdx set_history].
  rewrite length_app. simpl. lia.
Qed.

Lemma history_ok_session :
  (forall cb sel s, history (snd (call cb sel s)) = history s /\
                    histIdx (snd (call cb sel s)) = histIdx s) ->
  (forall cmd arg s, history (snd (run_cmd cmd arg s)) = history s /\
                     histIdx (snd (run_cmd cmd arg s)) = histIdx s) ->
  forall evs s,
    history_ok s -> history_ok (session call run_cmd inherited evs s).
Proof.
  intros Hcall Hcmd evs. induction evs as [|ev evs IH]; intros s Hs;
    [exact Hs|].
  simpl. apply IH. clear IH.
  assert (Hc : forall cb sel s0, history_ok s0 ->
                                 history_ok (snd (call cb sel s0))).
  { intros cb sel s0. destruct (Hcall cb sel s0) as [E1 E2].
    apply history_ok_same; assumption. }
  assert (Hr : forall cmd arg s0, history_ok s0 ->
                                  history_ok (snd (run_cmd cmd arg s0))).
  { intros cmd arg s0. destruct (Hcmd cmd arg s0) as [E1 E2].
    apply history_ok_same; assumption. }
  assert (Hfin : forall r : Res unit * Sh App Cb,
             history_ok (snd r) -> history_ok (snd (finish r))).
  { intros [[[]|e] s0] H; exact H. }
  assert (Hrender : forall p (s0 : Sh App Cb),
             history_ok s0 -> history_ok (renderPage p s0)).
  { intros p s0. destruct (renderPage_spec p s0) as (_ & _ & E1 & E2 & _).
    apply history_ok_same; assumption. }
  destruct ev as [k|text| | | |idx]; cbn [react].
  - destruct k; cbn [keydown].
    + unfold handleInput. cbv zeta.
      destruct (pager s) as [p|].
      * cbn [snd].
        match goal with |- @history_ok _ _ (clearTi ?x) =>
          apply (history_ok_same x); [reflexivity|reflexivity|] end.
        destruct (_ && _); [apply Hrender; exact Hs|].
        destruct (_ && _); [apply Hrender; exact Hs|].
        destruct (String.eqb _ _); exact Hs.
      * destruct (imode s).
        2:{ match goal with
              |- context [match ?v with Some _ => _ | None => _ end] =>
                destruct v as [n|] end; [|exact Hs].
            apply Hfin. unfold call_back.
            destruct (selectCb s) as [cb|]; [apply Hc|]; exact Hs. }
        all: match goal with
               |- context [match ?v with Some _ => _ | None => _ end] =>
                 destruct v as [i|] end.
        all: match goal with |- context [if String.eqb ?a ?b then _ else _] =>
               destruct (String.eqb a b) end; cbn [snd]; [exact Hs|].
        all: match goal with
               |- context [set_history (history ?s0 ++ [?v]) ?b ?s0] =>
                 pose proof (history_ok_push v s0) as H2;
                 set (s2 := set_history (history s0 ++ [v]) b s0) in * end.
        all: assert (Hd : forall cmd arg,
                       history_ok (snd (dispatch run_cmd inherited cmd arg s2)))
          by (intros cmd arg; unfold dispatch;
              destruct (existsb _ _); [apply Hr; exact H2|];
              destruct (inherited cmd); exact H2).
        all: destruct (Js.split_ws _); apply Hfin, Hd.
    + destruct (Z.ltb_spec 0 (histIdx s)); cbn [snd]; [|exact Hs].
      destruct Hs as [Hb Hn]. unfold history_ok.
      cbn [history histIdx recall set_history set_ti]. lia.
    + destruct (Z.ltb_spec (histIdx s)
                  (Z.of_nat (List.length (history s)) - 1)); cbn [snd];
        destruct Hs as [Hb Hn]; unfold history_ok;
        cbn [history histIdx recall set_history set_ti].
      * lia.
      * split; [lia|]. intros E. apply length_zero_iff_nil. lia.
    + match goal with |- context [filter ?f ?l] =>
        destruct (filter f l) as [|m [|m' r]] end; exact Hs.
  - exact Hs.
  - unfold click_prev. destruct (pager s) as [p|]; [|exact Hs].
    destruct (_ <? _); [apply Hrender|]; exact Hs.
  - unfold click_next. destruct (pager s) as [p|]; [|exact Hs].
    destruct (_ <? _); [apply Hrender|]; exact Hs.
  - destruct (pager s); exact Hs.
  - unfold handleSelectClick.
    destruct (imode s); try exact Hs.
    destruct idx as [i|]; [|exact Hs].
    destruct (selectCb s) as [cb|]; [|exact Hs].
    apply Hc. exact Hs.
Qed.

(** X20. The arrow keys never put anything but a line of the history
    on the input line: at any point of a session that began with the
    page, ArrowUp or ArrowDown leaves the state as it is, or moves to an
    entry of the history and shows it, or moves past the last entry and
    empties the line; the history itself is not touched. The commands
    and callbacks are taken not to write to the history, as those of the
    program do not. *)
Theorem arrows_recall_history_entries :
  (forall cb sel s, history (snd (call cb sel s)) = history s /\
                    histIdx (snd (call cb sel s)) = histIdx s) ->
  (forall cmd arg s, history (snd (run_cmd cmd arg s)) = history s /\
                     histIdx (snd (run_cmd cmd arg s)) = histIdx s) ->
  forall a evs k,
    k = ArrowUp \/ k = ArrowDown ->
    let s := session call run_cmd inherited evs (start a) in
    let s' := snd (keydown call run_cmd inherited k s) in
    history s' = history s /\
    (s' = s \/
     ti s' = "" /\ histIdx s' = Z.of_nat (List.length (history s)) \/
     0 <= histIdx s' /\
     nth_error (history s) (Z.to_nat (histIdx s')) = Some (ti s')).
Proof.
  intros Hcall Hcmd a evs k Hk s s'.
  assert (Hs : history_ok s).
  { apply history_ok_session; [assumption|assumption|].
    unfold history_ok, start. cbn [history histIdx]. split; [lia|auto]. }
  destruct Hs as [Hb Hn]. unfold s'. clear s'.
  generalize dependent s. intros s Hb Hn.
  assert (Hnth : forall i, 0 <= i < Z.of_nat (List.length (history s)) ->
            exists l, nth_error (history s) (Z.to_nat i) = Some l).
  { intros i Hi. destruct (nth_error (history s) (Z.to_nat i)) eqn:E;
      [eauto|]. apply nth_error_None in E. lia. }
  destruct Hk as [-> | ->]; cbn [keydown].
  - destruct (Z.ltb_spec 0 (histIdx s)); cbn [snd]; [|auto].
    split; [reflexivity|]. right. right.
    cbn [histIdx history recall set_history set_ti ti].
    destruct (Hnth (histIdx s - 1) ltac:(lia)) as (l & E).
    destruct (Z.ltb_spec (histIdx s - 1) 0); [lia|].
    rewrite E. split; [lia|reflexivity].
  - destruct (Z.ltb_spec (histIdx s)
                (Z.of_nat (List.length (history s)) - 1)); cbn [snd].
    + split; [reflexivity|]. right. right.
      cbn [histIdx history recall set_history set_ti ti].
      destruct (Hnth (histIdx s + 1) ltac:(lia)) as (l & E).
      destruct (Z.ltb_spec (histIdx s + 1) 0); [lia|].
      rewrite E. split; [lia|reflexivity].
    + split; [reflexivity|]. right. left. split; reflexivity.
Qed.

(** ** Completion *)

Lemma prefix_cons x p y c :
  String.prefix (String x p) (String y c) = Ascii.eqb x y && String.prefix p c.
Proof.
  simpl. destruct (ascii_dec x y) as [->|Hne].
  - rewrite Ascii.eqb_refl. reflexivity.
  - apply Ascii.eqb_neq in Hne. rewrite Hne. reflexivity.
Qed.

(** X21. Tab completes a command from any of its beginnings, in
    either case of the letters: if the input line is not empty and, in
    lower case, begins a command name, Tab replaces it by that name. No
    two commands begin with the same letter. *)
Theorem tab_completes_every_beginning_of_a_command :
  forall c (s : Sh App Cb),
    In c cmd_names -> ti s <> "" ->
    Js.startsWith c (Js.toLowerCase (ti s)) = true ->
    keydown call run_cmd inherited Tab s = (Val tt, set_ti c s).
Proof.
  intros c s Hin Hne Hp. cbn [keydown].
  destruct (ti s) as [|x t]; [congruence|]. clear Hne.
  unfold Js.startsWith in *. cbn [Js.toLowerCase] in *.
  remember (Js.lower x) as y eqn:Ey. set (u := Js.toLowerCase t) in *.
  unfold cmd_names in *. cbn [filter].
  cbn [In] in Hin.
  repeat match goal with H : _ \/ _ |- _ => destruct H as [H|H] end;
    try contradiction; subst c;
    rewrite prefix_cons in Hp; apply andb_prop in Hp as [Hy Hu];
    apply Ascii.eqb_eq in Hy; rewrite Hy in *;
    rewrite !prefix_cons; cbn [Ascii.eqb Bool.eqb andb];
    rewrite Hu; reflexivity.
Qed.

(** ** Choosing from a list *)

(** X22. In a select list, a number typed is answered in one of two
    ways. If it parses to an integer between 1 and the length of the
    list, the select mode is left and the callback gets the entry at
    that position, which exists. Otherwise Invalid is printed, the list
    stays open and the callback is not called. A click is not checked in
    this way: for an item whose index is not in the list, the callback
    is called with [undefined]. *)
Theorem typed_choice_is_an_entry_of_the_list :
  forall raw cb (s : Sh App Cb),
    pager s = None -> imode s = Select -> selectCb s = Some cb ->
    ((exists n o,
        Js.parseInt (Js.trim raw) = Some n /\
        1 <= n <= Z.of_nat (List.length (selectOpts s)) /\
        nth_error (selectOpts s) (Z.to_nat (n - 1)) = Some o /\
        handleInput call run_cmd inherited raw s =
        finish (call cb (Some o) (chosen s)))
     \/
     (forall n, Js.parseInt (Js.trim raw) = Some n ->
                n < 1 \/ Z.of_nat (List.length (selectOpts s)) < n) /\
     handleInput call run_cmd inherited raw s =
     (Val tt, clearTi (print LInvalid s))) /\
    (forall i, i < 0 \/ Z.of_nat (List.length (selectOpts s)) <= i ->
               handleSelectClick call (Some i) s = call cb None (chosen s)).
Proof.
  intros raw cb s Ep Em Ec. split.
  - unfold handleInput. cbv zeta. rewrite Ep, Em, Ec.
    destruct (Js.parseInt (Js.trim raw)) as [n|].
    + destruct (Z.leb_spec 1 n); cbn [andb].
      * destruct (Z.leb_spec n (Z.of_nat (List.length (selectOpts s)))).
        -- left.
           destruct (nth_error (selectOpts s) (Z.to_nat (n - 1))) as [o|] eqn:E.
           ++ exists n, o. split; [reflexivity|]. split; [lia|].
              split; [exact E|]. reflexivity.
           ++ apply nth_error_None in E. lia.
        -- right. split; [|reflexivity]. intros n' [= <-]. lia.
      * right. split; [|reflexivity]. intros n' [= <-]. lia.
    + right. split; [|reflexivity]. intros n' [=].
  - intros i Hi. unfold handleSelectClick. rewrite Em, Ec.
    destruct (Z.ltb_spec i 0); [reflexivity|].
    assert (E : nth_error (selectOpts s) (Z.to_nat i) = None)
      by (apply nth_error_None; lia).
    rewrite E. reflexivity.
Qed.

End Terminal.

End ShellFacts.

(** * The properties on runs of the example engine *)
Module MoreRuns.
Import Host Evolution.

Lemma run_from w acts :
  match run Echo.utf8_decode Echo.instantiate acts w with
  | Some _ => true
  | None => false
  end
  = true ->
  run Echo.utf8_decode Echo.instantiate acts w = Some (EchoRuns.from w acts).
Proof.
  unfold EchoRuns.from.
  destruct (run Echo.utf8_decode Echo.instantiate acts w);
    [reflexivity|discriminate].
Qed.

Lemma op_at_some w k :
  match nth_error (ops w) k with Some _ => true | None => false end = true ->
  nth_error (ops w) k = Some (EchoRuns.op_at w k).
Proof.
  unfold EchoRuns.op_at. destruct (nth_error (ops w) k);
    [reflexivity|discriminate].
Qed.

Lemma worker_at_some w h :
  match nth_error (workers w) h with Some _ => true | None => false end
  = true ->
  nth_error (workers w) h = Some (EchoRuns.worker_at w h).
Proof.
  unfold EchoRuns.worker_at. destruct (nth_error (workers w) h);
    [reflexivity|discriminate].
Qed.

Lemma unheard_b_sound {P} k (w : World P) :
  unheard_b k w = true -> unheard k w.
Proof.
  unfold unheard_b, unheard. intros H h wk n Hnth Hin.
  rewrite forallb_forall in H.
  specialize (H wk (nth_error_In _ _ Hnth)).
  destruct (terminated wk); [reflexivity|]. simpl in H.
  apply negb_true_iff in H.
  assert (E : existsb (is_listener_of k) (handlers wk) = true).
  { apply existsb_exists. exists (HData n k). split; [assumption|].
    simpl. apply Nat.eqb_refl. }
  congruence.
Qed.

Lemma optional_metadata_defaults_witness :
  Echo.instantiate "engines/echo.wasm" = Val (Echo.full, Echo.inst0) /\
  In (RLoaded 0 Echo.info)
     (snd (Worker.onmessage Echo.utf8_decode Echo.instantiate
             (@Worker.init unit)
             (ReqLoad 0 "engines/echo.wasm"))) /\
  (Worker.has_export Echo.full "sb_get_name" = false ->
   info_name Echo.info = info_id Echo.info) /\
  (Worker.has_export Echo.full "sb_get_desc" = false ->
   info_desc Echo.info = "").
Proof.
  split; [reflexivity|]. split; [vm_compute; left; reflexivity|].
  apply (WorkerAnswers.optional_metadata_defaults unit Echo.utf8_decode
           Echo.instantiate Worker.init 0 "engines/echo.wasm" Echo.full
           Echo.inst0 0 Echo.info).
  - reflexivity.
  - vm_compute; left; reflexivity.
Defined.

Lemma load_frees_every_length_cell_witness :
  In (RLoaded 0 Echo.info)
     (snd (Worker.onmessage Echo.utf8_decode Echo.instantiate
             (@Worker.init unit)
             (ReqLoad 0 "engines/echo.wasm"))) /\
  exists new,
    Worker.log (fst (Worker.onmessage Echo.utf8_decode Echo.instantiate
                       Worker.init (ReqLoad 0 "engines/echo.wasm")))
      = Worker.log (@Worker.init unit) ++ new /\
    (Worker.alloc_failed new = false ->
     Worker.released new = Worker.obtained new /\
     Forall (fun b => snd b = 4) (Worker.obtained new) /\
     (1 <= List.length (Worker.obtained new) <= 3)%nat).
Proof.
  split; [vm_compute; left; reflexivity|].
  apply (WorkerAnswers.load_frees_every_length_cell unit Echo.utf8_decode
           Echo.instantiate Worker.init 0 "engines/echo.wasm" 0 Echo.info).
  vm_compute; left; reflexivity.
Defined.

Lemma settled_operation_stays_settled_witness :
  let w := EchoRuns.rejected_call in
  let w' := EchoRuns.from w Echo.load_echo in
  let o := EchoRuns.op_at w 0 in
  run Echo.utf8_decode Echo.instantiate Echo.load_echo w = Some w' /\
  nth_error (ops w) 0 = Some o /\ promise o <> Pending /\
  exists o', nth_error (ops w') 0 = Some o' /\ promise o' = promise o.
Proof.
  cbv zeta.
  assert (Hrun : run Echo.utf8_decode Echo.instantiate Echo.load_echo
                   EchoRuns.rejected_call
                 = Some (EchoRuns.from EchoRuns.rejected_call Echo.load_echo))
    by (apply run_from; vm_compute; reflexivity).
  assert (Hop : nth_error (ops EchoRuns.rejected_call) 0
                = Some (EchoRuns.op_at EchoRuns.rejected_call 0))
    by (apply op_at_some; vm_compute; reflexivity).
  assert (Hp : promise (EchoRuns.op_at EchoRuns.rejected_call 0) <> Pending)
    by (vm_compute; discriminate).
  split; [exact Hrun|]. split; [exact Hop|]. split; [exact Hp|].
  exact (HostLasting.settled_operation_stays_settled unit Echo.utf8_decode
           Echo.instantiate Echo.load_echo EchoRuns.rejected_call
           (EchoRuns.from EchoRuns.rejected_call Echo.load_echo) 0%nat
           (EchoRuns.op_at EchoRuns.rejected_call 0) Hrun Hop Hp).
Defined.

Lemma registry_keeps_its_entries_in_order_witness :
  let w := Echo.after Echo.load_echo in
  let acts := [ALoad "engines/no_decode.wasm" false; AWorker 1; ADeliver 1] in
  run Echo.utf8_decode Echo.instantiate acts w = Some (EchoRuns.from w acts) /\
  exists added,
    JsMap.keys (engines (EchoRuns.from w acts))
    = JsMap.keys (engines w) ++ added.
Proof.
  cbv zeta.
  assert (Hrun : run Echo.utf8_decode Echo.instantiate
                   [ALoad "engines/no_decode.wasm" false; AWorker 1; ADeliver 1]
                   (Echo.after Echo.load_echo)
                 = Some (EchoRuns.from (Echo.after Echo.load_echo)
                           [ALoad "engines/no_decode.wasm" false; AWorker 1;
                            ADeliver 1]))
    by (apply run_from; vm_compute; reflexivity).
  split; [exact Hrun|].
  exact (HostLasting.registry_keeps_its_entries_in_order unit
           Echo.utf8_decode Echo.instantiate _ _ _ Hrun).
Defined.

Lemma terminated_worker_does_nothing_more_witness :
  let w := Echo.after EchoRuns.replaced in
  let w' := EchoRuns.from w EchoRuns.next_call in
  let wk := EchoRuns.worker_at w 0 in
  run Echo.utf8_decode Echo.instantiate EchoRuns.next_call w = Some w' /\
  nth_error (workers w) 0 = Some wk /\ terminated wk = true /\
  exists wk',
    nth_error (workers w') 0 = Some wk' /\ terminated wk' = true /\
    context wk' = context wk /\ outbox wk' = outbox wk.
Proof.
  cbv zeta.
  assert (Hrun : run Echo.utf8_decode Echo.instantiate EchoRuns.next_call
                   (Echo.after EchoRuns.replaced)
                 = Some (EchoRuns.from (Echo.after EchoRuns.replaced)
                           EchoRuns.next_call))
    by (apply run_from; vm_compute; reflexivity).
  assert (Hwk : nth_error (workers (Echo.after EchoRuns.replaced)) 0
                = Some (EchoRuns.worker_at (Echo.after EchoRuns.replaced) 0))
    by (apply worker_at_some; vm_compute; reflexivity).
  assert (Ht : terminated (EchoRuns.worker_at (Echo.after EchoRuns.replaced) 0)
               = true) by (vm_compute; reflexivity).
  split; [exact Hrun|]. split; [exact Hwk|]. split; [exact Ht|].
  exact (HostLasting.terminated_worker_does_nothing_more unit
           Echo.utf8_decode Echo.instantiate _ _ _ 0%nat _ Hrun Hwk Ht).
Defined.

Lemma operation_without_live_listener_never_changes_witness :
  let w := Echo.after EchoRuns.replaced in
  let w' := EchoRuns.from w EchoRuns.next_call in
  let o := EchoRuns.op_at w 0 in
  run Echo.utf8_decode Echo.instantiate EchoRuns.next_call w = Some w' /\
  nth_error (ops w) 0 = Some o /\ Pipeline.no_read o /\ unheard 0 w /\
  promise o = Pending /\
  nth_error (ops w') 0 = Some o.
Proof.
  cbv zeta.
  assert (Hrun : run Echo.utf8_decode Echo.instantiate EchoRuns.next_call
                   (Echo.after EchoRuns.replaced)
                 = Some (EchoRuns.from (Echo.after EchoRuns.replaced)
                           EchoRuns.next_call))
    by (apply run_from; vm_compute; reflexivity).
  assert (Hop : nth_error (ops (Echo.after EchoRuns.replaced)) 0
                = Some (EchoRuns.op_at (Echo.after EchoRuns.replaced) 0))
    by (apply op_at_some; vm_compute; reflexivity).
  assert (Hn : Pipeline.no_read
                 (EchoRuns.op_at (Echo.after EchoRuns.replaced) 0))
    by (vm_compute; exact I).
  assert (Hu : unheard 0 (Echo.after EchoRuns.replaced))
    by (apply unheard_b_sound; vm_compute; reflexivity).
  split; [exact Hrun|]. split; [exact Hop|]. split; [exact Hn|].
  split; [exact Hu|]. split; [vm_compute; reflexivity|].
  exact (HostLasting.operation_without_live_listener_never_changes unit
           Echo.utf8_decode Echo.instantiate _ _ _ 0%nat _ Hrun Hop Hn Hu).
Defined.

Lemma empty_file_operation_never_settles_witness :
  let w := Echo.after Echo.load_echo in
  let k := fst (processFile_with CHUNK_SIZE [] "echo" Decode w) in
  let w1 := snd (processFile_with CHUNK_SIZE [] "echo" Decode w) in
  let acts := [ACall "echo" Encode [x41]; AWorker 0; ADeliver 0] in
  run Echo.utf8_decode Echo.instantiate Echo.load_echo (@init unit) = Some w /\
  JsMap.get (engines w) "echo" = Some Echo.engine /\
  run Echo.utf8_decode Echo.instantiate acts w1
  = Some (EchoRuns.from w1 acts) /\
  posted_ids (events w1) = posted_ids (events w) /\
  exists o,
    nth_error (ops (EchoRuns.from w1 acts)) k = Some o /\
    promise o = Pending /\ chunks o = [] /\
    pending_read k (EchoRuns.from w1 acts) = None.
Proof.
  cbv zeta.
  assert (Hrun0 : run Echo.utf8_decode Echo.instantiate Echo.load_echo
                    (@init unit) = Some (Echo.after Echo.load_echo))
    by (apply Runs.run_after; vm_compute; reflexivity).
  assert (Hget : JsMap.get (engines (Echo.after Echo.load_echo)) "echo"
                 = Some Echo.engine) by (vm_compute; reflexivity).
  assert (Hrun : run Echo.utf8_decode Echo.instantiate
                   [ACall "echo" Encode [x41]; AWorker 0; ADeliver 0]
                   (snd (processFile_with CHUNK_SIZE [] "echo" Decode
                           (Echo.after Echo.load_echo)))
                 = Some (EchoRuns.from
                           (snd (processFile_with CHUNK_SIZE [] "echo" Decode
                                   (Echo.after Echo.load_echo)))
                           [ACall "echo" Encode [x41]; AWorker 0; ADeliver 0]))
    by (apply run_from; vm_compute; reflexivity).
  split; [exact Hrun0|]. split; [exact Hget|]. split; [exact Hrun|].
  exact (HostLasting.empty_file_operation_never_settles unit
           Echo.utf8_decode Echo.instantiate Echo.load_echo
           (Echo.after Echo.load_echo) CHUNK_SIZE "echo" Echo.engine Decode
           _ _ Hrun0 Hget Hrun).
Defined.

Lemma read_error_rejects_and_stops_the_reading_witness :
  let w := Echo.after Echo.one_chunk in
  pending_read 0 w = Some (Echo.one_chunk_reader, [x41; x42]) /\
  exists o w1,
    nth_error (ops w) 0 = Some o /\
    step Echo.utf8_decode Echo.instantiate (AReaderError 0) w = Some w1 /\
    workers w1 = workers w /\ events w1 = events w /\
    forall acts w',
      run Echo.utf8_decode Echo.instantiate acts w1 = Some w' ->
      pending_read 0 w' = None /\
      exists o',
        nth_error (ops w') 0 = Some o' /\
        promise o' = settle (promise o) (Rejected "File read error").
Proof.
  cbv zeta. split; [vm_compute; reflexivity|].
  apply (HostLasting.read_error_rejects_and_stops_the_reading unit
           Echo.utf8_decode Echo.instantiate (Echo.after Echo.one_chunk)
           0%nat Echo.one_chunk_reader [x41; x42]).
  vm_compute; reflexivity.
Defined.

Lemma file_is_read_in_consecutive_slices_witness :
  let w := Echo.after Echo.load_echo in
  let data := EchoRuns.three_bytes in
  let k := fst (processFile_with 2 data "echo" Encode w) in
  let w1 := snd (processFile_with 2 data "echo" Encode w) in
  let w' := EchoRuns.from w1 [AReaderLoad 0] in
  let f := EchoRuns.second_slice in
  let c := [x43] in
  let total := ceil_div (Z.of_nat (List.length data)) 2 in
  0 < 2 /\
  JsMap.get (engines w) "echo" = Some Echo.engine /\
  run Echo.utf8_decode Echo.instantiate [AReaderLoad 0] w1 = Some w' /\
  pending_read k w' = Some (f, c) /\
  (exists i,
      0 <= i < total /\ offset f = i * 2 /\
      c = slice data (i * 2) 2 /\ c <> [] /\
      Z.of_nat (List.length c) <= 2 /\
      (i < total - 1 -> Z.of_nat (List.length c) = 2) /\
      ((Z.of_nat (List.length data) <=? offset f + 2) = true
       <-> i = total - 1)) /\
  file f = data /\ chunkSize f = 2 /\ totalChunks f = total /\
  mode f = Encode /\ f_worker f = worker Echo.engine /\
  List.concat (map (fun i => slice data (Z.of_nat i * 2) 2)
                 (seq 0 (Z.to_nat total))) = data.
Proof.
  cbv zeta.
  assert (Hs : 0 < 2) by lia.
  assert (Hget : JsMap.get (engines (Echo.after Echo.load_echo)) "echo"
                 = Some Echo.engine) by (vm_compute; reflexivity).
  assert (Hrun : run Echo.utf8_decode Echo.instantiate [AReaderLoad 0]
                   (snd (processFile_with 2 EchoRuns.three_bytes "echo" Encode
                           (Echo.after Echo.load_echo)))
                 = Some (EchoRuns.from
                           (snd (processFile_with 2 EchoRuns.three_bytes
                                   "echo" Encode (Echo.after Echo.load_echo)))
                           [AReaderLoad 0]))
    by (apply run_from; vm_compute; reflexivity).
  assert (Hp : pending_read
                 (fst (processFile_with 2 EchoRuns.three_bytes "echo" Encode
                         (Echo.after Echo.load_echo)))
                 (EchoRuns.from
                    (snd (processFile_with 2 EchoRuns.three_bytes
                            "echo" Encode (Echo.after Echo.load_echo)))
                    [AReaderLoad 0])
               = Some (EchoRuns.second_slice, [x43]))
    by (vm_compute; reflexivity).
  split; [exact Hs|]. split; [exact Hget|]. split; [exact Hrun|].
  split; [exact Hp|].
  exact (HostLasting.file_is_read_in_consecutive_slices unit
           Echo.utf8_decode Echo.instantiate (Echo.after Echo.load_echo) 2
           EchoRuns.three_bytes "echo" Encode Echo.engine [AReaderLoad 0]
           _ EchoRuns.second_slice [x43] Hs Hget Hrun Hp).
Defined.

Lemma registered_engines_are_loaded_and_live_witness :
  let w := Echo.after Echo.load_echo in
  run Echo.utf8_decode Echo.instantiate Echo.load_echo (@init unit) = Some w /\
  JsMap.get (engines w) "echo" = Some Echo.engine /\
  id Echo.engine = "echo" /\
  (exists wk,
     nth_error (workers w) (worker Echo.engine) = Some wk /\
     terminated wk = false /\
     Worker.wasmExports (context wk) <> None /\
     Worker.engineInfo (context wk) = Some (info_of Echo.engine) /\
     Forall (fun r => is_load_request r = false) (inbox wk)) /\
  (forall engineId' e',
     JsMap.get (engines w) engineId' = Some e' ->
     worker e' = worker Echo.engine -> engineId' = "echo").
Proof.
  cbv zeta.
  assert (Hrun0 : run Echo.utf8_decode Echo.instantiate Echo.load_echo
                    (@init unit) = Some (Echo.after Echo.load_echo))
    by (apply Runs.run_after; vm_compute; reflexivity).
  assert (Hget : JsMap.get (engines (Echo.after Echo.load_echo)) "echo"
                 = Some Echo.engine) by (vm_compute; reflexivity).
  split; [exact Hrun0|]. split; [exact Hget|].
  exact (RegistryFacts.registered_engines_are_loaded_and_live unit
           Echo.utf8_decode Echo.instantiate Echo.load_echo
           (Echo.after Echo.load_echo) Hrun0 "echo" Echo.engine Hget).
Defined.

Lemma passed_validation_means_the_probes_round_trip_witness :
  Validation.validateEngine Echo.utf8_decode (fun _ => []) EchoRuns.identity
  = Validation.Passed /\
  exists f enc,
    Validation.encode EchoRuns.identity = Some f /\
    f (Validation.VStr Validation.testStr) = Val enc /\
    Validation.falsy enc = false /\ Validation.no_length enc = false.
Proof.
  assert (H : Validation.validateEngine Echo.utf8_decode (fun _ => [])
                EchoRuns.identity = Validation.Passed)
    by (vm_compute; reflexivity).
  split; [exact H|].
  destruct (ValidationFacts.passed_validation_means_the_probes_round_trip
              Echo.utf8_decode (fun _ => []) EchoRuns.identity H)
    as (f & enc & E1 & E2 & E3 & E4 & _).
  exists f, enc. auto.
Defined.

Lemma escaping_loses_nothing_witness :
  "<" <> "&lt;" /\ Html.esc "<" <> Html.esc "&lt;".
Proof.
  split; [discriminate|].
  apply (HtmlFacts.escaping_loses_nothing "<" "&lt;"). discriminate.
Defined.

(** ** At the terminal *)

Lemma pages_hold_every_line_once_witness :
  let text := Shell.three_lines in
  let s := Shell.start (App := unit) (Cb := unit) tt in
  let ls := Js.split text Js.newline in
  let s' := Shell.showPaged text 2 s in
  0 < 2 /\
  Js.join (String Js.newline EmptyString) ls = text /\
  (Z.of_nat (List.length ls) <= 2 -> s' = Shell.print (Shell.LText text) s) /\
  (2 < Z.of_nat (List.length ls) ->
   exists p,
     Shell.pager s' = Some p /\ Shell.imode s' = Shell.Paging /\
     Shell.lines p = ls /\ Shell.h p = 2 /\ Shell.cur p = 0 /\
     1 < Shell.pages p /\
     List.concat (map (fun c => Shell.page p (Z.of_nat c))
                      (seq 0 (Z.to_nat (Shell.pages p)))) = ls /\
     (forall c, 0 <= c < Shell.pages p ->
                Shell.page p c <> [] /\
                Z.of_nat (List.length (Shell.page p c)) <= 2) /\
     Shell.printed_texts (Shell.out s')
     = Shell.printed_texts (Shell.out s) ++ Shell.page p 0).
Proof.
  cbv zeta. split; [lia|].
  apply (ShellFacts.pages_hold_every_line_once unit unit Shell.three_lines 2
           (Shell.start tt)).
  lia.
Defined.

Lemma idle_keeps_the_view :
  (forall cb sel s, Shell.shown_ok s ->
                    Shell.shown_ok (snd (Shell.idle_call cb sel s))) /\
  (forall cmd arg s, Shell.shown_ok s ->
                     Shell.shown_ok (snd (Shell.idle_cmd cmd arg s))).
Proof. split; intros; assumption. Qed.

Lemma idle_keeps_the_history :
  (forall cb sel s,
     Shell.history (snd (Shell.idle_call cb sel s)) = Shell.history s /\
     Shell.histIdx (snd (Shell.idle_call cb sel s)) = Shell.histIdx s) /\
  (forall cmd arg s,
     Shell.history (snd (Shell.idle_cmd cmd arg s)) = Shell.history s /\
     Shell.histIdx (snd (Shell.idle_cmd cmd arg s)) = Shell.histIdx s).
Proof. split; intros; split; reflexivity. Qed.

Lemma paging_three_ok : Shell.shown_ok Shell.paging_three.
Proof.
  split.
  - vm_compute. repeat split; discriminate.
  - vm_compute. repeat constructor; discriminate.
Qed.

Lemma pager_never_leaves_its_pages_witness :
  let evs := [Shell.Type_ "n"; Shell.Key_ Shell.Enter; Shell.ClickNext;
              Shell.ClickPrev; Shell.Type_ "q"; Shell.Key_ Shell.Enter] in
  Shell.shown_ok Shell.paging_three /\
  Shell.shown_ok
    (Shell.session Shell.idle_call Shell.idle_cmd Shell.no_inherited evs
       Shell.paging_three).
Proof.
  cbv zeta. split; [exact paging_three_ok|].
  apply (ShellFacts.pager_never_leaves_its_pages unit unit Shell.idle_call
           Shell.idle_cmd Shell.no_inherited).
  - apply idle_keeps_the_view.
  - apply idle_keeps_the_view.
  - exact paging_three_ok.
Defined.

Lemma arrows_recall_history_entries_witness :
  let evs := [Shell.Type_ "help"; Shell.Key_ Shell.Enter;
              Shell.Type_ "list # engines"; Shell.Key_ Shell.Enter;
              Shell.Key_ Shell.ArrowUp] in
  let s := Shell.session Shell.idle_call Shell.idle_cmd Shell.no_inherited
             evs (Shell.start tt) in
  let s' := snd (Shell.keydown Shell.idle_call Shell.idle_cmd
                   Shell.no_inherited Shell.ArrowUp s) in
  Shell.history s' = Shell.history s /\
  (s' = s \/
   Shell.ti s' = "" /\
   Shell.histIdx s' = Z.of_nat (List.length (Shell.history s)) \/
   0 <= Shell.histIdx s' /\
   nth_error (Shell.history s) (Z.to_nat (Shell.histIdx s'))
   = Some (Shell.ti s')).
Proof.
  cbv zeta.
  apply (ShellFacts.arrows_recall_history_entries unit unit Shell.idle_call
           Shell.idle_cmd Shell.no_inherited).
  - apply idle_keeps_the_history.
  - apply idle_keeps_the_history.
  - left. reflexivity.
Defined.

Lemma tab_completes_every_beginning_of_a_command_witness :
  let s := Shell.set_ti "RE" (Shell.start (App := unit) (Cb := unit) tt) in
  In "result" Shell.cmd_names /\ Shell.ti s <> "" /\
  Js.startsWith "result" (Js.toLowerCase (Shell.ti s)) = true /\
  Shell.keydown Shell.idle_call Shell.idle_cmd Shell.no_inherited Shell.Tab s
  = (Val tt, Shell.set_ti "result" s).
Proof.
  cbv zeta.
  assert (Hin : In "result" Shell.cmd_names) by (simpl; auto 10).
  split; [exact Hin|]. split; [discriminate|].
  split; [vm_compute; reflexivity|].
  apply (ShellFacts.tab_completes_every_beginning_of_a_command unit unit
           Shell.idle_call Shell.idle_cmd Shell.no_inherited "result"
           (Shell.set_ti "RE" (Shell.start tt)) Hin).
  - discriminate.
  - vm_compute; reflexivity.
Defined.


Lemma typed_choice_is_an_entry_of_the_list_witness :
  let s := Shell.selecting in
  let handle := Shell.handleInput Shell.idle_call Shell.idle_cmd
                  Shell.no_inherited in
  Shell.pager s = None /\ Shell.imode s = Shell.Select /\
  Shell.selectCb s = Some tt /\
  ((exists n o,
      Js.parseInt (Js.trim " 2 ") = Some n /\
      1 <= n <= Z.of_nat (List.length (Shell.selectOpts s)) /\
      nth_error (Shell.selectOpts s) (Z.to_nat (n - 1)) = Some o /\
      handle " 2 " s =
      Shell.finish (Shell.idle_call tt (Some o) (Shell.chosen s)))
   \/
   (forall n, Js.parseInt (Js.trim " 2 ") = Some n ->
              n < 1 \/ Z.of_nat (List.length (Shell.selectOpts s)) < n) /\
   handle " 2 " s =
   (Val tt, Shell.clearTi (Shell.print Shell.LInvalid s))) /\
  (forall i, i < 0 \/ Z.of_nat (List.length (Shell.selectOpts s)) <= i ->
             Shell.handleSelectClick Shell.idle_call (Some i) s
             = Shell.idle_call tt None (Shell.chosen s)).
Proof.
  cbv zeta. split; [reflexivity|]. split; [reflexivity|].
  split; [reflexivity|].
  apply (ShellFacts.typed_choice_is_an_entry_of_the_list unit unit
           Shell.idle_call Shell.idle_cmd Shell.no_inherited " 2 " tt
           Shell.selecting); reflexivity.
Defined.

End MoreRuns.

(** * A load that returns an engine whose ID is registered *)
Module ReloadFacts.
Import Host Evolution.
Import HostFacts HostSteps RegistryFacts.

Section ReloadFacts.

Variable P : Type.
Variable utf8_decode : bytes -> string.
Variable instantiate : string -> Res (Worker.Exports P * Worker.Inst P).

(** A worker with a [loaded] message in its outbox is one whose load is
    under way: the message is the only one, and the one listener attached
    is the one waiting for it. *)
Lemma loaded_in_outbox (w : World P) h wk n info rest :
  registry_ok w ->
  nth_error (workers w) h = Some wk ->
  outbox wk = RLoaded n info :: rest ->
  rest = [] /\ terminated wk = false /\ inbox wk = [] /\
  (exists p, handlers wk = [HLoad n p]) /\
  forall engineId e,
    JsMap.get (engines w) engineId = Some e -> worker e <> h.
Proof.
  intros (_ & _ & R3 & _) Hwk Hout.
  destruct (R3 h wk Hwk) as [(_ & _ & Hs)|[Hl Hfree]].
  - rewrite Hout in Hs. inversion Hs; subst. discriminate.
  - destruct Hl as (Ht & n' & p & Hh & [(url & _ & Ho & _)|(r & Hi & Ho & Hr & _)]).
    + rewrite Hout in Ho. discriminate.
    + rewrite Hout in Ho. inversion Ho; subst. simpl.
      split; [reflexivity|]. split; [assumption|]. split; [assumption|].
      split; [exists p; assumption|assumption].
Qed.

(** C5. In every state the host can reach: when the answer [loaded] of
    a load reaches the host and the ID of its descriptor is registered
    already, the delivery leaves the keys of the registry distinct and
    exactly one entry under that ID, the new engine on the worker that
    answered; the worker of the old entry, a different one, is terminated,
    and the events show the termination before the [set]; the new worker
    is not terminated. *)
Theorem duplicate_load_leaves_one_entry_and_terminates_old :
  forall acts (w : World P) h wk n info rest old,
    run utf8_decode instantiate acts init = Some w ->
    nth_error (workers w) h = Some wk ->
    outbox wk = RLoaded n info :: rest ->
    JsMap.get (engines w) (info_id info) = Some old ->
    exists isPreset w',
      let engine :=
        {| id := info_id info; name := info_name info; desc := info_desc info;
           binarySafe := info_binarySafe info;
           selfInverse := info_selfInverse info;
           reversible := info_reversible info;
           isPreset := isPreset; worker := h |} in
      step utf8_decode instantiate (ADeliver h) w = Some w' /\
      NoDup (JsMap.keys (engines w')) /\
      JsMap.count (engines w') (info_id info) = 1%nat /\
      JsMap.get (engines w') (info_id info) = Some engine /\
      events w' = events w ++
        [EvMessage h (RLoaded n info);
         EvPrint (Overwritten (info_id info)); EvTerminate (worker old);
         EvSet (info_id info) h; EvReturn (LoadOk engine)] /\
      worker old <> h /\
      (exists wk_old,
         nth_error (workers w') (worker old) = Some wk_old /\
         terminated wk_old = true) /\
      (exists wk_new,
         nth_error (workers w') h = Some wk_new /\
         terminated wk_new = false /\ handlers wk_new = []).
Proof.
  intros acts w h wk n info rest old Hrun Hwk Hout Hget.
  assert (Hok : registry_ok w).
  { eapply run_registry; [eassumption|apply init_registry]. }
  assert (Hd : NoDup (JsMap.keys (engines w))).
  { eapply run_engines; [eassumption|]. constructor. }
  destruct (loaded_in_outbox w h wk n info rest Hok Hwk Hout)
    as (-> & Ht & Hin & (p & Hh) & Hfree).
  pose proof Hok as (R1 & _).
  destruct (R1 _ _ Hget) as (_ & wko & Hwko & _ & Htko & _).
  pose proof (Hfree _ _ Hget) as Hne.
  exists p.
  set (w0 := emit (EvMessage h (RLoaded n info))
               (upd_worker h (fun wk' =>
                  {| handlers := handlers wk'; inbox := inbox wk';
                     outbox := []; context := context wk';
                     terminated := terminated wk' |}) w)).
  set (w1 := removeEventListener h (HLoad n p) w0).
  assert (Hstep : step utf8_decode instantiate (ADeliver h) w
                  = Some (loadWasmEngine_loaded h info p w1)).
  { simpl. unfold host_turn. rewrite Hwk, Ht, Hout. f_equal.
    fold w0. unfold dispatch.
    assert (E : nth_error (workers w0) h
                = Some {| handlers := handlers wk; inbox := inbox wk;
                          outbox := []; context := context wk;
                          terminated := terminated wk |}).
    { unfold w0, emit, upd_worker, set_workers. cbn [workers].
      exact (nth_error_upd_eq _ _ _ _ Hwk). }
    rewrite E. cbn [handlers]. rewrite Hh. cbn [fold_left run_handler resp_id].
    rewrite Z.eqb_refl. reflexivity. }
  assert (Hd1 : NoDup (JsMap.keys (engines w1))) by exact Hd.
  assert (Hget1 : JsMap.get (engines w1) (info_id info) = Some old)
    by exact Hget.
  destruct (installing_over_a_registered_id P w1 Hd1 h info p old Hget1)
    as (Hnd & Hcount & Hg & Hev & Hterm).
  exists (loadWasmEngine_loaded h info p w1). cbv zeta.
  split; [exact Hstep|]. split; [exact Hnd|]. split; [exact Hcount|].
  split; [exact Hg|]. split.
  { rewrite Hev. unfold w1, w0. simpl. rewrite <- app_assoc. reflexivity. }
  split; [exact Hne|].
  assert (Hold1 : nth_error (workers w1) (worker old) = Some wko).
  { unfold w1, w0. simpl. rewrite !nth_error_upd_neq by congruence.
    assumption. }
  split; [exact (Hterm _ Hold1)|].
  assert (Hnew1 : nth_error (workers w1) h
                  = Some {| handlers := []; inbox := inbox wk; outbox := [];
                            context := context wk;
                            terminated := terminated wk |}).
  { unfold w1, w0. simpl.
    erewrite nth_error_upd_eq;
      [|apply nth_error_upd_eq; eassumption].
    cbn [handlers inbox outbox context terminated]. rewrite Hh.
    cbn [remove_one handler_eqb]. rewrite Z.eqb_refl, Bool.eqb_reflx.
    reflexivity. }
  eexists. split; [|split].
  - unfold loadWasmEngine_loaded. cbn [id]. rewrite Hget1. simpl.
    rewrite nth_error_upd_neq by exact Hne. exact Hnew1.
  - exact Ht.
  - reflexivity.
Qed.

End ReloadFacts.

End ReloadFacts.

(** * The order in which the chunks of a file are sent *)
Module ChunkOrder.
Import Host Evolution.
Import HostFacts HostSteps CounterFacts HostLasting ChunkFacts.

Lemma listened_app k a b : listened k (a ++ b) = listened k a ++ listened k b.
Proof. unfold listened. apply flat_map_app. Qed.

Lemma posts_with_app ids a b :
  posts_with ids (a ++ b) = posts_with ids a ++ posts_with ids b.
Proof. unfold posts_with. apply flat_map_app. Qed.

Lemma off_wire_listened k new :
  Forall (fun ev => off_wire ev = true) new -> listened k new = [].
Proof.
  induction 1 as [|ev new Hev _ IH]; [reflexivity|].
  simpl. rewrite IH.
  destruct ev as [| ? [|]| ? [|]| | | | |]; simpl in *;
    try reflexivity; discriminate.
Qed.

Lemma off_wire_posts ids new :
  Forall (fun ev => off_wire ev = true) new -> posts_with ids new = [].
Proof.
  induction 1 as [|ev new Hev _ IH]; [reflexivity|].
  simpl. rewrite IH.
  destruct ev as [| ? [|]| ? [|]| | | | |]; simpl in *;
    try reflexivity; discriminate.
Qed.

Lemma off_wire_posted new :
  Forall (fun ev => off_wire ev = true) new ->
  forall ids, posts_with ids new = [].
Proof. intros H ids. apply off_wire_posts. assumption. Qed.

(** A new ID changes nothing for the requests posted before it. *)
Lemma posts_with_fresh ids n evs :
  ~ In n (posted_ids evs) ->
  posts_with (ids ++ [n]) evs = posts_with ids evs.
Proof.
  induction evs as [|ev evs IH]; [reflexivity|].
  intros Hn. unfold posted_ids in Hn. simpl in Hn.
  rewrite in_app_iff in Hn.
  simpl. rewrite IH by tauto.
  destruct ev as [| | ? [|m ? c l t]| | | | |]; try reflexivity.
  simpl in Hn. rewrite existsb_app. simpl.
  destruct (Z.eqb_spec m n) as [->|Hne]; [tauto|].
  rewrite orb_false_r. reflexivity.
Qed.

Lemma existsb_eqb_in n ids : existsb (Z.eqb n) ids = true <-> In n ids.
Proof.
  rewrite existsb_exists. split.
  - intros (x & Hx & E). apply Z.eqb_eq in E. subst. assumption.
  - intros H. exists n. split; [assumption|apply Z.eqb_refl].
Qed.

Lemma not_in_ids_upto n : ~ In n (ids_upto n).
Proof.
  unfold ids_upto. intros H. apply in_map_iff in H as (j & E & Hj).
  apply in_seq in Hj. lia.
Qed.

Section ChunkOrder.

Variable P : Type.
Variable utf8_decode : bytes -> string.
Variable instantiate : string -> Res (Worker.Exports P * Worker.Inst P).

Lemma quiet_after_refl (w w' : World P) :
  events w' = events w -> quiet_after w w'.
Proof. intros E. exists []. rewrite app_nil_r. split; [assumption|constructor]. Qed.

Lemma quiet_after_trans (w1 w2 w3 : World P) :
  quiet_after w1 w2 -> quiet_after w2 w3 -> quiet_after w1 w3.
Proof.
  intros (n1 & E1 & F1) (n2 & E2 & F2). exists (n1 ++ n2).
  rewrite E2, E1, app_assoc. split; [reflexivity|].
  apply Forall_app. split; assumption.
Qed.

Lemma run_handler_wire h r hd (w : World P) :
  quiet_after w (run_handler h r hd w).
Proof.
  destruct hd as [rid p|rid k]; simpl; destruct (resp_id r =? rid);
    try (apply quiet_after_refl; reflexivity);
    destruct r as [n info|n payload|n|n e];
    try (apply quiet_after_refl; reflexivity).
  - unfold quiet_after, loadWasmEngine_loaded, removeEventListener,
      upd_worker, set_workers. cbn [id engines].
    destruct (JsMap.get (engines w) (info_id info)) as [old|];
      unfold terminate, print, upd_worker, set_workers, set_engines, emit;
      cbn [events engines nextRequestId workers ops];
      rewrite <- ?app_assoc; cbn [app];
      (eexists; split; [reflexivity|]); repeat constructor.
  - unfold quiet_after, loadWasmEngine_failed, removeEventListener,
      upd_worker, set_workers, emit. cbn [events].
    eexists; split; [reflexivity|]. repeat constructor.
Qed.

Lemma fold_handlers_wire h r hds : forall (w : World P),
  quiet_after w (fold_left (fun w' hd => run_handler h r hd w') hds w).
Proof.
  induction hds as [|hd hds IH]; intros w; simpl.
  - apply quiet_after_refl. reflexivity.
  - eapply quiet_after_trans; [apply run_handler_wire|apply IH].
Qed.

(** What a step puts on the wire: nothing, or one listener and, under
    the same ID, the next one of the counter, one data request. *)
Lemma step_wire a (w w' : World P) :
  step utf8_decode instantiate a w = Some w' ->
  quiet_after w w' /\ (forall k, a <> AReaderLoad k) \/
  exists h k md c l t,
    events w' = events w ++
      [EvListen h (HData (nextRequestId w) k);
       EvPost h (ReqData (nextRequestId w) md c l t)] /\
    (k < List.length (ops w'))%nat /\
    ((exists engineId, a = ACall engineId md c /\ k = List.length (ops w)) \/
     (a = AReaderLoad k /\
      exists f, pending_read k w = Some (f, c) /\ h = f_worker f /\
                md = mode f /\
                l = (Z.of_nat (List.length (file f))
                     <=? offset f + chunkSize f) /\
                t = Some (totalChunks f))).
Proof.
  destruct a as [url p|engineId type input|f0 engineId m|k|k|h|h];
    simpl; intros H.
  - inversion H; subst. left. split; [|discriminate].
    rewrite loadWasmEngine_eq.
    eexists; split; [reflexivity|]. repeat constructor.
  - inversion H; subst; clear H. unfold callEngine.
    destruct (JsMap.get (engines w) engineId) as [e|].
    + right. exists (worker e), (List.length (ops w)), type, input, true, None.
      split; [|split; [|left; eauto]].
      * simpl. rewrite <- app_assoc. reflexivity.
      * simpl. rewrite length_app. simpl. lia.
    + left. split; [|discriminate]. apply quiet_after_refl. reflexivity.
  - inversion H; subst; clear H. left. split; [|discriminate].
    unfold processFile, processFile_with. cbn [print emit engines].
    destruct (JsMap.get (engines w) engineId);
      (eexists; split; [reflexivity|]; repeat constructor).
  - destruct (pending_read k w) as [[f c]|] eqn:Ep; inversion H; subst.
    right. do 6 eexists. split; [|split; [|right; split; [reflexivity|]]].
    + unfold reader_onload. simpl. rewrite <- app_assoc. reflexivity.
    + apply pending_read_op in Ep as (o & Ho & _).
      unfold reader_onload. simpl. rewrite upd_length.
      apply nth_error_Some. congruence.
    + exists f. split; [exact Ep|]. repeat split; reflexivity.
  - destruct (pending_read k w) as [[f c]|]; inversion H; subst.
    left. split; [|discriminate]. apply quiet_after_refl. reflexivity.
  - unfold worker_turn in H. destruct (nth_error (workers w) h); [|discriminate].
    destruct (terminated w0); [discriminate|].
    destruct (inbox w0); [discriminate|].
    destruct (Worker.onmessage _ _ _ _). inversion H; subst.
    left. split; [|discriminate]. apply quiet_after_refl. reflexivity.
  - unfold host_turn in H. destruct (nth_error (workers w) h); [|discriminate].
    destruct (terminated w0); [discriminate|].
    destruct (outbox w0) as [|r rest]; [discriminate|]. inversion H; subst.
    left. split; [|discriminate]. unfold dispatch.
    match goal with |- quiet_after _ (match ?x with _ => _ end) =>
      destruct x end.
    + eapply quiet_after_trans; [|apply fold_handlers_wire].
      eexists; split; [reflexivity|]. repeat constructor.
    + eexists; split; [reflexivity|]. repeat constructor.
Qed.

Lemma run_handler_next h r hd (w : World P) :
  nextRequestId (run_handler h r hd w) = nextRequestId w.
Proof.
  destruct hd as [rid p|rid k]; simpl; destruct (resp_id r =? rid);
    try reflexivity; destruct r as [n info|n payload|n|n e];
    try reflexivity.
  unfold loadWasmEngine_loaded. cbn [id engines removeEventListener
    upd_worker set_workers].
  destruct (JsMap.get (engines w) (info_id info)); reflexivity.
Qed.

(** The counter never goes back. *)
Lemma step_next_le a (w w' : World P) :
  step utf8_decode instantiate a w = Some w' ->
  nextRequestId w <= nextRequestId w'.
Proof.
  destruct a as [url p|engineId type input|f0 engineId m|k|k|h|h];
    simpl; intros H.
  - inversion H; subst. rewrite loadWasmEngine_eq. apply js_succ_ge.
  - inversion H; subst. unfold callEngine.
    destruct (JsMap.get (engines w) engineId); simpl;
      [apply js_succ_ge|lia].
  - inversion H; subst. unfold processFile, processFile_with.
    cbn [print emit engines].
    destruct (JsMap.get (engines w) engineId); simpl; lia.
  - destruct (pending_read k w) as [[f c]|]; inversion H; subst.
    unfold reader_onload. simpl. apply js_succ_ge.
  - destruct (pending_read k w) as [[f c]|]; inversion H; subst.
    simpl. lia.
  - unfold worker_turn in H. destruct (nth_error (workers w) h); [|discriminate].
    destruct (terminated w0); [discriminate|].
    destruct (inbox w0); [discriminate|].
    destruct (Worker.onmessage _ _ _ _). inversion H; subst. simpl. lia.
  - unfold host_turn in H. destruct (nth_error (workers w) h); [|discriminate].
    destruct (terminated w0); [discriminate|].
    destruct (outbox w0) as [|r rest]; [discriminate|]. inversion H; subst.
    unfold dispatch.
    match goal with |- _ <= nextRequestId (match ?x with _ => _ end) =>
      destruct x end; [|simpl; lia].
    apply (fold_left_inv _ (fun w1 : World P =>
                              nextRequestId w <= nextRequestId w1)).
    + simpl. lia.
    + intros w2 hd Hw2. rewrite run_handler_next. assumption.
Qed.

Lemma run_next_le acts : forall (w w' : World P),
  run utf8_decode instantiate acts w = Some w' ->
  nextRequestId w <= nextRequestId w'.
Proof.
  induction acts as [|a acts IH]; simpl; intros w w' H.
  - inversion H; subst. lia.
  - destruct (step utf8_decode instantiate a w) as [w1|] eqn:E; [|discriminate].
    pose proof (step_next_le a w w1 E). pose proof (IH w1 w' H). lia.
Qed.

Lemma step_fresh_ops a (w w' : World P) :
  step utf8_decode instantiate a w = Some w' -> fresh_ops w -> fresh_ops w'.
Proof.
  intros H Hf k Hk.
  pose proof (step_ops_length _ _ _ a w w' H) as Hlen.
  destruct (step_wire a w w' H)
    as [((new & E & Hq) & _)|(h & k' & md & c & l & t & E & Hk' & _)];
    rewrite E, listened_app, Hf by lia.
  - apply off_wire_listened. assumption.
  - simpl. destruct (Nat.eqb_spec k' k); [lia|reflexivity].
Qed.

Lemma run_fresh_ops acts : forall (w w' : World P),
  run utf8_decode instantiate acts w = Some w' -> fresh_ops w -> fresh_ops w'.
Proof.
  induction acts as [|a acts IH]; simpl; intros w w' H Hf.
  - inversion H; subst; assumption.
  - destruct (step utf8_decode instantiate a w) as [w1|] eqn:E; [|discriminate].
    eapply IH; [eassumption|]. eapply step_fresh_ops; eassumption.
Qed.

Lemma posts_with_nil evs : posts_with [] evs = [].
Proof.
  induction evs as [|ev evs IH]; [reflexivity|]. simpl. rewrite IH.
  destruct ev as [| | ? [|]| | | | |]; reflexivity.
Qed.

(** What one listener and its data request add to what was sent for
    operation [k]. *)
Lemma sent_after_post k k' h n md c l t evs :
  Forall (fun m => In m (posted_ids evs)) (listened k evs) ->
  ~ In n (posted_ids evs) ->
  listened k (evs ++ [EvListen h (HData n k'); EvPost h (ReqData n md c l t)])
  = listened k evs ++ (if Nat.eqb k' k then [n] else []) /\
  sent_for k (evs ++ [EvListen h (HData n k'); EvPost h (ReqData n md c l t)])
  = sent_for k evs ++ (if Nat.eqb k' k then [(c, l, t)] else []).
Proof.
  intros HL Hn.
  assert (E : listened k (evs ++ [EvListen h (HData n k');
                                   EvPost h (ReqData n md c l t)])
              = listened k evs ++ (if Nat.eqb k' k then [n] else [])).
  { rewrite listened_app. simpl. destruct (Nat.eqb k' k); reflexivity. }
  split; [exact E|].
  unfold sent_for. rewrite E, posts_with_app.
  assert (Hni : ~ In n (listened k evs)).
  { intros Hi. rewrite Forall_forall in HL. auto. }
  destruct (Nat.eqb k' k).
  - rewrite posts_with_fresh by assumption. f_equal.
    simpl. rewrite existsb_app. simpl. rewrite Z.eqb_refl, orb_true_r.
    reflexivity.
  - rewrite app_nil_r. f_equal. simpl.
    destruct (existsb (Z.eqb n) (listened k evs)) eqn:Ex; [|reflexivity].
    apply existsb_eqb_in in Ex. contradiction.
Qed.

Lemma sent_after_quiet k evs new :
  Forall (fun ev => off_wire ev = true) new ->
  listened k (evs ++ new) = listened k evs /\
  sent_for k (evs ++ new) = sent_for k evs.
Proof.
  intros Hq.
  assert (E : listened k (evs ++ new) = listened k evs).
  { rewrite listened_app. rewrite (off_wire_listened k new Hq).
    apply app_nil_r. }
  split; [exact E|].
  unfold sent_for. rewrite E, posts_with_app.
  rewrite (off_wire_posts _ new Hq). apply app_nil_r.
Qed.

(** Only [reader.onload] moves the offset of a file operation. *)
Lemma step_offset a (w w' : World P) k o :
  step utf8_decode instantiate a w = Some w' ->
  nth_error (ops w) k = Some o -> a <> AReaderLoad k ->
  exists o',
    nth_error (ops w') k = Some o' /\
    forall f', reader o' = Some f' ->
               exists f, reader o = Some f /\ offset f' = offset f.
Proof.
  intros H Ho Ha.
  destruct (step_op _ _ _ a w w' k o H Ho) as (o' & Ho' & Hc).
  exists o'. split; [assumption|]. intros f' Hf'.
  destruct a as [url p|engineId type input|f0 engineId m|k'|k'|h0|h0];
    try (subst o'; eauto).
  - destruct (Nat.eqb_spec k' k) as [->|Hne]; [congruence|].
    subst o'; eauto.
  - destruct (Nat.eqb_spec k' k) as [->|Hne]; [|subst o'; eauto].
    destruct Hc as (f & c & Hp & ->).
    apply pending_read_op in Hp as (o1 & Ho1 & Hr1 & _).
    assert (o1 = o) by congruence. subst o1.
    simpl in Hf'. inversion Hf'; subst. exists f. split; [assumption|].
    reflexivity.
  - destruct Hc as [(Hr & _) _]. rewrite Hr in Hf'. eauto.
Qed.

(** The request [reader.onload] posts for the chunk it holds. *)
Lemma chunk_read_is_nth size data md h o f c (i : nat) :
  0 < size ->
  reads_slices size data md h o -> reader o = Some f ->
  reading f = Some c -> offset f = Z.of_nat i * size ->
  (c, Z.of_nat (List.length (file f)) <=? offset f + chunkSize f,
   Some (totalChunks f)) = nth_chunk size data i /\
  Z.of_nat i < ceil_div (Z.of_nat (List.length data)) size /\
  mode f = md /\ f_worker f = h /\ file f = data /\ chunkSize f = size.
Proof.
  intros Hs (f0 & i0 & Hrd & Hf & Hcs & Ht & Hm & Hw & Hoff & Hread) Hr Hc Ho.
  assert (f0 = f) by congruence. subst f0.
  destruct Hread as [Hn|[Hlt Hsome]]; [congruence|].
  assert (c = slice data (offset f) size) by congruence. subst c.
  assert (Hil : Z.of_nat i * size < Z.of_nat (List.length data)) by lia.
  pose proof (ceil_div_least _ size (Z.of_nat i) Hs Hil) as Hi.
  pose proof (ceil_div_last _ size (Z.of_nat i) Hs Hil) as Hlast.
  split; [|repeat split; assumption].
  unfold nth_chunk. cbv zeta. rewrite Hf, Hcs, Ht, Ho. f_equal. f_equal.
  destruct (Z.leb_spec (Z.of_nat (List.length data))
                       (Z.of_nat i * size + size)) as [Hle|Hgt];
    destruct (Z.eqb_spec (Z.of_nat i)
                (ceil_div (Z.of_nat (List.length data)) size - 1))
      as [He|Hne]; try reflexivity.
  - exfalso. apply Hne. apply Hlast. assumption.
  - exfalso. apply Hlast in He. lia.
Qed.

Lemma step_sent a (w w' : World P) k size data md h o :
  0 < size ->
  step utf8_decode instantiate a w = Some w' -> counter_ok w ->
  nth_error (ops w) k = Some o -> reads_slices size data md h o ->
  sent_ok size data k w -> sent_ok size data k w'.
Proof.
  intros Hs H Hc Ho Hsl Hsent Hlt'.
  pose proof (step_next_le a w w' H) as Hmono.
  assert (Hlt : nextRequestId w < 2 ^ 53) by lia.
  destruct (Hsent Hlt) as [HL HS].
  destruct Hc as [_ Hc]. destruct (Hc Hlt) as [Hp _].
  assert (Hn : ~ In (nextRequestId w) (posted_ids (events w))).
  { rewrite Hp. apply not_in_ids_upto. }
  assert (Hk : (k < List.length (ops w))%nat)
    by (apply nth_error_Some; congruence).
  assert (Hkeep : forall evs',
            a <> AReaderLoad k ->
            listened k evs' = listened k (events w) ->
            sent_for k evs' = sent_for k (events w) ->
            (forall m, In m (posted_ids (events w)) -> In m (posted_ids evs')) ->
            events w' = evs' ->
            Forall (fun m => In m (posted_ids (events w')))
                   (listened k (events w')) /\
            forall o' f',
              nth_error (ops w') k = Some o' -> reader o' = Some f' ->
              exists i : nat,
                offset f' = Z.of_nat i * size /\
                sent_for k (events w') = map (nth_chunk size data) (seq 0 i)).
  { intros evs' Ha El Es Hin E. rewrite E, El, Es. split.
    - eapply Forall_impl; [|exact HL]. intros m. apply Hin.
    - intros o' f' Ho' Hr'.
      destruct (step_offset a w w' k o H Ho Ha) as (o1 & Ho1 & Hoff).
      assert (o1 = o') by congruence. subst o1.
      destruct (Hoff f' Hr') as (f & Hr & Eo).
      destruct (HS o f Ho Hr) as (i & Hi & Hsf).
      exists i. split; [congruence|assumption]. }
  destruct (step_wire a w w' H)
    as [((new & E & Hq) & Ha)
       |(h0 & k' & md0 & c & l & t & E & Hk' & Hwho)].
  - destruct (sent_after_quiet k (events w) new Hq) as [El Es].
    apply (Hkeep (events w ++ new)); auto.
    intros m Hm. rewrite posted_ids_app. apply in_or_app. auto.
  - destruct (sent_after_post k k' h0 (nextRequestId w) md0 c l t
                (events w) HL Hn) as [El Es].
    assert (Hin : forall m, In m (posted_ids (events w)) ->
                            In m (posted_ids (events w'))).
    { intros m Hm. rewrite E, posted_ids_app. apply in_or_app. auto. }
    destruct (Nat.eqb_spec k' k) as [->|Hne].
    + (* the chunk of this operation *)
      destruct Hwho as [(engineId & _ & Ek)|(-> & f & Hpr & -> & -> & -> & ->)];
        [lia|].
      apply pending_read_op in Hpr as (o1 & Ho1 & Hr1 & Hc1).
      assert (o1 = o) by congruence. subst o1.
      destruct (HS o f Ho Hr1) as (i & Hi & Hsf).
      destruct (chunk_read_is_nth size data md h o f c i Hs Hsl Hr1 Hc1 Hi)
        as (Hnth & _ & _ & _ & _ & Hcs).
      split.
      * rewrite E, El. apply Forall_app. split.
        -- eapply Forall_impl; [|exact HL]. intros m Hm.
           rewrite <- E. auto.
        -- constructor; [|constructor]. rewrite posted_ids_app.
           apply in_or_app. right. simpl. auto.
      * intros o' f' Ho' Hr'.
        destruct (step_op _ _ _ (AReaderLoad k) w w' k o H Ho)
          as (o2 & Ho2 & Hc2).
        rewrite Nat.eqb_refl in Hc2. destruct Hc2 as (f2 & c2 & Hp2 & ->).
        apply pending_read_op in Hp2 as (o3 & Ho3 & Hr3 & _).
        assert (o3 = o) by congruence. subst o3.
        assert (f2 = f) by congruence. subst f2.
        assert (o' = set_reader (Some (advanced f)) o) by congruence.
        subst o'. simpl in Hr'. inversion Hr'; subst f'.
        exists (S i). split.
        -- unfold advanced, processNextChunk. cbn [offset].
           rewrite Hi, Hcs, Nat2Z.inj_succ. lia.
        -- rewrite E, Es, Hsf, Hnth, seq_S, map_app. reflexivity.
    + apply (Hkeep (events w ++
                    [EvListen h0 (HData (nextRequestId w) k');
                     EvPost h0 (ReqData (nextRequestId w) md0 c l t)]));
        try assumption.
      * destruct Hwho as [(engineId & -> & _)|(-> & _)];
          [discriminate|congruence].
      * rewrite El. apply app_nil_r.
      * rewrite Es. apply app_nil_r.
      * intros m Hm. rewrite <- E. auto.
Qed.

Lemma run_sent acts : forall (w w' : World P) k size data md h o,
  0 < size ->
  run utf8_decode instantiate acts w = Some w' -> counter_ok w ->
  nth_error (ops w) k = Some o -> reads_slices size data md h o ->
  sent_ok size data k w -> sent_ok size data k w'.
Proof.
  induction acts as [|a acts IH]; simpl;
    intros w w' k size data md h o Hs H Hc Ho Hsl Hsent.
  - inversion H; subst. assumption.
  - destruct (step utf8_decode instantiate a w) as [w1|] eqn:E; [|discriminate].
    destruct (step_slices _ _ _ a w w1 k size data md h o E Ho Hsl)
      as (o1 & Ho1 & Hsl1).
    apply (IH w1 w' k size data md h o1 Hs H).
    + eapply step_counter; eassumption.
    + assumption.
    + assumption.
    + eapply step_sent; eassumption.
Qed.

(** C2, as amended. A file operation on a registered engine, started in
    any state the host can reach, then any steps whatever, the counter
    staying below 2^53: what was sent for the operation so far are the
    first [i] chunks of the file, in file order, one request each, with
    their flags and the chunk count. Whenever the reader holds a chunk it
    is chunk [i], and the host posts it at once, under the next request ID,
    never posted before, whatever has or has not come back from the
    worker; and unless this was the last chunk, the read of chunk [i + 1]
    is under way when the listener returns. *)
Theorem chunks_posted_in_file_order_without_waiting :
  forall acts0 (w0 : World P) size data engineId md e acts w f c,
    0 < size ->
    run utf8_decode instantiate acts0 init = Some w0 ->
    JsMap.get (engines w0) engineId = Some e ->
    let k := fst (processFile_with size data engineId md w0) in
    let total := ceil_div (Z.of_nat (List.length data)) size in
    run utf8_decode instantiate acts
        (snd (processFile_with size data engineId md w0)) = Some w ->
    nextRequestId w < 2 ^ 53 ->
    pending_read k w = Some (f, c) ->
    exists (i : nat) w',
      Z.of_nat i < total /\
      sent_for k (events w) = map (nth_chunk size data) (seq 0 i) /\
      c = slice data (Z.of_nat i * size) size /\
      step utf8_decode instantiate (AReaderLoad k) w = Some w' /\
      events w' = events w ++
        [EvListen (worker e) (HData (nextRequestId w) k);
         EvPost (worker e)
                (ReqData (nextRequestId w) md c (Z.of_nat i =? total - 1)
                         (Some total))] /\
      ~ In (nextRequestId w) (posted_ids (events w)) /\
      sent_for k (events w') = map (nth_chunk size data) (seq 0 (S i)) /\
      pending_read k w' =
        if Z.of_nat i =? total - 1 then None
        else Some (advanced f, slice data (Z.of_nat (S i) * size) size).
Proof.
  intros acts0 w0 size data engineId md e acts w f c Hs Hrun0 Hget k total
         Hrun Hlt Hp.
  assert (Hc0 : counter_ok w0)
    by (eapply run_counter; [eassumption|apply init_counter]).
  assert (Hf0 : fresh_ops w0).
  { eapply run_fresh_ops; [eassumption|]. intros j _. reflexivity. }
  subst k. unfold processFile_with in *. cbn [print emit engines] in *.
  rewrite Hget in *. cbn [new_op fst snd] in *.
  match type of Hrun with
  | run _ _ _ ?x = _ => set (w1 := x) in *
  end.
  set (o := {| chunks := []; promise := Pending;
               reader := Some (processNextChunk
                 {| file := data; mode := md; f_worker := worker e;
                    chunkSize := size; totalChunks := total;
                    offset := 0; reading := None |}) |}).
  assert (Ho : nth_error (ops w1) (List.length (ops w0)) = Some o).
  { subst w1. simpl. apply nth_error_app_last. }
  assert (Hsl : reads_slices size data md (worker e) o).
  { eexists _, O. split; [reflexivity|]. unfold processNextChunk. simpl.
    repeat split.
    destruct (Z.leb_spec (Z.of_nat (List.length data)) 0);
      [left; reflexivity|right]. split; [assumption|reflexivity]. }
  assert (Hc1 : counter_ok w1).
  { revert Hc0. apply counter_ok_ext; [reflexivity| |auto].
    subst w1. unfold set_ops, print, emit. cbn [events].
    rewrite posted_ids_app. apply app_nil_r. }
  assert (Hsent1 : sent_ok size data (List.length (ops w0)) w1).
  { intros _.
    assert (El : listened (List.length (ops w0)) (events w1) = []).
    { subst w1. unfold set_ops, print, emit. cbn [events].
      rewrite listened_app, Hf0 by lia. reflexivity. }
    rewrite El. split; [constructor|].
    intros o' f' Ho' Hr'. rewrite Ho in Ho'. inversion Ho'; subst o'.
    simpl in Hr'. inversion Hr'; subst f'. exists O. split; [reflexivity|].
    unfold sent_for. rewrite El. apply posts_with_nil. }
  pose proof (run_sent acts w1 w _ size data md (worker e) o Hs Hrun Hc1 Ho
                Hsl Hsent1) as Hsent.
  destruct (run_slices _ _ _ acts w1 w _ size data md (worker e) o Hrun Ho Hsl)
    as (o' & Ho' & Hsl').
  assert (Hc : counter_ok w) by (eapply run_counter; eassumption).
  destruct (Hsent Hlt) as [HL HS].
  pose proof Hp as Hp'.
  apply pending_read_op in Hp' as (o1 & Ho1 & Hr1 & Hrd1).
  simpl in Ho1. rewrite Ho' in Ho1. inversion Ho1; subst o1; clear Ho1.
  destruct (HS o' f Ho' Hr1) as (i & Hi & Hsf).
  destruct (chunk_read_is_nth size data md (worker e) o' f c i Hs Hsl' Hr1
              Hrd1 Hi) as (Hnth & Hit & Hm & Hw & Hfile & Hcs).
  fold total in Hit.
  assert (Hn : ~ In (nextRequestId w) (posted_ids (events w))).
  { destruct Hc as [_ Hc]. destruct (Hc Hlt) as [Epost _].
    rewrite Epost. apply not_in_ids_upto. }
  destruct (reader_onload_posts P utf8_decode instantiate w _ f c Hp)
    as (w' & Hstep & Hev & Hnext).
  unfold nth_chunk in Hnth. cbv zeta in Hnth. fold total in Hnth.
  injection Hnth as Ec El Et.
  change (List.length
            (ops (print (Processing (Z.of_nat (List.length data))
                           (ceil_div (Z.of_nat (List.length data)) size))
                    w0)))
    with (List.length (ops w0)) in *.
  exists i, w'.
  split; [exact Hit|]. split; [exact Hsf|]. split; [exact Ec|].
  split; [exact Hstep|].
  rewrite Hw, Hm, Et, El in Hev.
  split; [exact Hev|]. split; [exact Hn|]. split.
  - destruct (sent_after_post (List.length (ops w0)) (List.length (ops w0))
                (worker e) (nextRequestId w) md c
                (Z.of_nat i =? total - 1) (Some total) (events w) HL Hn)
      as [_ Es].
    rewrite Hev, Es, Nat.eqb_refl, Hsf, seq_S, map_app. simpl.
    unfold nth_chunk. cbv zeta. fold total. rewrite <- Ec. reflexivity.
  - change (processNextChunk _) with (advanced f) in Hnext.
    rewrite Hnext, El. destruct (Z.of_nat i =? total - 1); [reflexivity|].
    rewrite Hfile, Hcs, Hi, Nat2Z.inj_succ.
    replace (Z.succ (Z.of_nat i) * size) with (Z.of_nat i * size + size)
      by lia.
    reflexivity.
Qed.

End ChunkOrder.

End ChunkOrder.

(** * The worker when a call need not return *)
Module HangingFacts.
Import Hanging.

Section HangingFacts.

Variable P : Type.
Variable utf8_decode : bytes -> string.
Variable instantiate : string -> option (Res (Exports P * Worker.Inst P)).

Lemma still_quiet_bind {A B} (c : M P A) (k : A -> M P B) :
  quiet c -> (forall a, quiet (k a)) -> quiet (bind c k).
Proof.
  intros Hc Hk s o s'. unfold bind.
  destruct (c s) as [[[a|e]|] s1] eqn:E; intros H.
  - rewrite (Hk _ _ _ _ H). eauto.
  - inversion H; subst. eauto.
  - inversion H; subst. eauto.
Qed.

Lemma still_quiet_ret {A} (a : A) : quiet (ret (P:=P) a).
Proof. intros s o s' H. inversion H; reflexivity. Qed.

Lemma still_quiet_throw {A} e : quiet (throw (P:=P) (A:=A) e).
Proof. intros s o s' H. inversion H; reflexivity. Qed.

Lemma still_quiet_lift {A} (x : Res A) : quiet (lift (P:=P) x).
Proof. intros s o s' H. inversion H; reflexivity. Qed.

Lemma still_quiet_get_mem : quiet (get_mem (P:=P)).
Proof. intros s o s' H. inversion H; reflexivity. Qed.

Lemma still_quiet_set_mem m : quiet (set_mem (P:=P) m).
Proof. intros s o s' H. inversion H; reflexivity. Qed.

Lemma still_quiet_invoke ex name args : quiet (invoke (P:=P) ex name args).
Proof.
  intros s o s'. unfold invoke.
  destruct (exp_fn ex name) as [f|].
  - destruct (f (Worker.inst s) args) as [[r0 i']|];
      intros H; inversion H; reflexivity.
  - intros H; inversion H; reflexivity.
Qed.

Lemma still_quiet_readStr ptr lenPtr : quiet (readStr (P:=P) utf8_decode ptr lenPtr).
Proof.
  unfold readStr.
  apply still_quiet_bind; [apply still_quiet_get_mem|intros m].
  apply still_quiet_bind; [apply still_quiet_lift|intros len].
  destruct (len =? 0); [apply still_quiet_ret|].
  apply still_quiet_bind; [apply still_quiet_get_mem|intros m'].
  apply still_quiet_bind; [apply still_quiet_lift|intros b].
  apply still_quiet_ret.
Qed.

Lemma still_quiet_read_string_export ex name :
  quiet (read_string_export (P:=P) utf8_decode ex name).
Proof.
  unfold read_string_export.
  apply still_quiet_bind; [apply still_quiet_invoke|intros lenPtr].
  apply still_quiet_bind; [apply still_quiet_invoke|intros ptr].
  apply still_quiet_bind; [apply still_quiet_readStr|intros s].
  apply still_quiet_bind; [apply still_quiet_invoke|intros _].
  apply still_quiet_ret.
Qed.

Lemma still_quiet_load_body ex : quiet (load_body (P:=P) utf8_decode ex).
Proof.
  unfold load_body.
  apply still_quiet_bind; [apply still_quiet_lift|intros _].
  apply still_quiet_bind; [apply still_quiet_read_string_export|intros engineId].
  apply still_quiet_bind;
    [destruct (has_export ex "sb_get_name");
     [apply still_quiet_read_string_export|apply still_quiet_ret]|intros engineName].
  apply still_quiet_bind;
    [destruct (has_export ex "sb_get_desc");
     [apply still_quiet_read_string_export|apply still_quiet_ret]|intros engineDesc].
  apply still_quiet_bind; [apply still_quiet_invoke|intros bs].
  apply still_quiet_bind; [apply still_quiet_invoke|intros si].
  apply still_quiet_bind; [apply still_quiet_invoke|intros rv].
  apply still_quiet_ret.
Qed.

Lemma still_quiet_release (ex : Exports P) inPtr n outLenPtr :
  quiet (release ex inPtr n outLenPtr).
Proof.
  unfold release.
  apply still_quiet_bind; [apply still_quiet_invoke|intros _].
  apply still_quiet_bind; [apply still_quiet_invoke|intros _].
  apply still_quiet_ret.
Qed.

Lemma bind_ends {A B} (c : M P A) (k : A -> M P B) (s s' : Worker.WS P) o :
  bind c k s = (o, s') ->
  (exists a s1, c s = (Done (Val a), s1) /\ k a s1 = (o, s')) \/
  (exists o1, c s = (o1, s') /\ fails o1 /\ o = recast o1).
Proof.
  unfold bind. destruct (c s) as [[[a|e]|] s1]; intros H.
  - left. eauto.
  - right. inversion H; subst. exists (Done (Exn e)). simpl. auto.
  - right. inversion H; subst. exists Stuck. simpl. auto.
Qed.

Lemma recast_fails {A B} (o : Out A) : fails (recast (B:=B) o).
Proof. destruct o as [[a|e]|]; exact I. Qed.

(** The messages a run of the [try] body adds: nothing when it throws or
    is stuck; otherwise the output, if there is one, then [result] after
    the last chunk. *)
Lemma transform_posts_or_stuck (ex : Exports P) id type inPtr n outLenPtr isLast
      (s s' : Worker.WS P) o :
  transform ex id type inPtr n outLenPtr isLast s = (o, s') ->
  match o with
  | Done (Val _) =>
      exists cs,
        Worker.posted s' = Worker.posted s ++ map (RChunk id) cs
                    ++ (if isLast then [RResult id] else []) /\
        (List.length cs <= 1)%nat /\ Forall (fun c => c <> []) cs
  | _ => Worker.posted s' = Worker.posted s
  end.
Proof.
  unfold transform. intros H.
  apply bind_ends in H as [(outPtr & s1 & E1 & H)|(o1 & E1 & Hf & ->)].
  2:{ apply still_quiet_invoke in E1. destruct o1 as [[a|e]|]; [destruct Hf| |];
      exact E1. }
  apply still_quiet_invoke in E1.
  apply bind_ends in H as [(m1 & s2 & E2 & H)|(o1 & E2 & Hf & ->)].
  2:{ inversion E2; subst. destruct Hf. }
  inversion E2; subst s2 m1; clear E2.
  apply bind_ends in H as [(outLen & s2 & E2 & H)|(o1 & E2 & Hf & ->)].
  2:{ unfold lift in E2. inversion E2; subst.
      destruct (Mem.read_u32 _ _); [destruct Hf|exact E1]. }
  unfold lift in E2. inversion E2 as [[E2' Hs2]]; subst s2; clear E2.
  apply bind_ends in H as [(u & s3 & E3 & H)|(o1 & E3 & Hf & ->)].
  - (* the output was read, or there was none *)
    assert (Hcs : exists cs, Worker.posted s3 = Worker.posted s1 ++ map (RChunk id) cs /\
                             (List.length cs <= 1)%nat /\
                             Forall (fun c => c <> []) cs).
    { destruct (negb (outPtr =? 0) && negb (outLen =? 0)) eqn:Ec.
      - apply bind_ends in E3 as [(m2 & s4 & E4 & E3)|(o1 & E4 & Hf & Hn)];
          [|destruct o1 as [[?|?]|]; [destruct Hf|discriminate|discriminate]].
        inversion E4; subst s4 m2; clear E4.
        apply bind_ends in E3 as [(res & s4 & E4 & E3)|(o1 & E4 & Hf & Hn)];
          [|destruct o1 as [[?|?]|]; [destruct Hf|discriminate|discriminate]].
        unfold lift in E4. inversion E4 as [[E4' Hs4]]; subst s4; clear E4.
        unfold postMessage in E3. inversion E3; subst; clear E3. simpl.
        exists [res]. split; [reflexivity|]. split; [simpl; lia|].
        constructor; [|constructor].
        apply andb_prop in Ec as [_ Ec]. apply negb_true_iff in Ec.
        apply Z.eqb_neq in Ec.
        eapply WorkerAnswers.read_bytes_nonempty; eassumption.
      - unfold ret in E3. inversion E3; subst. exists [].
        simpl. rewrite app_nil_r. split; [reflexivity|].
        split; [simpl; lia|constructor]. }
    destruct Hcs as (cs & Hp & Hl & Hne).
    destruct isLast.
    + unfold postMessage in H. inversion H; subst; clear H. simpl.
      exists cs. rewrite Hp, E1, <- app_assoc. auto.
    + unfold ret in H. inversion H; subst; clear H.
      exists cs. rewrite Hp, E1, app_nil_r. auto.
  - (* reading the output failed *)
    assert (Hq : Worker.posted s' = Worker.posted s1).
    { destruct (negb (outPtr =? 0) && negb (outLen =? 0)).
      - apply bind_ends in E3 as [(m2 & s4 & E4 & E3)|(o2 & E4 & Hf2 & _)].
        2:{ inversion E4; subst. destruct Hf2. }
        inversion E4; subst s4 m2; clear E4.
        apply bind_ends in E3 as [(res & s4 & E4 & E3)|(o2 & E4 & Hf2 & _)].
        + unfold postMessage in E3. inversion E3; subst. destruct Hf.
        + unfold lift in E4. inversion E4; subst. reflexivity.
      - unfold ret in E3. inversion E3; subst. destruct Hf. }
    destruct o1 as [[a|e]|]; [destruct Hf| |]; simpl; congruence.
Qed.

(** What one encode/decode request posts before the outer [catch],
    however it ends. *)
Lemma data_body_posts_or_stuck (ex : Exports P) id type chunk isLast
      (s0 s : Worker.WS P) o :
  data_body ex id type chunk isLast s0 = (o, s) ->
  exists cs fin,
    Worker.posted s = Worker.posted s0 ++ map (RChunk id) cs ++ fin /\
    (List.length cs <= 1)%nat /\ Forall (fun c => c <> []) cs /\
    (fin = [] \/ fin = [RResult id] /\ isLast = true) /\
    (forall v, o = Done (Val v) -> isLast = true -> fin = [RResult id]).
Proof.
  assert (Hnone : forall (s1 : Worker.WS P) (o1 : Out unit),
            Worker.posted s1 = Worker.posted s0 -> fails o1 ->
            exists cs fin,
              Worker.posted s1 = Worker.posted s0 ++ map (RChunk id) cs ++ fin /\
              (List.length cs <= 1)%nat /\ Forall (fun c => c <> []) cs /\
              (fin = [] \/ fin = [RResult id] /\ isLast = true) /\
              (forall v, o1 = Done (Val v) -> isLast = true ->
                         fin = [RResult id])).
  { intros s1 o1 H1 Hf. exists [], []. simpl. rewrite app_nil_r.
    repeat split; auto. intros v ->. destruct Hf. }
  unfold data_body. intros H.
  apply bind_ends in H as [(inPtr & s1 & E1 & H)|(o1 & E1 & Hf & ->)].
  2:{ apply still_quiet_invoke in E1. apply Hnone; [assumption|apply recast_fails]. }
  apply still_quiet_invoke in E1.
  destruct (inPtr =? 0).
  { unfold throw in H. inversion H; subst. apply Hnone; [assumption|exact I]. }
  apply bind_ends in H as [(m & s2 & E2 & H)|(o1 & E2 & Hf & ->)].
  2:{ inversion E2; subst. destruct Hf. }
  inversion E2; subst s2 m; clear E2.
  apply bind_ends in H as [(m' & s2 & E2 & H)|(o1 & E2 & Hf & ->)].
  2:{ unfold lift in E2. inversion E2; subst.
      apply Hnone; [assumption|apply recast_fails]. }
  unfold lift in E2. inversion E2 as [[E2' Hs2]]; subst s2; clear E2.
  apply bind_ends in H as [(u & s2 & E2 & H)|(o1 & E2 & Hf & ->)].
  2:{ inversion E2; subst. destruct Hf. }
  unfold set_mem in E2. inversion E2; subst s2; clear E2.
  apply bind_ends in H as [(outLenPtr & s2 & E2 & H)|(o1 & E2 & Hf & ->)].
  2:{ apply still_quiet_invoke in E2. simpl in E2.
      apply Hnone; [congruence|apply recast_fails]. }
  apply still_quiet_invoke in E2. simpl in E2.
  destruct (outLenPtr =? 0).
  { assert (Hq : Worker.posted s = Worker.posted s2).
    { revert H. apply still_quiet_bind; [apply still_quiet_invoke|intros _].
      apply still_quiet_throw. }
    assert (Hr : fails o).
    { apply bind_ends in H as [(a & s3 & _ & H)|(o1 & _ & _ & ->)];
        [|apply recast_fails].
      unfold throw in H. inversion H; exact I. }
    apply Hnone; [congruence|assumption]. }
  unfold try_finally in H.
  destruct (transform ex id type inPtr (Z.of_nat (List.length chunk)) outLenPtr
              isLast s2) as [o1 s3] eqn:Et.
  apply transform_posts_or_stuck in Et.
  destruct o1 as [r1|].
  2:{ inversion H; subst. apply Hnone; [congruence|exact I]. }
  destruct (release ex inPtr (Z.of_nat (List.length chunk)) outLenPtr s3)
    as [o2 s4] eqn:Er.
  apply still_quiet_release in Er.
  assert (Hs : Worker.posted s = Worker.posted s3).
  { destruct o2 as [[?|?]|]; inversion H; subst; assumption. }
  destruct r1 as [u1|e].
  - destruct Et as (cs & Hp & Hl & Hne).
    exists cs, (if isLast then [RResult id] else []).
    rewrite Hs, Hp, E2, E1. repeat split; auto.
    + destruct isLast; auto.
    + intros v _ ->. reflexivity.
  - assert (Hr : fails o).
    { destruct o2 as [[?|?]|]; inversion H; subst; exact I. }
    apply Hnone; [congruence|assumption].
Qed.

(** With an allocator that keeps to the ABI, a request that does not
    come to a good end has posted nothing; and if it is stuck, it is
    stuck in the transform. *)
Lemma data_body_fails_clean (ex : Exports P) id type chunk isLast
      (s0 s : Worker.WS P) o :
  conforming_allocator ex ->
  data_body ex id type chunk isLast s0 = (o, s) -> fails o ->
  Worker.posted s = Worker.posted s0 /\
  (o = Stuck ->
   exists f i args,
     exp_fn ex (Worker.fnName type) = Some f /\ f i args = None).
Proof.
  intros (alloc & free & Ha & Hf & Halloc & Hfree).
  unfold data_body. intros H Hfail.
  unfold bind at 1 in H. unfold invoke at 1 in H. rewrite Ha in H.
  destruct (Halloc (Worker.inst s0) (Z.of_nat (List.length chunk)))
    as (inPtr & i1 & Hp & _).
  rewrite Hp in H.
  destruct (inPtr =? 0).
  { unfold throw in H. inversion H; subst. split; [reflexivity|discriminate]. }
  apply bind_ends in H as [(m & s2 & E2 & H)|(o1 & E2 & Hf1 & ->)].
  2:{ inversion E2; subst. destruct Hf1. }
  inversion E2; subst s2 m; clear E2.
  apply bind_ends in H as [(m' & s2 & E2 & H)|(o1 & E2 & Hf1 & ->)].
  2:{ unfold lift in E2. inversion E2; subst.
      split; [reflexivity|].
      destruct (Mem.write_bytes _ _ _); [destruct Hf1|discriminate]. }
  unfold lift in E2. inversion E2 as [[E2' Hs2]]; subst s2; clear E2.
  apply bind_ends in H as [(u & s2 & E2 & H)|(o1 & E2 & Hf1 & ->)].
  2:{ inversion E2; subst. destruct Hf1. }
  unfold set_mem in E2. inversion E2; subst s2; clear E2.
  unfold bind at 1 in H. unfold invoke at 1 in H. rewrite Ha in H.
  cbn [Worker.inst] in H.
  match type of H with
  | context [alloc ?j [4]] => destruct (Halloc j 4) as (outLenPtr & i2 & Hq & _)
  end.
  rewrite Hq in H.
  destruct (outLenPtr =? 0).
  { unfold bind at 1 in H. unfold invoke at 1 in H. rewrite Hf in H.
    cbn [Worker.inst] in H.
    match type of H with
    | context [free ?j ?a] => destruct (Hfree j a) as (v & i3 & Hv)
    end.
    rewrite Hv in H. unfold throw in H. inversion H; subst.
    split; [reflexivity|discriminate]. }
  unfold try_finally in H.
  match type of H with
  | context [transform ?a ?b ?c ?d ?e ?f ?g ?st] =>
      destruct (transform a b c d e f g st) as [o1 s3] eqn:Et
  end.
  pose proof Et as Etp. apply transform_posts_or_stuck in Etp.
  destruct o1 as [r1|].
  2:{ inversion H; subst. split; [exact Etp|]. intros _.
      unfold transform in Et.
      apply bind_ends in Et as [(outPtr & s4 & E1 & Et)|(o1 & E1 & Hf1 & Eo)].
      - exfalso.
        apply bind_ends in Et as [(m1 & s5 & E5 & Et)|(o1 & E5 & Hf1 & Eo)];
          [|inversion E5; subst; destruct Hf1].
        inversion E5; subst s5 m1; clear E5.
        apply bind_ends in Et as [(outLen & s5 & E5 & Et)|(o1 & E5 & Hf1 & Eo)];
          [|unfold lift in E5; inversion E5; subst;
            destruct (Mem.read_u32 _ _); [destruct Hf1|discriminate]].
        unfold lift in E5. inversion E5; subst s5; clear E5.
        apply bind_ends in Et as [(u & s5 & E5 & Et)|(o1 & E5 & Hf1 & Eo)].
        + destruct isLast; inversion Et.
        + destruct (negb (outPtr =? 0) && negb (outLen =? 0));
            [|inversion E5; subst; destruct Hf1].
          apply bind_ends in E5 as [(m2 & s6 & E6 & E5)|(o2 & E6 & Hf2 & Eo2)];
            [|inversion E6; subst; destruct Hf2].
          inversion E6; subst s6 m2; clear E6.
          apply bind_ends in E5 as [(res & s6 & E6 & E5)|(o2 & E6 & Hf2 & Eo2)].
          * inversion E5; subst. destruct Hf1.
          * unfold lift in E6. inversion E6; subst.
            destruct (Mem.read_bytes _ _ _); [destruct Hf2|discriminate].
      - unfold invoke in E1.
        destruct (exp_fn ex (Worker.fnName type)) as [f|] eqn:Ef.
        + match type of E1 with
          | context [f ?j ?a] => destruct (f j a) as [[r0 i']|] eqn:Ec
          end.
          * inversion E1; subst. destruct r0; [destruct Hf1|discriminate].
          * eauto.
        + inversion E1; subst. discriminate. }
  assert (Hrel : exists s4, release ex inPtr (Z.of_nat (List.length chunk))
                              outLenPtr s3 = (Done (Val tt), s4)).
  { unfold release, bind, invoke. rewrite Hf.
    destruct (Hfree (Worker.inst s3) [inPtr; Z.of_nat (List.length chunk)])
      as (v & i3 & Hv). rewrite Hv. cbn [Worker.inst].
    destruct (Hfree i3 [outLenPtr; 4]) as (v' & i4 & Hv'). rewrite Hv'.
    eexists. reflexivity. }
  destruct Hrel as (s4 & Hrel). rewrite Hrel in H.
  pose proof (still_quiet_release _ _ _ _ _ _ _ Hrel) as Hq'.
  inversion H; subst. destruct r1 as [u|e]; [destruct Hfail|].
  split; [|discriminate].
  cbn [Worker.posted] in *. congruence.
Qed.

(** X1. A load request gets one message under its ID, or, when the
    fetch never settles or an export never returns, no message at all.
    When the message is [loaded], the descriptor sent is the one the
    context keeps, and the context now holds an engine; when it is an
    error, and when there is no message, the engine and descriptor the
    context held before (from an earlier load, if any) are still in
    place. *)
Theorem load_gets_one_answer_or_hangs_without_any :
  forall st id url,
    let hd := onmessage utf8_decode instantiate st (ReqLoad id url) in
    (finished hd = true /\
     exists info, answers hd = [RLoaded id info] /\
                  engineInfo (after hd) = Some info /\
                  wasmExports (after hd) <> None) \/
    (finished hd = true /\
     exists e, answers hd = [RError id e] /\
               wasmExports (after hd) = wasmExports st /\
               engineInfo (after hd) = engineInfo st) \/
    (finished hd = false /\ answers hd = [] /\
     wasmExports (after hd) = wasmExports st /\
     engineInfo (after hd) = engineInfo st).
Proof.
  intros st id url. cbv zeta. unfold onmessage.
  destruct (instantiate url) as [[[ex i0]|e]|].
  - destruct (load_body utf8_decode ex _) as [[[info|e]|] s] eqn:E;
      apply still_quiet_load_body in E; cbn [Worker.posted] in E;
      cbn [finished answers after wasmExports engineInfo]; rewrite E.
    + left. split; [reflexivity|]. exists info. repeat split. discriminate.
    + right. left. split; [reflexivity|]. exists e. auto.
    + right. right. auto.
  - right. left. split; [reflexivity|]. exists e. auto.
  - right. right. auto.
Qed.

(** X2. The answers to an encode/decode request are, in this order and
    all under its ID: at most one [chunk], never empty; [result], only
    for a last chunk; at most one [error], and none when the handler is
    stuck in a call that never returns. If the handler comes to its end
    without an error, a last chunk has its [result]. *)
Theorem data_answers_are_chunk_result_error_in_order :
  forall st id type chunk isLast totalChunks,
    let hd := onmessage utf8_decode instantiate st
                (ReqData id type chunk isLast totalChunks) in
    exists cs fin err,
      answers hd = map (RChunk id) cs ++ fin ++ err /\
      (List.length cs <= 1)%nat /\ Forall (fun c => c <> []) cs /\
      (fin = [] \/ fin = [RResult id] /\ isLast = true) /\
      (err = [] \/ exists e, err = [RError id e] /\ finished hd = true) /\
      (finished hd = true -> err = [] -> isLast = true ->
       fin = [RResult id]).
Proof.
  intros st id type chunk isLast totalChunks. cbv zeta. unfold onmessage.
  destruct (wasmExports st) as [[ex i]|].
  - destruct (data_body ex id type chunk isLast _) as [o s] eqn:E.
    apply data_body_posts_or_stuck in E as (cs & fin & Hp & Hl & Hne & Hfin & Hlast).
    cbn [Worker.posted app] in Hp. cbn [answers finished].
    exists cs, fin.
    destruct o as [[u|e]|].
    + exists []. rewrite Hp, !app_nil_r. repeat split; eauto.
    + exists [RError id e]. rewrite Hp, <- app_assoc.
      repeat split; eauto. discriminate.
    + exists []. rewrite Hp, !app_nil_r. repeat split; eauto.
      discriminate.
  - exists [], [], [RError id "Engine not loaded"]. simpl.
    repeat split; eauto. discriminate.
Qed.

(** X3. With an allocator that keeps to the ABI, a request on a loaded
    engine ends in one of three ways: it fails, and the [error] is the
    only message; it succeeds, with the output (unless empty) followed
    by [result] exactly when the chunk was the last; or it is never
    answered at all, and then it is the transform export that did not
    return. *)
Theorem request_fails_alone_succeeds_or_hangs_in_the_transform :
  forall (ex : Exports P) i st id type chunk isLast totalChunks,
    conforming_allocator ex ->
    wasmExports st = Some (ex, i) ->
    let hd := onmessage utf8_decode instantiate st
                (ReqData id type chunk isLast totalChunks) in
    (finished hd = true /\ exists e, answers hd = [RError id e]) \/
    (finished hd = true /\
     exists cs,
       answers hd
       = map (RChunk id) cs ++ (if isLast then [RResult id] else []) /\
       (List.length cs <= 1)%nat /\ Forall (fun c => c <> []) cs) \/
    (finished hd = false /\ answers hd = [] /\
     exists f j args,
       exp_fn ex (Worker.fnName type) = Some f /\ f j args = None).
Proof.
  intros ex i st id type chunk isLast totalChunks Hc Hst. cbv zeta.
  unfold onmessage. rewrite Hst.
  destruct (data_body ex id type chunk isLast _) as [o s] eqn:E.
  cbn [answers finished]. destruct o as [[u|e]|].
  - right. left. split; [reflexivity|].
    apply data_body_posts_or_stuck in E as (cs & fin & Hp & Hl & Hne & Hfin & Hlast).
    cbn [Worker.posted app] in Hp. exists cs. rewrite Hp, app_nil_r.
    split; [|auto].
    destruct Hfin as [->|[-> Hi]].
    + destruct isLast; [|reflexivity].
      specialize (Hlast u eq_refl eq_refl). discriminate.
    + rewrite Hi. reflexivity.
  - left. split; [reflexivity|]. exists e.
    destruct (data_body_fails_clean _ _ _ _ _ _ _ _ Hc E I) as [Hq _].
    cbn [Worker.posted] in Hq. rewrite Hq. reflexivity.
  - right. right. split; [reflexivity|].
    destruct (data_body_fails_clean _ _ _ _ _ _ _ _ Hc E I) as [Hq Hstuck].
    cbn [Worker.posted] in Hq. rewrite Hq. split; [reflexivity|].
    apply Hstuck. reflexivity.
Qed.

End HangingFacts.

(** ** Where every call returns, this is [Worker] *)
Section Returning.

Variable P : Type.
Variable utf8_decode : bytes -> string.
Variable instantiate0 : string -> Res (Worker.Exports P * Worker.Inst P).

Lemma agrees_bind {A B} (c' : M P A) c (k' : A -> M P B) k :
  agrees c' c -> (forall a, agrees (k' a) (k a)) ->
  agrees (bind c' k') (Worker.bind c k).
Proof.
  intros Hc Hk s. unfold bind, Worker.bind. rewrite Hc.
  destruct (c s) as [[a|e] s1]; cbn [fst snd]; [apply Hk|reflexivity].
Qed.

Lemma agrees_ret {A} (a : A) : agrees (ret (P:=P) a) (Worker.ret a).
Proof. intros s. reflexivity. Qed.

Lemma agrees_throw {A} e :
  agrees (throw (P:=P) (A:=A) e) (Worker.throw e).
Proof. intros s. reflexivity. Qed.

Lemma agrees_lift {A} (r : Res A) : agrees (lift (P:=P) r) (Worker.lift r).
Proof. intros s. reflexivity. Qed.

Lemma agrees_get_mem : agrees (get_mem (P:=P)) (Worker.get_mem (P:=P)).
Proof. intros s. reflexivity. Qed.

Lemma agrees_set_mem m : agrees (set_mem (P:=P) m) (Worker.set_mem m).
Proof. intros s. reflexivity. Qed.

Lemma agrees_postMessage r :
  agrees (postMessage (P:=P) r) (Worker.postMessage r).
Proof. intros s. reflexivity. Qed.

Lemma agrees_invoke (ex : Worker.Exports P) name args :
  agrees (invoke (of_exports ex) name args) (Worker.invoke ex name args).
Proof.
  intros s. unfold invoke, Worker.invoke, of_exports. cbn [exp_fn].
  destruct (Worker.exp_fn ex name) as [f|]; cbn [option_map];
    [|reflexivity].
  unfold returning. destruct (f (Worker.inst s) args) as [r i'].
  reflexivity.
Qed.

Lemma agrees_try_finally {A} (b' : M P A) b f' f :
  agrees b' b -> agrees f' f ->
  agrees (try_finally b' f') (Worker.try_finally b f).
Proof.
  intros Hb Hf s. unfold try_finally, Worker.try_finally. rewrite Hb.
  destruct (b s) as [r s1]. cbn [fst snd]. rewrite Hf.
  destruct (f s1) as [[u|e] s2]; reflexivity.
Qed.

Lemma has_export_of (ex : Worker.Exports P) r :
  has_export (of_exports ex) r = Worker.has_export ex r.
Proof.
  unfold has_export, Worker.has_export, of_exports. cbn [exp_fn exp_memory].
  destruct (String.eqb r "memory"); [reflexivity|].
  destruct (Worker.exp_fn ex r); reflexivity.
Qed.

Lemma check_required_of (ex : Worker.Exports P) rs :
  check_required (of_exports ex) rs = Worker.check_required ex rs.
Proof.
  induction rs as [|r rs IH]; simpl; [reflexivity|].
  rewrite has_export_of, IH. reflexivity.
Qed.

Lemma agrees_readStr ptr lenPtr :
  agrees (readStr (P:=P) utf8_decode ptr lenPtr)
         (Worker.readStr utf8_decode ptr lenPtr).
Proof.
  unfold readStr, Worker.readStr.
  apply agrees_bind; [apply agrees_get_mem|intros m].
  apply agrees_bind; [apply agrees_lift|intros len].
  destruct (len =? 0); [apply agrees_ret|].
  apply agrees_bind; [apply agrees_get_mem|intros m'].
  apply agrees_bind; [apply agrees_lift|intros b].
  apply agrees_ret.
Qed.

Lemma agrees_read_string_export (ex : Worker.Exports P) name :
  agrees (read_string_export utf8_decode (of_exports ex) name)
         (Worker.read_string_export utf8_decode ex name).
Proof.
  unfold read_string_export, Worker.read_string_export.
  apply agrees_bind; [apply agrees_invoke|intros lenPtr].
  apply agrees_bind; [apply agrees_invoke|intros ptr].
  apply agrees_bind; [apply agrees_readStr|intros s].
  apply agrees_bind; [apply agrees_invoke|intros _].
  apply agrees_ret.
Qed.

Lemma agrees_load_body (ex : Worker.Exports P) :
  agrees (load_body utf8_decode (of_exports ex))
         (Worker.load_body utf8_decode ex).
Proof.
  unfold load_body, Worker.load_body.
  rewrite check_required_of, !has_export_of.
  apply agrees_bind; [apply agrees_lift|intros _].
  apply agrees_bind; [apply agrees_read_string_export|intros engineId].
  apply agrees_bind;
    [destruct (Worker.has_export ex "sb_get_name");
     [apply agrees_read_string_export|apply agrees_ret]|intros engineName].
  apply agrees_bind;
    [destruct (Worker.has_export ex "sb_get_desc");
     [apply agrees_read_string_export|apply agrees_ret]|intros engineDesc].
  apply agrees_bind; [apply agrees_invoke|intros bs].
  apply agrees_bind; [apply agrees_invoke|intros si].
  apply agrees_bind; [apply agrees_invoke|intros rv].
  apply agrees_ret.
Qed.

Lemma agrees_transform (ex : Worker.Exports P) id type inPtr n outLenPtr
      isLast :
  agrees (transform (of_exports ex) id type inPtr n outLenPtr isLast)
         (Worker.transform ex id type inPtr n outLenPtr isLast).
Proof.
  unfold transform, Worker.transform.
  apply agrees_bind; [apply agrees_invoke|intros outPtr].
  apply agrees_bind; [apply agrees_get_mem|intros m1].
  apply agrees_bind; [apply agrees_lift|intros outLen].
  apply agrees_bind.
  - destruct (negb (outPtr =? 0) && negb (outLen =? 0));
      [|apply agrees_ret].
    apply agrees_bind; [apply agrees_get_mem|intros m2].
    apply agrees_bind; [apply agrees_lift|intros result].
    apply agrees_postMessage.
  - intros _. destruct isLast; [apply agrees_postMessage|apply agrees_ret].
Qed.

Lemma agrees_release (ex : Worker.Exports P) inPtr n outLenPtr :
  agrees (release (of_exports ex) inPtr n outLenPtr)
         (Worker.release ex inPtr n outLenPtr).
Proof.
  unfold release, Worker.release.
  apply agrees_bind; [apply agrees_invoke|intros _].
  apply agrees_bind; [apply agrees_invoke|intros _].
  apply agrees_ret.
Qed.

Lemma agrees_data_body (ex : Worker.Exports P) id type chunk isLast :
  agrees (data_body (of_exports ex) id type chunk isLast)
         (Worker.data_body ex id type chunk isLast).
Proof.
  unfold data_body, Worker.data_body. cbv zeta.
  apply agrees_bind; [apply agrees_invoke|intros inPtr].
  destruct (inPtr =? 0); [apply agrees_throw|].
  apply agrees_bind; [apply agrees_get_mem|intros m].
  apply agrees_bind; [apply agrees_lift|intros m'].
  apply agrees_bind; [apply agrees_set_mem|intros _].
  apply agrees_bind; [apply agrees_invoke|intros outLenPtr].
  destruct (outLenPtr =? 0).
  - apply agrees_bind; [apply agrees_invoke|intros _]. apply agrees_throw.
  - apply agrees_try_finally; [apply agrees_transform|apply agrees_release].
Qed.

(** For a module whose calls all return and a fetch that settles, the
    handler comes to its end, and what it leaves is what [Worker] says. *)
Lemma onmessage_of_returning (st : Worker.State P) req :
  onmessage utf8_decode (of_instantiate instantiate0) (of_state st) req
  = {| after := of_state
                  (fst (Worker.onmessage utf8_decode instantiate0 st req));
       answers := snd (Worker.onmessage utf8_decode instantiate0 st req);
       finished := true |}.
Proof.
  destruct req as [id url|id type chunk isLast total];
    unfold onmessage, Worker.onmessage, of_instantiate.
  - destruct (instantiate0 url) as [[ex i0]|e]; [|reflexivity].
    cbn [of_state log]. rewrite agrees_load_body.
    destruct (Worker.load_body utf8_decode ex _) as [[info|e] s];
      reflexivity.
  - destruct st as [[[ex i]|] info lg]; [|reflexivity].
    cbn [of_state wasmExports engineInfo log Worker.wasmExports
         Worker.engineInfo Worker.log].
    rewrite agrees_data_body.
    destruct (Worker.data_body ex id type chunk isLast _) as [[u|e] s];
      reflexivity.
Qed.

End Returning.

End HangingFacts.

(** * Reloads, chunk order and stuck calls on the example engine *)
Module Cases.
Import Host Evolution.

(** C8 (the code as it is). An engine whose allocator aborts with a trap
    when its arena is exhausted is loaded, and asked to encode a chunk of
    three bytes. The input buffer is obtained, at address 12; the
    allocation of the length cell traps; the request fails with that
    error, and [sb_free] is not called at all: the input buffer is never
    freed. The statements between the first [sb_alloc] and the [try] are
    not covered by the [finally] block. The same happens when [sb_alloc]
    returns an address outside the memory, where copying the input in
    throws; and when the first [sb_free] of the [finally] block traps, the
    length cell is never handed to [sb_free]. *)
Theorem input_buffer_is_not_freed_when_the_allocator_traps :
  Worker.engineInfo EchoRuns.arena_loaded = Some Echo.info /\
  snd EchoRuns.arena_answer = [RError 1 "unreachable"] /\
  Worker.obtained EchoRuns.arena_calls = [(12, 3)] /\
  Worker.released EchoRuns.arena_calls = [] /\
  snd EchoRuns.astray_answer
  = [RError 1 "RangeError: offset is out of bounds"] /\
  Worker.obtained (Worker.log (fst EchoRuns.astray_answer)) = [(1000, 3)] /\
  Worker.released (Worker.log (fst EchoRuns.astray_answer)) = [] /\
  snd EchoRuns.no_release_answer
  = [RChunk 1 [x41; x42; x43]; RResult 1; RError 1 "unreachable"] /\
  Worker.obtained (Worker.log (fst EchoRuns.no_release_answer))
  = [(8, 3); (12, 4)] /\
  Worker.released (Worker.log (fst EchoRuns.no_release_answer)) = [(8, 3)].
Proof. vm_compute. repeat split. Qed.

Lemma duplicate_load_leaves_one_entry_and_terminates_old_witness :
  let w := Echo.after EchoRuns.reloading in
  let wk := EchoRuns.worker_at w 1 in
  let h := 1%nat in
  let n := 2 in
  let info := Echo.info in
  let old := Echo.engine in
  run Echo.utf8_decode Echo.instantiate EchoRuns.reloading init = Some w /\
  nth_error (workers w) h = Some wk /\
  outbox wk = [RLoaded n info] /\
  JsMap.get (engines w) (info_id info) = Some old /\
  exists isPreset w',
    let engine :=
      {| id := info_id info; name := info_name info; desc := info_desc info;
         binarySafe := info_binarySafe info;
         selfInverse := info_selfInverse info;
         reversible := info_reversible info;
         isPreset := isPreset; worker := h |} in
    step Echo.utf8_decode Echo.instantiate (ADeliver h) w = Some w' /\
    NoDup (JsMap.keys (engines w')) /\
    JsMap.count (engines w') (info_id info) = 1%nat /\
    JsMap.get (engines w') (info_id info) = Some engine /\
    events w' = events w ++
      [EvMessage h (RLoaded n info);
       EvPrint (Overwritten (info_id info)); EvTerminate (worker old);
       EvSet (info_id info) h; EvReturn (LoadOk engine)] /\
    worker old <> h /\
    (exists wk_old,
       nth_error (workers w') (worker old) = Some wk_old /\
       terminated wk_old = true) /\
    (exists wk_new,
       nth_error (workers w') h = Some wk_new /\
       terminated wk_new = false /\ handlers wk_new = []).
Proof.
  cbv zeta.
  assert (Hrun : run Echo.utf8_decode Echo.instantiate EchoRuns.reloading
                   init = Some (Echo.after EchoRuns.reloading))
    by (apply Runs.run_after; vm_compute; reflexivity).
  assert (Hwk : nth_error (workers (Echo.after EchoRuns.reloading)) 1
                = Some (EchoRuns.worker_at (Echo.after EchoRuns.reloading) 1))
    by (apply MoreRuns.worker_at_some; vm_compute; reflexivity).
  assert (Hout : outbox (EchoRuns.worker_at (Echo.after EchoRuns.reloading) 1)
                 = [RLoaded 2 Echo.info]) by (vm_compute; reflexivity).
  assert (Hget : JsMap.get (engines (Echo.after EchoRuns.reloading))
                   (info_id Echo.info) = Some Echo.engine)
    by (vm_compute; reflexivity).
  split; [exact Hrun|]. split; [exact Hwk|]. split; [exact Hout|].
  split; [exact Hget|].
  exact (ReloadFacts.duplicate_load_leaves_one_entry_and_terminates_old unit
           Echo.utf8_decode Echo.instantiate EchoRuns.reloading
           (Echo.after EchoRuns.reloading) 1%nat
           (EchoRuns.worker_at (Echo.after EchoRuns.reloading) 1) 2
           Echo.info [] Echo.engine Hrun Hwk Hout Hget).
Defined.

Lemma chunks_posted_in_file_order_without_waiting_witness :
  let w0 := Echo.after Echo.load_echo in
  let size := 2 in
  let data := EchoRuns.three_bytes in
  let e := Echo.engine in
  let k := fst (processFile_with size data "echo" Encode w0) in
  let w := snd (processFile_with size data "echo" Encode w0) in
  let f := EchoRuns.first_slice in
  let c := [x41; x42] in
  let total := ceil_div (Z.of_nat (List.length data)) size in
  0 < size /\
  run Echo.utf8_decode Echo.instantiate Echo.load_echo init = Some w0 /\
  JsMap.get (engines w0) "echo" = Some e /\
  run Echo.utf8_decode Echo.instantiate [] w = Some w /\
  nextRequestId w < 2 ^ 53 /\
  pending_read k w = Some (f, c) /\
  total = 2 /\
  exists (i : nat) w',
    Z.of_nat i < total /\
    sent_for k (events w) = map (nth_chunk size data) (seq 0 i) /\
    c = slice data (Z.of_nat i * size) size /\
    step Echo.utf8_decode Echo.instantiate (AReaderLoad k) w = Some w' /\
    events w' = events w ++
      [EvListen (worker e) (HData (nextRequestId w) k);
       EvPost (worker e)
              (ReqData (nextRequestId w) Encode c (Z.of_nat i =? total - 1)
                       (Some total))] /\
    ~ In (nextRequestId w) (posted_ids (events w)) /\
    sent_for k (events w') = map (nth_chunk size data) (seq 0 (S i)) /\
    pending_read k w' =
      if Z.of_nat i =? total - 1 then None
      else Some (advanced f, slice data (Z.of_nat (S i) * size) size).
Proof.
  cbv zeta.
  assert (Hs : 0 < 2) by lia.
  assert (Hrun0 : run Echo.utf8_decode Echo.instantiate Echo.load_echo init
                  = Some (Echo.after Echo.load_echo))
    by (apply Runs.run_after; vm_compute; reflexivity).
  assert (Hget : JsMap.get (engines (Echo.after Echo.load_echo)) "echo"
                 = Some Echo.engine) by (vm_compute; reflexivity).
  assert (Hrun : run Echo.utf8_decode Echo.instantiate []
                   (snd (processFile_with 2 EchoRuns.three_bytes
                           "echo" Encode (Echo.after Echo.load_echo)))
                 = Some (snd (processFile_with 2 EchoRuns.three_bytes
                                "echo" Encode (Echo.after Echo.load_echo))))
    by reflexivity.
  assert (Hlt : nextRequestId
                  (snd (processFile_with 2 EchoRuns.three_bytes
                          "echo" Encode (Echo.after Echo.load_echo)))
                < 2 ^ 53) by (vm_compute; reflexivity).
  assert (Hp : pending_read
                 (fst (processFile_with 2 EchoRuns.three_bytes
                         "echo" Encode (Echo.after Echo.load_echo)))
                 (snd (processFile_with 2 EchoRuns.three_bytes
                         "echo" Encode (Echo.after Echo.load_echo)))
               = Some (EchoRuns.first_slice, [x41; x42]))
    by (vm_compute; reflexivity).
  split; [exact Hs|]. split; [exact Hrun0|]. split; [exact Hget|].
  split; [exact Hrun|]. split; [exact Hlt|]. split; [exact Hp|].
  split; [vm_compute; reflexivity|].
  exact (ChunkOrder.chunks_posted_in_file_order_without_waiting unit
           Echo.utf8_decode Echo.instantiate Echo.load_echo
           (Echo.after Echo.load_echo) 2 EchoRuns.three_bytes "echo"
           Encode Echo.engine [] _ EchoRuns.first_slice [x41; x42]
           Hs Hrun0 Hget Hrun Hlt Hp).
Defined.

Lemma looping_allocator_conforms :
  Hanging.conforming_allocator Hanging.echo_looping.
Proof.
  destruct (EchoFacts.echo_allocator_conforms 1 1 1 true)
    as (alloc & free & Ha & Hf & Halloc & Hfree).
  fold Echo.full in Ha, Hf.
  exists (Hanging.returning alloc), (Hanging.returning free).
  split; [|split; [|split]].
  - unfold Hanging.echo_looping, Hanging.of_exports. cbn [Hanging.exp_fn].
    change (String.eqb "sb_alloc" "sb_encode") with false. cbv iota.
    rewrite Ha. reflexivity.
  - unfold Hanging.echo_looping, Hanging.of_exports. cbn [Hanging.exp_fn].
    change (String.eqb "sb_free" "sb_encode") with false. cbv iota.
    rewrite Hf. reflexivity.
  - intros i n. destruct (Halloc i n) as (p & i' & E & Hb).
    exists p, i'. unfold Hanging.returning. rewrite E. auto.
  - intros i args. destruct (Hfree i args) as (v & i' & E).
    exists v, i'. unfold Hanging.returning. rewrite E. reflexivity.
Qed.

Lemma request_fails_alone_succeeds_or_hangs_in_the_transform_witness :
  let hd := Hanging.onmessage Echo.utf8_decode Hanging.instantiate
              Hanging.fresh_looping
              (ReqData 1 Encode [x41; x42; x43] true None) in
  Hanging.conforming_allocator Hanging.echo_looping /\
  Hanging.wasmExports Hanging.fresh_looping
  = Some (Hanging.echo_looping, Echo.inst0) /\
  Hanging.finished hd = false /\
  ((Hanging.finished hd = true /\
    exists e, Hanging.answers hd = [RError 1 e]) \/
   (Hanging.finished hd = true /\
    exists cs,
      Hanging.answers hd = map (RChunk 1) cs ++ [RResult 1] /\
      (List.length cs <= 1)%nat /\ Forall (fun c => c <> []) cs) \/
   (Hanging.finished hd = false /\ Hanging.answers hd = [] /\
    exists f j args,
      Hanging.exp_fn Hanging.echo_looping (Worker.fnName Encode) = Some f /\
      f j args = None)).
Proof.
  cbv zeta. split; [exact looping_allocator_conforms|].
  split; [reflexivity|]. split; [vm_compute; reflexivity|].
  exact (HangingFacts.request_fails_alone_succeeds_or_hangs_in_the_transform
           unit Echo.utf8_decode Hanging.instantiate Hanging.echo_looping
           Echo.inst0 Hanging.fresh_looping 1 Encode [x41; x42; x43] true
           None looping_allocator_conforms eq_refl).
Defined.

End Cases.
